(** * ModifiedSpeedDial: a shallow embedding of [modifedspeeddial.py]

    The widget of [src/modifedspeeddial.py] is embedded as state-passing
    functions over a [World]: the attributes of the [ModifiedSpeedDial]
    instance, the button and label objects it creates (a heap of [Widget]s
    addressed by identity), the process-wide [Window], the [Animation]
    objects it starts and the callbacks it hands to the [Clock].

    Conventions.
    - Python exceptions are explicit: a method returns [Ok a w'] or
      [Raise e w'], where [w'] is the world at the moment of the raise
      (attribute assignments made before an exception persist).
    - Numbers are exact rationals [Q]; Kivy stores floats, and rounding is
      not modelled.  [dp v] is [v * density], as in [kivy.metrics].
    - A [for] loop is a [Fixpoint] on the list it iterates.
    - The toolkit (Kivy's [Window], [Animation], [Clock], [bind]) is modelled
      by its documented behaviour; nothing of Kivy is under [src/]. *)

From Stdlib Require Import List String Bool Arith Lia QArith Qfield.
Import ListNotations.
Local Open Scope string_scope.
Local Open Scope list_scope.

(** ** Python values that occur in the [data] mapping *)

(** An element of a parameter list: a string (icon name, ["on_press"],
    ["on_release"]) or a callable. *)
Inductive PyVal :=
| VStr (s : string)
| VCallable (c : nat).

(** A value of the [data] dict: an icon name, or a list
    [[icon, "on_press", cb, "on_release", cb, ...]]. *)
Inductive Parameters :=
| PStr (s : string)
| PList (l : list PyVal).

(** The [data] dict, in insertion order ([dict.items()] iterates in that
    order).  A Python dict has no two equal keys, see [unique_keys]. *)
Definition Data := list (string * Parameters).

Definition unique_keys (d : Data) : Prop := NoDup (map fst d).

Inductive Exn :=
| ValueError (msg : string)
| IndexError
| AttributeError
| KeyError
| AssertionError.

(** ** Toolkit objects *)

Inductive Kind := MDFloatingBottomButton | MDFloatingLabel.

Definition Kind_eqb (a b : Kind) : bool :=
  match a, b with
  | MDFloatingBottomButton, MDFloatingBottomButton => true
  | MDFloatingLabel, MDFloatingLabel => true
  | _, _ => false
  end.

(** The one window of the process ([kivy.core.window.Window]). *)
Inductive WindowRef := Window.

Inductive State := close | open.

Definition State_eqb (a b : State) : bool :=
  match a, b with
  | close, close => true
  | open, open => true
  | _, _ => false
  end.

(** [label_direction] and [stack_button_direction] are [OptionProperty]s;
    their options are the constructors. *)
Inductive LabelDirection := left | right.
Inductive StackDirection := top | bottom.

Definition Color := list Q.

(** Everything the program ever binds or schedules.  A bound method or a
    closure is named by the constructor; a closure carries what it
    captured. *)
Inductive Callback :=
| CbAddWidgets                 (* lambda x, y: self.add_widgets() *)
| CbOpenBinding                (* self.open_binding *)
| CbCloseBinding               (* self.close_binding *)
| CbOnProgress (it : nat)      (* on_progress, closed over iterator [it] *)
| CbOnData (d : Data)          (* the inner on_data, closed over [data] *)
| CbOpenStack                  (* self.open_stack *)
| CbDispatch (ev : string)     (* lambda x: self.dispatch(ev) *)
| CbUser (v : PyVal)           (* a callback taken from [data] *)
| CbOnEnter                    (* self.on_enter *)
| CbOnLeave                    (* self.on_leave *)
| CbUpdatePosButtons           (* self._update_pos_buttons *)
| CbTouchDown                  (* self.touch_down *)
| CbTouchMove                  (* self.touch_move *)
| CbTouchUp.                   (* self.touch_up *)

Definition PyVal_eq_dec (a b : PyVal) : {a = b} + {a <> b}.
Proof. decide equality; [apply string_dec | apply Nat.eq_dec]. Defined.

Definition Parameters_eq_dec (a b : Parameters) : {a = b} + {a <> b}.
Proof.
  decide equality; [apply string_dec | apply (list_eq_dec PyVal_eq_dec)].
Defined.

Definition Data_eq_dec (a b : Data) : {a = b} + {a <> b}.
Proof.
  apply list_eq_dec. intros [k v] [k' v'].
  destruct (string_dec k k'); [| right; congruence].
  destruct (Parameters_eq_dec v v'); [left | right]; congruence.
Defined.

Definition Callback_eq_dec (a b : Callback) : {a = b} + {a <> b}.
Proof.
  decide equality;
    [apply Nat.eq_dec | apply Data_eq_dec | apply string_dec
    | apply PyVal_eq_dec].
Defined.

Definition binding_eqb (a b : string * Callback) : bool :=
  if string_dec (fst a) (fst b)
  then if Callback_eq_dec (snd a) (snd b) then true else false
  else false.

(** [EventDispatcher.bind]: a callback already bound to the event is not
    bound again. *)
Definition bind_to (ev : string) (cb : Callback)
    (l : list (string * Callback)) : list (string * Callback) :=
  if existsb (binding_eqb (ev, cb)) l then l else l ++ [(ev, cb)].

(** [EventDispatcher.unbind]. *)
Definition unbind_from (ev : string) (cb : Callback)
    (l : list (string * Callback)) : list (string * Callback) :=
  filter (fun b => negb (binding_eqb (ev, cb) b)) l.

Definition is_bound (ev : string) (cb : Callback)
    (l : list (string * Callback)) : bool :=
  existsb (binding_eqb (ev, cb)) l.

Record Widget := mkWidget {
  kind : Kind;
  icon : string;
  text : string;
  opacity : Q;
  pos_x : Q;
  pos_y : Q;
  width : Q;
  height : Q;
  _canvas_width : Q;
  _elevation : Q;
  bg_color : Color;
  radius : list Q;
  text_color : Color;
  wparent : option WindowRef;
  on_press_cbs : list Callback;
  on_release_cbs : list Callback;
  on_enter_cbs : list Callback;
  on_leave_cbs : list Callback
}.

Definition set_opacity (v : Q) (o : Widget) : Widget :=
  mkWidget (kind o) (icon o) (text o) v (pos_x o) (pos_y o) (width o)
    (height o) (_canvas_width o) (_elevation o) (bg_color o) (radius o)
    (text_color o) (wparent o) (on_press_cbs o) (on_release_cbs o)
    (on_enter_cbs o) (on_leave_cbs o).

Definition set_pos_x (v : Q) (o : Widget) : Widget :=
  mkWidget (kind o) (icon o) (text o) (opacity o) v (pos_y o) (width o)
    (height o) (_canvas_width o) (_elevation o) (bg_color o) (radius o)
    (text_color o) (wparent o) (on_press_cbs o) (on_release_cbs o)
    (on_enter_cbs o) (on_leave_cbs o).

Definition set_pos_y (v : Q) (o : Widget) : Widget :=
  mkWidget (kind o) (icon o) (text o) (opacity o) (pos_x o) v (width o)
    (height o) (_canvas_width o) (_elevation o) (bg_color o) (radius o)
    (text_color o) (wparent o) (on_press_cbs o) (on_release_cbs o)
    (on_enter_cbs o) (on_leave_cbs o).

Definition set__canvas_width (v : Q) (o : Widget) : Widget :=
  mkWidget (kind o) (icon o) (text o) (opacity o) (pos_x o) (pos_y o)
    (width o) (height o) v (_elevation o) (bg_color o) (radius o)
    (text_color o) (wparent o) (on_press_cbs o) (on_release_cbs o)
    (on_enter_cbs o) (on_leave_cbs o).

Definition set__elevation (v : Q) (o : Widget) : Widget :=
  mkWidget (kind o) (icon o) (text o) (opacity o) (pos_x o) (pos_y o)
    (width o) (height o) (_canvas_width o) v (bg_color o) (radius o)
    (text_color o) (wparent o) (on_press_cbs o) (on_release_cbs o)
    (on_enter_cbs o) (on_leave_cbs o).

Definition set_wparent (v : option WindowRef) (o : Widget) : Widget :=
  mkWidget (kind o) (icon o) (text o) (opacity o) (pos_x o) (pos_y o)
    (width o) (height o) (_canvas_width o) (_elevation o) (bg_color o)
    (radius o) (text_color o) v (on_press_cbs o) (on_release_cbs o)
    (on_enter_cbs o) (on_leave_cbs o).

Definition set_icon (v : string) (o : Widget) : Widget :=
  mkWidget (kind o) v (text o) (opacity o) (pos_x o) (pos_y o) (width o)
    (height o) (_canvas_width o) (_elevation o) (bg_color o) (radius o)
    (text_color o) (wparent o) (on_press_cbs o) (on_release_cbs o)
    (on_enter_cbs o) (on_leave_cbs o).

Definition set_on_press_cbs (v : list Callback) (o : Widget) : Widget :=
  mkWidget (kind o) (icon o) (text o) (opacity o) (pos_x o) (pos_y o)
    (width o) (height o) (_canvas_width o) (_elevation o) (bg_color o)
    (radius o) (text_color o) (wparent o) v (on_release_cbs o)
    (on_enter_cbs o) (on_leave_cbs o).

Definition set_on_release_cbs (v : list Callback) (o : Widget) : Widget :=
  mkWidget (kind o) (icon o) (text o) (opacity o) (pos_x o) (pos_y o)
    (width o) (height o) (_canvas_width o) (_elevation o) (bg_color o)
    (radius o) (text_color o) (wparent o) (on_press_cbs o) v
    (on_enter_cbs o) (on_leave_cbs o).

(** Kivy keeps [pos] and [size]; [center_y], [right] and [top] are alias
    properties computed from them. *)
Definition center_x (o : Widget) : Q := pos_x o + width o / 2.
Definition center_y (o : Widget) : Q := pos_y o + height o / 2.
Definition w_right (o : Widget) : Q := pos_x o + width o.
Definition w_top (o : Widget) : Q := pos_y o + height o.
Definition set_center_x (v : Q) (o : Widget) : Widget :=
  set_pos_x (v - width o / 2) o.
Definition set_center_y (v : Q) (o : Widget) : Widget :=
  set_pos_y (v - height o / 2) o.

(** [Widget.collide_point(x, y)]. *)
Definition collide_point (o : Widget) (p : Q * Q) : bool :=
  Qle_bool (pos_x o) (fst p) && Qle_bool (fst p) (w_right o)
  && Qle_bool (pos_y o) (snd p) && Qle_bool (snd p) (w_top o).

(** The widget this one is attached to ([self.parent]): the root button. *)
Record Parent := mkParent {
  p_center_x : Q;
  p_center_y : Q;
  has_on_press : bool;            (* hasattr(parent, "on_press") *)
  has_on_release : bool;          (* hasattr(parent, "on_release") *)
  p_on_release : list Callback;   (* callbacks bound to parent.on_release *)
  p_root_window : option WindowRef  (* parent.get_root_window() *)
}.

Definition set_p_on_release (v : list Callback) (p : Parent) : Parent :=
  mkParent (p_center_x p) (p_center_y p) (has_on_press p) (has_on_release p)
    v (p_root_window p).


(** A value an animation drives a property to. *)
Inductive AVal :=
| ANum (q : Q)
| APair (a b : Q).

(** What an animation runs on. *)
Inductive Target :=
| TWindow
| TWidget (id : nat).

Definition Target_eqb (a b : Target) : bool :=
  match a, b with
  | TWindow, TWindow => true
  | TWidget i, TWidget j => Nat.eqb i j
  | _, _ => false
  end.

Record Animation := mkAnimation {
  a_props : list (string * AVal);
  a_d : Q;
  a_t : string;
  a_on_start : list Callback;
  a_on_complete : list Callback;
  a_on_progress : list Callback;
  a_widgets : list Target
}.

Definition set_a_on_start (v : list Callback) (o : Animation) : Animation :=
  mkAnimation (a_props o) (a_d o) (a_t o) v (a_on_complete o)
    (a_on_progress o) (a_widgets o).

Definition set_a_on_complete (v : list Callback) (o : Animation) : Animation :=
  mkAnimation (a_props o) (a_d o) (a_t o) (a_on_start o) v
    (a_on_progress o) (a_widgets o).

Definition set_a_on_progress (v : list Callback) (o : Animation) : Animation :=
  mkAnimation (a_props o) (a_d o) (a_t o) (a_on_start o) (a_on_complete o)
    v (a_widgets o).

Definition set_a_widgets (v : list Target) (o : Animation) : Animation :=
  mkAnimation (a_props o) (a_d o) (a_t o) (a_on_start o) (a_on_complete o)
    (a_on_progress o) v.

(** The window object: its children (most recently added first), the
    callbacks bound to its events, and the touch events its own
    [on_touch_down] / [on_touch_move] / [on_touch_up] have been given. *)
Record WindowObj := mkWindow {
  children : list nat;
  win_size : Q * Q;
  bindings : list (string * Callback);
  received : list (string * (Q * Q))
}.

Definition set_children (v : list nat) (o : WindowObj) : WindowObj :=
  mkWindow v (win_size o) (bindings o) (received o).

Definition set_bindings (v : list (string * Callback)) (o : WindowObj) : WindowObj :=
  mkWindow (children o) (win_size o) v (received o).

Definition set_received (v : list (string * (Q * Q))) (o : WindowObj) : WindowObj :=
  mkWindow (children o) (win_size o) (bindings o) v.

(** The iterator [widgets_list = iter(list(anim_data.keys()))] of one call
    of [do_animation_open_stack], with the [anim_data] its closures see. *)
Record Iter := mkIter {
  it_data : list (nat * nat);
  it_rest : list nat
}.

(** The properties of the speed dial that no method assigns. *)
Record Config := mkConfig {
  label_text_color : option Color;
  label_bg_color : Color;
  label_radius : list Q;
  label_direction : LabelDirection;
  button_text_offset : Q;
  stack_button_direction : StackDirection;
  hint_animation : bool;
  opening_transition : string;
  closing_transition : string;
  opening_time : Q;
  closing_time : Q;
  data : Data;
  auto_dismiss : bool;
  density : Q;               (* kivy.metrics.Metrics.density *)
  theme_text_color : Color;  (* self.theme_cls.text_color *)
  button_size : Q * Q;       (* size of a new MDFloatingBottomButton *)
  label_size : string -> Q * Q  (* size of a new MDFloatingLabel, by text *)
}.

Definition set_data (v : Data) (c : Config) : Config :=
  mkConfig (label_text_color c) (label_bg_color c) (label_radius c)
    (label_direction c) (button_text_offset c) (stack_button_direction c)
    (hint_animation c) (opening_transition c) (closing_transition c)
    (opening_time c) (closing_time c) v (auto_dismiss c) (density c)
    (theme_text_color c) (button_size c) (label_size c).

(** The speed dial ([state] .. [parent]) and the toolkit around it
    ([heap] .. [dispatched]).  [_anim_buttons_data] maps a widget to an
    animation, both by identity; [dispatched] lists the events the speed
    dial has dispatched, oldest first. *)
Record World := mkWorld {
  cfg : Config;
  state : State;
  disabled : bool;
  _anim_buttons_data : list (nat * nat);
  _anim_labels_data : list (nat * nat);
  _window : option WindowRef;
  _touch_started_inside : option bool;
  _buttons : list nat;
  _labels : list (option nat);
  _local_positions : list Q;
  _widget_declaration_finished : bool;
  parent : option Parent;
  heap : list Widget;
  window : WindowObj;
  anims : list Animation;
  iters : list Iter;
  clock : list Callback;
  dispatched : list string
}.

Definition set_cfg (v : Config) (o : World) : World :=
  mkWorld v (state o) (disabled o) (_anim_buttons_data o)
    (_anim_labels_data o) (_window o) (_touch_started_inside o)
    (_buttons o) (_labels o) (_local_positions o)
    (_widget_declaration_finished o) (parent o) (heap o) (window o)
    (anims o) (iters o) (clock o) (dispatched o).

Definition set_state (v : State) (o : World) : World :=
  mkWorld (cfg o) v (disabled o) (_anim_buttons_data o)
    (_anim_labels_data o) (_window o) (_touch_started_inside o)
    (_buttons o) (_labels o) (_local_positions o)
    (_widget_declaration_finished o) (parent o) (heap o) (window o)
    (anims o) (iters o) (clock o) (dispatched o).

Definition set_disabled (v : bool) (o : World) : World :=
  mkWorld (cfg o) (state o) v (_anim_buttons_data o) (_anim_labels_data o)
    (_window o) (_touch_started_inside o) (_buttons o) (_labels o)
    (_local_positions o) (_widget_declaration_finished o) (parent o)
    (heap o) (window o) (anims o) (iters o) (clock o) (dispatched o).

Definition set__anim_buttons_data (v : list (nat * nat)) (o : World) : World :=
  mkWorld (cfg o) (state o) (disabled o) v (_anim_labels_data o)
    (_window o) (_touch_started_inside o) (_buttons o) (_labels o)
    (_local_positions o) (_widget_declaration_finished o) (parent o)
    (heap o) (window o) (anims o) (iters o) (clock o) (dispatched o).

Definition set__anim_labels_data (v : list (nat * nat)) (o : World) : World :=
  mkWorld (cfg o) (state o) (disabled o) (_anim_buttons_data o) v
    (_window o) (_touch_started_inside o) (_buttons o) (_labels o)
    (_local_positions o) (_widget_declaration_finished o) (parent o)
    (heap o) (window o) (anims o) (iters o) (clock o) (dispatched o).

Definition set__window (v : option WindowRef) (o : World) : World :=
  mkWorld (cfg o) (state o) (disabled o) (_anim_buttons_data o)
    (_anim_labels_data o) v (_touch_started_inside o) (_buttons o)
    (_labels o) (_local_positions o) (_widget_declaration_finished o)
    (parent o) (heap o) (window o) (anims o) (iters o) (clock o)
    (dispatched o).

Definition set__touch_started_inside (v : option bool) (o : World) : World :=
  mkWorld (cfg o) (state o) (disabled o) (_anim_buttons_data o)
    (_anim_labels_data o) (_window o) v (_buttons o) (_labels o)
    (_local_positions o) (_widget_declaration_finished o) (parent o)
    (heap o) (window o) (anims o) (iters o) (clock o) (dispatched o).

Definition set__buttons (v : list nat) (o : World) : World :=
  mkWorld (cfg o) (state o) (disabled o) (_anim_buttons_data o)
    (_anim_labels_data o) (_window o) (_touch_started_inside o) v
    (_labels o) (_local_positions o) (_widget_declaration_finished o)
    (parent o) (heap o) (window o) (anims o) (iters o) (clock o)
    (dispatched o).

Definition set__labels (v : list (option nat)) (o : World) : World :=
  mkWorld (cfg o) (state o) (disabled o) (_anim_buttons_data o)
    (_anim_labels_data o) (_window o) (_touch_started_inside o)
    (_buttons o) v (_local_positions o) (_widget_declaration_finished o)
    (parent o) (heap o) (window o) (anims o) (iters o) (clock o)
    (dispatched o).

Definition set__local_positions (v : list Q) (o : World) : World :=
  mkWorld (cfg o) (state o) (disabled o) (_anim_buttons_data o)
    (_anim_labels_data o) (_window o) (_touch_started_inside o)
    (_buttons o) (_labels o) v (_widget_declaration_finished o) (parent o)
    (heap o) (window o) (anims o) (iters o) (clock o) (dispatched o).

Definition set__widget_declaration_finished (v : bool) (o : World) : World :=
  mkWorld (cfg o) (state o) (disabled o) (_anim_buttons_data o)
    (_anim_labels_data o) (_window o) (_touch_started_inside o)
    (_buttons o) (_labels o) (_local_positions o) v (parent o) (heap o)
    (window o) (anims o) (iters o) (clock o) (dispatched o).

Definition set_parent (v : option Parent) (o : World) : World :=
  mkWorld (cfg o) (state o) (disabled o) (_anim_buttons_data o)
    (_anim_labels_data o) (_window o) (_touch_started_inside o)
    (_buttons o) (_labels o) (_local_positions o)
    (_widget_declaration_finished o) v (heap o) (window o) (anims o)
    (iters o) (clock o) (dispatched o).

Definition set_heap (v : list Widget) (o : World) : World :=
  mkWorld (cfg o) (state o) (disabled o) (_anim_buttons_data o)
    (_anim_labels_data o) (_window o) (_touch_started_inside o)
    (_buttons o) (_labels o) (_local_positions o)
    (_widget_declaration_finished o) (parent o) v (window o) (anims o)
    (iters o) (clock o) (dispatched o).

Definition set_window (v : WindowObj) (o : World) : World :=
  mkWorld (cfg o) (state o) (disabled o) (_anim_buttons_data o)
    (_anim_labels_data o) (_window o) (_touch_started_inside o)
    (_buttons o) (_labels o) (_local_positions o)
    (_widget_declaration_finished o) (parent o) (heap o) v (anims o)
    (iters o) (clock o) (dispatched o).

Definition set_anims (v : list Animation) (o : World) : World :=
  mkWorld (cfg o) (state o) (disabled o) (_anim_buttons_data o)
    (_anim_labels_data o) (_window o) (_touch_started_inside o)
    (_buttons o) (_labels o) (_local_positions o)
    (_widget_declaration_finished o) (parent o) (heap o) (window o) v
    (iters o) (clock o) (dispatched o).

Definition set_iters (v : list Iter) (o : World) : World :=
  mkWorld (cfg o) (state o) (disabled o) (_anim_buttons_data o)
    (_anim_labels_data o) (_window o) (_touch_started_inside o)
    (_buttons o) (_labels o) (_local_positions o)
    (_widget_declaration_finished o) (parent o) (heap o) (window o)
    (anims o) v (clock o) (dispatched o).

Definition set_clock (v : list Callback) (o : World) : World :=
  mkWorld (cfg o) (state o) (disabled o) (_anim_buttons_data o)
    (_anim_labels_data o) (_window o) (_touch_started_inside o)
    (_buttons o) (_labels o) (_local_positions o)
    (_widget_declaration_finished o) (parent o) (heap o) (window o)
    (anims o) (iters o) v (dispatched o).

Definition set_dispatched (v : list string) (o : World) : World :=
  mkWorld (cfg o) (state o) (disabled o) (_anim_buttons_data o)
    (_anim_labels_data o) (_window o) (_touch_started_inside o)
    (_buttons o) (_labels o) (_local_positions o)
    (_widget_declaration_finished o) (parent o) (heap o) (window o)
    (anims o) (iters o) (clock o) v.

(** ** The exception monad *)

Inductive Res (A : Type) :=
| Ok (a : A) (w : World)
| Raise (e : Exn) (w : World).

Arguments Ok {A} a w.
Arguments Raise {A} e w.

Definition M (A : Type) := World -> Res A.

Definition ret {A} (a : A) : M A := fun w => Ok a w.

Definition bind {A B} (m : M A) (k : A -> M B) : M B :=
  fun w => match m w with
           | Ok a w' => k a w'
           | Raise e w' => Raise e w'
           end.

Definition raise {A} (e : Exn) : M A := fun w => Raise e w.
Definition get {A} (f : World -> A) : M A := fun w => Ok (f w) w.
Definition modify (f : World -> World) : M unit := fun w => Ok tt (f w).

Notation "x <- m ;; k" := (bind m (fun x => k))
  (at level 61, m at next level, right associativity).
Notation "m ;; k" := (bind m (fun _ => k))
  (at level 61, right associativity).

(** [for x in l: body]. *)
Fixpoint for_each {A} (body : A -> M unit) (l : list A) : M unit :=
  match l with
  | [] => ret tt
  | a :: l' => body a ;; for_each body l'
  end.

(** [for i, x in enumerate(l): body], counting from [i]. *)
Fixpoint for_enumerate {A} (body : nat -> A -> M unit) (i : nat)
    (l : list A) : M unit :=
  match l with
  | [] => ret tt
  | a :: l' => body i a ;; for_enumerate body (S i) l'
  end.

(** The same, for a loop that updates local variables [s]. *)
Fixpoint for_enumerate_acc {A L} (body : nat -> A -> L -> M L) (i : nat)
    (l : list A) (s : L) : M L :=
  match l with
  | [] => ret s
  | a :: l' => s' <- body i a s ;; for_enumerate_acc body (S i) l' s'
  end.

(** [[f(x) for x in l]]. *)
Fixpoint list_comprehension {A B} (f : A -> M B) (l : list A) : M (list B) :=
  match l with
  | [] => ret []
  | a :: l' => b <- f a ;; bs <- list_comprehension f l' ;; ret (b :: bs)
  end.

(** ** Python lists and dicts *)

Definition Ref_eqb (a b : option nat) : bool :=
  match a, b with
  | Some i, Some j => Nat.eqb i j
  | None, None => true
  | _, _ => false
  end.

Fixpoint index_from {A} (eqb : A -> A -> bool) (v : A) (l : list A)
    (i : nat) : option nat :=
  match l with
  | [] => None
  | a :: l' => if eqb a v then Some i else index_from eqb v l' (S i)
  end.

(** [l.index(v)]. *)
Definition list_index {A} (eqb : A -> A -> bool) (v : A) (l : list A)
    : M nat :=
  match index_from eqb v l 0 with
  | Some i => ret i
  | None => raise (ValueError "x is not in list")
  end.

(** [l[i]] for [i >= 0]. *)
Definition getitem {A} (l : list A) (i : nat) : M A :=
  match nth_error l i with
  | Some a => ret a
  | None => raise IndexError
  end.

Fixpoint replace_nth {A} (i : nat) (v : A) (l : list A) : list A :=
  match l, i with
  | [], _ => []
  | _ :: l', O => v :: l'
  | a :: l', S i' => a :: replace_nth i' v l'
  end.

(** [d[k]] on a dict kept as an association list. *)
Fixpoint dict_get {V} (k : string) (d : list (string * V)) : option V :=
  match d with
  | [] => None
  | (k', v) :: d' => if (k' =? k)%string then Some v else dict_get k d'
  end.

(** [d[k] = v] on a dict keyed by object identity: an existing key keeps
    its place. *)
Fixpoint dict_set {V} (k : nat) (v : V) (d : list (nat * V))
    : list (nat * V) :=
  match d with
  | [] => [(k, v)]
  | (k', v') :: d' =>
      if Nat.eqb k' k then (k, v) :: d' else (k', v') :: dict_set k v d'
  end.

Fixpoint dict_get_id {V} (k : nat) (d : list (nat * V)) : option V :=
  match d with
  | [] => None
  | (k', v) :: d' => if Nat.eqb k' k then Some v else dict_get_id k d'
  end.

(** Truth value of a list: [if l:]. *)
Definition truthy {A} (l : list A) : bool :=
  match l with [] => false | _ => true end.

(** ** The heap of widgets *)

Definition lookup (id : nat) (w : World) : option Widget :=
  nth_error (heap w) id.

(** [isinstance(obj, k)], where [obj] may be [None]. *)
Definition isinstance (obj : option nat) (k : Kind) (w : World) : bool :=
  match obj with
  | Some id =>
      match lookup id w with
      | Some o => Kind_eqb (kind o) k
      | None => false
      end
  | None => false
  end.

(** Attribute access [obj.attr]: on [None] it raises [AttributeError]. *)
Definition read (obj : option nat) : M Widget :=
  fun w => match obj with
           | Some id =>
               match lookup id w with
               | Some o => Ok o w
               | None => Raise AttributeError w
               end
           | None => Raise AttributeError w
           end.

Fixpoint update_nth {A} (i : nat) (f : A -> A) (l : list A) : list A :=
  match l, i with
  | [], _ => []
  | a :: l', O => f a :: l'
  | a :: l', S i' => a :: update_nth i' f l'
  end.

(** Attribute assignment on the widget [id]. *)
Definition update (id : nat) (f : Widget -> Widget) : M unit :=
  modify (fun w => set_heap (update_nth id f (heap w)) w).

(** A constructor call: the new object gets a fresh identity. *)
Definition new_widget (o : Widget) : M nat :=
  fun w => Ok (List.length (heap w)) (set_heap (heap w ++ [o]) w).

(** [if isinstance(obj, k): body(obj)]. *)
Definition if_isinstance (obj : option nat) (k : Kind) (body : nat -> M unit)
    : M unit :=
  fun w => match obj with
           | Some id => if isinstance obj k w then body id w else Ok tt w
           | None => Ok tt w
           end.

(** ** The window *)

Fixpoint remove_first (id : nat) (l : list nat) : list nat :=
  match l with
  | [] => []
  | a :: l' => if Nat.eqb a id then l' else a :: remove_first id l'
  end.

(** [Window.add_widget(widget)]. *)
Definition Window_add_widget (id : nat) : M unit :=
  update id (set_wparent (Some Window)) ;;
  modify (fun w =>
    set_window (set_children (id :: children (window w)) (window w)) w).

(** [Window.remove_widget(widget)]: nothing when it is not a child. *)
Definition Window_remove_widget (id : nat) : M unit :=
  ch <- get (fun w => children (window w)) ;;
  if existsb (Nat.eqb id) ch
  then
    modify (fun w =>
      set_window (set_children (remove_first id ch) (window w)) w) ;;
    update id (set_wparent None)
  else ret tt.

Definition Window_bind (ev : string) (cb : Callback) : M unit :=
  modify (fun w =>
    set_window (set_bindings (bind_to ev cb (bindings (window w)))
                  (window w)) w).

Definition Window_unbind (ev : string) (cb : Callback) : M unit :=
  modify (fun w =>
    set_window (set_bindings (unbind_from ev cb (bindings (window w)))
                  (window w)) w).

(** The window's own [on_touch_down] / [on_touch_move] / [on_touch_up]:
    the call is recorded.  The window hands the touch on to its widget
    tree; what the widgets do with it (a stack button under the touch is
    pressed and runs its [on_press] handlers, the root button is released)
    is not part of this model: [EvRelease] stands for the release of the
    root button, and there is no event for a press of a stack button. *)
Definition Window_on_touch (phase : string) (pos : Q * Q) : M unit :=
  modify (fun w =>
    set_window (set_received (received (window w) ++ [(phase, pos)])
                  (window w)) w).

(** [self._window.m(...)]: [AttributeError] while [_window] is [None]. *)
Definition on_window {A} (m : M A) : M A :=
  win <- get _window ;;
  match win with
  | Some Window => m
  | None => raise AttributeError
  end.

(** [self.dispatch(ev)]. *)
Definition dispatch (ev : string) : M unit :=
  modify (fun w => set_dispatched (dispatched w ++ [ev]) w).

(** [self.get_root_window()]. *)
Definition get_root_window (w : World) : option WindowRef :=
  match parent w with
  | Some p => p_root_window p
  | None => None
  end.

(** [dp(v)] and the class dict [_direction_vals]. *)
Definition dp (w : World) (v : Q) : Q := v * density (cfg w).

Definition _direction_vals_label (d : LabelDirection) : Q :=
  match d with right => 1 | left => -1 end.

Definition _direction_vals_stack (d : StackDirection) : Q :=
  match d with top => 1 | bottom => -1 end.

(** ** Methods that touch no animation *)

(** [add_widget(self, widget)] (source lines 381-383). *)
Definition add_widget (widget : nat) : M unit :=
  win <- get _window ;;
  match win with
  | None => ret tt
  | Some Window =>
      o <- read (Some widget) ;;
      match wparent o with
      | None => Window_add_widget widget
      | Some _ => ret tt
      end
  end.

(** [add_widgets(self)] (lines 385-391): the body of its loop, and the
    loop. *)
Definition add_widgets_body (i button : nat) : M unit :=
  if_isinstance (Some button) MDFloatingBottomButton add_widget ;;
  labels <- get _labels ;;
  label <- getitem labels i ;;
  if_isinstance label MDFloatingLabel add_widget.

Definition add_widgets : M unit :=
  buttons <- get _buttons ;;
  for_enumerate add_widgets_body 0 buttons.

(** [remove_widget(self, widget)] (lines 393-395). *)
Definition remove_widget (widget : nat) : M unit :=
  win <- get _window ;;
  match win with
  | None => ret tt
  | Some Window => Window_remove_widget widget
  end.

(** [remove_widgets(self)] (lines 397-403). *)
Definition remove_widgets_body (i button : nat) : M unit :=
  if_isinstance (Some button) MDFloatingBottomButton remove_widget ;;
  labels <- get _labels ;;
  label <- getitem labels i ;;
  if_isinstance label MDFloatingLabel remove_widget.

Definition remove_widgets : M unit :=
  buttons <- get _buttons ;;
  for_enumerate remove_widgets_body 0 buttons.

(** [open_binding(self, *args)] (lines 268-271). *)
Definition open_binding : M unit :=
  on_window (Window_bind "on_touch_down" CbTouchDown) ;;
  on_window (Window_bind "on_touch_move" CbTouchMove) ;;
  on_window (Window_bind "on_touch_up" CbTouchUp).

(** [close_binding(self, *args)] (lines 273-277). *)
Definition close_binding : M unit :=
  remove_widgets ;;
  on_window (Window_unbind "on_touch_down" CbTouchDown) ;;
  on_window (Window_unbind "on_touch_move" CbTouchMove) ;;
  on_window (Window_unbind "on_touch_up" CbTouchUp).

(** [set_pos_bottom_buttons(self, button)] (lines 226-242).  [root] falls
    back to the class attribute [_root_button] (all zeros) for [center_x];
    [center_y] reads [self.parent] itself. *)
Definition set_pos_bottom_buttons (button : nat) : M unit :=
  root <- get parent ;;
  let root_center_x :=
    match root with Some p => p_center_x p | None => 0 end in
  update button (set_center_x root_center_x) ;;
  match root with
  | None => raise AttributeError
  | Some p =>
      buttons <- get _buttons ;;
      i <- list_index Nat.eqb button buttons ;;
      positions <- get _local_positions ;;
      local <- getitem positions i ;;
      update button (set_center_y (p_center_y p + local))
  end.

(** [set_pos_labels(self, label)] (lines 202-224). *)
Definition set_pos_labels (label : nat) : M unit :=
  finished <- get _widget_declaration_finished ;;
  (if finished
   then Window_unbind "on_draw" CbUpdatePosButtons ;;
        modify (set__widget_declaration_finished false)
   else ret tt) ;;
  root <- get parent ;;
  let root_center_x :=
    match root with Some p => p_center_x p | None => 0 end in
  offset <- get (fun w => button_text_offset (cfg w)) ;;
  direction <- get (fun w => label_direction (cfg w)) ;;
  update label
    (set_pos_x (root_center_x + offset * _direction_vals_label direction)) ;;
  o <- read (Some label) ;;
  scaled <- get (fun w => dp w (width o)) ;;
  update label
    (set_pos_x (pos_x o - match direction with
                          | left => scaled
                          | right => 0
                          end)) ;;
  match root with
  | None => raise AttributeError
  | Some p =>
      labels <- get _labels ;;
      i <- list_index Ref_eqb (Some label) labels ;;
      positions <- get _local_positions ;;
      local <- getitem positions i ;;
      update label (set_center_y (p_center_y p + local))
  end.

(** [_update_pos_buttons(self, ...)] (lines 405-411). *)
Definition _update_pos_buttons_body (widget : option nat) : M unit :=
  is_button <- get (isinstance widget MDFloatingBottomButton) ;;
  if is_button
  then if_isinstance widget MDFloatingBottomButton set_pos_bottom_buttons
  else if_isinstance widget MDFloatingLabel set_pos_labels.

Definition _update_pos_buttons : M unit :=
  buttons <- get _buttons ;;
  labels <- get _labels ;;
  for_each _update_pos_buttons_body (map Some buttons ++ labels).

(** ** Animations *)

Definition new_animation (props : list (string * AVal)) (d : Q)
    (t : string) : M nat :=
  fun w => Ok (List.length (anims w))
              (set_anims (anims w ++ [mkAnimation props d t [] [] [] []]) w).

Definition update_anim (aid : nat) (f : Animation -> Animation) : M unit :=
  modify (fun w => set_anims (update_nth aid f (anims w)) w).

Definition read_anim (aid : nat) : M Animation :=
  fun w => match nth_error (anims w) aid with
           | Some a => Ok a w
           | None => Raise KeyError w
           end.

Definition bind_cb (cb : Callback) (l : list Callback) : list Callback :=
  if existsb (fun c => if Callback_eq_dec cb c then true else false) l
  then l else l ++ [cb].

Definition stop_on (tg : Target) (a : Animation) : Animation :=
  set_a_widgets (filter (fun t => negb (Target_eqb tg t)) (a_widgets a)) a.

Definition is_running (tg : Target) (a : Animation) : bool :=
  existsb (Target_eqb tg) (a_widgets a).

(** The callbacks this program binds to [on_start] and [on_complete] of an
    animation: [add_widgets], [open_binding] and [close_binding]; no other
    callback is ever bound to these two events. *)
Definition run_animation_callback (cb : Callback) : M unit :=
  match cb with
  | CbAddWidgets => add_widgets
  | CbOpenBinding => open_binding
  | CbCloseBinding => close_binding
  | _ => ret tt
  end.

(** [Animation.start(widget)]: an animation already running on the widget
    is stopped first (dispatching [on_complete]); then it is registered and
    [on_start] is dispatched, all before [start] returns. *)
Definition Animation_start (aid : nat) (tg : Target) : M unit :=
  a <- read_anim aid ;;
  (if is_running tg a
   then update_anim aid (stop_on tg) ;;
        for_each run_animation_callback (a_on_complete a)
   else ret tt) ;;
  update_anim aid (fun a => set_a_widgets (a_widgets a ++ [tg]) a) ;;
  for_each run_animation_callback (a_on_start a).

(** [Animation.cancel_all(widget)]: nothing is dispatched. *)
Definition Animation_cancel_all (id : nat) : M unit :=
  modify (fun w => set_anims (map (stop_on (TWidget id)) (anims w)) w).

(** The animated property reaches its final value. *)
Definition apply_prop (tg : Target) (p : string * AVal) : M unit :=
  match tg, snd p with
  | TWidget id, ANum q =>
      if (fst p =? "opacity")%string then update id (set_opacity q)
      else if (fst p =? "center_y")%string then update id (set_center_y q)
      else if (fst p =? "_canvas_width")%string
           then update id (set__canvas_width q)
      else if (fst p =? "_elevation")%string
           then update id (set__elevation q)
      else ret tt
  | _, _ => ret tt
  end.

(** The toolkit finishes animation [aid] on [tg]: final values, then
    [on_complete]. *)
Definition Animation_complete (aid : nat) (tg : Target) : M unit :=
  a <- read_anim aid ;;
  if is_running tg a
  then for_each (apply_prop tg) (a_props a) ;;
       update_anim aid (stop_on tg) ;;
       for_each run_animation_callback (a_on_complete a)
  else ret tt.

(** ** Opening and closing *)

Definition new_iter (anim_data : list (nat * nat)) : M nat :=
  fun w => Ok (List.length (iters w))
              (set_iters (iters w ++ [mkIter anim_data (map fst anim_data)])
                 w).

(** The closure [animation_open_stack] of [do_animation_open_stack]
    (lines 340-347), for the iterator [it]: [StopIteration] is caught. *)
Definition animation_open_stack (it : nat) : M unit :=
  its <- get iters ;;
  match nth_error its it with
  | None => ret tt
  | Some i =>
      match it_rest i with
      | [] => ret tt
      | widget :: rest =>
          modify (set_iters (replace_nth it (mkIter (it_data i) rest) its)) ;;
          match dict_get_id widget (it_data i) with
          | None => raise KeyError
          | Some animation =>
              update_anim animation (fun a =>
                set_a_on_progress
                  (bind_cb (CbOnProgress it) (a_on_progress a)) a) ;;
              Animation_start animation (TWidget widget)
          end
      end
  end.

(** The closure [on_progress] (lines 336-338). *)
Definition on_progress (it : nat) (value : Q) : M unit :=
  if Qle_bool (1 # 10) value then animation_open_stack it else ret tt.

(** [do_animation_open_stack(self, anim_data)] (lines 324-355). *)
Definition do_animation_open_stack (anim_data : list (nat * nat)) : M unit :=
  sz <- on_window (get (fun w => win_size (window w))) ;;
  d <- get (fun w => opening_time (cfg w)) ;;
  anim_root_start <-
    new_animation [("size", APair (fst sz) (snd sz))] d "linear" ;;
  update_anim anim_root_start (fun a =>
    set_a_on_start (bind_cb CbAddWidgets (a_on_start a)) a) ;;
  update_anim anim_root_start (fun a =>
    set_a_on_complete (bind_cb CbOpenBinding (a_on_complete a)) a) ;;
  Animation_start anim_root_start TWindow ;;
  widgets_list <- new_iter anim_data ;;
  animation_open_stack widgets_list.

(** The body of the loop of [close_stack] (lines 365-375), over
    [zip(self._buttons, self._labels)]. *)
Definition close_stack_body (bl : nat * option nat) : M unit :=
  if_isinstance (Some (fst bl)) MDFloatingBottomButton (fun button =>
    root <- get parent ;;
    match root with
    | None => raise AttributeError
    | Some p =>
        ct <- get (fun w => closing_time (cfg w)) ;;
        tr <- get (fun w => closing_transition (cfg w)) ;;
        a <- new_animation
               [("center_y", ANum (p_center_y p)); ("opacity", ANum 0)]
               ct tr ;;
        Animation_start a (TWidget button)
    end) ;;
  if_isinstance (snd bl) MDFloatingLabel (fun label =>
    o <- read (Some label) ;;
    if negb (Qle_bool (opacity o) 0)
    then a <- new_animation [("opacity", ANum 0)] (1 # 100) "linear" ;;
         Animation_start a (TWidget label)
    else ret tt).

(** [close_stack(self)] (lines 357-379). *)
Definition close_stack : M unit :=
  sz <- on_window (get (fun w => win_size (window w))) ;;
  ct <- get (fun w => closing_time (cfg w)) ;;
  anim_root_end <-
    new_animation [("size", APair (fst sz) (snd sz))] (ct + (1 # 10))
      "linear" ;;
  Animation_start anim_root_end TWindow ;;
  update_anim anim_root_end (fun a =>
    set_a_on_complete (bind_cb CbCloseBinding (a_on_complete a)) a) ;;
  buttons <- get _buttons ;;
  labels <- get _labels ;;
  for_each close_stack_body (combine buttons labels) ;;
  modify (set_disabled true) ;;
  modify (set_state close) ;;
  dispatch "on_close".

(** The local variables of the loop of [open_stack]. *)
Record Locals := mkLocals {
  l_y : Q;
  l_anim_buttons_data : list (nat * nat);
  l_anim_labels_data : list (nat * nat)
}.

(** [self._local_positions[i] = y]. *)
Definition setitem_local_positions (i : nat) (v : Q) : M unit :=
  positions <- get _local_positions ;;
  if Nat.ltb i (List.length positions)
  then modify (set__local_positions (replace_nth i v positions))
  else raise IndexError.

(** The body of the loop of [open_stack] (lines 290-309). *)
Definition open_stack_body (i button : nat) (acc : Locals) : M Locals :=
  is_button <- get (isinstance (Some button) MDFloatingBottomButton) ;;
  if is_button
  then
    step <- get (fun w =>
      dp w 56 * _direction_vals_stack (stack_button_direction (cfg w))) ;;
    let y := l_y acc + step in
    positions <- get _local_positions ;;
    (if negb (truthy positions)
     then setitem_local_positions i y
     else ret tt) ;;
    o <- read (Some button) ;;
    update button (set_center_y (center_y o + y)) ;;
    d <- get (fun w => opening_time (cfg w)) ;;
    stored_buttons <- get _anim_buttons_data ;;
    anim_buttons_data <-
      (if negb (truthy stored_buttons)
       then tr <- get (fun w => opening_transition (cfg w)) ;;
            a <- new_animation [("opacity", ANum 1)] d tr ;;
            ret (dict_set button a (l_anim_buttons_data acc))
       else ret (l_anim_buttons_data acc)) ;;
    labels <- get _labels ;;
    label <- getitem labels i ;;
    is_label <- get (isinstance label MDFloatingLabel) ;;
    anim_labels_data <-
      match label with
      | Some lid =>
          if is_label
          then
            b <- read (Some button) ;;
            update lid (set_center_y (center_y b)) ;;
            stored_labels <- get _anim_labels_data ;;
            if negb (truthy stored_labels)
            then a <- new_animation [("opacity", ANum 1)] d "linear" ;;
                 ret (dict_set lid a (l_anim_labels_data acc))
            else ret (l_anim_labels_data acc)
          else ret (l_anim_labels_data acc)
      | None => ret (l_anim_labels_data acc)
      end ;;
    ret (mkLocals y anim_buttons_data anim_labels_data)
  else ret acc.

(** The first loop of [open_stack] (lines 280-282). *)
Definition cancel_label_animations : M unit :=
  labels <- get _labels ;;
  for_each (fun label =>
    if_isinstance label MDFloatingLabel Animation_cancel_all) labels.

(** [open_stack(self, instance_root_button)] (lines 279-322). *)
Definition open_stack : M unit :=
  cancel_label_animations ;;
  st <- get state ;;
  if negb (State_eqb st open)
  then
    y <- get (fun w =>
      30 * _direction_vals_stack (stack_button_direction (cfg w))) ;;
    modify (fun w => set__window (get_root_window w) w) ;;
    buttons <- get _buttons ;;
    acc <- for_enumerate_acc open_stack_body 0 buttons (mkLocals y [] []) ;;
    (if truthy (l_anim_buttons_data acc)
     then modify (set__anim_buttons_data (l_anim_buttons_data acc))
     else ret tt) ;;
    hint <- get (fun w => hint_animation (cfg w)) ;;
    (if truthy (l_anim_labels_data acc) && negb hint
     then modify (set__anim_labels_data (l_anim_labels_data acc))
     else ret tt) ;;
    modify (set_disabled false) ;;
    modify (set_state open) ;;
    dispatch "on_open" ;;
    abd <- get _anim_buttons_data ;;
    do_animation_open_stack abd ;;
    ald <- get _anim_labels_data ;;
    do_animation_open_stack ald
  else close_stack.

(** ** Touch handlers bound to the window *)

(** [touch_down(self, instance_window, touch)] (lines 244-250).  The list
    comprehension calls [widget.collide_point] on every element of
    [_buttons + _labels]; [collide_at] is one such call. *)
Definition collide_at (pos : Q * Q) (widget : option nat) : M bool :=
  o <- read widget ;; ret (collide_point o pos).

Definition touch_down (pos : Q * Q) : M bool :=
  buttons <- get _buttons ;;
  labels <- get _labels ;;
  hits <- list_comprehension (collide_at pos) (map Some buttons ++ labels) ;;
  modify (set__touch_started_inside (Some (existsb (fun b => b) hits))) ;;
  dismiss <- get (fun w => auto_dismiss (cfg w)) ;;
  started <- get _touch_started_inside ;;
  (if negb dismiss || match started with Some true => true | _ => false end
   then on_window (Window_on_touch "on_touch_down" pos)
   else ret tt) ;;
  ret true.

(** [touch_move(self, instance_window, touch)] (lines 252-256). *)
Definition touch_move (pos : Q * Q) : M bool :=
  dismiss <- get (fun w => auto_dismiss (cfg w)) ;;
  started <- get _touch_started_inside ;;
  (if negb dismiss || match started with Some true => true | _ => false end
   then on_window (Window_on_touch "on_touch_move" pos)
   else ret tt) ;;
  ret true.

(** [touch_up(self, instance_window, touch)] (lines 258-266). *)
Definition touch_up (pos : Q * Q) : M bool :=
  dismiss <- get (fun w => auto_dismiss (cfg w)) ;;
  started <- get _touch_started_inside ;;
  (if dismiss && match started with Some false => true | _ => false end
   then close_stack
   else on_window (Window_on_touch "on_touch_up" pos)) ;;
  modify (set__touch_started_inside None) ;;
  ret true.

(** ** Hover hints *)

(** [v[0]] on a value of [data]: the first character of a string, the first
    element of a list. *)
Definition getitem0 (v : Parameters) : M PyVal :=
  match v with
  | PStr EmptyString => raise IndexError
  | PStr (String c _) => ret (VStr (String c EmptyString))
  | PList l => getitem l 0
  end.

(** [icon == v] for a value of [data]: a string never equals a list. *)
Definition icon_eq_parameters (icon : string) (v : Parameters) : bool :=
  match v with
  | PStr s => (icon =? s)%string
  | PList _ => false
  end.

Definition icon_eq_val (icon : string) (v : PyVal) : bool :=
  match v with
  | VStr s => (icon =? s)%string
  | VCallable _ => false
  end.

(** [self.data[key]]. *)
Definition data_getitem (key : string) : M Parameters :=
  d <- get (fun w => data (cfg w)) ;;
  match dict_get key d with
  | Some v => ret v
  | None => raise KeyError
  end.

(** [on_enter(self, instance_button)] (lines 92-118). *)
Definition on_enter (instance_button : nat) : M unit :=
  st <- get state ;;
  if State_eqb st open
  then
    buttons <- get _buttons ;;
    i <- list_index Nat.eqb instance_button buttons ;;
    labels <- get _labels ;;
    label <- getitem labels i ;;
    is_label <- get (isinstance label MDFloatingLabel) ;;
    hint <- get (fun w => hint_animation (cfg w)) ;;
    match label with
    | Some lid =>
        if is_label && hint
        then
          Animation_cancel_all lid ;;
          l <- read (Some lid) ;;
          offset <- get (fun w => button_text_offset (cfg w)) ;;
          direction <- get (fun w => label_direction (cfg w)) ;;
          d <- get (fun w => opening_time (cfg w)) ;;
          tr <- get (fun w => opening_transition (cfg w)) ;;
          strip <- new_animation
                     [("_canvas_width",
                       ANum ((-1) * (width l + offset)
                             * _direction_vals_label direction))] d tr ;;
          Animation_start strip (TWidget instance_button) ;;
          b <- read (Some instance_button) ;;
          v <- data_getitem (text l) ;;
          same <-
            (if icon_eq_parameters (icon b) v
             then ret true
             else v' <- data_getitem (text l) ;;
                  first <- getitem0 v' ;;
                  ret (icon_eq_val (icon b) first)) ;;
          if same
          then a <- new_animation [("opacity", ANum 1)] d tr ;;
               Animation_start a (TWidget lid)
          else a <- new_animation [("opacity", ANum 0)] (1 # 10) tr ;;
               Animation_start a (TWidget lid)
        else ret tt
    | None => ret tt
    end
  else ret tt.

(** [on_leave(self, instance_button)] (lines 120-135). *)
Definition on_leave (instance_button : nat) : M unit :=
  st <- get state ;;
  if State_eqb st open
  then
    buttons <- get _buttons ;;
    i <- list_index Nat.eqb instance_button buttons ;;
    labels <- get _labels ;;
    label <- getitem labels i ;;
    is_label <- get (isinstance label MDFloatingLabel) ;;
    hint <- get (fun w => hint_animation (cfg w)) ;;
    match label with
    | Some lid =>
        if is_label && hint
        then
          Animation_cancel_all lid ;;
          d <- get (fun w => opening_time (cfg w)) ;;
          tr <- get (fun w => opening_transition (cfg w)) ;;
          strip <- new_animation
                     [("_canvas_width", ANum 0); ("_elevation", ANum 0)]
                     d tr ;;
          Animation_start strip (TWidget instance_button) ;;
          a <- new_animation [("opacity", ANum 0)] (1 # 10) tr ;;
          Animation_start a (TWidget lid)
        else ret tt
    | None => ret tt
    end
  else ret tt.

(** ** Attaching to a parent *)

Definition parent_error : Exn := ValueError "Parent Widget must be a Button".

(** [hasattr(p, "on_release") and hasattr(p, "on_press")]; [None] has
    neither. *)
Definition is_button_like (instance_parent : option Parent) : bool :=
  match instance_parent with
  | Some p => has_on_release p && has_on_press p
  | None => false
  end.

(** [on_parent(self, instance_self, instance_parent)] (lines 137-142). *)
Definition on_parent (instance_parent : option Parent) : M unit :=
  if is_button_like instance_parent
  then
    root <- get parent ;;
    match root with
    | None => raise AttributeError
    | Some p =>
        modify (set_parent
          (Some (set_p_on_release (bind_cb CbOpenStack (p_on_release p)) p)))
    end ;;
    _update_pos_buttons
  else raise parent_error.

(** The toolkit assigns the [parent] property, then calls [on_parent]. *)
Definition attach (instance_parent : option Parent) : M unit :=
  modify (set_parent instance_parent) ;;
  on_parent instance_parent.

(** ** Building the stack *)

Definition PyVal_eqb (a b : PyVal) : bool :=
  if PyVal_eq_dec a b then true else false.

(** [parameters if type(parameters) is str else parameters[0]], passed to
    the [icon] string property, which accepts strings only. *)
Definition name_icon (parameters : Parameters) : M string :=
  match parameters with
  | PStr s => ret s
  | PList l =>
      v <- getitem l 0 ;;
      match v with
      | VStr s => ret s
      | VCallable _ => raise (ValueError "icon accepts only str")
      end
  end.

(** [parameters[parameters.index(key) + 1]] when [key in parameters]; on a
    string both are substring operations. *)
Definition callback_after (key : string) (parameters : Parameters)
    : M (option PyVal) :=
  match parameters with
  | PStr s =>
      match String.index 0 key s with
      | Some i => ret (Some (VStr (String.substring (S i) 1 s)))
      | None => ret None
      end
  | PList l =>
      match index_from PyVal_eqb (VStr key) l 0 with
      | Some i => v <- getitem l (S i) ;; ret (Some v)
      | None => ret None
      end
  end.

(** [bottom_button.bind(on_press=callback)] (lines 166-172), for the value
    found after the key, if there is one: [EventDispatcher.bind] asserts
    that the callback is callable, and registers it after the handlers
    that are bound already.  Nothing is bound when the key is absent. *)
Definition bind_user (button : nat) (cb : option PyVal)
    (handlers : Widget -> list Callback)
    (set_handlers : list Callback -> Widget -> Widget) : M unit :=
  match cb with
  | None => ret tt
  | Some (VStr _) => raise AssertionError
  | Some (VCallable c) =>
      update button (fun o =>
        set_handlers (bind_cb (CbUser (VCallable c)) (handlers o)) o)
  end.

(** One iteration of the loop of the inner [on_data] (lines 150-190). *)
Definition on_data_entry (entry : string * Parameters) : M unit :=
  let (name, parameters) := entry in
  icon_name <- name_icon parameters ;;
  bsize <- get (fun w => button_size (cfg w)) ;;
  bottom_button <- new_widget
    (mkWidget MDFloatingBottomButton icon_name EmptyString 0 0 0
       (fst bsize) (snd bsize) 0 0 [] [] [] None
       [CbDispatch "on_press_stack_button"]
       [CbDispatch "on_release_stack_button"]
       [CbOnEnter] [CbOnLeave]) ;;
  press <- callback_after "on_press" parameters ;;
  bind_user bottom_button press on_press_cbs set_on_press_cbs ;;
  release <- callback_after "on_release" parameters ;;
  bind_user bottom_button release on_release_cbs set_on_release_cbs ;;
  modify (fun w => set__buttons (_buttons w ++ [bottom_button]) w) ;;
  label <-
    (if (name =? EmptyString)%string
     then ret None
     else
       c <- get cfg ;;
       let lsize := label_size c name in
       let color :=
         match label_text_color c with
         | Some col => if truthy col then col else theme_text_color c
         | None => theme_text_color c
         end in
       lid <- new_widget
         (mkWidget MDFloatingLabel EmptyString name 0 0 0 (fst lsize)
            (snd lsize) 0 0 (label_bg_color c) (label_radius c) color None
            [] [] [] []) ;;
       ret (Some lid)) ;;
  modify (fun w => set__labels (_labels w ++ [label]) w) ;;
  modify (fun w => set__local_positions (_local_positions w ++ [0]) w) ;;
  set_pos_bottom_buttons bottom_button ;;
  if_isinstance label MDFloatingLabel set_pos_labels.

(** The inner [on_data], run by the clock (lines 147-192); [d] is the
    mapping the closure captured. *)
Definition on_data_inner (d : Data) : M unit :=
  Window_bind "on_draw" CbUpdatePosButtons ;;
  for_each on_data_entry d ;;
  modify (set__widget_declaration_finished true).

(** [on_data(self, instance_stack_buttons, data)] (lines 144-200). *)
Definition on_data (d : Data) : M unit :=
  remove_widgets ;;
  modify (set__buttons []) ;;
  modify (set__labels []) ;;
  modify (set__local_positions []) ;;
  modify (set__anim_buttons_data []) ;;
  modify (set__anim_labels_data []) ;;
  modify (fun w => set_clock (clock w ++ [CbOnData d]) w).

(** ** The event loop *)

Inductive Event :=
| EvSetData (d : Data)              (* the application assigns [data] *)
| EvSetParent (p : option Parent)   (* the widget is added to [p] *)
| EvTick                            (* the clock runs what is scheduled *)
| EvRelease                         (* the parent dispatches on_release *)
| EvProgress (aid : nat) (tg : Target) (value : Q)
| EvComplete (aid : nat) (tg : Target)
| EvTouchDown (pos : Q * Q)         (* the window dispatches a touch *)
| EvTouchMove (pos : Q * Q)
| EvTouchUp (pos : Q * Q)
| EvEnter (button : nat)            (* the cursor enters a stack button *)
| EvLeave (button : nat)
| EvDraw                            (* the window dispatches on_draw *)
| EvResize.                         (* ... on_resize *)

Definition window_bound (ev : string) (cb : Callback) (w : World) : bool :=
  is_bound ev cb (bindings (window w)).

(** A window event goes to the bound handler; the handlers of this widget
    return [True], which keeps the window's own handler from running. *)
Definition window_touch (ev : string) (cb : Callback)
    (handler : Q * Q -> M bool) (pos : Q * Q) : M unit :=
  bound <- get (window_bound ev cb) ;;
  if bound
  then consumed <- handler pos ;;
       if consumed then ret tt else Window_on_touch ev pos
  else Window_on_touch ev pos.

Definition step (e : Event) : M unit :=
  match e with
  | EvSetData d =>
      modify (fun w => set_cfg (set_data d (cfg w)) w) ;; on_data d
  | EvSetParent p => attach p
  | EvTick =>
      scheduled <- get clock ;;
      modify (set_clock []) ;;
      for_each (fun cb =>
        match cb with CbOnData d => on_data_inner d | _ => ret tt end)
        scheduled
  | EvRelease =>
      root <- get parent ;;
      match root with
      | Some p =>
          for_each (fun cb =>
            match cb with CbOpenStack => open_stack | _ => ret tt end)
            (p_on_release p)
      | None => ret tt
      end
  | EvProgress aid tg value =>
      all <- get anims ;;
      match nth_error all aid with
      | Some a =>
          if is_running tg a
          then for_each (fun cb =>
                 match cb with
                 | CbOnProgress it => on_progress it value
                 | _ => ret tt
                 end) (a_on_progress a)
          else ret tt
      | None => ret tt
      end
  | EvComplete aid tg =>
      all <- get anims ;;
      match nth_error all aid with
      | Some _ => Animation_complete aid tg
      | None => ret tt
      end
  | EvTouchDown pos => window_touch "on_touch_down" CbTouchDown touch_down pos
  | EvTouchMove pos => window_touch "on_touch_move" CbTouchMove touch_move pos
  | EvTouchUp pos => window_touch "on_touch_up" CbTouchUp touch_up pos
  | EvEnter button => on_enter button
  | EvLeave button => on_leave button
  | EvDraw =>
      bound <- get (window_bound "on_draw" CbUpdatePosButtons) ;;
      if bound then _update_pos_buttons else ret tt
  | EvResize =>
      bound <- get (window_bound "on_resize" CbUpdatePosButtons) ;;
      if bound then _update_pos_buttons else ret tt
  end.

(** A run of events; it stops at the first exception. *)
Fixpoint run (evs : list Event) : M unit :=
  match evs with
  | [] => ret tt
  | e :: evs' => step e ;; run evs'
  end.

(** The world [__init__] leaves (lines 78-90), with the class attributes
    as defaults. *)
Definition init (c : Config) (size : Q * Q) : World :=
  mkWorld c close true [] [] None None [] [] [] false None []
    (mkWindow [] size
       [("on_resize", CbUpdatePosButtons);
        ("on_maximize", CbUpdatePosButtons);
        ("on_restore", CbUpdatePosButtons)] [])
    [] [] [] [].

(** * Reasoning about methods *)

(** [wp m Q E w]: run from [w], the method [m] returns [a] in a world
    satisfying [Q a], or raises [e] in a world satisfying [E e]. *)
Definition wp {A} (m : M A) (Q : A -> World -> Prop)
    (E : Exn -> World -> Prop) (w : World) : Prop :=
  match m w with
  | Ok a w' => Q a w'
  | Raise e w' => E e w'
  end.

(** No exception is acceptable. *)
Definition no_exn : Exn -> World -> Prop := fun _ _ => False.


(** [widget.parent is not None]. *)
Definition has_parent (id : nat) (w : World) : bool :=
  match lookup id w with
  | Some o => match wparent o with Some _ => true | None => false end
  | None => false
  end.

(** The world after [Window.add_widget(id)]. *)
Definition added (id : nat) (w : World) : World :=
  set_window (set_children (id :: children (window w)) (window w))
    (set_heap (update_nth id (set_wparent (Some Window)) (heap w)) w).

(** [add_widget] does nothing for this widget. *)
Definition quiet (id : nat) (w : World) : Prop :=
  _window w = None \/ has_parent id w = true.

(** What [add_widget] may change between two worlds: nothing of the speed
    dial, no kind, and no widget that already had a parent. *)
Record add_frame (w w' : World) : Prop := {
  af_buttons : _buttons w' = _buttons w;
  af_labels : _labels w' = _labels w;
  af_window : _window w' = _window w;
  af_kind : forall obj k, isinstance obj k w' = isinstance obj k w;
  af_attached : forall id, has_parent id w = true -> lookup id w' = lookup id w
}.

(** After its iteration, button [b] and the label at index [j] are quiet. *)
Definition settled (j b : nat) (w : World) : Prop :=
  (isinstance (Some b) MDFloatingBottomButton w = true -> quiet b w)
  /\ exists label, nth_error (_labels w) j = Some label
       /\ forall lid, label = Some lid ->
                      isinstance label MDFloatingLabel w = true -> quiet lid w.

(** The window lists no widget twice, and every child knows its parent. *)
Definition window_consistent (w : World) : Prop :=
  NoDup (children (window w))
  /\ forall id, In id (children (window w)) -> has_parent id w = true.

(** [m] keeps [P], whether it returns or raises, and raises only
    exceptions in [PE]. *)
Definition keeps {A} (P : World -> Prop) (PE : Exn -> Prop) (m : M A)
    : Prop :=
  forall w, P w -> wp m (fun _ => P) (fun e w' => P w' /\ PE e) w.

Definition preserves {A} (P : World -> Prop) (m : M A) : Prop :=
  keeps P (fun _ => True) m.

(** An animation of the stack: it exists and carries no [on_start] or
    [on_complete] callback. *)
Definition plain_animation (aid : nat) (w : World) : Prop :=
  exists an, nth_error (anims w) aid = Some an
             /\ a_on_start an = [] /\ a_on_complete an = [].

Definition plain_data (d : list (nat * nat)) (w : World) : Prop :=
  forall k a, In (k, a) d -> plain_animation a w.

(** The invariant of the stack: the three sequences are index-aligned,
    [_buttons] holds buttons and [_labels] holds labels or [None], and the
    stored animations are plain. *)
Record stack_ok (w : World) : Prop := {
  ok_labels : List.length (_labels w) = List.length (_buttons w);
  ok_positions : List.length (_local_positions w) = List.length (_buttons w);
  ok_button_kind :
    forall b, In b (_buttons w) ->
              isinstance (Some b) MDFloatingBottomButton w = true;
  ok_label_kind :
    forall l, In (Some l) (_labels w) ->
              isinstance (Some l) MDFloatingLabel w = true;
  ok_anim_buttons : plain_data (_anim_buttons_data w) w;
  ok_anim_labels : plain_data (_anim_labels_data w) w
}.

(** The invariant of the loop of [open_stack], for a stack of [n]. *)
Definition loop_ok (n : nat) (acc : Locals) (w : World) : Prop :=
  List.length (_labels w) = n /\ List.length (_local_positions w) = n
  /\ plain_data (l_anim_buttons_data acc) w
  /\ plain_data (l_anim_labels_data acc) w
  /\ plain_data (_anim_buttons_data w) w
  /\ plain_data (_anim_labels_data w) w.

(** Between two worlds only animations changed, none was added or
    removed, and each kept its [on_start] and [on_complete] callbacks. *)
Definition anim_step (w w' : World) : Prop :=
  w' = set_anims (anims w') w
  /\ forall i an, nth_error (anims w) i = Some an ->
       exists an', nth_error (anims w') i = Some an'
                   /\ a_on_start an' = a_on_start an
                   /\ a_on_complete an' = a_on_complete an.

(** What one call of [do_animation_open_stack] keeps. *)
Definition animation_frame (w w' : World) : Prop :=
  _window w' = _window w /\ _buttons w' = _buttons w
  /\ _labels w' = _labels w
  /\ _anim_labels_data w' = _anim_labels_data w
  /\ forall d, plain_data d w -> plain_data d w'.

(** The configuration, parent and data of the examples below. *)
Definition example_config : Config :=
  mkConfig None [0; 0; 0; 0] [0] right 33 top false "out_cubic" "out_cubic"
    (1 # 2) (1 # 5) [] true 1 [0; 0; 0; 1] (56, 56) (fun _ => (100, 30)).

Definition example_parent : Parent :=
  mkParent 500 400 true true [] (Some Window).

Definition example_data : Data :=
  [("Edit", PStr "pencil");
   ("Add", PList [VStr "plus"; VStr "on_press"; VCallable 1])].

(** The world a run of events ends in, returned or raised. *)
Definition world_after (evs : list Event) (w : World) : World :=
  match run evs w with
  | Ok _ w' => w'
  | Raise _ w' => w'
  end.

(** A speed dial attached to a button, its stack built, never opened. *)
Definition example_closed : World :=
  world_after [EvSetParent (Some example_parent); EvSetData example_data;
               EvTick]
    (init example_config (800, 600)).

(** What repositioning keeps: the three sequences, the parent and every
    widget's kind. *)
Definition pos_frame (w w' : World) : Prop :=
  _buttons w' = _buttons w /\ _labels w' = _labels w
  /\ _local_positions w' = _local_positions w /\ parent w' = parent w
  /\ forall obj k, isinstance obj k w' = isinstance obj k w.

(** [id] is a button or a label of the current stack. *)
Definition stack_widget (id : nat) (w : World) : Prop :=
  In id (_buttons w) \/ In (Some id) (_labels w).

(** What [remove_widget] keeps, and what it may only shrink. *)
Record remove_frame (w w' : World) : Prop := {
  rf_buttons : _buttons w' = _buttons w;
  rf_labels : _labels w' = _labels w;
  rf_window : _window w' = _window w;
  rf_kind : forall obj k, isinstance obj k w' = isinstance obj k w;
  rf_children :
    forall id, In id (children (window w')) -> In id (children (window w));
  rf_nodup : NoDup (children (window w)) -> NoDup (children (window w'))
}.

(** The icon an entry of [data] configures: the value itself, or the
    first element of a list. *)
Definition icon_of (p : Parameters) : option string :=
  match p with
  | PStr s => Some s
  | PList (VStr s :: _) => Some s
  | PList _ => None
  end.

(** [key] is absent from the parameters, or something follows it. *)
Definition callback_ok (key : string) (p : Parameters) : bool :=
  match p with
  | PStr _ => true
  | PList l =>
      match index_from PyVal_eqb (VStr key) l 0 with
      | Some i => Nat.ltb (S i) (List.length l)
      | None => true
      end
  end.

(** [key] does not occur in the parameters, or a callable follows it (the
    toolkit's [bind] accepts callables only). *)
Definition callable_after (key : string) (p : Parameters) : bool :=
  match p with
  | PStr s =>
      match String.index 0 key s with
      | Some _ => false
      | None => true
      end
  | PList l =>
      match index_from PyVal_eqb (VStr key) l 0 with
      | Some i =>
          match nth_error l (S i) with
          | Some (VCallable _) => true
          | _ => false
          end
      | None => true
      end
  end.

(** A well-formed entry: an icon name, or a list of an icon name and
    callbacks. *)
Definition entry_good (entry : string * Parameters) : bool :=
  match icon_of (snd entry) with
  | Some _ =>
      callable_after "on_press" (snd entry)
      && callable_after "on_release" (snd entry)
  | None => false
  end.

(** The handlers of an event after [bind_user] returned: the callable
    after those there were, or those there were when the key is
    absent. *)
Definition bound_user (cb : option PyVal) (l : list Callback)
    : list Callback :=
  match cb with
  | Some v => bind_cb (CbUser v) l
  | None => l
  end.

(** The toolkit moves widgets; it never changes what they are. *)
Definition same_widget (o o' : Widget) : Prop :=
  kind o' = kind o /\ icon o' = icon o /\ text o' = text o.

Definition heap_grows (w w' : World) : Prop :=
  forall id o, lookup id w = Some o ->
               exists o', lookup id w' = Some o' /\ same_widget o o'.

(** What positioning a widget keeps. *)
Definition rebuild_frame (w w' : World) : Prop :=
  heap_grows w w' /\ _buttons w' = _buttons w /\ _labels w' = _labels w
  /\ _local_positions w' = _local_positions w.

(** What one entry of [data] becomes: a button with the configured icon,
    and a label with the entry's text, or [None] for an empty text. *)
Definition entry_built (entry : string * Parameters) (b : nat)
    (label : option nat) (w : World) : Prop :=
  (exists ob, lookup b w = Some ob /\ kind ob = MDFloatingBottomButton
              /\ icon_of (snd entry) = Some (icon ob))
  /\ match label with
     | None => fst entry = EmptyString
     | Some l =>
         fst entry <> EmptyString
         /\ exists ol, lookup l w = Some ol /\ kind ol = MDFloatingLabel
                       /\ text ol = fst entry
     end.

(** One more entry at the end of the three sequences. *)
Definition appended (entry : string * Parameters) (w w' : World) : Prop :=
  exists b label,
    _buttons w' = _buttons w ++ [b] /\ _labels w' = _labels w ++ [label]
    /\ _local_positions w' = _local_positions w ++ [0]
    /\ heap_grows w w' /\ entry_built entry b label w'.

(** The stack built from [d] on top of the world [w0]: one button and one
    label slot per entry, in the order of the entries. *)
Definition rebuilt (d : Data) (w0 w : World) : Prop :=
  exists bs ls,
    _buttons w = _buttons w0 ++ bs /\ _labels w = _labels w0 ++ ls
    /\ _local_positions w = _local_positions w0 ++ repeat 0 (List.length d)
    /\ List.length bs = List.length d /\ List.length ls = List.length d
    /\ heap_grows w0 w
    /\ forall i entry, nth_error d i = Some entry ->
         exists b label, nth_error bs i = Some b
                         /\ nth_error ls i = Some label
                         /\ entry_built entry b label w.

(** The three sequences match the mapping [d], entry by entry. *)
Definition stack_matches (d : Data) (w : World) : Prop :=
  List.length (_buttons w) = List.length d
  /\ List.length (_labels w) = List.length d
  /\ List.length (_local_positions w) = List.length d
  /\ forall i entry, nth_error d i = Some entry ->
       exists b label, nth_error (_buttons w) i = Some b
                       /\ nth_error (_labels w) i = Some label
                       /\ entry_built entry b label w
                       /\ (label = None <-> fst entry = EmptyString).

(** A speed dial attached to a button, before any data is set. *)
Definition example_attached : World :=
  world_after [EvSetParent (Some example_parent)]
    (init example_config (800, 600)).

(** The icons of the buttons and the texts of the label slots of the
    stack, in the order of the sequences. *)
Definition stack_icons (w : World) : list (option string) :=
  map (fun b => option_map icon (lookup b w)) (_buttons w).

Definition stack_texts (w : World) : list (option string) :=
  map (fun l => match l with
                | Some id => option_map text (lookup id w)
                | None => None
                end) (_labels w).

(** [data] assigned twice before the clock runs. *)
Definition example_second_data : Data := [("Cut", PStr "scissors")].

Definition example_assigned_twice : World :=
  world_after [EvSetData example_data; EvSetData example_second_data]
    example_attached.

Definition example_rebuilt_twice : World :=
  world_after [EvTick] example_assigned_twice.


(** The built stack of the example, with the window reference set as
    [open_stack] sets it, before any widget is added; and after
    [add_widgets]. *)
Definition example_before_add : World :=
  set__window (Some Window) example_closed.

Definition example_added : World :=
  match add_widgets example_before_add with
  | Ok _ w1 => w1
  | Raise _ w1 => w1
  end.

(** The vertical centre of widget [id], as a reduced fraction. *)
Definition center_of (id : nat) (w : World) : option Q :=
  option_map (fun o => Qred (center_y o)) (lookup id w).

(** The offset the loop of [open_stack] computes for index [i]:
    [30 + (i + 1) * dp(56)], signed by the direction. *)
Definition offset_of (w : World) (i : nat) : Q :=
  (30 + inject_Z (Z.of_nat (S i)) * dp w 56)
  * _direction_vals_stack (stack_button_direction (cfg w)).

Definition example_open : World := world_after [EvRelease] example_closed.

(** The configuration of the examples with another label direction,
    density or hint setting, and the stack built from [d] under [c]. *)
Definition example_config_with (dir : LabelDirection) (dens : Q)
    (hint : bool) : Config :=
  mkConfig None [0; 0; 0; 0] [0] dir 33 top hint "out_cubic" "out_cubic"
    (1 # 2) (1 # 5) [] true dens [0; 0; 0; 1] (56, 56) (fun _ => (100, 30)).

Definition built_with (c : Config) (d : Data) : World :=
  world_after [EvSetParent (Some example_parent); EvSetData d; EvTick]
    (init c (800, 600)).

(** The left and right edge of widget [id], as reduced fractions. *)
Definition edges_of (id : nat) (w : World) : option (Q * Q) :=
  option_map (fun o => (Qred (pos_x o), Qred (w_right o))) (lookup id w).

(** [collide_point] at the touch position, for an element of
    [_buttons + _labels] that is a widget. *)
Definition collides (pos : Q * Q) (w : World) (widget : option nat) : bool :=
  match widget with
  | Some id =>
      match lookup id w with
      | Some o => collide_point o pos
      | None => false
      end
  | None => false
  end.

(** The elements [touch_down] tests: [self._buttons + self._labels]. *)
Definition stack_refs (w : World) : list (option nat) :=
  map Some (_buttons w) ++ _labels w.

Definition readable (w : World) (widget : option nat) : Prop :=
  exists id o, widget = Some id /\ lookup id w = Some o.

(** The stack of one button without a label, opened, with the touch
    handlers bound; and the stack of the example in the same situation. *)
Definition example_unlabelled_bound : World :=
  world_after [EvRelease; EvComplete 1 TWindow]
    (built_with example_config [(EmptyString, PStr "plus")]).

Definition example_bound : World :=
  world_after [EvRelease; EvComplete 4 TWindow] example_closed.
(** * Hover hints *)

(** A stack of one labelled button with hint animation on, opened; and a
    world in which the icon of a widget was reassigned. *)
Definition example_hints : World :=
  world_after [EvRelease]
    (built_with (example_config_with right 1 true) [("Edit", PStr "pencil")]).

Definition with_icon (id : nat) (name : string) (w : World) : World :=
  set_heap (update_nth id (set_icon name) (heap w)) w.

Definition AVal_red (v : AVal) : AVal :=
  match v with
  | ANum q => ANum (Qred q)
  | APair a b => APair (Qred a) (Qred b)
  end.

(** The animations running on widget [id]: final values and duration. *)
Definition running_on (id : nat) (w : World)
    : list (list (string * AVal) * Q) :=
  map (fun a => (map (fun p => (fst p, AVal_red (snd p))) (a_props a),
                 Qred (a_d a)))
    (filter (is_running (TWidget id)) (anims w)).

(** The test of [on_enter] (lines 105-110) on a value of [data]:
    [icon == v or icon == v[0]].  [None] stands for the [IndexError] of
    [v[0]] on an empty string or list. *)
Definition first_of (v : Parameters) : option PyVal :=
  match v with
  | PStr EmptyString => None
  | PStr (String c _) => Some (VStr (String c EmptyString))
  | PList l => nth_error l 0
  end.

Definition icon_test (name : string) (v : Parameters) : option bool :=
  if icon_eq_parameters name v then Some true
  else option_map (icon_eq_val name) (first_of v).

(** The animation [on_enter] starts on the label when the test gives
    [same]. *)
Definition hint_animation_of (same : bool) (lid : nat) (w : World)
    : Animation :=
  mkAnimation [("opacity", ANum (if same then 1 else 0))]
    (if same then opening_time (cfg w) else 1 # 10)
    (opening_transition (cfg w)) [] [] [] [TWidget lid].

(** * The open sequence and the touch handlers *)

(** One of the three touch handlers is among the bindings [l] of the
    window. *)
Definition touch_bindings (l : list (string * Callback)) : bool :=
  is_bound "on_touch_down" CbTouchDown l
  || is_bound "on_touch_move" CbTouchMove l
  || is_bound "on_touch_up" CbTouchUp l.

Definition touch_bound (w : World) : bool :=
  touch_bindings (bindings (window w)).

Definition is_open_binding (cb : Callback) : bool :=
  match cb with CbOpenBinding => true | _ => false end.

(** Animation [aid] runs on the window and [open_binding] is bound to its
    [on_complete]: an [anim_root_start] that has not completed. *)
Definition opening (w : World) (aid : nat) : bool :=
  match nth_error (anims w) aid with
  | Some a =>
      is_running TWindow a && existsb is_open_binding (a_on_complete a)
  | None => false
  end.

Definition opening_animations (w : World) : list nat :=
  filter (opening w) (seq 0 (List.length (anims w))).

(** The event completes a running animation to whose [on_complete]
    [open_binding] is bound. *)
Definition completes_opening (e : Event) (w : World) : bool :=
  match e with
  | EvComplete aid tg =>
      match nth_error (anims w) aid with
      | Some a => is_running tg a && existsb is_open_binding (a_on_complete a)
      | None => false
      end
  | _ => false
  end.

(** The root button is released: the only event that calls [open_stack]. *)
Definition is_release (e : Event) : bool :=
  match e with EvRelease => true | _ => false end.

(** In the run [evs] from [w] the root button is not released and no
    event completes an animation that binds the touch handlers. *)
Fixpoint awaits (evs : list Event) (w : World) : bool :=
  match evs with
  | [] => true
  | e :: evs' =>
      negb (is_release e) && negb (completes_opening e w)
      && match step e w with
         | Ok _ w' => awaits evs' w'
         | Raise _ _ => true
         end
  end.

(** Every stack widget has a parent: it was added to the window. *)
Definition stack_added (w : World) : Prop :=
  forall id, In (Some id) (stack_refs w) -> has_parent id w = true.

(** Between two lists of animations each animation of the first kept its
    [on_start] and [on_complete] callbacks. *)
Definition callbacks_kept (l l' : list Animation) : Prop :=
  forall i an, nth_error l i = Some an ->
    exists an', nth_error l' i = Some an'
                /\ a_on_start an' = a_on_start an
                /\ a_on_complete an' = a_on_complete an.

(** The iterators of the open sequences chain plain animations. *)
Definition iters_plain (w : World) : Prop :=
  forall i, In i (iters w) -> plain_data (it_data i) w.

(** What an event keeps while no touch handler is bound. *)
Definition unbound_frame (w0 w : World) : Prop :=
  touch_bound w = false /\ state w = state w0
  /\ map it_data (iters w) = map it_data (iters w0)
  /\ callbacks_kept (anims w0) (anims w).

(** What the part of [open_stack] before the animations keeps: the
    bindings of the window, the iterators, the callbacks of the
    animations there were, and what every object is. *)
Definition build_frame (w0 w : World) : Prop :=
  bindings (window w) = bindings (window w0)
  /\ iters w = iters w0
  /\ callbacks_kept (anims w0) (anims w)
  /\ forall obj k, isinstance obj k w = isinstance obj k w0.

(** What one call of [do_animation_open_stack] with [data] does to the
    world, besides starting animations. *)
Definition opening_frame (data : list (nat * nat)) (w w' : World) : Prop :=
  bindings (window w') = bindings (window w)
  /\ state w' = state w
  /\ callbacks_kept (anims w) (anims w')
  /\ map it_data (iters w') = map it_data (iters w) ++ [data]
  /\ (forall obj k, isinstance obj k w' = isinstance obj k w)
  /\ stack_added w'.

(** The stack of the example after it was opened, dismissed by a touch
    outside and its close sequence completed; the events of a run after
    it is opened again; and the stack of the example after the root
    button was released three times in a row. *)
Definition example_reclosed : World :=
  world_after [EvRelease; EvComplete 4 TWindow; EvComplete 5 TWindow;
               EvTouchDown (0, 0); EvTouchUp (0, 0); EvComplete 6 TWindow]
    example_closed.

Definition example_run : list Event :=
  [EvProgress 0 (TWidget 0) (1 # 5); EvTouchDown (0, 0); EvTouchUp (0, 0);
   EvEnter 0; EvComplete 0 (TWidget 0); EvResize].

Definition example_reopened : World :=
  world_after [EvRelease; EvRelease; EvRelease] example_closed.

(** The invariants as checks, for closed worlds. *)
Definition plain_animationb (aid : nat) (w : World) : bool :=
  match nth_error (anims w) aid with
  | Some an =>
      match a_on_start an, a_on_complete an with
      | [], [] => true
      | _, _ => false
      end
  | None => false
  end.

Definition plain_datab (d : list (nat * nat)) (w : World) : bool :=
  forallb (fun ka => plain_animationb (snd ka) w) d.

Definition stack_okb (w : World) : bool :=
  Nat.eqb (List.length (_labels w)) (List.length (_buttons w))
  && Nat.eqb (List.length (_local_positions w)) (List.length (_buttons w))
  && forallb (fun b => isinstance (Some b) MDFloatingBottomButton w)
       (_buttons w)
  && forallb (fun l => match l with
                       | Some _ => isinstance l MDFloatingLabel w
                       | None => true
                       end) (_labels w)
  && plain_datab (_anim_buttons_data w) w
  && plain_datab (_anim_labels_data w) w.

Definition iters_plainb (w : World) : bool :=
  forallb (fun i => plain_datab (it_data i) w) (iters w).

(** * Further properties of the code *)

(** The binding is one of the three touch handlers. *)
Definition is_touch_binding (b : string * Callback) : bool :=
  binding_eqb ("on_touch_down", CbTouchDown) b
  || binding_eqb ("on_touch_move", CbTouchMove) b
  || binding_eqb ("on_touch_up", CbTouchUp) b.

(** The entry makes the rebuild fail before a button is added to the
    stack and before any callback of the entry is bound: its value has no
    icon (an empty list, or a list that starts with a callable), or
    ["on_press"] is the last element of the list. *)
Definition fails_early (entry : string * Parameters) : bool :=
  match icon_of (snd entry) with
  | Some _ => negb (callback_ok "on_press" (snd entry))
  | None => true
  end.

Definition icon_error : Exn := ValueError "icon accepts only str".

(** The three sequences of the stack are index-aligned, [_buttons] holds
    buttons and [_labels] holds labels or [None]. *)
Definition aligned (w : World) : Prop :=
  List.length (_labels w) = List.length (_buttons w)
  /\ List.length (_local_positions w) = List.length (_buttons w)
  /\ (forall b, In b (_buttons w) ->
                isinstance (Some b) MDFloatingBottomButton w = true)
  /\ (forall l, In (Some l) (_labels w) ->
                isinstance (Some l) MDFloatingLabel w = true).

(** What every method other than the two [on_data] keeps of the stack:
    the widgets there are (what they are, not where), the buttons, the
    labels and the number of local positions. *)
Definition shape_frame (w0 w : World) : Prop :=
  heap_grows w0 w /\ _buttons w = _buttons w0 /\ _labels w = _labels w0
  /\ List.length (_local_positions w) = List.length (_local_positions w0).

(** The world in which the toolkit goes on after an event, whether its
    handler returned or raised. *)
Definition after_event (e : Event) (w : World) : World := world_after [e] w.

(** The window lists no widget twice, and its children are exactly the
    widgets whose [parent] is set. *)
Definition children_parented (w : World) : Prop :=
  NoDup (children (window w))
  /\ forall id, In id (children (window w)) <-> has_parent id w = true.

(** The window animation of a close sequence, as [close_stack] leaves it:
    running on the window, with [close_binding] bound to its
    [on_complete]. *)
Definition anim_root_end (w : World) : Animation :=
  mkAnimation
    [("size", APair (fst (win_size (window w))) (snd (win_size (window w))))]
    (closing_time (cfg w) + (1 # 10)) "linear" [] [CbCloseBinding] []
    [TWindow].

(** [close_stack] only adds animations to the world, besides [disabled],
    [state] and the dispatched events. *)
Definition closing (w w' : World) : Prop :=
  exists l,
    w' = set_dispatched (dispatched w ++ ["on_close"])
           (set_state close
              (set_disabled true
                 (set_anims (anims w ++ anim_root_end w :: l) w))).

(** [w'] is [w] with the widgets [l] of the stack added to the window, in
    front of its other children: their [parent] is the window, and
    nothing else differs. *)
Definition shown (l : list nat) (w w' : World) : Prop :=
  w' = set_window (set_children (l ++ children (window w)) (window w))
         (set_heap (heap w') w)
  /\ NoDup l
  /\ (forall id, In id l -> stack_widget id w)
  /\ List.length (heap w') = List.length (heap w)
  /\ forall id, lookup id w' =
       if existsb (Nat.eqb id) l
       then option_map (set_wparent (Some Window)) (lookup id w)
       else lookup id w.

(** [on_label_direction(self, *args)] (lines 426-429). *)
Definition on_label_direction : M unit :=
  labels <- get _labels ;;
  for_each (fun label => if_isinstance label MDFloatingLabel set_pos_labels)
    labels.

(** [on_stack_button_direction(self, *args)] (lines 431-434). *)
Definition on_stack_button_direction : M unit :=
  buttons <- get _buttons ;;
  for_each
    (fun button =>
       if_isinstance (Some button) MDFloatingBottomButton
         set_pos_bottom_buttons)
    buttons.

(** What positioning keeps, with the configuration. *)
Definition place_frame (w0 w : World) : Prop :=
  pos_frame w0 w /\ cfg w = cfg w0.

(** In [w'] the button [b] is where [set_pos_bottom_buttons] puts it for
    the stack of [w] and the parent [p]: centred on the parent's
    [center_x], at the parent's [center_y] plus the local position stored
    at the button's first index. *)
Definition button_placed (p : Parent) (w : World) (b : nat) (w' : World)
    : Prop :=
  exists ob i off,
    lookup b w' = Some ob
    /\ index_from Nat.eqb b (_buttons w) 0 = Some i
    /\ nth_error (_local_positions w) i = Some off
    /\ center_x ob == p_center_x p
    /\ center_y ob == p_center_y p + off.

(** In [w'] the label [l] is where [set_pos_labels] puts it. *)
Definition label_placed (p : Parent) (w : World) (l : nat) (w' : World)
    : Prop :=
  exists ol i off,
    lookup l w' = Some ol
    /\ index_from Ref_eqb (Some l) (_labels w) 0 = Some i
    /\ nth_error (_local_positions w) i = Some off
    /\ center_y ol == p_center_y p + off
    /\ pos_x ol ==
       match label_direction (cfg w) with
       | right => p_center_x p + button_text_offset (cfg w)
       | left => p_center_x p - button_text_offset (cfg w)
                 - dp w (width ol)
       end.

(** The iterator [it] of an open sequence over [data] has handed out the
    first [k] widgets of [data] (all of them when [k] is past the end). *)
Definition chain_at (it : nat) (data : list (nat * nat)) (k : nat)
    (w : World) : Prop :=
  nth_error (iters w) it = Some (mkIter data (skipn k (map fst data))).

(** The animation [data] holds for [widget] runs on it, and the
    [on_progress] of the open sequence [it] is bound to it. *)
Definition chained (it : nat) (data : list (nat * nat)) (widget : nat)
    (w : World) : Prop :=
  exists a an,
    dict_get_id widget data = Some a
    /\ nth_error (anims w) a = Some an
    /\ is_running (TWidget widget) an = true
    /\ In (CbOnProgress it) (a_on_progress an).

(** The progress reports that reach the threshold of [on_progress]. *)
Definition reports (vs : list Q) : nat :=
  List.length (filter (Qle_bool (1 # 10)) vs).

(** The animation [on_enter] starts on the button: it widens the strip
    behind it to the label's width plus the offset. *)
Definition strip_of (b : nat) (l : Widget) (w : World) : Animation :=
  mkAnimation
    [("_canvas_width",
      ANum ((-1) * (width l + button_text_offset (cfg w))
            * _direction_vals_label (label_direction (cfg w))))]
    (opening_time (cfg w)) (opening_transition (cfg w)) [] [] []
    [TWidget b].

(** The world after the first half of [on_enter]: the label's animations
    are cancelled and the strip animation runs. *)
Definition strip_started (b lid : nat) (l : Widget) (w : World) : World :=
  set_anims (map (stop_on (TWidget lid)) (anims w) ++ [strip_of b l w]) w.

(** A speed dial with hint animation whose [data] was assigned twice
    before the clock ran, opened. *)
Definition example_stale : World :=
  world_after
    [EvSetParent (Some example_parent); EvSetData example_data;
     EvSetData [("Cut", PStr "scissors")]; EvTick; EvRelease]
    (init (example_config_with right 1 true) (800, 600)).

(** The speed dial is disabled exactly while it is closed. *)
Definition disabled_while_closed (w : World) : Prop :=
  disabled w = match state w with close => true | open => false end.

(** No label occurs at two indices of [_labels]. *)
Definition distinct_labels (w : World) : Prop :=
  forall i j l,
    nth_error (_labels w) i = Some (Some l) ->
    nth_error (_labels w) j = Some (Some l) -> i = j.

(** Button [b], at index [j] of the stack of [w0] where it was [ob], has
    been moved by the offset of its index, and its label has its height. *)
Definition moved (w0 : World) (j b : nat) (ob : Widget) (w : World) : Prop :=
  exists ob',
    lookup b w = Some ob'
    /\ center_y ob' == center_y ob + offset_of w0 j
    /\ forall lid, nth_error (_labels w0) j = Some (Some lid) ->
         exists ol', lookup lid w = Some ol' /\ center_y ol' == center_y ob'.

(** The invariant of the loop of [open_stack] before index [i]: the
    running offset, what the loop keeps, the buttons before [i] moved and
    the buttons from [i] on as they were. *)
Definition opening_at (w0 : World) (i : nat) (acc : Locals) (w : World)
    : Prop :=
  l_y acc == (30 + inject_Z (Z.of_nat i) * dp w0 56)
             * _direction_vals_stack (stack_button_direction (cfg w0))
  /\ _buttons w = _buttons w0 /\ _labels w = _labels w0
  /\ _local_positions w = _local_positions w0 /\ cfg w = cfg w0
  /\ (forall obj k, isinstance obj k w = isinstance obj k w0)
  /\ (forall j b ob, (j < i)%nat -> nth_error (_buttons w0) j = Some b ->
        lookup b w0 = Some ob -> moved w0 j b ob w)
  /\ (forall j b, (i <= j)%nat -> nth_error (_buttons w0) j = Some b ->
        lookup b w = lookup b w0).

(** Between two worlds every widget keeps its height and its vertical
    position. *)
Definition same_heights (w w' : World) : Prop :=
  forall id o, lookup id w = Some o ->
    exists o', lookup id w' = Some o' /\ pos_y o' = pos_y o
               /\ height o' = height o.

(** What one iteration of the rebuild does to the stack: nothing (it
    raised before the appends), or one fresh button and one label slot,
    [None] or a fresh label. *)
Definition grown (w w' : World) : Prop :=
  (_buttons w' = _buttons w /\ _labels w' = _labels w)
  \/ exists label,
       _buttons w' = _buttons w ++ [List.length (heap w)]
       /\ _labels w' = _labels w ++ [label]
       /\ forall l, label = Some l -> (List.length (heap w) <= l)%nat.

(** No button and no label is twice in the stack. *)
Definition distinct_stack (w : World) : Prop :=
  NoDup (_buttons w) /\ distinct_labels w.

(** The draw handler of the rebuild is spent: the flag
    [_widget_declaration_finished] is reset and [on_draw] no longer calls
    [_update_pos_buttons]. *)
Definition draw_spent (w : World) : Prop :=
  _widget_declaration_finished w = false
  /\ window_bound "on_draw" CbUpdatePosButtons w = false.

(** The draw handler is still to run: the flag is set and [on_draw] is
    bound. *)
Definition draw_pending (w : World) : Prop :=
  _widget_declaration_finished w = true
  /\ window_bound "on_draw" CbUpdatePosButtons w = true.

(** The entry's own callback for [key]: the callable that follows [key]
    in the list of parameters, if there is one. *)
Definition user_callback (key : string) (p : Parameters) : list Callback :=
  match p with
  | PStr _ => []
  | PList l =>
      match index_from PyVal_eqb (VStr key) l 0 with
      | Some i =>
          match nth_error l (S i) with
          | Some (VCallable c) => [CbUser (VCallable c)]
          | _ => []
          end
      | None => []
      end
  end.

(** The handlers of a button built from [entry], in the order they were
    bound: the speed dial's own event first, then the entry's callback;
    [on_enter] and [on_leave] for the hover events. *)
Definition callbacks_bound (entry : string * Parameters) (o : Widget)
    : Prop :=
  on_press_cbs o
  = CbDispatch "on_press_stack_button" :: user_callback "on_press" (snd entry)
  /\ on_release_cbs o
     = CbDispatch "on_release_stack_button"
       :: user_callback "on_release" (snd entry)
  /\ on_enter_cbs o = [CbOnEnter] /\ on_leave_cbs o = [CbOnLeave].

Definition same_callbacks (o o' : Widget) : Prop :=
  on_press_cbs o' = on_press_cbs o /\ on_release_cbs o' = on_release_cbs o
  /\ on_enter_cbs o' = on_enter_cbs o /\ on_leave_cbs o' = on_leave_cbs o.

(** Every widget of [w] is still there in [w'], with the handlers it
    had. *)
Definition handlers_stay (w w' : World) : Prop :=
  forall id o, lookup id w = Some o ->
    exists o', lookup id w' = Some o' /\ same_callbacks o o'.

(** The animation [close_stack] starts on button [b]: back to the height
    of the parent's centre, fading out. *)
Definition button_closing (w : World) (p : Parent) (b : nat) : Animation :=
  mkAnimation [("center_y", ANum (p_center_y p)); ("opacity", ANum 0)]
    (closing_time (cfg w)) (closing_transition (cfg w)) [] [] []
    [TWidget b].

(** The animation [close_stack] starts on a label that is visible. *)
Definition label_closing (l : nat) : Animation :=
  mkAnimation [("opacity", ANum 0)] (1 # 100) "linear" [] [] [] [TWidget l].

(** The animations [l'] hold what the loop of [close_stack] starts for
    the pair [bl] of a button and its label slot. *)
Definition closing_started (w : World) (p : Parent) (bl : nat * option nat)
    (l' : list Animation) : Prop :=
  (isinstance (Some (fst bl)) MDFloatingBottomButton w = true ->
   In (button_closing w p (fst bl)) l')
  /\ (forall lid ol,
        snd bl = Some lid -> isinstance (Some lid) MDFloatingLabel w = true ->
        lookup lid w = Some ol -> Qle_bool (opacity ol) 0 = false ->
        In (label_closing lid) l').

(** The handlers [__init__] binds to the window are bound. *)
Definition resize_bound (w : World) : Prop :=
  window_bound "on_resize" CbUpdatePosButtons w = true
  /\ window_bound "on_maximize" CbUpdatePosButtons w = true
  /\ window_bound "on_restore" CbUpdatePosButtons w = true.

(** The world after [__init__] and the events [evs], each handled to its
    end, returned or raised. *)
Definition reached (c : Config) (size : Q * Q) (evs : list Event) : World :=
  fold_left (fun w e => after_event e w) evs (init c size).

(** Animation [aid] has the properties [props] and no handler of its
    start or completion, and it is running on the button [b]. *)
Definition animates (aid b : nat) (props : list (string * AVal))
    (w : World) : Prop :=
  isinstance (Some b) MDFloatingBottomButton w = true
  /\ exists a,
       nth_error (anims w) aid = Some a /\ a_props a = props
       /\ a_on_start a = [] /\ a_on_complete a = []
       /\ is_running (TWidget b) a = true.

(** The stack closed right after it was opened: the closing animations
    are running. *)
Definition example_closing : World :=
  world_after [EvRelease; EvRelease] example_closed.

Lemma wp_bind {A B} (m : M A) (k : A -> M B) Q E w :
  wp (bind m k) Q E w <-> wp m (fun a w' => wp (k a) Q E w') E w.
Proof. unfold wp, bind. destruct (m w); reflexivity. Qed.

Lemma bind_ok {A B} (m : M A) (k : A -> M B) w a w' :
  m w = Ok a w' -> bind m k w = k a w'.
Proof. unfold bind. now intros ->. Qed.

Lemma bind_raise {A B} (m : M A) (k : A -> M B) w e w' :
  m w = Raise e w' -> bind m k w = Raise e w'.
Proof. unfold bind. now intros ->. Qed.

Lemma wp_mono {A} (m : M A) (Q Q' : A -> World -> Prop)
    (E E' : Exn -> World -> Prop) w :
  wp m Q E w ->
  (forall a w', Q a w' -> Q' a w') ->
  (forall e w', E e w' -> E' e w') ->
  wp m Q' E' w.
Proof. unfold wp. destruct (m w); auto. Qed.

Lemma wp_ok {A} (m : M A) Q w :
  wp m Q no_exn w <-> exists a w', m w = Ok a w' /\ Q a w'.
Proof.
  unfold wp, no_exn. destruct (m w) as [a w' | e w'].
  - split; [eauto | intros (a' & w'' & Heq & HQ); now inversion Heq; subst].
  - split; [tauto | intros (a' & w'' & Heq & _); discriminate].
Qed.

Lemma wp_of_ok {A} (m : M A) Q E w a w' :
  m w = Ok a w' -> wp m Q E w -> Q a w'.
Proof. unfold wp. now intros ->. Qed.

(** An invariant of the body is an invariant of the loop. *)
Lemma wp_for_each {A} (body : A -> M unit) (I : World -> Prop) E l :
  (forall a w, In a l -> I w -> wp (body a) (fun _ => I) E w) ->
  forall w, I w -> wp (for_each body l) (fun _ => I) E w.
Proof.
  induction l as [| a l IH]; intros Hbody w HI; simpl.
  - exact HI.
  - apply wp_bind. eapply wp_mono; [apply Hbody; simpl; auto | | auto].
    intros ? w' HI'. apply IH; auto. intros; apply Hbody; simpl; auto.
Qed.

Lemma wp_for_enumerate {A} (body : nat -> A -> M unit) (I : World -> Prop)
    E l :
  forall i,
  (forall k a w, nth_error l k = Some a -> I w ->
                 wp (body (i + k)%nat a) (fun _ => I) E w) ->
  forall w, I w -> wp (for_enumerate body i l) (fun _ => I) E w.
Proof.
  induction l as [| a l IH]; intros i Hbody w HI; simpl.
  - exact HI.
  - apply wp_bind. eapply wp_mono.
    + specialize (Hbody 0%nat a w eq_refl HI).
      rewrite Nat.add_0_r in Hbody. exact Hbody.
    + intros ? w' HI'. apply IH; auto.
      intros k b w'' Hk HI''. specialize (Hbody (S k) b w'' Hk HI'').
      now rewrite Nat.add_succ_r in Hbody.
    + auto.
Qed.

(** The loop with local variables: [I] relates them to the world. *)
Lemma wp_for_enumerate_acc {A L} (body : nat -> A -> L -> M L)
    (I : L -> World -> Prop) E l :
  forall i s,
  (forall k a s w, nth_error l k = Some a -> I s w ->
                   wp (body (i + k)%nat a s) I E w) ->
  forall w, I s w -> wp (for_enumerate_acc body i l s) I E w.
Proof.
  induction l as [| a l IH]; intros i s Hbody w HI; simpl.
  - exact HI.
  - apply wp_bind. eapply wp_mono.
    + specialize (Hbody 0%nat a s w eq_refl HI).
      rewrite Nat.add_0_r in Hbody. exact Hbody.
    + intros s' w' HI'. apply IH; auto.
      intros k b s'' w'' Hk HI''. specialize (Hbody (S k) b s'' w'' Hk HI'').
      now rewrite Nat.add_succ_r in Hbody.
    + auto.
Qed.

Lemma wp_list_comprehension {A B} (f : A -> M B) (I : World -> Prop) E l :
  (forall a w, In a l -> I w -> wp (f a) (fun _ => I) E w) ->
  forall w, I w -> wp (list_comprehension f l) (fun _ => I) E w.
Proof.
  induction l as [| a l IH]; intros Hf w HI; simpl.
  - exact HI.
  - apply wp_bind. eapply wp_mono; [apply Hf; simpl; auto | | auto].
    intros b w' HI'. apply wp_bind.
    eapply wp_mono; [apply IH; auto | | auto].
    + intros; apply Hf; simpl; auto.
    + intros bs w'' HI''. exact HI''.
Qed.

Lemma wp_if_isinstance obj k body Q E w :
  (forall id, obj = Some id -> isinstance obj k w = true ->
              wp (body id) Q E w) ->
  (isinstance obj k w = false -> Q tt w) ->
  wp (if_isinstance obj k body) Q E w.
Proof.
  intros Hyes Hno. unfold wp, if_isinstance.
  destruct obj as [id |].
  - destruct (isinstance (Some id) k w) eqn:Hk.
    + apply (Hyes id eq_refl eq_refl).
    + apply Hno; reflexivity.
  - apply Hno; reflexivity.
Qed.

(** ** Lists and the heap *)

Lemma nth_error_update_nth {A} (f : A -> A) (l : list A) i j :
  nth_error (update_nth i f l) j =
  if Nat.eqb i j then option_map f (nth_error l j) else nth_error l j.
Proof.
  revert i j. induction l as [| a l IH]; intros [| i] [| j]; simpl; auto.
  now destruct (Nat.eqb i j).
Qed.

Lemma length_update_nth {A} (f : A -> A) (l : list A) i :
  List.length (update_nth i f l) = List.length l.
Proof.
  revert i. induction l as [| a l IH]; intros [| i]; simpl; auto.
Qed.

Lemma length_replace_nth {A} (v : A) (l : list A) i :
  List.length (replace_nth i v l) = List.length l.
Proof.
  revert i. induction l as [| a l IH]; intros [| i]; simpl; auto.
Qed.

Lemma index_from_In {A} (eqb : A -> A -> bool) v (l : list A) :
  (forall a, eqb a a = true) ->
  In v l -> forall i, exists k, index_from eqb v l i = Some k.
Proof.
  intros Hrefl. induction l as [| a l IH]; intros Hin i; [easy |].
  simpl. destruct (eqb a v) eqn:Heq; [eauto |].
  destruct Hin as [-> | Hin]; [now rewrite Hrefl in Heq | auto].
Qed.

Lemma index_from_bound {A} (eqb : A -> A -> bool) v (l : list A) i k :
  index_from eqb v l i = Some k -> (i <= k < i + List.length l)%nat.
Proof.
  revert i. induction l as [| a l IH]; intros i; simpl; [easy |].
  destruct (eqb a v).
  - intros [= <-]. lia.
  - intros H. apply IH in H. lia.
Qed.

Lemma Ref_eqb_refl r : Ref_eqb r r = true.
Proof. destruct r; simpl; auto using Nat.eqb_refl. Qed.

(** * Frame properties *)

Lemma keeps_ret {A} P PE (a : A) : keeps P PE (ret a).
Proof. intros w H; exact H. Qed.

Lemma keeps_raise {A} P (PE : Exn -> Prop) e :
  PE e -> keeps P PE (@raise A e).
Proof. intros He w H; split; assumption. Qed.

Lemma keeps_get {A} P PE (f : World -> A) : keeps P PE (get f).
Proof. intros w H; exact H. Qed.

Lemma keeps_modify P PE f :
  (forall w, P w -> P (f w)) -> keeps P PE (modify f).
Proof. intros Hf w H. apply Hf, H. Qed.

Lemma keeps_bind {A B} P PE (m : M A) (k : A -> M B) :
  keeps P PE m -> (forall a, keeps P PE (k a)) -> keeps P PE (bind m k).
Proof.
  intros Hm Hk w H. apply wp_bind.
  eapply wp_mono; [apply Hm, H | | auto]. intros a w' H'. apply Hk, H'.
Qed.

Lemma keeps_for_each {A} P PE (body : A -> M unit) l :
  (forall a, keeps P PE (body a)) -> keeps P PE (for_each body l).
Proof. intros Hb w H. apply wp_for_each; auto. intros; now apply Hb. Qed.

Lemma keeps_for_enumerate {A} P PE (body : nat -> A -> M unit) i l :
  (forall k a, keeps P PE (body k a)) ->
  keeps P PE (for_enumerate body i l).
Proof. intros Hb w H. apply wp_for_enumerate; auto. intros; now apply Hb. Qed.

Lemma keeps_for_enumerate_acc {A L} P PE (body : nat -> A -> L -> M L)
    i l s :
  (forall k a s, keeps P PE (body k a s)) ->
  keeps P PE (for_enumerate_acc body i l s).
Proof.
  intros Hb w H.
  apply (wp_for_enumerate_acc body (fun _ => P)); auto.
  intros; now apply Hb.
Qed.

Lemma keeps_list_comprehension {A B} P PE (f : A -> M B) l :
  (forall a, keeps P PE (f a)) -> keeps P PE (list_comprehension f l).
Proof.
  intros Hf w H. apply wp_list_comprehension; auto. intros; now apply Hf.
Qed.

Lemma keeps_if_isinstance P PE obj k body :
  (forall id, keeps P PE (body id)) -> keeps P PE (if_isinstance obj k body).
Proof.
  intros Hb w H. apply wp_if_isinstance; auto. intros; now apply Hb.
Qed.

Lemma keeps_getitem {A} P (PE : Exn -> Prop) (l : list A) i :
  PE IndexError -> keeps P PE (getitem l i).
Proof.
  intros He w H. unfold wp, getitem. destruct (nth_error l i); [exact H |].
  now split.
Qed.

Lemma keeps_list_index {A} P (PE : Exn -> Prop) eqb (v : A) l :
  PE (ValueError "x is not in list") -> keeps P PE (list_index eqb v l).
Proof.
  intros He w H. unfold wp, list_index.
  destruct (index_from eqb v l 0); [exact H | now split].
Qed.

Lemma keeps_read P (PE : Exn -> Prop) obj :
  PE AttributeError -> keeps P PE (read obj).
Proof.
  intros He w H. unfold wp, read. destruct obj as [id |]; [| now split].
  destruct (lookup id w); [exact H | now split].
Qed.

Lemma keeps_read_anim P (PE : Exn -> Prop) aid :
  PE KeyError -> keeps P PE (read_anim aid).
Proof.
  intros He w H. unfold wp, read_anim.
  destruct (nth_error (anims w) aid); [exact H | now split].
Qed.

Lemma keeps_on_window {A} P (PE : Exn -> Prop) (m : M A) :
  PE AttributeError -> keeps P PE m -> keeps P PE (on_window m).
Proof.
  intros He Hm w H. unfold wp, on_window, bind, get.
  destruct (_window w) as [[] |]; [apply Hm, H | now split].
Qed.

Ltac exn_side := first [exact I | discriminate | assumption].

Ltac pres_step :=
  match goal with
  | |- keeps _ _ (bind _ _) => apply keeps_bind; [| intros ?]
  | |- keeps _ _ (ret _) => apply keeps_ret
  | |- keeps _ _ (raise _) => apply keeps_raise; exn_side
  | |- keeps _ _ (get _) => apply keeps_get
  | |- keeps _ _ (for_each _ _) => apply keeps_for_each; intros ?
  | |- keeps _ _ (for_enumerate _ _ _) =>
      apply keeps_for_enumerate; intros ? ?
  | |- keeps _ _ (for_enumerate_acc _ _ _ _) =>
      apply keeps_for_enumerate_acc; intros ? ? ?
  | |- keeps _ _ (list_comprehension _ _) =>
      apply keeps_list_comprehension; intros ?
  | |- keeps _ _ (if_isinstance _ _ _) =>
      apply keeps_if_isinstance; intros ?
  | |- keeps _ _ (getitem _ _) => apply keeps_getitem; exn_side
  | |- keeps _ _ (list_index _ _ _) => apply keeps_list_index; exn_side
  | |- keeps _ _ (read _) => apply keeps_read; exn_side
  | |- keeps _ _ (read_anim _) => apply keeps_read_anim; exn_side
  | |- keeps _ _ (on_window _) => apply keeps_on_window; [exn_side |]
  | |- keeps _ _ (modify _) =>
      apply keeps_modify; let w := fresh "w" in
      let H := fresh "H" in intros w H; simpl; intuition (auto; congruence)
  | |- keeps _ _ (match ?x with _ => _ end) => destruct x
  | |- keeps _ _ (let (_, _) := ?x in _) => destruct x
  | |- keeps _ _ (new_widget _) =>
      let w := fresh "w" in let H := fresh "H" in
      intros w H; unfold wp, new_widget; simpl; intuition (auto; congruence)
  | |- keeps _ _ (new_animation _ _ _) =>
      let w := fresh "w" in let H := fresh "H" in
      intros w H; unfold wp, new_animation; simpl;
      intuition (auto; congruence)
  | |- keeps _ _ (new_iter _) =>
      let w := fresh "w" in let H := fresh "H" in
      intros w H; unfold wp, new_iter; simpl; intuition (auto; congruence)
  end.

Ltac pres_unfold :=
  unfold add_widget, add_widgets, add_widgets_body, remove_widget,
    remove_widgets, remove_widgets_body, open_binding, close_binding,
    set_pos_bottom_buttons, set_pos_labels, _update_pos_buttons,
    _update_pos_buttons_body, run_animation_callback, Animation_start,
    Animation_cancel_all, Animation_complete, apply_prop,
    animation_open_stack, on_progress, do_animation_open_stack,
    close_stack, close_stack_body, setitem_local_positions,
    open_stack_body, cancel_label_animations,
    Window_add_widget, Window_remove_widget, Window_bind, Window_unbind,
    Window_on_touch, update, update_anim, dispatch.

Ltac pres := unfold preserves; repeat (pres_unfold; pres_step).

(** Sequencing under an invariant that the first command keeps. *)
Lemma wp_seq {A B} (I : World -> Prop) (c : M A) (k : A -> M B) Q
    (E : Exn -> World -> Prop) w :
  preserves I c -> I w -> (forall e w', I w' -> E e w') ->
  (forall a w', I w' -> wp (k a) Q E w') -> wp (bind c k) Q E w.
Proof.
  intros Hc HI HE Hk. apply wp_bind.
  eapply wp_mono; [apply Hc, HI | apply Hk |].
  intros e w' [H _]. now apply HE.
Qed.

Lemma wp_last {A} (I : World -> Prop) (c : M A) (Q : A -> World -> Prop)
    (E : Exn -> World -> Prop) w :
  preserves I c -> I w -> (forall e w', I w' -> E e w') ->
  (forall a w', I w' -> Q a w') -> wp c Q E w.
Proof.
  intros Hc HI HE HQ. eapply wp_mono; [apply Hc, HI | apply HQ |].
  intros e w' [H _]. now apply HE.
Qed.

Ltac wp_call I :=
  eapply (wp_last I); [solve [pres] | solve [simpl; auto] | solve [auto] |];
  intros ? ? ?.

Ltac wp_frame I :=
  eapply (wp_seq I); [solve [pres] | solve [simpl; auto] | solve [auto] |];
  intros ? ? ?.

(** From a run that returned to a [wp] goal. *)
Ltac wp_of H :=
  match type of H with
  | ?m ?w = Ok ?a ?w' =>
      pattern w';
      match goal with
      | |- ?P w' =>
          apply (wp_of_ok m (fun _ => P) (fun _ _ => True) w a w' H)
      end;
      clear H
  end.

Lemma nth_error_snoc {A} (l : list A) x :
  nth_error (l ++ [x]) (List.length l) = Some x.
Proof. induction l; simpl; auto. Qed.

Lemma update_nth_snoc {A} (f : A -> A) (l : list A) x :
  update_nth (List.length l) f (l ++ [x]) = l ++ [f x].
Proof. induction l; simpl; congruence. Qed.

(** Starting the animation just created, which has no [on_start]
    callback: it is registered and nothing runs. *)
Lemma wp_Animation_start_new l an tg (Q : unit -> World -> Prop) E w :
  anims w = l ++ [an] -> is_running tg an = false -> a_on_start an = [] ->
  Q tt (set_anims (l ++ [set_a_widgets (a_widgets an ++ [tg]) an]) w) ->
  wp (Animation_start (List.length l) tg) Q E w.
Proof.
  intros Hl Hrun Hstart HQ. unfold wp, Animation_start, bind, read_anim.
  rewrite Hl, nth_error_snoc, Hrun, Hstart. simpl.
  unfold update_anim, modify. rewrite Hl, update_nth_snoc. exact HQ.
Qed.

Lemma wp_read_instance id k (Q : Widget -> World -> Prop) E w :
  isinstance (Some id) k w = true ->
  (forall o, lookup id w = Some o -> Q o w) -> wp (read (Some id)) Q E w.
Proof.
  unfold isinstance, wp, read. destruct (lookup id w); [auto | discriminate].
Qed.

Lemma isinstance_set_anims obj k v w :
  isinstance obj k (set_anims v w) = isinstance obj k w.
Proof. reflexivity. Qed.

Lemma isinstance_update obj k id f w :
  (forall o, kind (f o) = kind o) ->
  isinstance obj k (set_heap (update_nth id f (heap w)) w) = isinstance obj k w.
Proof.
  intros Hf. destruct obj as [j |]; [| reflexivity]. unfold isinstance, lookup.
  simpl. rewrite nth_error_update_nth. destruct (Nat.eqb id j); [| reflexivity].
  destruct (nth_error (heap w) j); simpl; [now rewrite Hf | reflexivity].
Qed.

Ltac kinds :=
  repeat first
    [ rewrite isinstance_set_anims
    | rewrite isinstance_update by reflexivity ].

Ltac wp_step :=
  lazymatch goal with
  | |- wp (bind _ _) _ _ _ => apply wp_bind
  | |- wp (get ?f) ?Q ?E ?w => change (Q (f w) w); cbv beta
  | |- wp (modify ?f) ?Q ?E ?w => change (Q tt (f w)); cbv beta
  | |- wp (ret ?a) ?Q ?E ?w => change (Q a w); cbv beta
  | |- wp (raise ?e) ?Q ?E ?w => change (E e w); cbv beta
  | |- wp (new_animation ?p ?d ?t) ?Q ?E ?w =>
      change (Q (List.length (anims w))
                (set_anims (anims w ++ [mkAnimation p d t [] [] [] []]) w));
      cbv beta
  | |- wp (Animation_start (List.length _) _) _ _ _ =>
      eapply wp_Animation_start_new;
      [simpl; reflexivity | reflexivity | reflexivity | simpl]
  | |- wp (read (Some _)) _ _ _ =>
      eapply wp_read_instance; [kinds; eassumption | intros ? ?]
  end.

Ltac wp_steps := repeat wp_step.


(** * Adding the stack to the window *)

Lemma add_frame_refl w : add_frame w w.
Proof. now constructor. Qed.

Lemma has_parent_frame w w' id :
  add_frame w w' -> has_parent id w = true -> has_parent id w' = true.
Proof.
  intros F H. unfold has_parent. rewrite (af_attached _ _ F id H). exact H.
Qed.

Lemma add_frame_trans w1 w2 w3 :
  add_frame w1 w2 -> add_frame w2 w3 -> add_frame w1 w3.
Proof.
  intros F G. constructor.
  - rewrite (af_buttons _ _ G). apply F.
  - rewrite (af_labels _ _ G). apply F.
  - rewrite (af_window _ _ G). apply F.
  - intros. rewrite (af_kind _ _ G). apply F.
  - intros id H. rewrite (af_attached _ _ G); [now apply F |].
    eapply has_parent_frame; eauto.
Qed.

Lemma quiet_frame w w' id : add_frame w w' -> quiet id w -> quiet id w'.
Proof.
  intros F [H | H]; [left | right].
  - now rewrite (af_window _ _ F).
  - eapply has_parent_frame; eauto.
Qed.

Lemma lookup_added id j w :
  lookup j (added id w) =
  if Nat.eqb id j then option_map (set_wparent (Some Window)) (lookup j w)
  else lookup j w.
Proof. unfold lookup, added. simpl. apply nth_error_update_nth. Qed.

Lemma add_frame_added id w : has_parent id w = false -> add_frame w (added id w).
Proof.
  intros Hid. constructor; try reflexivity.
  - intros [j |] k; [| reflexivity]. unfold isinstance.
    rewrite lookup_added. destruct (Nat.eqb id j); [| reflexivity].
    now destruct (lookup j w).
  - intros j Hj. rewrite lookup_added.
    destruct (Nat.eqb_spec id j) as [-> |]; [congruence | reflexivity].
Qed.

Lemma add_widget_noop id w : quiet id w -> add_widget id w = Ok tt w.
Proof.
  unfold quiet, add_widget, has_parent, bind, get, read.
  destruct (_window w) as [[] |]; [| reflexivity].
  intros [H | H]; [discriminate |].
  destruct (lookup id w) as [o |]; [| discriminate].
  destruct (wparent o); [reflexivity | discriminate].
Qed.

Lemma add_widget_adds id k w :
  _window w = Some Window -> isinstance (Some id) k w = true ->
  has_parent id w = false -> add_widget id w = Ok tt (added id w).
Proof.
  unfold add_widget, has_parent, isinstance, bind, get, read.
  intros -> Hk. destruct (lookup id w) as [o |]; [| discriminate].
  destruct (wparent o); [discriminate |]. reflexivity.
Qed.

Lemma has_parent_added id w k :
  isinstance (Some id) k w = true -> has_parent id (added id w) = true.
Proof.
  unfold has_parent, isinstance. rewrite lookup_added, Nat.eqb_refl.
  destruct (lookup id w); [reflexivity | discriminate].
Qed.

(** [if isinstance(obj, k): self.add_widget(obj)] always returns, within
    the frame, and leaves [obj] quiet. *)
Lemma guarded_add obj k w :
  exists w', if_isinstance obj k add_widget w = Ok tt w' /\ add_frame w w'
             /\ (w' = w
                 \/ exists id, obj = Some id /\ has_parent id w = false
                      /\ isinstance obj k w = true /\ w' = added id w)
             /\ forall id, obj = Some id -> isinstance obj k w = true ->
                           quiet id w'.
Proof.
  assert (Same : forall A : Prop, A -> A /\ add_frame w w
            /\ (w = w \/ exists id, obj = Some id /\ has_parent id w = false
                   /\ isinstance obj k w = true /\ w = added id w)).
  { intros A HA. split; [exact HA |]. split; [apply add_frame_refl | now left]. }
  unfold if_isinstance. destruct obj as [id |].
  2:{ exists w. rewrite <- !and_assoc. split; [| discriminate].
      rewrite !and_assoc. now apply Same. }
  destruct (isinstance (Some id) k w) eqn:Hk.
  2:{ exists w. rewrite <- !and_assoc. split; [| discriminate].
      rewrite !and_assoc. now apply Same. }
  destruct (_window w) as [[] |] eqn:Hw.
  2:{ exists w. rewrite add_widget_noop by (now left).
      rewrite <- !and_assoc. split; [| intros; now left].
      rewrite !and_assoc. now apply Same. }
  destruct (has_parent id w) eqn:Hp.
  - exists w. rewrite add_widget_noop by (now right).
    rewrite <- !and_assoc. split; [| intros ? [= <-] _; now right].
    rewrite !and_assoc. now apply Same.
  - exists (added id w). rewrite (add_widget_adds id k w Hw Hk Hp).
    split; [reflexivity |]. split; [now apply add_frame_added |]. split.
    + right. exists id. auto.
    + intros ? [= <-] _. right. eapply has_parent_added; eauto.
Qed.

Lemma settled_frame j b w w' : add_frame w w' -> settled j b w -> settled j b w'.
Proof.
  intros F [Hb (label & Hl & Hq)]. split.
  - rewrite (af_kind _ _ F). intros H. eapply quiet_frame; eauto.
  - exists label. rewrite (af_labels _ _ F). split; [assumption |].
    intros lid -> H. rewrite (af_kind _ _ F) in H. eapply quiet_frame; eauto.
Qed.

Lemma add_widgets_body_ok i b w w1 :
  add_widgets_body i b w = Ok tt w1 -> add_frame w w1 /\ settled i b w1.
Proof.
  unfold add_widgets_body, bind at 1.
  destruct (guarded_add (Some b) MDFloatingBottomButton w)
    as (w' & -> & F & _ & Hq).
  unfold bind, get, getitem.
  destruct (nth_error (_labels w') i) as [label |] eqn:Hl; [| discriminate].
  unfold ret at 1.
  destruct (guarded_add label MDFloatingLabel w') as (w'' & -> & G & _ & Hq').
  intros [= <-]. split; [eapply add_frame_trans; eauto |].
  split.
  - intros H. rewrite (af_kind _ _ G), (af_kind _ _ F) in H.
    eapply quiet_frame; eauto.
  - exists label. rewrite (af_labels _ _ G). split; [assumption |].
    intros lid -> H. rewrite (af_kind _ _ G) in H. auto.
Qed.

Lemma add_widgets_body_quiet i b w :
  settled i b w -> add_widgets_body i b w = Ok tt w.
Proof.
  intros [Hb (label & Hl & Hq)].
  unfold add_widgets_body, bind at 1, if_isinstance at 1.
  assert (H1 : (if isinstance (Some b) MDFloatingBottomButton w
                then add_widget b w else Ok tt w) = Ok tt w).
  { destruct (isinstance (Some b) MDFloatingBottomButton w);
      [apply add_widget_noop; auto | reflexivity]. }
  rewrite H1. unfold bind, get, getitem. rewrite Hl. unfold ret at 1.
  unfold if_isinstance. destruct label as [lid |]; [| reflexivity].
  destruct (isinstance (Some lid) MDFloatingLabel w) eqn:Hk; [| reflexivity].
  apply add_widget_noop; auto.
Qed.

Lemma add_loop_ok bs : forall i w w1,
  for_enumerate add_widgets_body i bs w = Ok tt w1 ->
  add_frame w w1
  /\ forall k b, nth_error bs k = Some b -> settled (i + k) b w1.
Proof.
  induction bs as [| b bs IH]; intros i w w1; simpl.
  - intros [= <-]. split; [apply add_frame_refl |]. now intros [|].
  - unfold bind at 1.
    destruct (add_widgets_body i b w) as [[] w' | e w'] eqn:Hb; [| discriminate].
    intros Hrest. apply add_widgets_body_ok in Hb as [F S].
    apply IH in Hrest as [G Hall]. split; [eapply add_frame_trans; eauto |].
    intros [| k] c Hk.
    + injection Hk as <-. rewrite Nat.add_0_r. eapply settled_frame; eauto.
    + rewrite Nat.add_succ_r. apply (Hall k c Hk).
Qed.

Lemma add_loop_quiet bs : forall i w,
  (forall k b, nth_error bs k = Some b -> settled (i + k) b w) ->
  for_enumerate add_widgets_body i bs w = Ok tt w.
Proof.
  induction bs as [| b bs IH]; intros i w Hall; simpl; [reflexivity |].
  unfold bind. rewrite add_widgets_body_quiet.
  - apply IH. intros k c Hk. specialize (Hall (S k) c Hk).
    now rewrite Nat.add_succ_r in Hall.
  - specialize (Hall 0%nat b eq_refl). now rewrite Nat.add_0_r in Hall.
Qed.

Lemma window_consistent_added id w k :
  isinstance (Some id) k w = true -> has_parent id w = false ->
  window_consistent w -> window_consistent (added id w).
Proof.
  intros Hk Hp [Hnd Hch]. split; simpl.
  - constructor; [| assumption]. intros Hin. apply Hch in Hin. congruence.
  - intros j [<- | Hj].
    + eapply has_parent_added; eauto.
    + eapply has_parent_frame; [now apply add_frame_added | auto].
Qed.

Lemma guarded_add_consistent obj k w :
  window_consistent w ->
  wp (if_isinstance obj k add_widget) (fun _ => window_consistent)
     (fun _ => window_consistent) w.
Proof.
  intros C. unfold wp.
  destruct (guarded_add obj k w)
    as (w' & -> & _ & [-> | (id & -> & Hp & Hk & ->)] & _);
    [assumption |].
  eapply window_consistent_added; eauto.
Qed.

Lemma add_widgets_body_consistent i b w :
  window_consistent w ->
  wp (add_widgets_body i b) (fun _ => window_consistent)
     (fun _ => window_consistent) w.
Proof.
  intros C. unfold add_widgets_body. apply wp_bind.
  eapply wp_mono; [apply guarded_add_consistent; assumption | | auto].
  intros ? w' C'. unfold wp, bind, get, getitem.
  destruct (nth_error (_labels w') i) as [label |]; [| assumption].
  apply guarded_add_consistent; assumption.
Qed.

Lemma add_widgets_body_returns i b w :
  (i < List.length (_labels w))%nat ->
  wp (add_widgets_body i b) (fun _ w' => add_frame w w') no_exn w.
Proof.
  intros Hi. unfold wp, add_widgets_body, bind at 1.
  destruct (guarded_add (Some b) MDFloatingBottomButton w)
    as (w' & -> & F & _).
  unfold bind, get, getitem.
  destruct (nth_error (_labels w') i) as [label |] eqn:Hl.
  - unfold ret at 1.
    destruct (guarded_add label MDFloatingLabel w') as (w'' & -> & G & _).
    eapply add_frame_trans; eauto.
  - apply nth_error_None in Hl. rewrite (af_labels _ _ F) in Hl. lia.
Qed.

Lemma add_widgets_returns w :
  (List.length (_buttons w) <= List.length (_labels w))%nat ->
  wp add_widgets (fun _ w' => add_frame w w') no_exn w.
Proof.
  intros Hlen. unfold add_widgets. apply wp_bind. unfold wp at 1, get.
  apply (wp_for_enumerate add_widgets_body (fun w' => add_frame w w'));
    [| apply add_frame_refl].
  intros k b w' Hk F. simpl.
  eapply wp_mono; [apply add_widgets_body_returns | | auto].
  - rewrite (af_labels _ _ F).
    assert (k < List.length (_buttons w))%nat
      by (apply nth_error_Some; congruence).
    lia.
  - intros ? w'' G. eapply add_frame_trans; eauto.
Qed.

(** C10: [add_widget] acts only when the window reference is set and the
    widget has no parent, and then makes the window its parent; so
    [add_widgets] returns whenever every button has a label slot, running
    it again changes nothing, a widget that had a parent is left as it
    was, and no widget is listed twice among the window's children. *)
Theorem add_widgets_idempotent (w : World) :
  (forall id, quiet id w -> add_widget id w = Ok tt w)
  /\ (forall id w', add_widget id w = Ok tt w' -> w' <> w ->
        _window w = Some Window /\ has_parent id w = false
        /\ w' = added id w)
  /\ ((List.length (_buttons w) <= List.length (_labels w))%nat ->
      exists w1, add_widgets w = Ok tt w1)
  /\ (forall w1, add_widgets w = Ok tt w1 ->
        add_widgets w1 = Ok tt w1
        /\ (forall id, has_parent id w = true -> lookup id w1 = lookup id w)
        /\ (window_consistent w -> window_consistent w1)).
Proof.
  split; [intros id; apply add_widget_noop |]. split; [| split].
  - intros id w'. unfold add_widget, has_parent, bind, get, read.
    destruct (_window w) as [[] |]; [| intros [= <-]; congruence].
    destruct (lookup id w) as [o |]; [| discriminate].
    destruct (wparent o); [intros [= <-]; congruence |].
    intros [= <-] _. auto.
  - intros Hlen. pose proof (add_widgets_returns w Hlen) as H.
    apply wp_ok in H as ([] & w1 & H & _). eauto.
  - intros w1 Hrun. unfold add_widgets, bind, get in Hrun.
    pose proof (add_loop_ok _ _ _ _ Hrun) as [F Hall].
    split; [| split].
    + unfold add_widgets, bind, get. rewrite (af_buttons _ _ F).
      now apply add_loop_quiet.
    + apply F.
    + intros C.
      assert (H : wp (for_enumerate add_widgets_body 0 (_buttons w))
                    (fun _ => window_consistent)
                    (fun _ => window_consistent) w).
      { apply wp_for_enumerate; [| assumption].
        intros. now apply add_widgets_body_consistent. }
      unfold wp in H. now rewrite Hrun in H.
Qed.


(** * The open/close state machine *)

(** Creating an animation without callbacks and starting it registers it
    and runs nothing. *)
Lemma start_new_animation props d t tg w :
  (a <- new_animation props d t ;; Animation_start a tg) w =
  Ok tt (set_anims (anims w ++ [mkAnimation props d t [] [] [] [tg]]) w).
Proof.
  unfold bind, new_animation, Animation_start, bind, read_anim. simpl.
  rewrite nth_error_snoc. simpl. unfold update_anim, modify, ret. simpl.
  now rewrite update_nth_snoc.
Qed.

Lemma read_instance id k w :
  isinstance (Some id) k w = true ->
  exists o, read (Some id) w = Ok o w.
Proof.
  unfold isinstance, read. destruct (lookup id w); [eauto | discriminate].
Qed.

Lemma cancel_label_animations_state w :
  exists w', cancel_label_animations w = Ok tt w'
             /\ w' = set_anims (anims w') w.
Proof.
  assert (H : wp cancel_label_animations
                (fun _ w' => w' = set_anims (anims w') w) no_exn w).
  { unfold cancel_label_animations. wp_steps.
    apply (wp_for_each _ (fun w' => w' = set_anims (anims w') w));
      [| now destruct w].
    intros label w' _ I. apply wp_if_isinstance; [| auto].
    intros id _ _. unfold Animation_cancel_all. wp_steps.
    rewrite I at 2. reflexivity. }
  apply wp_ok in H as ([] & w' & H & I). eauto.
Qed.

Lemma close_stack_post w w' :
  close_stack w = Ok tt w' ->
  state w' = close /\ disabled w' = true
  /\ dispatched w' = dispatched w ++ ["on_close"].
Proof.
  intros H. wp_of H.
  unfold close_stack.
  do 8 wp_frame (fun w' => dispatched w' = dispatched w).
  unfold wp. simpl. intuition congruence.
Qed.

Lemma Animation_start_fresh aid tg w an :
  nth_error (anims w) aid = Some an -> is_running tg an = false ->
  a_on_start an = [] ->
  Animation_start aid tg w =
  Ok tt (set_anims (update_nth aid (fun a => set_a_widgets (a_widgets a ++ [tg]) a)
                      (anims w)) w).
Proof.
  intros Han Hrun Hstart. unfold Animation_start, bind, read_anim.
  rewrite Han, Hrun, Hstart. reflexivity.
Qed.

Lemma close_stack_body_returns p bl w :
  parent w = Some p ->
  wp (close_stack_body bl) (fun _ w' => parent w' = Some p) no_exn w.
Proof.
  intros Hp. unfold close_stack_body. wp_step.
  apply wp_if_isinstance.
  - intros button _ _. wp_steps. rewrite Hp. wp_steps.
    apply wp_if_isinstance; [| auto].
    intros label Hl Hk. rewrite Hl in Hk. wp_steps.
    match goal with
    | |- context [negb ?b] => destruct (negb b)
    end; wp_steps; assumption.
  - intros _. apply wp_if_isinstance; [| auto].
    intros label Hl Hk. rewrite Hl in Hk. wp_steps.
    match goal with
    | |- context [negb ?b] => destruct (negb b)
    end; wp_steps; assumption.
Qed.

Lemma close_stack_returns w :
  _window w = Some Window -> (parent w <> None \/ _buttons w = []) ->
  exists w', close_stack w = Ok tt w'.
Proof.
  intros Hw Hp.
  assert (H : wp close_stack (fun _ _ => True) no_exn w).
  { unfold close_stack. wp_step. unfold on_window. wp_steps. rewrite Hw.
    wp_steps. unfold update_anim, dispatch. wp_steps.
    destruct (parent w) as [p |] eqn:Ep.
    - eapply wp_mono;
        [apply (wp_for_each _ (fun w' => parent w' = Some p) no_exn)
        | intros; wp_steps; exact I | auto].
      + intros bl w' _ I. now apply close_stack_body_returns.
      + exact Ep.
    - destruct Hp as [Hp | Hb]; [congruence |]. simpl. rewrite Hb. simpl.
      wp_steps. exact I. }
  apply wp_ok in H as ([] & w' & H & _). eauto.
Qed.

Lemma open_stack_toggles w :
  state w = open ->
  open_stack w = (cancel_label_animations ;; close_stack) w.
Proof.
  intros Hs. unfold open_stack.
  change (bind cancel_label_animations ?k w) with
    (match cancel_label_animations w with
     | Ok a w' => k a w'
     | Raise e w' => Raise e w'
     end).
  destruct (cancel_label_animations_state w) as (w' & -> & E).
  change (bind (get state) ?k w') with (k (state w') w').
  cbv beta.
  assert (Hs' : state w' = state w) by (now rewrite E).
  now rewrite Hs', Hs.
Qed.

Lemma open_stack_post w w' :
  state w <> open -> open_stack w = Ok tt w' ->
  state w' = open /\ disabled w' = false
  /\ dispatched w' = dispatched w ++ ["on_open"].
Proof.
  intros Hs H. unfold open_stack in H.
  change (bind cancel_label_animations ?k w) with
    (match cancel_label_animations w with
     | Ok a w' => k a w'
     | Raise e w' => Raise e w'
     end) in H.
  destruct (cancel_label_animations_state w) as (w0 & E & E0).
  rewrite E in H.
  assert (Hd : dispatched w0 = dispatched w) by (now rewrite E0).
  assert (Hs' : state w0 = state w) by (now rewrite E0).
  rewrite <- Hd. rewrite <- Hs' in Hs. clear E E0 Hs' Hd w.
  change (bind (get state) ?k w0) with (k (state w0) w0) in H.
  cbv beta in H.
  destruct (state w0); [| congruence]. simpl negb in H. cbv iota in H.
  wp_of H.
  do 7 wp_frame (fun w' => dispatched w' = dispatched w0).
  unfold dispatch. wp_steps.
  match goal with
  | |- wp _ _ _ ?w1 => remember w1 as w2 eqn:Ew
  end.
  assert (I : state w2 = open /\ disabled w2 = false
              /\ dispatched w2 = dispatched w0 ++ ["on_open"])
    by (subst w2; simpl; intuition congruence).
  clear Ew.
  wp_call (fun w' => state w' = open /\ disabled w' = false
             /\ dispatched w' = dispatched w0 ++ ["on_open"]).
  wp_steps.
  wp_call (fun w' => state w' = open /\ disabled w' = false
             /\ dispatched w' = dispatched w0 ++ ["on_open"]).
  assumption.
Qed.

Lemma plain_animation_extend aid l w w' :
  anims w' = anims w ++ l -> plain_animation aid w -> plain_animation aid w'.
Proof.
  intros Hl (an & Han & H). exists an. split; [| exact H].
  rewrite Hl, nth_error_app1; [exact Han |]. apply nth_error_Some. congruence.
Qed.

Lemma plain_data_extend d l w w' :
  anims w' = anims w ++ l -> plain_data d w -> plain_data d w'.
Proof. intros Hl H k a Hin. eapply plain_animation_extend; eauto. Qed.

Lemma plain_animation_at l an l' w :
  anims w = l ++ an :: l' -> a_on_start an = [] -> a_on_complete an = [] ->
  plain_animation (List.length l) w.
Proof.
  intros Hl H1 H2. exists an. rewrite Hl, nth_error_app2, Nat.sub_diag; auto.
Qed.

Lemma In_dict_set k a k' a' (d : list (nat * nat)) :
  In (k, a) (dict_set k' a' d) -> (k, a) = (k', a') \/ In (k, a) d.
Proof.
  induction d as [| [k0 a0] d IH]; simpl.
  - intros [H | []]; auto.
  - destruct (Nat.eqb k0 k'); simpl; intros [H | H]; auto.
    apply IH in H. tauto.
Qed.

Lemma plain_data_set k a d w :
  plain_animation a w -> plain_data d w -> plain_data (dict_set k a d) w.
Proof.
  intros Ha H k' a' Hin. apply In_dict_set in Hin as [[= -> ->] | Hin].
  - exact Ha.
  - eapply H; eauto.
Qed.

Lemma wp_getitem {A} (l : list A) i (Q : A -> World -> Prop) E w :
  (i < List.length l)%nat ->
  (forall a, nth_error l i = Some a -> Q a w) -> wp (getitem l i) Q E w.
Proof.
  intros Hi HQ. unfold wp, getitem.
  destruct (nth_error l i) eqn:Hn; [now apply HQ |].
  apply nth_error_None in Hn. lia.
Qed.

Lemma loop_ok_heap n acc v w : loop_ok n acc w -> loop_ok n acc (set_heap v w).
Proof. exact (fun H => H). Qed.

Ltac plain :=
  repeat first
    [ assumption
    | apply plain_data_set
    | eapply plain_data_extend;
      [simpl; rewrite <- ?app_assoc; reflexivity | assumption]
    | eapply plain_animation_at;
      [first [simpl; reflexivity
             | simpl; rewrite <- app_assoc; simpl; reflexivity]
      | reflexivity | reflexivity] ].

Ltac loop_done :=
  wp_steps; unfold loop_ok; simpl;
  repeat match goal with
         | H : _ = _ :> list _ |- _ => rewrite H
         end;
  repeat split; try assumption; try solve [plain].

Lemma open_stack_body_returns n i button acc w :
  (i < n)%nat -> loop_ok n acc w ->
  wp (open_stack_body i button acc) (loop_ok n) no_exn w.
Proof.
  intros Hi (Hl & Hp & Hab & Hal & Hsb & Hsl). unfold open_stack_body.
  wp_steps. destruct (isinstance (Some button) MDFloatingBottomButton w) eqn:Hk;
    [| wp_steps; repeat split; assumption].
  wp_steps.
  destruct (_local_positions w) as [| q qs] eqn:Eq; [simpl in Hp; lia |].
  simpl negb. cbv iota. wp_steps. unfold update. wp_steps.
  simpl (_anim_buttons_data _). simpl (cfg _).
  destruct (_anim_buttons_data w) as [| x xs] eqn:Eb; simpl negb; cbv iota;
    wp_steps; simpl (_labels _);
    (apply wp_getitem; [lia | intros label Hlabel]); wp_steps;
    (destruct label as [lid |]; [| loop_done]);
    kinds;
    (match goal with
     | |- context [isinstance (Some ?l) MDFloatingLabel w] =>
         destruct (isinstance (Some l) MDFloatingLabel w) eqn:Hkl
     end; [| loop_done]); wp_steps; simpl (_anim_labels_data _);
    (destruct (_anim_labels_data w) as [| z zs] eqn:El; simpl negb; cbv iota;
    loop_done).
Qed.

Lemma wp_and {A} (m : M A) (Q1 Q2 : A -> World -> Prop)
    (E1 E2 : Exn -> World -> Prop) w :
  wp m Q1 E1 w -> wp m Q2 E2 w ->
  wp m (fun a w' => Q1 a w' /\ Q2 a w') (fun e w' => E1 e w' /\ E2 e w') w.
Proof. unfold wp. destruct (m w); auto. Qed.

Lemma wp_update_anim_last l an f (Q : unit -> World -> Prop) E w :
  anims w = l ++ [an] -> Q tt (set_anims (l ++ [f an]) w) ->
  wp (update_anim (List.length l) f) Q E w.
Proof.
  intros Hl HQ. unfold wp, update_anim, modify.
  now rewrite Hl, update_nth_snoc.
Qed.

Lemma wp_Animation_start_last l an tg (Q : unit -> World -> Prop) E w :
  anims w = l ++ [an] -> is_running tg an = false ->
  wp (for_each run_animation_callback (a_on_start an)) Q E
     (set_anims (l ++ [set_a_widgets (a_widgets an ++ [tg]) an]) w) ->
  wp (Animation_start (List.length l) tg) Q E w.
Proof.
  intros Hl Hrun HQ. unfold Animation_start. wp_step.
  unfold wp at 1, read_anim. rewrite Hl, nth_error_snoc, Hrun.
  wp_steps. unfold update_anim. wp_steps. simpl.
  now rewrite Hl, update_nth_snoc.
Qed.

Lemma set_anims_same w : w = set_anims (anims w) w.
Proof. now destruct w. Qed.

Lemma anim_step_refl w : anim_step w w.
Proof. split; [apply set_anims_same | eauto]. Qed.

Lemma anim_step_trans w1 w2 w3 :
  anim_step w1 w2 -> anim_step w2 w3 -> anim_step w1 w3.
Proof.
  intros [E1 H1] [E2 H2]. split.
  - rewrite E2 at 1. rewrite E1. reflexivity.
  - intros i an Han. apply H1 in Han as (an' & Han' & S1 & C1).
    apply H2 in Han' as (an'' & Han'' & S2 & C2).
    exists an''. repeat split; congruence.
Qed.

Lemma anim_step_update aid f w :
  (forall a, a_on_start (f a) = a_on_start a
             /\ a_on_complete (f a) = a_on_complete a) ->
  anim_step w (set_anims (update_nth aid f (anims w)) w).
Proof.
  intros Hf. split; [reflexivity |]. intros i an Han. simpl.
  rewrite nth_error_update_nth, Han. destruct (Nat.eqb aid i); simpl.
  - exists (f an). split; [reflexivity | apply Hf].
  - eauto.
Qed.

Lemma plain_animation_step a w w' :
  anim_step w w' -> plain_animation a w -> plain_animation a w'.
Proof.
  intros [_ H] (an & Han & S & C).
  apply H in Han as (an' & Han' & S' & C'). exists an'.
  repeat split; congruence.
Qed.

Lemma plain_data_step d w w' :
  anim_step w w' -> plain_data d w -> plain_data d w'.
Proof.
  intros H Hd k a Hin. eapply plain_animation_step; eauto.
Qed.

Lemma Animation_start_plain aid tg w :
  plain_animation aid w ->
  wp (Animation_start aid tg) (fun _ w' => anim_step w w') no_exn w.
Proof.
  intros (an & Han & Hs & Hc). unfold Animation_start. wp_step.
  unfold wp at 1, read_anim. rewrite Han, Hs, Hc.
  destruct (is_running tg an); unfold update_anim; wp_steps; simpl.
  - eapply anim_step_trans; [apply (anim_step_update aid (stop_on tg)) |];
      [now split |].
    match goal with
    | |- anim_step ?w1 _ =>
        apply (anim_step_update aid
                 (fun a => set_a_widgets (a_widgets a ++ [tg]) a) w1)
    end.
    now split.
  - apply (anim_step_update aid
             (fun a => set_a_widgets (a_widgets a ++ [tg]) a) w).
    now split.
Qed.

Lemma plain_data_anims d w w' :
  anims w' = anims w -> plain_data d w -> plain_data d w'.
Proof.
  intros Ha. apply (plain_data_extend d []). now rewrite app_nil_r.
Qed.

Lemma animation_open_stack_returns data w :
  plain_data data w ->
  wp (animation_open_stack (List.length (iters w)))
     (fun _ w' => animation_frame w w') no_exn
     (set_iters (iters w ++ [mkIter data (map fst data)]) w).
Proof.
  intros Hd. unfold animation_open_stack. wp_steps. simpl iters.
  rewrite nth_error_snoc. simpl it_rest. simpl it_data.
  destruct data as [| [k a] rest]; simpl map; cbv iota.
  - wp_steps. repeat split. auto.
  - wp_steps. simpl dict_get_id. rewrite Nat.eqb_refl.
    unfold update_anim. wp_steps.
    match goal with
    | |- wp _ _ _ (set_anims (update_nth a ?f _) ?w0) =>
        assert (S1 : anim_step w0 (set_anims (update_nth a f (anims w0)) w0))
          by (apply anim_step_update; now split);
        assert (P1 : plain_animation a w0) by (eapply Hd; now left)
    end.
    eapply wp_mono;
      [apply Animation_start_plain; eapply plain_animation_step; eauto
      | | auto].
    intros ? w' S2. cbv beta.
    pose proof (anim_step_trans _ _ _ S1 S2) as [E S].
    repeat split; try (rewrite E; reflexivity).
    intros d Hp. eapply plain_data_step; [split; [exact E | exact S] |].
    exact Hp.
Qed.

Lemma do_animation_open_stack_returns data w :
  _window w = Some Window ->
  (List.length (_buttons w) <= List.length (_labels w))%nat ->
  plain_data data w ->
  wp (do_animation_open_stack data) (fun _ w' => animation_frame w w')
     no_exn w.
Proof.
  intros Hw Hlen Hd. unfold do_animation_open_stack, on_window.
  wp_steps. rewrite Hw. wp_steps.
  eapply wp_update_anim_last; [reflexivity |]. wp_step.
  eapply wp_update_anim_last; [reflexivity |]. wp_step.
  eapply wp_Animation_start_last; [reflexivity | reflexivity |].
  simpl. wp_step.
  match goal with |- wp _ _ _ ?W => remember W as w2 eqn:E2 end.
  assert (F2 : _window w2 = _window w /\ _buttons w2 = _buttons w
               /\ _labels w2 = _labels w
               /\ _anim_labels_data w2 = _anim_labels_data w
               /\ exists x, anims w2 = anims w ++ [x])
    by (subst w2; simpl; repeat split; eexists; reflexivity).
  clear E2. destruct F2 as (W2 & B2 & L2 & D2 & x & A2).
  assert (K : preserves (fun w' => anims w' = anims w2
                           /\ _anim_labels_data w' = _anim_labels_data w2)
                add_widgets)
    by pres.
  eapply wp_mono;
    [apply wp_and; [apply add_widgets_returns | apply K; now split] | |].
  - now rewrite B2, L2.
  - intros [] w3 [F3 [A3 D3]]. wp_steps.
    change (wp (animation_open_stack (List.length (iters w3)))
              (fun _ w' => animation_frame w w') no_exn
              (set_iters (iters w3 ++ [mkIter data (map fst data)]) w3)).
    assert (P3 : forall d, plain_data d w -> plain_data d w3).
    { intros d Hp. eapply plain_data_extend; [| exact Hp].
      rewrite A3, A2. reflexivity. }
    eapply wp_mono; [apply animation_open_stack_returns; auto | | auto].
    intros ? w4 (W4 & B4 & L4 & D4 & P4). cbv beta. repeat split.
    + now rewrite W4, (af_window _ _ F3).
    + now rewrite B4, (af_buttons _ _ F3).
    + now rewrite L4, (af_labels _ _ F3).
    + congruence.
    + auto.
  - intros e w' [[] _].
Qed.

Lemma animation_frame_trans w1 w2 w3 :
  animation_frame w1 w2 -> animation_frame w2 w3 -> animation_frame w1 w3.
Proof.
  intros (W & B & L & D & P) (W' & B' & L' & D' & P').
  repeat split; try congruence. auto.
Qed.

Lemma anim_step_map f w :
  (forall a, a_on_start (f a) = a_on_start a
             /\ a_on_complete (f a) = a_on_complete a) ->
  anim_step w (set_anims (map f (anims w)) w).
Proof.
  intros Hf. split; [reflexivity |]. intros i an Han. simpl.
  rewrite nth_error_map, Han. simpl. exists (f an).
  split; [reflexivity | apply Hf].
Qed.

Lemma stack_ok_step w w' : anim_step w w' -> stack_ok w -> stack_ok w'.
Proof.
  intros S [L P KB KL B A]. pose proof S as [E _]. constructor.
  - rewrite E. exact L.
  - rewrite E. exact P.
  - rewrite E. exact KB.
  - rewrite E. exact KL.
  - eapply plain_data_step; [exact S |]. rewrite E. exact B.
  - eapply plain_data_step; [exact S |]. rewrite E. exact A.
Qed.

Lemma cancel_label_animations_ok w :
  stack_ok w ->
  wp cancel_label_animations
     (fun _ w' => stack_ok w' /\ state w' = state w
                  /\ parent w' = parent w)
     no_exn w.
Proof.
  intros Hok. unfold cancel_label_animations. wp_steps.
  apply (wp_for_each _ (fun w' => stack_ok w' /\ state w' = state w
                         /\ parent w' = parent w)); [| auto].
  intros label w' _ (Hok' & Hs & Hp). apply wp_if_isinstance; [| auto].
  intros id _ _. unfold Animation_cancel_all. wp_steps.
  split; [| now split].
  eapply stack_ok_step; [| exact Hok'].
  apply (anim_step_map (stop_on (TWidget id))). now split.
Qed.

Lemma open_stack_returns w :
  stack_ok w -> state w <> open -> get_root_window w = Some Window ->
  exists w', open_stack w = Ok tt w'.
Proof.
  intros Hok Hs Hr.
  assert (H : wp open_stack (fun _ _ => True) no_exn w).
  { unfold open_stack. wp_step.
    eapply wp_mono; [apply cancel_label_animations_ok; exact Hok | | auto].
    intros [] w0 (Hok0 & Hs0 & Hp0). wp_steps.
    destruct (state w0) eqn:Es; [| congruence]. simpl negb. cbv iota.
    wp_steps. simpl (_buttons _).
    set (w1 := set__window (get_root_window w0) w0).
    set (n := List.length (_buttons w0)).
    assert (K : preserves (fun w' => _window w' = Some Window
                             /\ _buttons w' = _buttons w0)
                  (for_enumerate_acc open_stack_body 0 (_buttons w0)
                     (mkLocals
                        (30 * _direction_vals_stack
                                (stack_button_direction (cfg w0))) [] [])))
      by pres.
    eapply wp_mono;
      [apply wp_and;
       [apply (wp_for_enumerate_acc open_stack_body (loop_ok n) no_exn)
       | apply K] | |].
    - intros k b s w' Hk Hl. apply open_stack_body_returns; [| exact Hl].
      apply nth_error_Some. simpl. congruence.
    - destruct Hok0 as [L P _ _ B A]. unfold loop_ok, n. simpl.
      repeat split; auto; intros ? ? [].
    - subst w1. simpl. unfold get_root_window in *. rewrite Hp0.
      split; [exact Hr | reflexivity].
    - intros acc w2 [(Hl & Hp & Hab & Hal & Hsb & Hsl) [Hw2 Hb2]].
      wp_steps.
      destruct (truthy (l_anim_buttons_data acc)); wp_steps;
        (match goal with
         | |- context [truthy ?l && negb ?h] => destruct (truthy l && negb h)
         end);
        unfold dispatch; wp_steps;
        (match goal with
         | |- wp _ _ _ ?W => remember W as w3 eqn:E3
         end;
         assert (F3 : _window w3 = Some Window
                      /\ (List.length (_buttons w3)
                          <= List.length (_labels w3))%nat
                      /\ plain_data (_anim_buttons_data w3) w3
                      /\ plain_data (_anim_labels_data w3) w3)
           by (subst w3; simpl; rewrite Hb2, Hl; unfold n; auto);
         clear E3; destruct F3 as (W3 & L3 & B3 & A3);
         eapply wp_mono;
           [apply do_animation_open_stack_returns; assumption | | auto];
         intros ? w4 (W4 & B4 & L4 & D4 & P4); wp_steps;
         eapply wp_mono;
           [apply do_animation_open_stack_returns | | auto];
           [congruence | rewrite B4, L4; exact L3 | | auto];
         rewrite D4; apply P4; exact A3).
    - intros e w' [[] _]. }
  apply wp_ok in H as ([] & w' & H & _). eauto.
Qed.

(** C2: [open_stack] on an open stack is [close_stack] (after the labels'
    animations are cancelled) and closes it; [close_stack] sets [state] to
    [close], [disabled] to [True] and dispatches [on_close], and returns
    whenever the window reference and the parent are set; [open_stack] on
    a stack that is not open sets [state] to [open], [disabled] to [False]
    and dispatches [on_open], and returns whenever the stack is aligned and
    the parent is in a window. *)
Theorem open_close_state_machine (w : World) :
  (state w = open ->
   open_stack w = (cancel_label_animations ;; close_stack) w)
  /\ (state w = open -> _window w = Some Window -> parent w <> None ->
      exists w', open_stack w = Ok tt w' /\ state w' = close)
  /\ (forall w', close_stack w = Ok tt w' ->
        state w' = close /\ disabled w' = true
        /\ dispatched w' = dispatched w ++ ["on_close"])
  /\ (_window w = Some Window -> parent w <> None \/ _buttons w = [] ->
      exists w', close_stack w = Ok tt w')
  /\ (state w <> open -> forall w', open_stack w = Ok tt w' ->
        state w' = open /\ disabled w' = false
        /\ dispatched w' = dispatched w ++ ["on_open"])
  /\ (state w <> open -> stack_ok w -> get_root_window w = Some Window ->
      exists w', open_stack w = Ok tt w').
Proof.
  split; [apply open_stack_toggles |]. split; [| split; [| split; [| split]]].
  - intros Hs Hw Hp. rewrite (open_stack_toggles w Hs).
    unfold bind.
    destruct (cancel_label_animations_state w) as (w0 & -> & E).
    destruct (close_stack_returns w0) as [w' H].
    + now rewrite E.
    + left. now rewrite E.
    + exists w'. split; [exact H |]. now apply close_stack_post in H.
  - apply close_stack_post.
  - apply close_stack_returns.
  - intros Hs w'. now apply open_stack_post.
  - intros Hs Hok Hr. now apply open_stack_returns.
Qed.

Lemma stack_ok_example_closed : stack_ok example_closed.
Proof.
  constructor; try (vm_compute; reflexivity).
  - intros b Hin. vm_compute in Hin.
    destruct Hin as [<- | [<- | []]]; vm_compute; reflexivity.
  - intros l Hin. vm_compute in Hin.
    destruct Hin as [[= <-] | [[= <-] | []]]; vm_compute; reflexivity.
  - intros k a Hin. vm_compute in Hin. destruct Hin.
  - intros k a Hin. vm_compute in Hin. destruct Hin.
Qed.

Lemma open_close_state_machine_witness :
  exists w', open_stack example_closed = Ok tt w'.
Proof.
  apply (open_close_state_machine example_closed).
  - vm_compute. discriminate.
  - exact stack_ok_example_closed.
  - vm_compute. reflexivity.
Defined.

(** * Attaching to a parent *)

Lemma pos_frame_refl w : pos_frame w w.
Proof. repeat split. Qed.

Lemma index_from_lt {A} (eqb : A -> A -> bool) v (l : list A) :
  (forall a, eqb a a = true) -> In v l ->
  exists k, index_from eqb v l 0 = Some k /\ (k < List.length l)%nat.
Proof.
  intros Hrefl Hin. destruct (index_from_In eqb v l Hrefl Hin 0%nat) as [k Hk].
  exists k. split; [exact Hk |]. apply index_from_bound in Hk. lia.
Qed.

Lemma set_pos_bottom_buttons_returns w0 button w :
  pos_frame w0 w -> parent w <> None -> In button (_buttons w) ->
  (List.length (_buttons w) <= List.length (_local_positions w))%nat ->
  wp (set_pos_bottom_buttons button) (fun _ w' => pos_frame w0 w') no_exn w.
Proof.
  intros (B & L & P & R & K) Hp Hin Hlen. unfold set_pos_bottom_buttons.
  wp_steps. destruct (parent w) as [p |] eqn:Ep; [| congruence].
  unfold update. wp_steps. simpl _buttons. unfold list_index.
  destruct (index_from_lt Nat.eqb button (_buttons w) Nat.eqb_refl Hin)
    as (i & -> & Hi).
  wp_steps. simpl _local_positions.
  apply wp_getitem; [lia | intros off Hoff]. wp_steps.
  repeat split; try (intros; kinds; apply K); simpl; try assumption;
    congruence.
Qed.

Lemma set_pos_labels_returns w0 label w :
  pos_frame w0 w -> parent w <> None -> In (Some label) (_labels w) ->
  isinstance (Some label) MDFloatingLabel w = true ->
  (List.length (_labels w) <= List.length (_local_positions w))%nat ->
  wp (set_pos_labels label) (fun _ w' => pos_frame w0 w') no_exn w.
Proof.
  intros (B & L & P & R & K) Hp Hin Hk Hlen. unfold set_pos_labels.
  wp_steps.
  assert (Fin : wp (if _widget_declaration_finished w
                    then Window_unbind "on_draw" CbUpdatePosButtons ;;
                         modify (set__widget_declaration_finished false)
                    else ret tt)
                  (fun _ w' => pos_frame w0 w' /\ parent w' = parent w
                               /\ _labels w' = _labels w
                               /\ _local_positions w' = _local_positions w
                               /\ isinstance (Some label) MDFloatingLabel w'
                                  = true)
                  no_exn w).
  { destruct (_widget_declaration_finished w); unfold Window_unbind;
      wp_steps; repeat split; assumption. }
  eapply wp_mono; [exact Fin | | auto]. clear Fin.
  intros _ w1 ((B1 & L1 & P1 & R1 & K1) & Ep & El & Eq & Hk1). wp_steps.
  destruct (parent w1) as [p |] eqn:Ep1; [| congruence].
  unfold update. wp_steps. simpl _labels. unfold list_index.
  rewrite <- El in Hin.
  destruct (index_from_lt Ref_eqb (Some label) (_labels w1) Ref_eqb_refl Hin)
    as (i & -> & Hi).
  wp_steps. simpl _local_positions.
  apply wp_getitem; [rewrite Eq; rewrite El in Hi; lia | intros off Hoff].
  wp_steps.
  repeat split; try (intros; kinds; apply K1); simpl; try assumption;
    congruence.
Qed.

Lemma kind_exclusive obj w :
  isinstance obj MDFloatingLabel w = true ->
  isinstance obj MDFloatingBottomButton w = false.
Proof.
  unfold isinstance. destruct obj as [id |]; [| discriminate].
  destruct (lookup id w) as [o |]; [| discriminate]. now destruct (kind o).
Qed.

Lemma _update_pos_buttons_returns w :
  stack_ok w -> parent w <> None ->
  wp _update_pos_buttons (fun _ w' => pos_frame w w') no_exn w.
Proof.
  intros [L P KB KL _ _] Hp. unfold _update_pos_buttons. wp_steps.
  apply (wp_for_each _ (fun w' => pos_frame w w')); [| apply pos_frame_refl].
  intros widget w' Hin F. pose proof F as (B' & L' & P' & R' & K').
  unfold _update_pos_buttons_body. wp_steps. rewrite K'.
  apply in_app_or in Hin as [Hin | Hin].
  - apply in_map_iff in Hin as (b & <- & Hb). rewrite (KB b Hb).
    apply wp_if_isinstance; [| auto]. intros id [= <-] _.
    apply set_pos_bottom_buttons_returns; try assumption; try congruence.
    rewrite B', P'. lia.
  - destruct widget as [l |].
    + rewrite (kind_exclusive _ _ (KL l Hin)).
      apply wp_if_isinstance; [| auto]. intros id [= <-] Hk.
      apply set_pos_labels_returns; try assumption; try congruence.
      rewrite L', P'. lia.
    + simpl. now apply wp_if_isinstance.
Qed.

Lemma In_bind_cb cb l : In cb (bind_cb cb l).
Proof.
  unfold bind_cb.
  destruct (existsb (fun c => if Callback_eq_dec cb c then true else false) l)
    eqn:He.
  - apply existsb_exists in He as (c & Hin & Hc).
    destruct (Callback_eq_dec cb c); [now subst | discriminate].
  - apply in_or_app. right. now left.
Qed.

Lemma stack_ok_set_parent v w : stack_ok w -> stack_ok (set_parent v w).
Proof. intros [L P KB KL B A]. now constructor. Qed.

(** C6: attaching raises the configuration error when the parent lacks
    [on_release] or [on_press], and only then; a capable parent gets
    [open_stack] bound to its [on_release], and no error is raised. *)
Theorem attach_raises_iff_not_button (w : World) (p : option Parent) :
  (is_button_like p = false ->
   attach p w = Raise parent_error (set_parent p w))
  /\ (is_button_like p = true ->
      forall e w', attach p w = Raise e w' -> e <> parent_error)
  /\ (is_button_like p = true -> stack_ok w ->
      exists w' q, attach p w = Ok tt w' /\ parent w' = Some q
                   /\ In CbOpenStack (p_on_release q)).
Proof.
  split; [| split].
  - intros Hp. unfold attach, on_parent, bind, modify. now rewrite Hp.
  - intros Hp e w' H.
    assert (K : keeps (fun _ => True) (fun e => e <> parent_error)
                  (attach p)).
    { unfold attach, on_parent. rewrite Hp. pres. }
    specialize (K w I). unfold wp in K. rewrite H in K. apply K.
  - intros Hp Hok. destruct p as [q |]; [| discriminate].
    set (q' := set_p_on_release (bind_cb CbOpenStack (p_on_release q)) q).
    assert (H : wp (attach (Some q))
                  (fun _ w' => parent w' = Some q') no_exn w).
    { unfold attach, on_parent. rewrite Hp. wp_steps. simpl parent.
      cbv iota. wp_steps.
      eapply wp_mono;
        [apply _update_pos_buttons_returns | | auto].
      - now repeat apply stack_ok_set_parent.
      - discriminate.
      - intros ? w' (_ & _ & _ & R & _). exact R. }
    apply wp_ok in H as ([] & w' & H & R). exists w', q'.
    repeat split; try assumption. apply In_bind_cb.
Qed.

Lemma attach_raises_iff_not_button_witness :
  exists w' q, attach (Some example_parent) (init example_config (800, 600))
               = Ok tt w'
               /\ parent w' = Some q /\ In CbOpenStack (p_on_release q).
Proof.
  apply (attach_raises_iff_not_button (init example_config (800, 600))
           (Some example_parent)).
  - reflexivity.
  - constructor; try reflexivity.
    + intros b [].
    + intros l [].
    + intros k a [].
    + intros k a [].
Defined.

(** * Rebuilding the stack *)

Lemma remove_frame_refl w : remove_frame w w.
Proof. now constructor. Qed.

Lemma remove_frame_trans w1 w2 w3 :
  remove_frame w1 w2 -> remove_frame w2 w3 -> remove_frame w1 w3.
Proof.
  intros F G. constructor.
  - rewrite (rf_buttons _ _ G). apply F.
  - rewrite (rf_labels _ _ G). apply F.
  - rewrite (rf_window _ _ G). apply F.
  - intros. rewrite (rf_kind _ _ G). apply F.
  - intros id H. apply (rf_children _ _ F), (rf_children _ _ G), H.
  - intros H. apply (rf_nodup _ _ G), (rf_nodup _ _ F), H.
Qed.

Lemma In_remove_first id j l : In j (remove_first id l) -> In j l.
Proof.
  induction l as [| a l IH]; simpl; [auto |].
  destruct (Nat.eqb a id); simpl; intuition.
Qed.

Lemma NoDup_remove_first id l : NoDup l -> NoDup (remove_first id l).
Proof.
  induction 1 as [| a l Ha Hl IH]; simpl; [constructor |].
  destruct (Nat.eqb a id); [assumption |].
  constructor; [| assumption]. intros H. apply Ha. eapply In_remove_first, H.
Qed.

Lemma remove_first_gone id l : NoDup l -> ~ In id (remove_first id l).
Proof.
  induction 1 as [| a l Ha Hl IH]; simpl; [auto |].
  destruct (Nat.eqb_spec a id) as [-> | Hne]; [assumption |].
  simpl. intuition.
Qed.

(** [if isinstance(obj, k): self.remove_widget(obj)] always returns; with
    the window reference set, [obj] is no child of the window afterwards. *)
Lemma guarded_remove obj k w :
  exists w', if_isinstance obj k remove_widget w = Ok tt w'
    /\ remove_frame w w'
    /\ forall id, obj = Some id -> isinstance obj k w = true ->
                  _window w = Some Window ->
                  NoDup (children (window w)) ->
                  ~ In id (children (window w')).
Proof.
  unfold if_isinstance. destruct obj as [id |].
  2:{ exists w. split; [reflexivity |]. split; [apply remove_frame_refl |].
      discriminate. }
  destruct (isinstance (Some id) k w) eqn:Hk.
  2:{ exists w. split; [reflexivity |]. split; [apply remove_frame_refl |].
      discriminate. }
  unfold remove_widget, bind, get. destruct (_window w) as [[] |] eqn:Hw.
  2:{ exists w. split; [reflexivity |]. split; [apply remove_frame_refl |].
      discriminate. }
  unfold Window_remove_widget, bind, get.
  destruct (existsb (Nat.eqb id) (children (window w))) eqn:Hin.
  - eexists. split; [reflexivity |]. split.
    + constructor; try reflexivity; simpl.
      * intros obj k'. unfold update, modify. simpl.
        apply (isinstance_update obj k' id (set_wparent None)
                 (set_window
                    (set_children (remove_first id (children (window w)))
                       (window w)) w)).
        reflexivity.
      * intros j. apply In_remove_first.
      * apply NoDup_remove_first.
    + intros ? [= <-] _ _ Hnd. simpl. now apply remove_first_gone.
  - exists w. split; [reflexivity |]. split; [apply remove_frame_refl |].
    intros ? [= <-] _ _ _ H.
    assert (existsb (Nat.eqb id) (children (window w)) = true); [| congruence].
    apply existsb_exists. exists id. split; [exact H | apply Nat.eqb_refl].
Qed.

Lemma remove_widgets_body_ok i b w w1 :
  remove_widgets_body i b w = Ok tt w1 ->
  remove_frame w w1
  /\ (_window w = Some Window -> NoDup (children (window w)) ->
      (isinstance (Some b) MDFloatingBottomButton w = true ->
       ~ In b (children (window w1)))
      /\ forall l, nth_error (_labels w) i = Some (Some l) ->
                   isinstance (Some l) MDFloatingLabel w = true ->
                   ~ In l (children (window w1))).
Proof.
  unfold remove_widgets_body, bind at 1.
  destruct (guarded_remove (Some b) MDFloatingBottomButton w)
    as (w' & -> & F & Hb).
  unfold bind, get, getitem.
  destruct (nth_error (_labels w') i) as [label |] eqn:Hl; [| discriminate].
  unfold ret at 1.
  destruct (guarded_remove label MDFloatingLabel w') as (w'' & -> & G & Hg).
  intros [= <-]. split; [eapply remove_frame_trans; eauto |].
  intros Hw Hnd. split.
  - intros Hk Hin. apply (rf_children _ _ G) in Hin.
    now apply (Hb b eq_refl Hk Hw Hnd).
  - intros l Hl' Hk. rewrite (rf_labels _ _ F) in Hl. rewrite Hl' in Hl.
    injection Hl as <-. apply (Hg l eq_refl).
    + now rewrite (rf_kind _ _ F).
    + now rewrite (rf_window _ _ F).
    + now apply (rf_nodup _ _ F).
Qed.

Lemma remove_loop_ok bs : forall i w w1,
  for_enumerate remove_widgets_body i bs w = Ok tt w1 ->
  remove_frame w w1
  /\ (_window w = Some Window -> NoDup (children (window w)) ->
      forall k b, nth_error bs k = Some b ->
        (isinstance (Some b) MDFloatingBottomButton w = true ->
         ~ In b (children (window w1)))
        /\ forall l, nth_error (_labels w) (i + k) = Some (Some l) ->
                     isinstance (Some l) MDFloatingLabel w = true ->
                     ~ In l (children (window w1))).
Proof.
  induction bs as [| b bs IH]; intros i w w1; simpl.
  - intros [= <-]. split; [apply remove_frame_refl |]. now intros _ _ [|].
  - unfold bind at 1.
    destruct (remove_widgets_body i b w) as [[] w' | e w'] eqn:Hb;
      [| discriminate].
    intros Hrest. apply remove_widgets_body_ok in Hb as [F Hb].
    apply IH in Hrest as [G Hall].
    split; [eapply remove_frame_trans; eauto |].
    intros Hw Hnd [| k] c Hk.
    + injection Hk as <-. rewrite Nat.add_0_r.
      destruct (Hb Hw Hnd) as [H1 H2]. split.
      * intros Hkd Hin. apply (rf_children _ _ G) in Hin. now apply H1.
      * intros l Hl Hkd Hin. apply (rf_children _ _ G) in Hin.
        now apply (H2 l).
    + rewrite Nat.add_succ_r.
      assert (Hw' : _window w' = Some Window)
        by (now rewrite (rf_window _ _ F)).
      destruct (Hall Hw' (rf_nodup _ _ F Hnd) k c Hk) as [H1 H2]. split.
      * intros Hkd. apply H1. now rewrite (rf_kind _ _ F).
      * intros l Hl Hkd. apply (H2 l).
        -- now rewrite (rf_labels _ _ F).
        -- now rewrite (rf_kind _ _ F).
Qed.

Lemma remove_widgets_body_returns w0 i b w :
  remove_frame w0 w -> (i < List.length (_labels w))%nat ->
  wp (remove_widgets_body i b) (fun _ w' => remove_frame w0 w') no_exn w.
Proof.
  intros F0 Hi. unfold wp, remove_widgets_body, bind at 1.
  destruct (guarded_remove (Some b) MDFloatingBottomButton w)
    as (w' & -> & F & _).
  unfold bind, get, getitem.
  destruct (nth_error (_labels w') i) as [label |] eqn:Hl.
  - unfold ret at 1.
    destruct (guarded_remove label MDFloatingLabel w') as (w'' & -> & G & _).
    eapply remove_frame_trans; [exact F0 |].
    eapply remove_frame_trans; eauto.
  - apply nth_error_None in Hl. rewrite (rf_labels _ _ F) in Hl. lia.
Qed.

Lemma remove_widgets_returns w :
  (List.length (_buttons w) <= List.length (_labels w))%nat ->
  wp remove_widgets (fun _ w' => remove_frame w w') no_exn w.
Proof.
  intros Hlen. unfold remove_widgets. wp_steps.
  apply (wp_for_enumerate remove_widgets_body (fun w' => remove_frame w w'));
    [| apply remove_frame_refl].
  intros k b w' Hk F. simpl. apply remove_widgets_body_returns; [exact F |].
  rewrite (rf_labels _ _ F).
  assert (k < List.length (_buttons w))%nat
    by (apply nth_error_Some; congruence).
  lia.
Qed.

(** After [remove_widgets], no widget of the stack is a child of the
    window. *)
Lemma remove_widgets_removes w w1 :
  remove_widgets w = Ok tt w1 -> stack_ok w ->
  NoDup (children (window w)) ->
  (_window w = None ->
   forall id, stack_widget id w -> ~ In id (children (window w))) ->
  forall id, stack_widget id w -> ~ In id (children (window w1)).
Proof.
  intros Hrun Hok Hnd Hnone id Hid. unfold remove_widgets, bind, get in Hrun.
  apply remove_loop_ok in Hrun as [F Hall].
  destruct (_window w) as [[] |] eqn:Hw.
  2:{ intros Hin. apply (rf_children _ _ F) in Hin.
      now apply (Hnone eq_refl id Hid). }
  specialize (Hall eq_refl Hnd). destruct Hid as [Hb | Hl].
  - pose proof Hb as Hb'. apply In_nth_error in Hb as [k Hk].
    destruct (Hall k id Hk) as [H1 _]. apply H1.
    now apply (ok_button_kind _ Hok).
  - pose proof Hl as Hl'. apply In_nth_error in Hl as [k Hk].
    assert (Hlt : (k < List.length (_buttons w))%nat).
    { rewrite <- (ok_labels _ Hok). apply nth_error_Some. congruence. }
    destruct (nth_error (_buttons w) k) as [b |] eqn:Hbk;
      [| apply nth_error_None in Hbk; lia].
    destruct (Hall k b Hbk) as [_ H2]. apply (H2 id); [exact Hk |].
    now apply (ok_label_kind _ Hok).
Qed.

Lemma name_icon_spec p :
  match icon_of p with
  | Some s => name_icon p = ret s
  | None => exists e, name_icon p = raise e
  end.
Proof.
  destruct p as [s | [| [s | c] l]]; simpl; try reflexivity;
    eexists; reflexivity.
Qed.

Lemma callback_after_spec key p :
  if callback_ok key p
  then exists r, callback_after key p = ret r
  else callback_after key p = raise IndexError.
Proof.
  destruct p as [s | l]; simpl.
  - destruct (String.index 0 key s); eexists; reflexivity.
  - destruct (index_from PyVal_eqb (VStr key) l 0) as [i |];
      [| eexists; reflexivity].
    unfold getitem. destruct (Nat.ltb_spec (S i) (List.length l)) as [H | H].
    + destruct (nth_error l (S i)) eqn:Hn; [eexists; reflexivity |].
      apply nth_error_None in Hn. lia.
    + apply nth_error_None in H. now rewrite H.
Qed.

Lemma callback_after_cases key p :
  (exists r, callback_after key p = ret r)
  \/ callback_after key p = raise IndexError.
Proof.
  pose proof (callback_after_spec key p) as H.
  destruct (callback_ok key p); auto.
Qed.

Lemma callable_after_ok key p :
  callable_after key p = true -> callback_ok key p = true.
Proof.
  destruct p as [s | l]; unfold callable_after, callback_ok; [reflexivity |].
  destruct (index_from PyVal_eqb (VStr key) l 0) as [i |]; [| reflexivity].
  destruct (nth_error l (S i)) eqn:Hn; [| intros H; discriminate H].
  intros _. apply Nat.ltb_lt. apply nth_error_Some. congruence.
Qed.

(** With a callable after the key, or without the key, the value is found
    and [bind] accepts it. *)
Lemma callable_after_returns key p :
  callable_after key p = true ->
  exists r, callback_after key p = ret r /\ forall s, r <> Some (VStr s).
Proof.
  destruct p as [s | l]; unfold callable_after, callback_after.
  - destruct (String.index 0 key s); [discriminate |].
    intros _. exists None. split; [reflexivity | discriminate].
  - destruct (index_from PyVal_eqb (VStr key) l 0) as [i |];
      [| intros _; exists None; split; [reflexivity | discriminate]].
    unfold getitem.
    destruct (nth_error l (S i)) as [[s | c] |]; try discriminate.
    intros _. exists (Some (VCallable c)).
    split; [reflexivity | discriminate].
Qed.

Lemma update_nth_id {A} (f : A -> A) l : forall i,
  (forall a, f a = a) -> update_nth i f l = l.
Proof.
  induction l as [| a l IH]; intros [| i] Hf; simpl; try reflexivity.
  - now rewrite Hf.
  - now rewrite IH.
Qed.

(** [bind_user] for a value that [bind] accepts is the assignment of
    [bound_user] to the handlers. *)
Lemma bind_user_update button r h s w :
  (forall x, r <> Some (VStr x)) -> (forall o, s (h o) o = o) ->
  bind_user button r h s w
  = update button (fun o => s (bound_user r (h o)) o) w.
Proof.
  intros Hr Hs. destruct r as [[x | c] |]; simpl.
  - now destruct (Hr x).
  - reflexivity.
  - unfold ret, update, modify. rewrite update_nth_id by exact Hs.
    now destruct w.
Qed.

Lemma wp_bind_user button r h s (Q : unit -> World -> Prop)
    (E : Exn -> World -> Prop) w :
  (forall o, s (h o) o = o) ->
  ((exists x, r = Some (VStr x)) -> E AssertionError w) ->
  wp (update button (fun o => s (bound_user r (h o)) o)) Q E w ->
  wp (bind_user button r h s) Q E w.
Proof.
  intros Hs HE H. destruct r as [[x | c] |].
  - unfold wp. simpl. apply HE. now exists x.
  - exact H.
  - unfold wp in *. rewrite bind_user_update; [exact H | discriminate |
      exact Hs].
Qed.

Lemma wp_bind_user_good button r h s (Q : unit -> World -> Prop)
    (E : Exn -> World -> Prop) w :
  (forall x, r <> Some (VStr x)) -> (forall o, s (h o) o = o) ->
  wp (update button (fun o => s (bound_user r (h o)) o)) Q E w ->
  wp (bind_user button r h s) Q E w.
Proof.
  intros Hr Hs H. unfold wp in *. now rewrite bind_user_update.
Qed.

Lemma keeps_bind_user P (PE : Exn -> Prop) button r h s :
  PE AssertionError ->
  (forall c, keeps P PE
               (update button (fun o =>
                  s (bind_cb (CbUser (VCallable c)) (h o)) o))) ->
  keeps P PE (bind_user button r h s).
Proof.
  intros He Hu. destruct r as [[x | c] |]; simpl.
  - intros w H. now split.
  - apply Hu.
  - intros w H. exact H.
Qed.

Lemma heap_grows_refl w : heap_grows w w.
Proof. intros id o H. exists o. now repeat split. Qed.

Lemma heap_grows_trans w1 w2 w3 :
  heap_grows w1 w2 -> heap_grows w2 w3 -> heap_grows w1 w3.
Proof.
  intros F G id o H. apply F in H as (o' & H' & K1 & I1 & T1).
  apply G in H' as (o'' & H'' & K2 & I2 & T2). exists o''.
  repeat split; congruence.
Qed.

Lemma heap_grows_update id f w :
  (forall o, same_widget o (f o)) ->
  heap_grows w (set_heap (update_nth id f (heap w)) w).
Proof.
  intros Hf j o H. unfold lookup in *. simpl.
  rewrite nth_error_update_nth, H. destruct (Nat.eqb id j); simpl; eauto.
  exists o. now repeat split.
Qed.

Lemma heap_grows_new o w : heap_grows w (set_heap (heap w ++ [o]) w).
Proof.
  intros j o' H. exists o'. split; [| now repeat split]. unfold lookup in *.
  simpl. rewrite nth_error_app1; [exact H |]. apply nth_error_Some. congruence.
Qed.

Lemma keeps_update_frame w0 PE id f :
  (forall o, same_widget o (f o)) ->
  keeps (rebuild_frame w0) PE (update id f).
Proof.
  intros Hf w (G & B & L & P). unfold wp, update, modify.
  repeat split; try assumption.
  eapply heap_grows_trans; [exact G | now apply heap_grows_update].
Qed.

Ltac pres_frame :=
  unfold preserves;
  repeat first
    [ apply keeps_update_frame; intros ?; repeat split
    | progress unfold set_pos_bottom_buttons, set_pos_labels, Window_unbind
    | pres_step ].

Lemma set_pos_bottom_buttons_frame w0 b :
  preserves (rebuild_frame w0) (set_pos_bottom_buttons b).
Proof. pres_frame. Qed.

Lemma set_pos_labels_frame w0 l :
  preserves (rebuild_frame w0) (set_pos_labels l).
Proof. pres_frame. Qed.

Lemma entry_built_grows entry b label w w' :
  heap_grows w w' -> entry_built entry b label w ->
  entry_built entry b label w'.
Proof.
  intros G [(ob & Hb & Kb & Ib) Hl]. split.
  - apply G in Hb as (o' & Hb' & K & I' & T). exists o'.
    repeat split; congruence.
  - destruct label as [l |]; [| exact Hl].
    destruct Hl as [Hn (ol & Hl & Kl & Tl)]. split; [exact Hn |].
    apply G in Hl as (o' & Hl' & K & I' & T). exists o'.
    repeat split; congruence.
Qed.

Ltac wp_go := repeat first [wp_step | exact I].

Lemma wp_new_widget o (Q : nat -> World -> Prop) E w :
  Q (List.length (heap w)) (set_heap (heap w ++ [o]) w) ->
  wp (new_widget o) Q E w.
Proof. exact (fun H => H). Qed.

Lemma lookup_new o w :
  lookup (List.length (heap w)) (set_heap (heap w ++ [o]) w) = Some o.
Proof. unfold lookup. simpl. apply nth_error_snoc. Qed.

Lemma rebuild_frame_refl w : rebuild_frame w w.
Proof. repeat split. apply heap_grows_refl. Qed.

Lemma appended_frame entry w w1 w2 b label :
  _buttons w1 = _buttons w ++ [b] -> _labels w1 = _labels w ++ [label] ->
  _local_positions w1 = _local_positions w ++ [0] ->
  heap_grows w w1 -> entry_built entry b label w1 ->
  rebuild_frame w1 w2 -> appended entry w w2.
Proof.
  intros B L P G Hb (G' & B' & L' & P'). exists b, label.
  split; [congruence |]. split; [congruence |]. split; [congruence |].
  split; [eapply heap_grows_trans; eauto |].
  eapply entry_built_grows; eauto.
Qed.

Lemma entry_finish entry w w1 b label :
  _buttons w1 = _buttons w ++ [b] -> _labels w1 = _labels w ++ [label] ->
  _local_positions w1 = _local_positions w ++ [0] ->
  heap_grows w w1 -> entry_built entry b label w1 ->
  wp (set_pos_bottom_buttons b)
     (fun _ w' =>
        wp (if_isinstance label MDFloatingLabel set_pos_labels)
           (fun _ w'' => appended entry w w'') (fun _ _ => True) w')
     (fun _ _ => True) w1.
Proof.
  intros B L P G Hb.
  apply (wp_last (rebuild_frame w1));
    [apply set_pos_bottom_buttons_frame | apply rebuild_frame_refl | auto |].
  intros ? w2 F2. apply wp_if_isinstance.
  - intros l _ _.
    apply (wp_last (rebuild_frame w1));
      [apply set_pos_labels_frame | exact F2 | auto |].
    intros ? w3 F3. eapply appended_frame; eauto.
  - intros _. eapply appended_frame; eauto.
Qed.

Lemma on_data_entry_ok entry w :
  wp (on_data_entry entry) (fun _ w' => appended entry w w')
     (fun _ _ => True) w.
Proof.
  destruct entry as [name p]. unfold on_data_entry.
  pose proof (name_icon_spec p) as Hicon.
  destruct (icon_of p) as [s |] eqn:Ei;
    [rewrite Hicon | destruct Hicon as [e ->]; wp_go].
  wp_steps. apply wp_new_widget. wp_step.
  destruct (callback_after_cases "on_press" p) as [[pr ->] | ->];
    [| wp_go].
  wp_steps.
  apply wp_bind_user; [intros []; reflexivity | intros _; exact I |].
  unfold update. wp_steps.
  destruct (callback_after_cases "on_release" p) as [[re ->] | ->];
    [| wp_go].
  wp_steps.
  apply wp_bind_user; [intros []; reflexivity | intros _; exact I |].
  unfold update. wp_steps.
  match goal with |- wp _ _ _ ?W => remember W as w1 eqn:E1 end.
  assert (F1 : _buttons w1 = _buttons w ++ [List.length (heap w)]
               /\ _labels w1 = _labels w
               /\ _local_positions w1 = _local_positions w
               /\ heap_grows w w1
               /\ exists ob, lookup (List.length (heap w)) w1 = Some ob
                    /\ kind ob = MDFloatingBottomButton /\ icon ob = s).
  { subst w1. split; [reflexivity |]. split; [reflexivity |].
    split; [reflexivity |]. split.
    - intros id o H. unfold lookup in *. simpl.
      rewrite !nth_error_update_nth.
      rewrite nth_error_app1 by (apply nth_error_Some; congruence).
      rewrite H. destruct (Nat.eqb (List.length (heap w)) id); simpl;
        eexists; (split; [reflexivity | now repeat split]).
    - eexists. unfold lookup. simpl.
      rewrite !nth_error_update_nth, Nat.eqb_refl, nth_error_snoc. simpl.
      repeat split. }
  clear E1. destruct F1 as (B1 & L1 & P1 & G1 & ob & Hob & Kob & Iob).
  destruct (name =? EmptyString)%string eqn:En.
  - apply String.eqb_eq in En. subst name. wp_steps.
    apply (entry_finish (EmptyString, p) w _ (List.length (heap w)) None);
      [simpl; congruence | simpl; congruence | simpl; congruence
      | exact G1 |].
    split; [| reflexivity]. exists ob.
    split; [exact Hob | split; [exact Kob | simpl; congruence]].
  - apply String.eqb_neq in En. wp_steps. apply wp_new_widget. wp_steps.
    match goal with
    | |- wp _ _ _ (set__local_positions _ (set__labels _ ?W)) =>
        assert (G2 : heap_grows w1 W) by apply heap_grows_new;
        assert (H2 : exists ol, lookup (List.length (heap w1)) W = Some ol
                       /\ kind ol = MDFloatingLabel /\ text ol = name)
          by (eexists; split; [apply lookup_new | split; reflexivity])
    end.
    apply (entry_finish (name, p) w _ (List.length (heap w))
             (Some (List.length (heap w1))));
      [simpl; congruence | simpl; congruence | simpl; congruence
      | exact (heap_grows_trans _ _ _ G1 G2) |].
    split.
    + apply G2 in Hob as (o' & Ho' & K & I' & T). exists o'.
      split; [exact Ho' | split; [congruence | simpl; congruence]].
    + split; [exact En | exact H2].
Qed.

Lemma for_each_on_data_entry_ok d : forall w,
  wp (for_each on_data_entry d) (fun _ w' => rebuilt d w w')
     (fun _ _ => True) w.
Proof.
  induction d as [| entry d IH]; intros w; simpl.
  - wp_steps. exists [], []. rewrite !app_nil_r.
    repeat split; auto using heap_grows_refl. now intros [|].
  - wp_step. eapply wp_mono; [apply on_data_entry_ok | | auto].
    intros ? w1 (b & label & B1 & L1 & P1 & G1 & E1). cbv beta.
    eapply wp_mono; [apply IH | | auto].
    intros ? w2 (bs & ls & B2 & L2 & P2 & Nb & Nl & G2 & E2). cbv beta.
    exists (b :: bs), (label :: ls).
    rewrite B2, B1, L2, L1, P2, P1, <- !app_assoc. simpl.
    repeat split; try congruence.
    + eapply heap_grows_trans; eauto.
    + intros [| i] e He; simpl in *.
      * injection He as <-. exists b, label. repeat split.
        -- eapply entry_built_grows; [exact G2 | apply E1].
        -- eapply entry_built_grows; [exact G2 | exact E1].
      * now apply E2.
Qed.

Lemma on_data_entry_returns entry w :
  entry_good entry = true -> parent w <> None ->
  (List.length (_buttons w) <= List.length (_local_positions w))%nat ->
  (List.length (_labels w) <= List.length (_local_positions w))%nat ->
  wp (on_data_entry entry) (fun _ w' => parent w' = parent w) no_exn w.
Proof.
  destruct entry as [name p]. unfold entry_good. simpl snd.
  intros Hok Hp Hb Hl. unfold on_data_entry.
  pose proof (name_icon_spec p) as Hicon.
  destruct (icon_of p) as [s |]; [| discriminate]. rewrite Hicon.
  apply andb_prop in Hok as [Hpr Hre].
  destruct (callable_after_returns _ _ Hpr) as (pr & Cpr & Npr).
  destruct (callable_after_returns _ _ Hre) as (re & Cre & Nre).
  rewrite Cpr, Cre.
  wp_steps. apply wp_new_widget. wp_steps.
  apply wp_bind_user_good; [exact Npr | intros []; reflexivity |].
  unfold update. wp_steps.
  apply wp_bind_user_good; [exact Nre | intros []; reflexivity |].
  unfold update. wp_steps.
  match goal with |- wp _ _ _ ?W => remember W as w1 eqn:E1 end.
  assert (F1 : _buttons w1 = _buttons w ++ [List.length (heap w)]
               /\ _labels w1 = _labels w
               /\ _local_positions w1 = _local_positions w
               /\ parent w1 = parent w)
    by (subst w1; repeat split).
  clear E1. destruct F1 as (B1 & L1 & P1 & R1).
  assert (Fin : forall label w2,
            _buttons w2 = _buttons w ++ [List.length (heap w)] ->
            _labels w2 = _labels w ++ [label] ->
            _local_positions w2 = _local_positions w ++ [0] ->
            parent w2 = parent w ->
            wp (set_pos_bottom_buttons (List.length (heap w)))
               (fun _ w' =>
                  wp (if_isinstance label MDFloatingLabel set_pos_labels)
                     (fun _ w'' => parent w'' = parent w) no_exn w')
               no_exn w2).
  { intros label w2 B2 L2 P2 R2.
    eapply wp_mono;
      [apply (set_pos_bottom_buttons_returns w2); [apply pos_frame_refl | ..]
      | | auto].
    - congruence.
    - rewrite B2. apply in_or_app. right. now left.
    - rewrite B2, P2, !length_app. simpl. lia.
    - intros ? w3 F3. cbv beta. pose proof F3 as (B3 & L3 & P3 & R3 & K3).
      apply wp_if_isinstance; [| congruence].
      intros l -> Hk.
      eapply wp_mono;
        [apply (set_pos_labels_returns w2); [exact F3 | ..] | | auto].
      + congruence.
      + rewrite L3, L2. apply in_or_app. right. now left.
      + exact Hk.
      + rewrite L3, P3, L2, P2, !length_app. simpl. lia.
      + intros ? w4 (_ & _ & _ & R4 & _). congruence. }
  destruct (name =? EmptyString)%string.
  - wp_steps. apply Fin; simpl; congruence.
  - wp_steps. apply wp_new_widget. wp_steps. apply Fin; simpl; congruence.
Qed.

Lemma for_each_on_data_entry_returns d : forall w,
  forallb entry_good d = true -> parent w <> None ->
  List.length (_buttons w) = List.length (_local_positions w) ->
  List.length (_labels w) = List.length (_local_positions w) ->
  wp (for_each on_data_entry d) (fun _ _ => True) no_exn w.
Proof.
  intros w Hd Hp Hb Hl.
  eapply wp_mono;
    [apply (wp_for_each on_data_entry
              (fun w' => parent w' = parent w
                 /\ List.length (_buttons w')
                    = List.length (_local_positions w')
                 /\ List.length (_labels w')
                    = List.length (_local_positions w')) no_exn)
    | auto | auto].
  - intros entry w' Hin (R & B & L).
    eapply wp_mono;
      [apply wp_and;
       [apply (on_data_entry_ok entry w')
       | apply (on_data_entry_returns entry w')] | |].
    + eapply forallb_forall in Hd; eauto.
    + congruence.
    + lia.
    + lia.
    + intros ? w'' [(b & label & B' & L' & P' & _) R']. cbv beta.
      rewrite B', L', P', !length_app. simpl. repeat split; congruence.
    + intros e w'' [_ []].
  - auto.
Qed.

Lemma on_data_inner_ok d w :
  wp (on_data_inner d) (fun _ w' => rebuilt d w w') (fun _ _ => True) w.
Proof.
  unfold on_data_inner, Window_bind. wp_steps.
  eapply wp_mono; [apply for_each_on_data_entry_ok | | auto].
  intros ? w' R. wp_steps. exact R.
Qed.

Lemma on_data_inner_returns d w :
  forallb entry_good d = true -> parent w <> None ->
  List.length (_buttons w) = List.length (_local_positions w) ->
  List.length (_labels w) = List.length (_local_positions w) ->
  exists w', on_data_inner d w = Ok tt w'.
Proof.
  intros Hd Hp Hb Hl.
  assert (H : wp (on_data_inner d) (fun _ _ => True) no_exn w).
  { unfold on_data_inner, Window_bind. wp_steps.
    eapply wp_mono;
      [apply for_each_on_data_entry_returns; assumption | | auto].
    intros ? w' _. wp_steps. exact I. }
  apply wp_ok in H as ([] & w' & H & _). eauto.
Qed.

Lemma rebuilt_matches d w0 w :
  _buttons w0 = [] -> _labels w0 = [] -> _local_positions w0 = [] ->
  rebuilt d w0 w -> stack_matches d w.
Proof.
  intros B0 L0 P0 (bs & ls & B & L & P & Nb & Nl & _ & E).
  rewrite B0 in B. rewrite L0 in L. rewrite P0 in P. simpl in *.
  unfold stack_matches. rewrite B, L, P, repeat_length.
  repeat split; try assumption.
  intros i entry He. destruct (E i entry He) as (b & label & Hb & Hl & Hbuilt).
  exists b, label. repeat split; try assumption; try apply Hbuilt.
  - intros ->. apply Hbuilt.
  - intros Hn. destruct label as [l |]; [| reflexivity].
    destruct Hbuilt as [_ [Hne _]]. contradiction.
Qed.

Lemma on_data_resets d w w1 :
  on_data d w = Ok tt w1 ->
  exists w', remove_widgets w = Ok tt w'
    /\ w1 = set_clock (clock w' ++ [CbOnData d])
              (set__anim_labels_data []
                 (set__anim_buttons_data []
                    (set__local_positions []
                       (set__labels [] (set__buttons [] w'))))).
Proof.
  unfold on_data, bind at 1.
  destruct (remove_widgets w) as [[] w' | e w']; [| discriminate].
  intros [= <-]. eauto.
Qed.

Lemma stack_matches_ok d w :
  stack_matches d w -> _anim_buttons_data w = [] ->
  _anim_labels_data w = [] -> stack_ok w.
Proof.
  intros (Nb & Nl & Np & E) Ab Al. constructor; try congruence.
  - intros b Hin. apply In_nth_error in Hin as [i Hi].
    assert (Hlt : (i < List.length d)%nat)
      by (rewrite <- Nb; apply nth_error_Some; congruence).
    destruct (nth_error d i) as [entry |] eqn:He;
      [| apply nth_error_None in He; lia].
    destruct (E i entry He) as (b' & label & Hb & _ & [(ob & Ho & K & _) _] & _).
    assert (b' = b) by congruence. subst b'.
    unfold isinstance. now rewrite Ho, K.
  - intros l Hin. apply In_nth_error in Hin as [i Hi].
    assert (Hlt : (i < List.length d)%nat)
      by (rewrite <- Nl; apply nth_error_Some; congruence).
    destruct (nth_error d i) as [entry |] eqn:He;
      [| apply nth_error_None in He; lia].
    destruct (E i entry He) as (b' & label & _ & Hl & [_ Hlab] & _).
    assert (label = Some l) by congruence. subst label.
    destruct Hlab as [_ (ol & Ho & K & _)].
    unfold isinstance. now rewrite Ho, K.
  - rewrite Ab. intros k a [].
  - rewrite Al. intros k a [].
Qed.

Lemma keeps_name_icon P p : keeps P (fun _ => True) (name_icon p).
Proof.
  intros w H. pose proof (name_icon_spec p) as S. unfold wp.
  destruct (icon_of p); [rewrite S; exact H |].
  destruct S as [e ->]. now split.
Qed.

Lemma keeps_callback_after P key p :
  keeps P (fun _ => True) (callback_after key p).
Proof.
  intros w H. unfold wp.
  destruct (callback_after_cases key p) as [[r ->] | ->];
    [exact H | now split].
Qed.

(** One assignment followed by its own rebuild: [on_data] returns on an
    aligned stack; it leaves the three sequences empty and the rebuild
    scheduled, and no widget of the old stack among the window's children
    (while [_window] is [None], [remove_widget] removes nothing).  Run on
    that world, the rebuild returns when the parent is set and every entry
    is well formed, and it leaves one button and one label slot per entry,
    in the order of the entries: the button has the entry's icon, the slot
    is [None] exactly when the entry's text is empty and otherwise holds a
    label with that text. *)
Lemma on_data_rebuilds_stack (w : World) (d : Data) :
  (stack_ok w -> exists w1, on_data d w = Ok tt w1)
  /\ forall w1, on_data d w = Ok tt w1 ->
       (_buttons w1 = [] /\ _labels w1 = [] /\ _local_positions w1 = []
        /\ exists scheduled, clock w1 = scheduled ++ [CbOnData d])
       /\ (stack_ok w -> NoDup (children (window w)) ->
           (_window w = None ->
            forall id, stack_widget id w -> ~ In id (children (window w))) ->
           forall id, stack_widget id w -> ~ In id (children (window w1)))
       /\ (parent w1 <> None -> forallb entry_good d = true ->
           exists w2, on_data_inner d w1 = Ok tt w2)
       /\ forall w2, on_data_inner d w1 = Ok tt w2 ->
            stack_matches d w2 /\ stack_ok w2.
Proof.
  split.
  - intros Hok.
    assert (H : wp (on_data d) (fun _ _ => True) no_exn w).
    { unfold on_data. wp_step.
      eapply wp_mono; [apply remove_widgets_returns | | auto].
      - rewrite (ok_labels _ Hok). lia.
      - intros ? w' _. wp_steps. exact I. }
    apply wp_ok in H as ([] & w1 & H & _). eauto.
  - intros w1 H. apply on_data_resets in H as (w' & Hrem & ->).
    split; [| split; [| split]].
    + simpl. repeat split. eauto.
    + intros Hok Hnd Hnone id Hid. simpl.
      eapply remove_widgets_removes; eauto.
    + intros Hp Hd. apply on_data_inner_returns; auto.
    + intros w2 H2.
      match type of H2 with
      | on_data_inner d ?W = _ =>
          pose proof (on_data_inner_ok d W) as R;
          assert (K : preserves (fun w'' => _anim_buttons_data w'' = []
                                   /\ _anim_labels_data w'' = [])
                        (on_data_inner d))
      end.
      { unfold preserves, on_data_inner, on_data_entry.
        repeat first
          [ apply keeps_name_icon | apply keeps_callback_after
          | apply keeps_bind_user; [exact I | intros ?]
          | progress unfold set_pos_bottom_buttons, set_pos_labels
          | pres_unfold; pres_step ]. }
      match type of H2 with
      | on_data_inner d ?W = _ =>
          assert (K' := K W (conj (eq_refl : _anim_buttons_data W = [])
                                  (eq_refl : _anim_labels_data W = [])))
      end.
      unfold wp in R, K'. rewrite H2 in R, K'.
      apply rebuilt_matches in R; try reflexivity.
      split; [exact R |]. now apply stack_matches_ok with d.
Qed.

Lemma on_data_rebuilds_stack_witness :
  exists w2,
    on_data_inner example_data
      (world_after [EvSetData example_data] example_attached) = Ok tt w2.
Proof.
  refine (proj1 (proj2 (proj2
    (proj2 (on_data_rebuilds_stack
              (set_cfg (set_data example_data (cfg example_attached))
                 example_attached) example_data) _ _))) _ _).
  - vm_compute. reflexivity.
  - vm_compute. discriminate.
  - vm_compute. reflexivity.
Defined.

(** C1 fails when [data] is assigned twice before the clock runs.  On the
    speed dial of the example, attached to a button, the mapping of the
    two entries "Edit" and "Add" is assigned and then the mapping of the
    one entry "Cut": each assignment empties the three sequences at once
    and schedules a rebuild.  The clock then runs both rebuilds and both
    append: the run returns with [data] the second mapping, of one entry,
    and with three buttons, three label slots and three local positions,
    those of the first mapping followed by that of the second. *)
Theorem rebuild_appends_to_pending_rebuild :
  match run [EvSetData example_data; EvSetData example_second_data; EvTick]
          example_attached with
  | Ok _ w' => w' = example_rebuilt_twice
  | Raise _ _ => False
  end
  /\ _buttons example_assigned_twice = []
  /\ _labels example_assigned_twice = []
  /\ _local_positions example_assigned_twice = []
  /\ clock example_assigned_twice
     = [CbOnData example_data; CbOnData example_second_data]
  /\ data (cfg example_rebuilt_twice) = example_second_data
  /\ stack_icons example_rebuilt_twice
     = [Some "pencil"; Some "plus"; Some "scissors"]
  /\ stack_texts example_rebuilt_twice
     = [Some "Edit"; Some "Add"; Some "Cut"]
  /\ _local_positions example_rebuilt_twice = [0; 0; 0]
  /\ clock example_rebuilt_twice = []
  /\ ~ stack_matches (data (cfg example_rebuilt_twice)) example_rebuilt_twice.
Proof.
  split; [vm_compute; reflexivity |].
  do 9 (split; [vm_compute; reflexivity |]).
  intros (H & _). vm_compute in H. discriminate H.
Qed.


Lemma add_widgets_idempotent_witness :
  add_widgets example_added = Ok tt example_added
  /\ window_consistent example_added.
Proof.
  pose proof (proj2 (proj2 (proj2
    (add_widgets_idempotent example_before_add)))) as H.
  specialize (H example_added ltac:(vm_compute; reflexivity)).
  destruct H as (H1 & _ & H3). split; [exact H1 |].
  apply H3. split.
  - vm_compute. constructor.
  - intros id Hin. vm_compute in Hin. destruct Hin.
Defined.


(** * Offsets of the open stack *)

(** The guarded store of [open_stack] (lines 294-295) never stores: the
    guard holds only for an empty list, on which the assignment raises. *)
Lemma open_stack_body_keeps_local_positions c i button acc :
  preserves (fun w => _local_positions w = c) (open_stack_body i button acc).
Proof.
  intros w Hc. unfold open_stack_body. wp_steps.
  destruct (isinstance (Some button) MDFloatingBottomButton w);
    [| wp_steps; exact Hc].
  wp_steps. destruct (_local_positions w) as [| q qs] eqn:Eq.
  - simpl negb. cbv iota. unfold setitem_local_positions. wp_steps.
    rewrite Eq. simpl. wp_steps. split; [congruence | exact I].
  - simpl negb. cbv iota. wp_step.
    eapply (wp_last (fun w' => _local_positions w' = c));
      [solve [pres] | congruence | auto | auto].
Qed.

Lemma open_stack_keeps_local_positions c :
  preserves (fun w => _local_positions w = c) open_stack.
Proof.
  unfold preserves, open_stack.
  apply keeps_bind; [pres | intros _].
  apply keeps_bind; [pres | intros st].
  destruct (negb (State_eqb st open)); [| pres].
  apply keeps_bind; [pres | intros y].
  apply keeps_bind; [pres | intros _].
  apply keeps_bind; [pres | intros buttons].
  apply keeps_bind;
    [apply keeps_for_enumerate_acc; intros;
     apply open_stack_body_keeps_local_positions |].
  intros acc. pres.
Qed.

(** C4, on the stack of the example (direction [top], density 1): the
    loop of [open_stack] computes the offsets 86 and 142 and moves the
    buttons by them, but [_local_positions] still holds 0 for both, so the
    next repositioning (here on a resize of the window) puts both buttons
    back on the centre of the parent. *)
Theorem open_stack_stores_no_offset :
  state example_open = open
  /\ map (offset_of example_closed) [0; 1]%nat = [86; 142]
  /\ map (fun b => center_of b example_closed) (_buttons example_closed)
     = [Some 400; Some 400]
  /\ map (fun b => center_of b example_open) (_buttons example_open)
     = [Some 486; Some 542]
  /\ _local_positions example_open = [0; 0]
  /\ map (fun b => center_of b (world_after [EvResize] example_open))
       (_buttons example_open)
     = [Some 400; Some 400].
Proof. vm_compute. repeat split. Qed.


(** * Placing the labels *)

Lemma center_y_set_center_y v o : center_y (set_center_y v o) == v.
Proof. unfold center_y, set_center_y. simpl. ring. Qed.

Lemma wp_read_lookup id o (Q : Widget -> World -> Prop) E w :
  lookup id w = Some o -> Q o w -> wp (read (Some id)) Q E w.
Proof. intros H HQ. unfold wp, read. now rewrite H. Qed.

(** What [set_pos_labels] does to a label of the stack: its left edge goes
    to the parent's centre plus the offset for [right], to the centre minus
    the offset minus [dp(width)] for [left]; its vertical centre goes to
    the parent's centre plus the stored local offset. *)
Lemma set_pos_labels_places label w p o i off :
  parent w = Some p -> lookup label w = Some o ->
  index_from Ref_eqb (Some label) (_labels w) 0 = Some i ->
  nth_error (_local_positions w) i = Some off ->
  exists w' o',
    set_pos_labels label w = Ok tt w' /\ lookup label w' = Some o'
    /\ width o' = width o
    /\ center_y o' == p_center_y p + off
    /\ pos_x o' ==
       match label_direction (cfg w) with
       | right => p_center_x p + button_text_offset (cfg w)
       | left => p_center_x p - button_text_offset (cfg w) - dp w (width o)
       end.
Proof.
  intros Hp Ho Hi Hoff.
  assert (H : wp (set_pos_labels label)
                (fun _ w' => exists o',
                   lookup label w' = Some o' /\ width o' = width o
                   /\ center_y o' == p_center_y p + off
                   /\ pos_x o' ==
                      match label_direction (cfg w) with
                      | right => p_center_x p + button_text_offset (cfg w)
                      | left => p_center_x p - button_text_offset (cfg w)
                                - dp w (width o)
                      end) no_exn w).
  { unfold set_pos_labels, Window_unbind, update. wp_steps.
    destruct (_widget_declaration_finished w); wp_steps; simpl parent;
      rewrite Hp; wp_steps;
      (eapply wp_read_lookup;
       [ unfold lookup; simpl heap;
         rewrite nth_error_update_nth, Nat.eqb_refl; fold (lookup label w);
         rewrite Ho; reflexivity |]);
      wp_steps; simpl _labels; unfold list_index; rewrite Hi;
      wp_steps; simpl _local_positions; unfold getitem; rewrite Hoff;
      wp_steps;
      (eexists; split;
       [ unfold lookup; simpl heap;
         rewrite !nth_error_update_nth, Nat.eqb_refl; fold (lookup label w);
         rewrite Ho; simpl; reflexivity
       | split; [reflexivity |]; split; [apply center_y_set_center_y |];
         simpl; unfold dp; simpl cfg;
         destruct (label_direction (cfg w)); simpl; ring ]). }
  apply wp_ok in H as ([] & w' & H & o' & Hres). eauto.
Qed.

(** C8, on a label 100 wide next to a parent centred at x = 500, with
    [button_text_offset] 33: for [right] the left edge is at 533 at any
    density; for [left] the right edge is at 467 at density 1, but at 367
    at density 2, where [dp(width)] is 200. *)
Theorem set_pos_labels_left_scales_width :
  edges_of 1 (built_with (example_config_with right 1 false)
                [("Edit", PStr "pencil")]) = Some (533, 633)
  /\ edges_of 1 (built_with (example_config_with right 2 false)
                   [("Edit", PStr "pencil")]) = Some (533, 633)
  /\ edges_of 1 (built_with (example_config_with left 1 false)
                   [("Edit", PStr "pencil")]) = Some (367, 467)
  /\ edges_of 1 (built_with (example_config_with left 2 false)
                   [("Edit", PStr "pencil")]) = Some (267, 367).
Proof. vm_compute. repeat split. Qed.


(** * Outside-click dismissal *)

Lemma collide_at_readable pos w id o :
  lookup id w = Some o ->
  collide_at pos (Some id) w = Ok (collide_point o pos) w.
Proof. intros H. unfold collide_at, bind, read. now rewrite H. Qed.

Lemma collide_at_unreadable pos w widget :
  ~ readable w widget -> collide_at pos widget w = Raise AttributeError w.
Proof.
  intros H. unfold collide_at, bind, read.
  destruct widget as [id |]; [| reflexivity].
  destruct (lookup id w) as [o |] eqn:Ho; [| reflexivity].
  destruct H. now exists id, o.
Qed.

Lemma hits_readable pos w l :
  Forall (readable w) l ->
  list_comprehension (collide_at pos) l w = Ok (map (collides pos w) l) w.
Proof.
  induction 1 as [| widget l (id & o & -> & Ho) _ IH]; [reflexivity |].
  simpl. rewrite (bind_ok _ _ _ _ _ (collide_at_readable pos w id o Ho)).
  rewrite (bind_ok _ _ _ _ _ IH). now rewrite Ho.
Qed.

Lemma hits_unreadable pos w l :
  ~ Forall (readable w) l ->
  list_comprehension (collide_at pos) l w = Raise AttributeError w.
Proof.
  induction l as [| widget l IH]; intros H; [now destruct H |].
  simpl. destruct widget as [id |];
    [| now apply bind_raise, collide_at_unreadable; intros (? & ? & ? & _)].
  destruct (lookup id w) as [o |] eqn:Ho.
  - rewrite (bind_ok _ _ _ _ _ (collide_at_readable pos w id o Ho)).
    apply bind_raise, IH. intros Hl. apply H.
    constructor; [now exists id, o | exact Hl].
  - apply bind_raise, collide_at_unreadable. intros (? & ? & [= <-] & ?).
    congruence.
Qed.

(** A [None] among the labels makes [touch_down] raise before it assigns
    [_touch_started_inside]. *)
Lemma touch_down_label_none pos w :
  In None (_labels w) -> touch_down pos w = Raise AttributeError w.
Proof.
  intros Hin. unfold touch_down.
  rewrite (bind_ok (get _buttons) _ w _ w eq_refl).
  rewrite (bind_ok (get _labels) _ w _ w eq_refl).
  apply bind_raise, hits_unreadable.
  intros H. rewrite Forall_forall in H.
  destruct (H None) as (id & o & Hn & _); [| discriminate].
  apply in_or_app. now right.
Qed.

Lemma existsb_id_map {A} (f : A -> bool) l :
  existsb (fun b => b) (map f l) = existsb f l.
Proof. induction l as [| a l IH]; simpl; congruence. Qed.

(** With a label for every button, [touch_down] classifies the touch by
    the widgets it collides with, forwards it to the window when dismissal
    is off or the touch started inside, and returns [True]. *)
Lemma touch_down_classifies pos w :
  Forall (readable w) (stack_refs w) -> _window w = Some Window ->
  touch_down pos w =
  Ok true
    (if negb (auto_dismiss (cfg w))
        || existsb (collides pos w) (stack_refs w)
     then set_window
            (set_received (received (window w) ++ [("on_touch_down", pos)])
               (window w))
            (set__touch_started_inside
               (Some (existsb (collides pos w) (stack_refs w))) w)
     else set__touch_started_inside
            (Some (existsb (collides pos w) (stack_refs w))) w).
Proof.
  intros Hr Hw. unfold touch_down.
  rewrite (bind_ok (get _buttons) _ w _ w eq_refl).
  rewrite (bind_ok (get _labels) _ w _ w eq_refl).
  rewrite (bind_ok _ _ _ _ _ (hits_readable pos w _ Hr)).
  fold (stack_refs w). rewrite existsb_id_map.
  unfold bind, modify, get, on_window, Window_on_touch, bind, get. simpl.
  destruct (existsb (collides pos w) (stack_refs w));
    destruct (auto_dismiss (cfg w)); simpl; rewrite ?Hw; reflexivity.
Qed.

(** [touch_up] calls [close_stack] when dismissal is on and the flag is
    exactly [False], and forwards the touch to the window otherwise. *)
Lemma touch_up_dismisses pos w :
  auto_dismiss (cfg w) = true -> _touch_started_inside w = Some false ->
  touch_up pos w =
  (close_stack ;; modify (set__touch_started_inside None) ;; ret true) w.
Proof.
  intros Hd Hf. unfold touch_up.
  rewrite (bind_ok (get (fun w => auto_dismiss (cfg w))) _ w _ w eq_refl).
  rewrite (bind_ok (get _touch_started_inside) _ w _ w eq_refl).
  now rewrite Hd, Hf.
Qed.

Lemma touch_up_forwards pos w :
  auto_dismiss (cfg w) = false \/ _touch_started_inside w <> Some false ->
  touch_up pos w =
  (on_window (Window_on_touch "on_touch_up" pos) ;;
   modify (set__touch_started_inside None) ;; ret true) w.
Proof.
  intros H. unfold touch_up.
  rewrite (bind_ok (get (fun w => auto_dismiss (cfg w))) _ w _ w eq_refl).
  rewrite (bind_ok (get _touch_started_inside) _ w _ w eq_refl).
  destruct H as [-> | H]; [reflexivity |].
  destruct (_touch_started_inside w) as [[] |]; try congruence;
    now rewrite andb_false_r.
Qed.

Lemma touch_up_result pos w b w' :
  touch_up pos w = Ok b w' -> b = true /\ _touch_started_inside w' = None.
Proof.
  unfold touch_up.
  rewrite (bind_ok (get (fun w => auto_dismiss (cfg w))) _ w _ w eq_refl).
  rewrite (bind_ok (get _touch_started_inside) _ w _ w eq_refl).
  unfold bind at 1.
  destruct ((if auto_dismiss (cfg w)
                && match _touch_started_inside w with
                   | Some false => true
                   | _ => false
                   end
             then close_stack
             else on_window (Window_on_touch "on_touch_up" pos)) w)
    as [[] w1 | e w1]; [| discriminate].
  unfold bind, modify, ret. intros [= <- <-]. now split.
Qed.

Lemma touch_move_result pos w :
  (forall b w', touch_move pos w = Ok b w' -> b = true)
  /\ (_window w = Some Window -> exists w', touch_move pos w = Ok true w').
Proof.
  unfold touch_move.
  rewrite (bind_ok (get (fun w => auto_dismiss (cfg w))) _ w _ w eq_refl).
  rewrite (bind_ok (get _touch_started_inside) _ w _ w eq_refl).
  destruct (negb (auto_dismiss (cfg w)) || _).
  - unfold bind, on_window, bind, get, Window_on_touch, modify, ret.
    destruct (_window w) as [[] |].
    + split; [now intros b w' [= <- _] | eauto].
    + split; [discriminate | discriminate].
  - unfold bind, ret. split; [now intros b w' [= <- _] | eauto].
Qed.

Lemma touch_down_result pos w b w' :
  touch_down pos w = Ok b w' -> b = true.
Proof.
  unfold touch_down.
  rewrite (bind_ok (get _buttons) _ w _ w eq_refl).
  rewrite (bind_ok (get _labels) _ w _ w eq_refl).
  unfold bind at 1.
  destruct (list_comprehension _ _ w) as [hits w1 | e w1]; [| discriminate].
  unfold bind at 1, modify at 1.
  rewrite (bind_ok (get (fun w => auto_dismiss (cfg w))) _ _ _ _ eq_refl).
  rewrite (bind_ok (get _touch_started_inside) _ _ _ _ eq_refl).
  destruct (negb _ || _).
  - unfold bind, on_window, bind, get, Window_on_touch, modify, ret.
    cbn. destruct (_window w1) as [[] |]; cbn;
      [now intros [= <- _] | discriminate].
  - unfold bind, ret. cbn. now intros [= <- _].
Qed.

(** C3, on a stack whose one button has no label (the key of its entry
    in [data] is the empty string): the handlers are bound, yet a
    touch-down raises [AttributeError] and classifies nothing, so the
    touch-up that follows is forwarded and the stack stays open.  On the
    stack of the example, where every button has a label, the same touch
    outside the stack closes it. *)
Theorem touch_down_raises_without_label :
  _labels example_unlabelled_bound = [None]
  /\ window_bound "on_touch_down" CbTouchDown example_unlabelled_bound = true
  /\ auto_dismiss (cfg example_unlabelled_bound) = true
  /\ run [EvTouchDown (0, 0)] example_unlabelled_bound
     = Raise AttributeError example_unlabelled_bound
  /\ state (world_after [EvTouchUp (0, 0)] example_unlabelled_bound) = open
  /\ received (window (world_after [EvTouchUp (0, 0)]
                         example_unlabelled_bound))
     = [("on_touch_up", (0, 0))]
  /\ state (world_after [EvTouchDown (0, 0); EvTouchUp (0, 0)] example_bound)
     = close.
Proof. vm_compute. repeat split. Qed.

(** C9: [touch_up] closes the stack only when the flag is exactly [False]
    (and dismissal is on); with the flag [None] it forwards the touch; it
    returns [True] with the flag reset to [None] whenever it returns, and
    so do [touch_move] and [touch_down] return [True]; but [touch_down]
    returns nothing when a label is [None]: it raises. *)
Theorem touch_handlers_return_true (w : World) (pos : Q * Q) :
  (auto_dismiss (cfg w) = true -> _touch_started_inside w = Some false ->
   touch_up pos w =
   (close_stack ;; modify (set__touch_started_inside None) ;; ret true) w)
  /\ (auto_dismiss (cfg w) = false \/ _touch_started_inside w <> Some false ->
      touch_up pos w =
      (on_window (Window_on_touch "on_touch_up" pos) ;;
       modify (set__touch_started_inside None) ;; ret true) w)
  /\ (_touch_started_inside w = None -> _window w = Some Window ->
      touch_up pos w =
      Ok true
        (set__touch_started_inside None
           (set_window
              (set_received (received (window w) ++ [("on_touch_up", pos)])
                 (window w)) w)))
  /\ (forall b w', touch_up pos w = Ok b w' ->
        b = true /\ _touch_started_inside w' = None)
  /\ (forall b w', touch_move pos w = Ok b w' -> b = true)
  /\ (forall b w', touch_down pos w = Ok b w' -> b = true)
  /\ (In None (_labels w) -> touch_down pos w = Raise AttributeError w).
Proof.
  split; [apply touch_up_dismisses |]. split; [apply touch_up_forwards |].
  split; [| split; [apply touch_up_result |
            split; [apply touch_move_result |
            split; [apply touch_down_result | apply touch_down_label_none]]]].
  intros Hf Hw. rewrite touch_up_forwards by (right; congruence).
  unfold bind, on_window, bind, get. now rewrite Hw.
Qed.

Lemma touch_handlers_return_true_witness :
  touch_down (0, 0) example_unlabelled_bound
  = Raise AttributeError example_unlabelled_bound
  /\ touch_up (0, 0) example_unlabelled_bound
     = Ok true
         (set__touch_started_inside None
            (set_window
               (set_received
                  (received (window example_unlabelled_bound)
                   ++ [("on_touch_up", (0, 0))])
                  (window example_unlabelled_bound))
               example_unlabelled_bound)).
Proof.
  pose proof (touch_handlers_return_true example_unlabelled_bound (0, 0))
    as (_ & _ & Hup & _ & _ & _ & Hdown).
  split.
  - apply Hdown. vm_compute. now left.
  - apply Hup; vm_compute; reflexivity.
Defined.

Lemma getitem0_first v w :
  getitem0 v w = match first_of v with
                 | Some x => Ok x w
                 | None => Raise IndexError w
                 end.
Proof.
  destruct v as [[| c s] | l]; try reflexivity.
  unfold getitem0, getitem, first_of. now destruct (nth_error l 0).
Qed.

Lemma wp_list_index {A} eqb (v : A) l i (Q : nat -> World -> Prop) E w :
  index_from eqb v l 0 = Some i -> Q i w -> wp (list_index eqb v l) Q E w.
Proof. intros H HQ. unfold wp, list_index. now rewrite H. Qed.

Lemma wp_getitem_at {A} (l : list A) i a (Q : A -> World -> Prop) E w :
  nth_error l i = Some a -> Q a w -> wp (getitem l i) Q E w.
Proof. intros H HQ. unfold wp, getitem. now rewrite H. Qed.

Lemma wp_data_getitem key v (Q : Parameters -> World -> Prop) E w :
  dict_get key (data (cfg w)) = Some v -> Q v w ->
  wp (data_getitem key) Q E w.
Proof. intros H HQ. unfold wp, data_getitem, bind, get. now rewrite H. Qed.

(** [on_enter] on an open stack with hint animation, for a button with a
    paired label whose text is a key of [data]: the last animation it
    starts fades the label in or out as the test of lines 105-110
    decides. *)
Lemma on_enter_decides w b i lid l ob v same :
  state w = open -> hint_animation (cfg w) = true ->
  index_from Nat.eqb b (_buttons w) 0 = Some i ->
  nth_error (_labels w) i = Some (Some lid) ->
  lookup lid w = Some l -> kind l = MDFloatingLabel ->
  lookup b w = Some ob ->
  dict_get (text l) (data (cfg w)) = Some v ->
  icon_test (icon ob) v = Some same ->
  exists w' l0,
    on_enter b w = Ok tt w'
    /\ anims w' = l0 ++ [hint_animation_of same lid w].
Proof.
  intros Hs Hh Hi Hl Hlid Hk Hb Hv Ht.
  assert (H : wp (on_enter b)
                (fun _ w' => exists l0,
                   anims w' = l0 ++ [hint_animation_of same lid w])
                no_exn w).
  { unfold on_enter. wp_steps. rewrite Hs. simpl State_eqb. cbv iota.
    wp_steps. eapply wp_list_index; [exact Hi |]. wp_steps.
    eapply wp_getitem_at; [exact Hl |]. wp_steps.
    unfold isinstance at 1. rewrite Hlid, Hk, Hh. simpl andb. cbv iota.
    unfold Animation_cancel_all. wp_steps.
    eapply wp_read_lookup; [exact Hlid |]. wp_steps.
    eapply wp_read_lookup; [exact Hb |]. wp_step.
    eapply wp_data_getitem; [exact Hv |]. wp_steps. unfold icon_test in Ht.
    destruct (icon_eq_parameters (icon ob) v); cbv iota.
    - injection Ht as <-. wp_steps. cbv iota. wp_steps. eexists.
      unfold hint_animation_of. simpl. reflexivity.
    - wp_step. eapply wp_data_getitem; [exact Hv |]. wp_steps.
      unfold wp at 1. rewrite getitem0_first.
      destruct (first_of v) as [x |]; [| discriminate Ht].
      injection Ht as <-. wp_steps.
      destruct (icon_eq_val (icon ob) x); cbv iota; wp_steps; eexists;
        unfold hint_animation_of; simpl; reflexivity. }
  apply wp_ok in H as ([] & w' & H & l0 & Hl0). eauto.
Qed.

(** Outside the state [open] the two hover handlers do nothing. *)
Lemma on_enter_closed b w : state w <> open -> on_enter b w = Ok tt w.
Proof.
  intros H. unfold on_enter, bind, get.
  destruct (state w); [reflexivity | now destruct H].
Qed.

Lemma on_leave_closed b w : state w <> open -> on_leave b w = Ok tt w.
Proof.
  intros H. unfold on_leave, bind, get.
  destruct (state w); [reflexivity | now destruct H].
Qed.

(** C7, on an open stack of one button built from [{"Edit": "pencil"}]
    with hint animation on.  With the icon the stack was built with,
    [on_enter] widens the strip and fades the label in; with another icon,
    ["plus"], it fades the label out; [on_leave] collapses the strip and
    fades the label out.  But with the icon ["p"], which is not the
    configured icon, [on_enter] fades the label in as well: the second
    test of line 109 indexes the string ["pencil"] and compares the icon
    with its first character (on a list value it compares with the first
    element). *)
Theorem on_enter_matches_first_character :
  state example_hints = open
  /\ hint_animation (cfg example_hints) = true
  /\ (_buttons example_hints, _labels example_hints) = ([0%nat], [Some 1%nat])
  /\ option_map text (lookup 1 example_hints) = Some "Edit"
  /\ option_map icon_of (dict_get "Edit" (data (cfg example_hints)))
     = Some (Some "pencil")
  /\ icon_test "pencil" (PStr "pencil") = Some true
  /\ icon_test "plus" (PStr "pencil") = Some false
  /\ icon_test "p" (PStr "pencil") = Some true
  /\ icon_test "p" (PList [VStr "pencil"]) = Some false
  /\ running_on 1 example_hints = []
  /\ option_map icon (lookup 0 example_hints) = Some "pencil"
  /\ running_on 1 (world_after [EvEnter 0] example_hints)
     = [([("opacity", ANum 1)], 1 # 2)]
  /\ option_map icon (lookup 0 (with_icon 0 "plus" example_hints))
     = Some "plus"
  /\ running_on 1 (world_after [EvEnter 0] (with_icon 0 "plus" example_hints))
     = [([("opacity", ANum 0)], 1 # 10)]
  /\ option_map icon (lookup 0 (with_icon 0 "p" example_hints)) = Some "p"
  /\ run [EvEnter 0] (with_icon 0 "p" example_hints)
     = Ok tt (world_after [EvEnter 0] (with_icon 0 "p" example_hints))
  /\ running_on 1 (world_after [EvEnter 0] (with_icon 0 "p" example_hints))
     = [([("opacity", ANum 1)], 1 # 2)]
  /\ running_on 0 (world_after [EvEnter 0] (with_icon 0 "p" example_hints))
     = [([("opacity", ANum 1)], 1 # 2);
        ([("_canvas_width", ANum (-133))], 1 # 2)]
  /\ running_on 0 (world_after [EvLeave 0] example_hints)
     = [([("opacity", ANum 1)], 1 # 2);
        ([("_canvas_width", ANum 0); ("_elevation", ANum 0)], 1 # 2)]
  /\ running_on 1 (world_after [EvLeave 0] example_hints)
     = [([("opacity", ANum 0)], 1 # 10)]
  /\ world_after [EvEnter 0; EvLeave 0]
       (world_after [EvRelease] example_hints)
     = world_after [EvRelease] example_hints.
Proof. vm_compute. repeat split. Qed.
(** * Touch handlers are bound when a window animation completes *)

Lemma is_bound_unbind ev cb ev' cb' l :
  is_bound ev cb l = false -> is_bound ev cb (unbind_from ev' cb' l) = false.
Proof.
  unfold is_bound, unbind_from. induction l as [| b l IH]; simpl; [auto |].
  intros H. apply orb_false_elim in H as [Hb Hl].
  destruct (negb (binding_eqb (ev', cb') b)); simpl; [rewrite Hb |]; auto.
Qed.

Lemma is_bound_bind_other ev cb ev' cb' l :
  binding_eqb (ev, cb) (ev', cb') = false ->
  is_bound ev cb (bind_to ev' cb' l) = is_bound ev cb l.
Proof.
  intros H. unfold is_bound, bind_to.
  destruct (existsb (binding_eqb (ev', cb')) l); [reflexivity |].
  rewrite existsb_app. simpl. rewrite H. now rewrite !orb_false_r.
Qed.

Lemma touch_bindings_unbind ev cb l :
  touch_bindings l = false -> touch_bindings (unbind_from ev cb l) = false.
Proof.
  unfold touch_bindings. intros H.
  apply orb_false_elim in H as [H H3]. apply orb_false_elim in H as [H1 H2].
  now rewrite !is_bound_unbind.
Qed.

Lemma touch_bindings_on_draw l :
  touch_bindings (bind_to "on_draw" CbUpdatePosButtons l) = touch_bindings l.
Proof. unfold touch_bindings. now rewrite !is_bound_bind_other. Qed.

Lemma callbacks_kept_refl l : callbacks_kept l l.
Proof. intros i an H. eauto. Qed.

Lemma callbacks_kept_trans l1 l2 l3 :
  callbacks_kept l1 l2 -> callbacks_kept l2 l3 -> callbacks_kept l1 l3.
Proof.
  intros H1 H2 i an Han. apply H1 in Han as (an' & Han' & S1 & C1).
  apply H2 in Han' as (an'' & Han'' & S2 & C2).
  exists an''. repeat split; congruence.
Qed.

Lemma callbacks_kept_app l x : callbacks_kept l (l ++ x).
Proof.
  intros i an H. exists an. rewrite nth_error_app1; [auto |].
  apply nth_error_Some. congruence.
Qed.

Lemma callbacks_kept_update aid f l :
  (forall a, a_on_start (f a) = a_on_start a
             /\ a_on_complete (f a) = a_on_complete a) ->
  callbacks_kept l (update_nth aid f l).
Proof.
  intros Hf i an Han. rewrite nth_error_update_nth, Han.
  destruct (Nat.eqb aid i); simpl.
  - exists (f an). split; [reflexivity | apply Hf].
  - exists an. auto.
Qed.

Lemma callbacks_kept_map f l :
  (forall a, a_on_start (f a) = a_on_start a
             /\ a_on_complete (f a) = a_on_complete a) ->
  callbacks_kept l (map f l).
Proof.
  intros Hf i an Han. rewrite nth_error_map, Han. simpl. exists (f an).
  split; [reflexivity | apply Hf].
Qed.

Lemma anim_step_kept w w' :
  anim_step w w' -> callbacks_kept (anims w) (anims w').
Proof. now intros [_ H]. Qed.

Lemma plain_animation_kept a w w' :
  callbacks_kept (anims w) (anims w') ->
  plain_animation a w -> plain_animation a w'.
Proof.
  intros H (an & Han & S & C). apply H in Han as (an' & Han' & S' & C').
  exists an'. repeat split; congruence.
Qed.

Lemma plain_data_kept d w w' :
  callbacks_kept (anims w) (anims w') -> plain_data d w -> plain_data d w'.
Proof. intros H Hd k a Hin. eapply plain_animation_kept; eauto. Qed.

Lemma unbound_frame_refl w : touch_bound w = false -> unbound_frame w w.
Proof. intros H. repeat split; auto. apply callbacks_kept_refl. Qed.

Lemma iters_plain_frame w0 w :
  unbound_frame w0 w -> iters_plain w0 -> iters_plain w.
Proof.
  intros (_ & _ & Hi & Hk) H0 i Hin.
  apply (in_map it_data) in Hin. rewrite Hi in Hin.
  apply in_map_iff in Hin as (i0 & <- & Hin0).
  eapply plain_data_kept; [exact Hk | now apply H0].
Qed.

(** ** What the events keep while no touch handler is bound *)

Lemma unbound_frame_anims w0 w l :
  callbacks_kept (anims w) l -> unbound_frame w0 w ->
  unbound_frame w0 (set_anims l w).
Proof.
  intros Hl (H1 & H2 & H3 & H4). repeat split; auto.
  eapply callbacks_kept_trans; eauto.
Qed.

Lemma keeps_ub_unbind w0 ev cb :
  preserves (unbound_frame w0) (Window_unbind ev cb).
Proof.
  apply keeps_modify. intros w (H1 & H2 & H3 & H4). repeat split; auto.
  now apply touch_bindings_unbind.
Qed.

Lemma keeps_ub_bind_on_draw w0 :
  preserves (unbound_frame w0) (Window_bind "on_draw" CbUpdatePosButtons).
Proof.
  apply keeps_modify. intros w (H1 & H2 & H3 & H4). repeat split; auto.
  unfold touch_bound. simpl. now rewrite touch_bindings_on_draw.
Qed.

Lemma keeps_ub_update_anim w0 aid f :
  (forall a, a_on_start (f a) = a_on_start a
             /\ a_on_complete (f a) = a_on_complete a) ->
  preserves (unbound_frame w0) (update_anim aid f).
Proof.
  intros Hf. apply keeps_modify. intros w H.
  apply unbound_frame_anims; [now apply callbacks_kept_update | exact H].
Qed.

Lemma keeps_ub_cancel_all w0 id :
  preserves (unbound_frame w0) (Animation_cancel_all id).
Proof.
  apply keeps_modify. intros w H.
  apply unbound_frame_anims; [now apply callbacks_kept_map | exact H].
Qed.

Lemma keeps_start_new {B} P props d t tg (k : M B) :
  (forall w, P w ->
     P (set_anims (anims w ++ [mkAnimation props d t [] [] [] [tg]]) w)) ->
  preserves P k ->
  preserves P (a <- new_animation props d t ;; Animation_start a tg ;; k).
Proof.
  intros H Hk w HP. apply wp_bind. unfold wp at 1, new_animation.
  apply wp_bind.
  eapply wp_Animation_start_new;
    [simpl; reflexivity | reflexivity | reflexivity |].
  apply Hk. exact (H w HP).
Qed.

Lemma keeps_start_new_last P props d t tg :
  (forall w, P w ->
     P (set_anims (anims w ++ [mkAnimation props d t [] [] [] [tg]]) w)) ->
  preserves P (a <- new_animation props d t ;; Animation_start a tg).
Proof.
  intros H w HP. unfold wp. rewrite start_new_animation. apply H, HP.
Qed.

Lemma unbound_frame_new w0 w an :
  unbound_frame w0 w -> unbound_frame w0 (set_anims (anims w ++ [an]) w).
Proof. apply unbound_frame_anims, callbacks_kept_app. Qed.

Ltac ub_unfold :=
  unfold preserves, add_widget, add_widgets, add_widgets_body, remove_widget,
    remove_widgets, remove_widgets_body, close_binding,
    set_pos_bottom_buttons, set_pos_labels, _update_pos_buttons,
    _update_pos_buttons_body, apply_prop, Window_add_widget,
    Window_remove_widget, Window_on_touch, update, dispatch, on_data,
    on_data_inner, on_data_entry, bind_user, attach, on_parent, on_enter,
    on_leave, name_icon, callback_after, data_getitem, getitem0.

Ltac ub_step :=
  first
    [ apply keeps_ub_unbind
    | apply keeps_ub_bind_on_draw
    | apply keeps_ub_update_anim; intros ?; split; reflexivity
    | apply keeps_ub_cancel_all
    | apply keeps_start_new; [intros ? ?; now apply unbound_frame_new |]
    | apply keeps_start_new_last; intros ? ?; now apply unbound_frame_new
    | match goal with
      | |- keeps _ _ (modify _) =>
          apply keeps_modify;
          let w := fresh "w" in let H := fresh "H" in intros w H; exact H
      | |- keeps _ _ (new_widget _) =>
          let w := fresh "w" in let H := fresh "H" in intros w H; exact H
      end
    | pres_step ].

Ltac ub := unfold preserves; repeat (ub_unfold; ub_step).

Lemma ub_callbacks w0 l :
  existsb is_open_binding l = false ->
  preserves (unbound_frame w0) (for_each run_animation_callback l).
Proof.
  induction l as [| cb l IH]; simpl; intros H; [apply keeps_ret |].
  apply orb_false_elim in H as [Hcb Hl].
  apply keeps_bind; [| intros _; now apply IH].
  destruct cb; try discriminate; unfold run_animation_callback; ub.
Qed.

Lemma ub_on_enter w0 b : preserves (unbound_frame w0) (on_enter b).
Proof. ub. Qed.

Lemma ub_on_leave w0 b : preserves (unbound_frame w0) (on_leave b).
Proof. ub. Qed.

Lemma ub_on_data w0 d : preserves (unbound_frame w0) (on_data d).
Proof. ub. Qed.

Lemma ub_on_data_inner w0 d : preserves (unbound_frame w0) (on_data_inner d).
Proof. ub. Qed.

Lemma ub_attach w0 p : preserves (unbound_frame w0) (attach p).
Proof. ub. Qed.

Lemma ub_update_pos w0 : preserves (unbound_frame w0) _update_pos_buttons.
Proof. ub. Qed.

Lemma map_it_data_replace its it i rest :
  nth_error its it = Some i ->
  map it_data (replace_nth it (mkIter (it_data i) rest) its) = map it_data its.
Proof.
  revert it. induction its as [| j its IH]; intros [| it]; simpl;
    try discriminate.
  - now intros [= ->].
  - intros H. now rewrite IH.
Qed.

Lemma dict_get_id_In {V} k (d : list (nat * V)) v :
  dict_get_id k d = Some v -> In (k, v) d.
Proof.
  induction d as [| [k' v'] d IH]; simpl; [discriminate |].
  destruct (Nat.eqb_spec k' k) as [-> |]; [intros [= ->] |]; auto.
Qed.

(** The chained start of the next animation: the animation is plain, so
    starting it (and stopping it first when it still runs) calls
    nothing. *)
Lemma ub_animation_open_stack w0 it :
  iters_plain w0 -> preserves (unbound_frame w0) (animation_open_stack it).
Proof.
  intros H0 w HP. pose proof (iters_plain_frame _ _ HP H0) as Hw.
  unfold animation_open_stack. wp_steps.
  destruct (nth_error (iters w) it) as [i |] eqn:Hi; [| exact HP].
  destruct (it_rest i) as [| widget rest]; [exact HP |].
  wp_steps.
  assert (HP1 : unbound_frame w0
                  (set_iters (replace_nth it (mkIter (it_data i) rest)
                                (iters w)) w)).
  { destruct HP as (H1 & H2 & H3 & H4). repeat split; auto.
    simpl. now rewrite map_it_data_replace. }
  destruct (dict_get_id widget (it_data i)) as [animation |] eqn:Hd;
    [| split; [exact HP1 | exact I]].
  assert (Hplain : plain_animation animation w).
  { apply (Hw i (nth_error_In _ _ Hi) widget animation).
    now apply dict_get_id_In. }
  unfold update_anim. wp_steps.
  match goal with
  | |- wp _ _ _ ?W => remember W as w2 eqn:E2
  end.
  assert (K2 : callbacks_kept (anims w) (anims w2)).
  { subst w2. simpl. apply callbacks_kept_update. now split. }
  assert (HP2 : unbound_frame w0 w2).
  { subst w2. apply unbound_frame_anims; [exact K2 | exact HP1]. }
  eapply wp_mono;
    [apply Animation_start_plain; eapply plain_animation_kept; eauto | |].
  - intros ? w' [E S]. cbv beta. rewrite E.
    apply unbound_frame_anims; [exact S | exact HP2].
  - intros e w' [].
Qed.

Lemma world_after_one e w (P : World -> Prop) :
  wp (step e) (fun _ => P) (fun _ w' => P w' /\ True) w ->
  P (world_after [e] w).
Proof.
  unfold world_after, run, wp, bind, ret. destruct (step e w); tauto.
Qed.

Lemma touch_unbound ev cb handler pos w0 w :
  window_bound ev cb w = false -> unbound_frame w0 w ->
  wp (window_touch ev cb handler pos) (fun _ => unbound_frame w0)
     (fun _ w' => unbound_frame w0 w' /\ True) w.
Proof.
  intros Hb HP. unfold window_touch. wp_steps. rewrite Hb.
  unfold Window_on_touch. wp_steps. exact HP.
Qed.

Lemma touch_bound_false w :
  touch_bound w = false ->
  window_bound "on_touch_down" CbTouchDown w = false
  /\ window_bound "on_touch_move" CbTouchMove w = false
  /\ window_bound "on_touch_up" CbTouchUp w = false.
Proof.
  unfold touch_bound, touch_bindings, window_bound. intros H.
  apply orb_false_elim in H as [H H3]. apply orb_false_elim in H as [H1 H2].
  auto.
Qed.

(** One event of a run: while no touch handler is bound, only the
    completion of an animation with [open_binding] binds one, and only a
    release of the root button changes [state]. *)
Lemma step_unbound e w :
  iters_plain w -> touch_bound w = false -> is_release e = false ->
  completes_opening e w = false -> unbound_frame w (world_after [e] w).
Proof.
  intros Hi Hu Hr Hc. pose proof (unbound_frame_refl w Hu) as HP.
  pose proof (touch_bound_false w Hu) as (Hd & Hm & Hup).
  apply world_after_one. destruct e; try discriminate Hr.
  - assert (K : preserves (unbound_frame w) (step (EvSetData d)))
      by (unfold step; ub).
    exact (K w HP).
  - assert (K : preserves (unbound_frame w) (step (EvSetParent p)))
      by (unfold step; ub).
    exact (K w HP).
  - assert (K : preserves (unbound_frame w) (step EvTick))
      by (unfold step; ub).
    exact (K w HP).
  - assert (K : preserves (unbound_frame w) (step (EvProgress aid tg value))).
    { unfold step; ub; unfold on_progress;
        (destruct (Qle_bool (1 # 10) value);
         [now apply ub_animation_open_stack | apply keeps_ret]). }
    exact (K w HP).
  - unfold step. wp_steps. simpl in Hc.
    destruct (nth_error (anims w) aid) as [a |] eqn:Ha; [| exact HP].
    unfold Animation_complete. wp_step. unfold wp at 1, read_anim.
    rewrite Ha. destruct (is_running tg a); [| exact HP].
    simpl in Hc.
    assert (K : preserves (unbound_frame w)
                  (for_each (apply_prop tg) (a_props a) ;;
                   update_anim aid (stop_on tg) ;;
                   for_each run_animation_callback (a_on_complete a))).
    { apply keeps_bind; [ub |]. intros _.
      apply keeps_bind; [ub |]. intros _. now apply ub_callbacks. }
    exact (K w HP).
  - now apply touch_unbound.
  - now apply touch_unbound.
  - now apply touch_unbound.
  - exact (ub_on_enter w button w HP).
  - exact (ub_on_leave w button w HP).
  - assert (K : preserves (unbound_frame w) (step EvDraw))
      by (unfold step; ub).
    exact (K w HP).
  - assert (K : preserves (unbound_frame w) (step EvResize))
      by (unfold step; ub).
    exact (K w HP).
Qed.

Lemma world_after_cons e evs w :
  world_after (e :: evs) w =
  match step e w with
  | Ok _ w' => world_after evs w'
  | Raise _ w' => w'
  end.
Proof.
  unfold world_after. simpl. unfold bind. now destruct (step e w).
Qed.

(** A run: the handlers stay unbound and [state] stays as it is until an
    animation with [open_binding] completes or the root button is
    released. *)
Lemma run_unbound evs : forall w,
  iters_plain w -> touch_bound w = false -> awaits evs w = true ->
  touch_bound (world_after evs w) = false
  /\ state (world_after evs w) = state w.
Proof.
  induction evs as [| e evs IH]; intros w Hi Hu Ha; [now split |].
  simpl in Ha. apply andb_prop in Ha as [Ha Hrest].
  apply andb_prop in Ha as [Hr Hc].
  apply negb_true_iff in Hr. apply negb_true_iff in Hc.
  pose proof (step_unbound e w Hi Hu Hr Hc) as HF.
  pose proof (iters_plain_frame _ _ HF Hi) as Hi'.
  destruct HF as (Hu' & Hs' & _).
  rewrite world_after_cons. rewrite (world_after_cons e []) in Hi', Hu', Hs'.
  destruct (step e w) as [[] w' | ex w']; [| now split].
  change (world_after [] w') with w' in Hi', Hu', Hs'.
  destruct (IH w' Hi' Hu' Hrest) as [H1 H2].
  split; [exact H1 | congruence].
Qed.

(** ** Inside [open_stack] *)

Lemma build_frame_refl w : build_frame w w.
Proof. repeat split; auto. apply callbacks_kept_refl. Qed.

Lemma build_frame_anims w0 w l :
  callbacks_kept (anims w) l -> build_frame w0 w ->
  build_frame w0 (set_anims l w).
Proof.
  intros Hl (H1 & H2 & H3 & H4). repeat split; auto.
  eapply callbacks_kept_trans; eauto.
Qed.

Lemma keeps_bf_update w0 id f :
  (forall o, kind (f o) = kind o) -> preserves (build_frame w0) (update id f).
Proof.
  intros Hf. apply keeps_modify. intros w (H1 & H2 & H3 & H4).
  repeat split; auto. intros obj k. rewrite <- H4.
  now apply isinstance_update.
Qed.

Lemma keeps_bf_new_animation w0 props d t :
  preserves (build_frame w0) (new_animation props d t).
Proof.
  intros w H. unfold wp, new_animation.
  apply build_frame_anims; [apply callbacks_kept_app | exact H].
Qed.

Lemma keeps_bf_cancel_all w0 id :
  preserves (build_frame w0) (Animation_cancel_all id).
Proof.
  apply keeps_modify. intros w H.
  apply build_frame_anims; [now apply callbacks_kept_map | exact H].
Qed.

Ltac bf_step :=
  first
    [ apply keeps_bf_update; intros ?; reflexivity
    | apply keeps_bf_new_animation
    | apply keeps_bf_cancel_all
    | match goal with
      | |- keeps _ _ (modify _) =>
          apply keeps_modify;
          let w := fresh "w" in let H := fresh "H" in intros w H; exact H
      end
    | pres_step ].

Ltac bf :=
  repeat (unfold preserves, cancel_label_animations, open_stack_body,
            setitem_local_positions, dispatch;
          bf_step).

Lemma bf_cancel_label_animations w0 :
  preserves (build_frame w0) cancel_label_animations.
Proof. bf. Qed.

Lemma bf_open_stack_body w0 i button acc :
  preserves (build_frame w0) (open_stack_body i button acc).
Proof. bf. Qed.

(** The first step of the chain on the iterator just created. *)
Lemma animation_open_stack_first data w :
  plain_data data w ->
  wp (animation_open_stack (List.length (iters w)))
     (fun _ w' =>
        exists its an,
          w' = set_anims an (set_iters its w)
          /\ map it_data its = map it_data (iters w) ++ [data]
          /\ callbacks_kept (anims w) an)
     no_exn
     (set_iters (iters w ++ [mkIter data (map fst data)]) w).
Proof.
  intros Hd. unfold animation_open_stack. wp_steps. simpl iters.
  rewrite nth_error_snoc. simpl it_rest. simpl it_data.
  destruct data as [| [k a] rest]; simpl map; cbv iota.
  - wp_steps. exists (iters w ++ [mkIter [] []]), (anims w).
    split; [reflexivity |]. split; [| apply callbacks_kept_refl].
    now rewrite map_app.
  - wp_steps. simpl dict_get_id. rewrite Nat.eqb_refl.
    unfold update_anim. wp_steps.
    match goal with
    | |- wp _ _ _ ?W => remember W as w2 eqn:E2
    end.
    assert (K2 : callbacks_kept (anims w) (anims w2)).
    { subst w2. simpl. apply callbacks_kept_update. now split. }
    assert (P2 : plain_animation a w2).
    { eapply plain_animation_kept; [exact K2 |]. eapply Hd. now left. }
    eapply wp_mono; [apply Animation_start_plain; exact P2 | | auto].
    intros ? w' [E S]. cbv beta.
    exists (iters w2), (anims w'). split; [| split].
    + rewrite E. subst w2. reflexivity.
    + subst w2. simpl iters.
      rewrite (map_it_data_replace _ _ (mkIter ((k, a) :: rest)
                                          (k :: map fst rest)));
        [| apply nth_error_snoc].
      now rewrite map_app.
    + eapply callbacks_kept_trans; [exact K2 | exact S].
Qed.

Lemma settled_added i b w :
  _window w = Some Window -> settled i b w ->
  (isinstance (Some b) MDFloatingBottomButton w = true ->
   has_parent b w = true)
  /\ forall lid, nth_error (_labels w) i = Some (Some lid) ->
                 isinstance (Some lid) MDFloatingLabel w = true ->
                 has_parent lid w = true.
Proof.
  intros Hw [Hb (label & Hl & Hq)]. split.
  - intros Hk. destruct (Hb Hk) as [H | H]; [congruence | exact H].
  - intros lid Hlid Hk. rewrite Hl in Hlid. injection Hlid as ->.
    destruct (Hq lid eq_refl Hk) as [H | H]; [congruence | exact H].
Qed.

(** One call of [do_animation_open_stack]: the start of the window
    animation adds the stack to the window; nothing is bound to the
    window. *)
Lemma do_animation_open_stack_adds data w :
  _window w = Some Window ->
  List.length (_labels w) = List.length (_buttons w) ->
  (forall b, In b (_buttons w) ->
             isinstance (Some b) MDFloatingBottomButton w = true) ->
  (forall l, In (Some l) (_labels w) ->
             isinstance (Some l) MDFloatingLabel w = true) ->
  plain_data data w ->
  wp (do_animation_open_stack data) (fun _ w' => opening_frame data w w')
     (fun _ _ => True) w.
Proof.
  intros Hw Hlen Hkb Hkl Hd. unfold do_animation_open_stack, on_window.
  wp_steps. rewrite Hw. wp_steps.
  eapply wp_update_anim_last; [reflexivity |]. wp_step.
  eapply wp_update_anim_last; [reflexivity |]. wp_step.
  eapply wp_Animation_start_last; [reflexivity | reflexivity |].
  simpl. wp_step.
  match goal with |- wp _ _ _ ?W => remember W as w2 eqn:E2 end.
  assert (F2 : _window w2 = _window w /\ _buttons w2 = _buttons w
               /\ _labels w2 = _labels w
               /\ bindings (window w2) = bindings (window w)
               /\ state w2 = state w /\ iters w2 = iters w
               /\ (forall obj k, isinstance obj k w2 = isinstance obj k w)
               /\ exists x, anims w2 = anims w ++ [x])
    by (subst w2; simpl; repeat split; eexists; reflexivity).
  clear E2. destruct F2 as (W2 & B2 & L2 & N2 & S2 & I2 & K2 & x & A2).
  assert (K : preserves (fun w' => anims w' = anims w2
                           /\ iters w' = iters w2
                           /\ bindings (window w') = bindings (window w2)
                           /\ state w' = state w2)
                add_widgets)
    by pres.
  specialize (K w2 (conj eq_refl (conj eq_refl (conj eq_refl eq_refl)))).
  assert (Hret : wp add_widgets (fun _ w' => add_frame w2 w') no_exn w2)
    by (apply add_widgets_returns; rewrite B2, L2; lia).
  apply wp_ok in Hret as ([] & w3 & Hrun & F3).
  unfold wp in K. rewrite Hrun in K. destruct K as (A3 & I3 & N3 & S3).
  unfold wp at 1. rewrite Hrun. wp_steps.
  unfold add_widgets, bind, get in Hrun.
  apply add_loop_ok in Hrun as [_ Hall].
  change (wp (animation_open_stack (List.length (iters w3)))
            (fun _ w' => opening_frame data w w') (fun _ _ => True)
            (set_iters (iters w3 ++ [mkIter data (map fst data)]) w3)).
  assert (D3 : plain_data data w3).
  { eapply plain_data_extend; [| exact Hd]. rewrite A3, A2. reflexivity. }
  eapply wp_mono; [apply animation_open_stack_first; exact D3 | | easy].
  intros ? w4 (its & an & -> & Hits & Han). cbv beta.
  assert (W3 : _window w3 = Some Window)
    by (rewrite (af_window _ _ F3); congruence).
  repeat split; simpl.
  - congruence.
  - congruence.
  - eapply callbacks_kept_trans; [| exact Han]. rewrite A3, A2.
    apply callbacks_kept_app.
  - rewrite Hits. congruence.
  - intros obj k. change (isinstance obj k w3 = isinstance obj k w).
    now rewrite (af_kind _ _ F3).
  - intros id Hin.
    change (In (Some id) (stack_refs w3)) in Hin.
    change (has_parent id w3 = true).
    unfold stack_refs in Hin.
    rewrite (af_buttons _ _ F3), (af_labels _ _ F3), B2, L2 in Hin.
    apply in_app_or in Hin as [Hin | Hin].
    + apply in_map_iff in Hin as (b & [= ->] & Hin).
      pose proof (Hkb id Hin) as Hk.
      apply In_nth_error in Hin as [n Hn]. rewrite <- B2 in Hn.
      apply (proj1 (settled_added _ _ _ W3 (Hall n id Hn))).
      now rewrite (af_kind _ _ F3), K2.
    + pose proof (Hkl id Hin) as Hk.
      apply In_nth_error in Hin as [n Hn].
      assert (Hlt : (n < List.length (_buttons w2))%nat).
      { rewrite B2, <- Hlen. apply nth_error_Some. congruence. }
      destruct (nth_error (_buttons w2) n) as [b |] eqn:Hb;
        [| apply nth_error_None in Hb; lia].
      apply (proj2 (settled_added _ _ _ W3 (Hall n b Hb))).
      * now rewrite (af_labels _ _ F3), L2.
      * now rewrite (af_kind _ _ F3), K2.
Qed.

Lemma iters_plain_build w0 w :
  build_frame w0 w -> iters_plain w0 -> iters_plain w.
Proof.
  intros (_ & Hi & Hk & _) H0 i Hin. rewrite Hi in Hin.
  eapply plain_data_kept; [exact Hk | now apply H0].
Qed.

Lemma iters_plain_opening data w w' :
  opening_frame data w w' -> plain_data data w -> iters_plain w ->
  iters_plain w'.
Proof.
  intros (_ & _ & Hk & Hi & _) Hd H0 i Hin.
  apply (in_map it_data) in Hin. rewrite Hi in Hin.
  eapply plain_data_kept; [exact Hk |].
  apply in_app_or in Hin as [Hin | [<- | []]]; [| exact Hd].
  apply in_map_iff in Hin as (i0 & <- & Hin0). now apply H0.
Qed.

(** The two calls of [do_animation_open_stack] at the end of
    [open_stack]. *)
Lemma open_stack_animations w :
  _window w = Some Window ->
  List.length (_labels w) = List.length (_buttons w) ->
  (forall b, In b (_buttons w) ->
             isinstance (Some b) MDFloatingBottomButton w = true) ->
  (forall l, In (Some l) (_labels w) ->
             isinstance (Some l) MDFloatingLabel w = true) ->
  plain_data (_anim_buttons_data w) w ->
  plain_data (_anim_labels_data w) w ->
  iters_plain w ->
  wp (do_animation_open_stack (_anim_buttons_data w))
     (fun _ w1 =>
        wp (do_animation_open_stack (_anim_labels_data w1))
           (fun _ w' => _window w' = Some Window
                        /\ bindings (window w') = bindings (window w)
                        /\ stack_added w' /\ iters_plain w')
           no_exn w1)
     no_exn w.
Proof.
  intros Hw Hlen Hkb Hkl Hb Hl Hit.
  eapply wp_mono;
    [apply wp_and;
      [apply do_animation_open_stack_returns | 
       apply do_animation_open_stack_adds]; auto; lia | |].
  - intros ? w1 [(W1 & B1 & L1 & D1 & P1) F1]. cbv beta.
    pose proof F1 as (N1 & _ & _ & _ & K1 & _).
    assert (Hl1 : plain_data (_anim_labels_data w1) w1)
      by (rewrite D1; now apply P1).
    eapply wp_mono;
      [apply wp_and;
        [apply do_animation_open_stack_returns | 
         apply do_animation_open_stack_adds] | |].
    + congruence.
    + rewrite B1, L1. lia.
    + exact Hl1.
    + congruence.
    + congruence.
    + intros b Hin. rewrite K1. apply Hkb. now rewrite <- B1.
    + intros l Hin. rewrite K1. apply Hkl. now rewrite <- L1.
    + exact Hl1.
    + intros ? w2 [(W2 & _) F2]. cbv beta.
      pose proof F2 as (N2 & _ & _ & _ & _ & A2).
      split; [congruence |]. split; [congruence |]. split; [exact A2 |].
      eapply iters_plain_opening; [exact F2 | exact Hl1 |].
      eapply iters_plain_opening; [exact F1 | exact Hb | exact Hit].
    + intros e w' [[] _].
  - intros e w' [[] _].
Qed.

(** [open_stack] on a stack that is not open: it returns with the stack
    added to the window and the bindings of the window as they were. *)
Lemma open_stack_opens w :
  stack_ok w -> state w <> open -> get_root_window w = Some Window ->
  iters_plain w ->
  exists w', open_stack w = Ok tt w'
             /\ _window w' = Some Window
             /\ bindings (window w') = bindings (window w)
             /\ stack_added w' /\ iters_plain w'.
Proof.
  intros Hok Hs Hr Hit.
  assert (H : wp open_stack
                (fun _ w' => _window w' = Some Window
                             /\ bindings (window w') = bindings (window w)
                             /\ stack_added w' /\ iters_plain w')
                no_exn w).
  { unfold open_stack. wp_step.
    eapply wp_mono;
      [apply wp_and;
        [apply cancel_label_animations_ok; exact Hok
        | apply (bf_cancel_label_animations w w (build_frame_refl w))]
      | | intros e w' [[] _]].
    intros [] w0 [(Hok0 & Hs0 & Hp0) F0]. wp_steps.
    destruct (state w0) eqn:Es; [| congruence]. simpl negb. cbv iota.
    wp_steps. simpl (_buttons _).
    set (w1 := set__window (get_root_window w0) w0).
    set (n := List.length (_buttons w0)).
    set (acc0 := mkLocals
                   (30 * _direction_vals_stack
                           (stack_button_direction (cfg w0))) [] []).
    assert (K : preserves (fun w' => _window w' = Some Window
                             /\ _buttons w' = _buttons w0
                             /\ _labels w' = _labels w0)
                  (for_enumerate_acc open_stack_body 0 (_buttons w0) acc0))
      by pres.
    assert (KF : preserves (build_frame w)
                   (for_enumerate_acc open_stack_body 0 (_buttons w0) acc0))
      by (apply keeps_for_enumerate_acc; intros;
          apply bf_open_stack_body).
    eapply wp_mono;
      [apply wp_and;
        [apply wp_and;
          [apply (wp_for_enumerate_acc open_stack_body (loop_ok n) no_exn)
          | apply K]
        | apply KF]
      | | intros e w' [[[] _] _]].
    - intros k b s w' Hk Hl. apply open_stack_body_returns; [| exact Hl].
      apply nth_error_Some. simpl. congruence.
    - destruct Hok0 as [L P _ _ B A]. unfold loop_ok, n. simpl.
      repeat split; auto; intros ? ? [].
    - subst w1. simpl. unfold get_root_window in *. rewrite Hp0.
      repeat split. exact Hr.
    - exact F0.
    - intros acc w2
        [[(Hl & Hp & Hab & Hal & Hsb & Hsl) (Hw2 & Hb2 & Hl2)] F2].
      pose proof F0 as (_ & _ & _ & K0).
      pose proof F2 as (N2 & _ & _ & K2).
      wp_steps.
      destruct (truthy (l_anim_buttons_data acc)); wp_steps;
        (match goal with
         | |- context [truthy ?l && negb ?h] => destruct (truthy l && negb h)
         end);
        unfold dispatch; wp_steps;
        (match goal with
         | |- wp _ _ _ ?W => remember W as w3 eqn:E3
         end;
         assert (F3 : _window w3 = Some Window
                      /\ _buttons w3 = _buttons w0
                      /\ _labels w3 = _labels w0
                      /\ List.length (_labels w3) = List.length (_buttons w3)
                      /\ plain_data (_anim_buttons_data w3) w3
                      /\ plain_data (_anim_labels_data w3) w3
                      /\ build_frame w w3)
           by (subst w3; simpl; rewrite Hb2, Hl; unfold n; auto 10);
         clear E3; destruct F3 as (W3 & B3 & L3 & N3 & PB3 & PL3 & F3);
         pose proof F3 as (NB3 & _ & _ & K3);
         eapply wp_mono;
           [apply open_stack_animations; auto | | auto];
           [ intros b Hin; rewrite K3, <- K0;
             apply (ok_button_kind _ Hok0); congruence
           | intros l Hin; rewrite K3, <- K0;
             apply (ok_label_kind _ Hok0); congruence
           | eapply iters_plain_build; eauto
           | intros ? w4 H4; wp_steps;
             eapply wp_mono; [exact H4 | | auto];
             intros ? w5 (W5 & N5 & A5 & I5); repeat split; auto;
             congruence ]). }
  apply wp_ok in H as ([] & w' & H & Hpost). eauto.
Qed.

Lemma is_bound_bind ev cb l : is_bound ev cb (bind_to ev cb l) = true.
Proof.
  unfold is_bound, bind_to.
  destruct (existsb (binding_eqb (ev, cb)) l) eqn:H; [exact H |].
  rewrite existsb_app. simpl. unfold binding_eqb at 2. simpl.
  destruct (string_dec ev ev); [| congruence].
  destruct (Callback_eq_dec cb cb); [| congruence].
  apply orb_true_r.
Qed.

Lemma is_bound_bind_mono ev cb ev' cb' l :
  is_bound ev cb l = true -> is_bound ev cb (bind_to ev' cb' l) = true.
Proof.
  intros H. unfold is_bound, bind_to.
  destruct (existsb (binding_eqb (ev', cb')) l); [exact H |].
  rewrite existsb_app. unfold is_bound in H. now rewrite H.
Qed.

Lemma apply_prop_window props w :
  for_each (apply_prop TWindow) props w = Ok tt w.
Proof. induction props as [| p props IH]; simpl; auto. Qed.

(** The completion of a window animation whose [on_complete] is
    [open_binding] binds the three touch handlers. *)
Lemma complete_opening_binds aid a w :
  _window w = Some Window -> nth_error (anims w) aid = Some a ->
  is_running TWindow a = true -> a_on_complete a = [CbOpenBinding] ->
  exists w', step (EvComplete aid TWindow) w = Ok tt w'
             /\ window_bound "on_touch_down" CbTouchDown w' = true
             /\ window_bound "on_touch_move" CbTouchMove w' = true
             /\ window_bound "on_touch_up" CbTouchUp w' = true.
Proof.
  intros Hw Ha Hr Hc. unfold step, bind at 1, get. rewrite Ha.
  unfold Animation_complete, bind at 1, read_anim. rewrite Ha, Hr, Hc.
  unfold bind at 1. rewrite apply_prop_window.
  unfold bind at 1, update_anim, modify. simpl for_each.
  unfold run_animation_callback, open_binding, on_window, Window_bind,
    bind, get, modify, ret. simpl. repeat (rewrite Hw; simpl).
  eexists. split; [reflexivity |]. unfold window_bound. simpl.
  split; [| split].
  - apply is_bound_bind_mono, is_bound_bind_mono, is_bound_bind.
  - apply is_bound_bind_mono, is_bound_bind.
  - apply is_bound_bind.
Qed.

(** One open sequence on its own: [open_stack] on a stack that is not open
    adds the stack to the window (when its window animation starts) and
    binds nothing to the window; the completion of a window animation with
    [open_binding] binds the three touch handlers; and when no touch
    handler was bound before, then in every run in which the root button
    is not released and no animation with [open_binding] completes the
    handlers stay unbound and the stack stays open. *)
Lemma touch_binding_awaits_window_animation (w : World)
    (evs : list Event) :
  stack_ok w -> iters_plain w -> state w <> open ->
  get_root_window w = Some Window -> touch_bound w = false ->
  exists w0,
    open_stack w = Ok tt w0
    /\ state w0 = open
    /\ stack_added w0
    /\ bindings (window w0) = bindings (window w)
    /\ (awaits evs w0 = true ->
        touch_bound (world_after evs w0) = false
        /\ state (world_after evs w0) = open)
    /\ (forall aid a,
          nth_error (anims w0) aid = Some a ->
          is_running TWindow a = true ->
          a_on_complete a = [CbOpenBinding] ->
          exists w1,
            step (EvComplete aid TWindow) w0 = Ok tt w1
            /\ window_bound "on_touch_down" CbTouchDown w1 = true
            /\ window_bound "on_touch_move" CbTouchMove w1 = true
            /\ window_bound "on_touch_up" CbTouchUp w1 = true).
Proof.
  intros Hok Hit Hs Hr Hu.
  destruct (open_stack_opens w Hok Hs Hr Hit)
    as (w0 & Hrun & Hw0 & Hb0 & Ha0 & Hi0).
  pose proof (open_stack_post w w0 Hs Hrun) as (Hs0 & _).
  assert (Hu0 : touch_bound w0 = false)
    by (unfold touch_bound; now rewrite Hb0).
  exists w0. split; [exact Hrun |]. split; [exact Hs0 |].
  split; [exact Ha0 |]. split; [exact Hb0 |]. split.
  - intros Hev. destruct (run_unbound evs w0 Hi0 Hu0 Hev) as [H1 H2].
    split; [exact H1 | congruence].
  - intros aid a. now apply complete_opening_binds.
Qed.

Lemma plain_animationb_ok aid w :
  plain_animationb aid w = true -> plain_animation aid w.
Proof.
  unfold plain_animationb, plain_animation.
  destruct (nth_error (anims w) aid) as [an |]; [| discriminate].
  destruct (a_on_start an) eqn:Hs, (a_on_complete an) eqn:Hc;
    try discriminate.
  eauto.
Qed.

Lemma plain_datab_ok d w : plain_datab d w = true -> plain_data d w.
Proof.
  unfold plain_datab. rewrite forallb_forall. intros H k a Hin.
  apply plain_animationb_ok. exact (H (k, a) Hin).
Qed.

Lemma stack_okb_ok w : stack_okb w = true -> stack_ok w.
Proof.
  unfold stack_okb. intros H.
  apply andb_prop in H as [H H6]. apply andb_prop in H as [H H5].
  apply andb_prop in H as [H H4]. apply andb_prop in H as [H H3].
  apply andb_prop in H as [H1 H2].
  rewrite forallb_forall in H3, H4.
  constructor; try (now apply Nat.eqb_eq); try (now apply plain_datab_ok).
  - exact H3.
  - intros l Hin. exact (H4 (Some l) Hin).
Qed.

Lemma iters_plainb_ok w : iters_plainb w = true -> iters_plain w.
Proof.
  unfold iters_plainb. rewrite forallb_forall. intros H i Hin.
  apply plain_datab_ok. now apply H.
Qed.

Lemma stack_ok_example_reclosed : stack_ok example_reclosed.
Proof. apply stack_okb_ok. vm_compute. reflexivity. Qed.

Lemma iters_plain_example_reclosed : iters_plain example_reclosed.
Proof. apply iters_plainb_ok. vm_compute. reflexivity. Qed.

Lemma touch_binding_awaits_window_animation_witness :
  touch_bound (world_after (EvRelease :: example_run) example_reclosed)
  = false
  /\ state (world_after (EvRelease :: example_run) example_reclosed) = open.
Proof.
  destruct (touch_binding_awaits_window_animation example_reclosed
              example_run stack_ok_example_reclosed
              iters_plain_example_reclosed)
    as (w0 & Hrun & _ & _ & _ & Hev & _).
  - vm_compute. discriminate.
  - vm_compute. reflexivity.
  - vm_compute. reflexivity.
  - assert (E : open_stack example_reclosed
                = Ok tt (world_after [EvRelease] example_reclosed))
      by (vm_compute; reflexivity).
    pose proof (f_equal (fun r : Res unit =>
                           match r with
                           | Ok _ w' => w'
                           | Raise _ w' => w'
                           end) Hrun) as Hw.
    rewrite E in Hw. cbv beta iota in Hw. subst w0.
    assert (E' : world_after (EvRelease :: example_run) example_reclosed
                 = world_after example_run
                     (world_after [EvRelease] example_reclosed))
      by (vm_compute; reflexivity).
    rewrite E'. apply Hev. vm_compute. reflexivity.
Defined.

(** C5 fails: [open_stack] cancels the animations of the labels that are
    still running (lines 280-282) but not the window animations of an
    earlier open or close sequence.  The root button is released three
    times in a row: the stack opens (window animations 4 and 5), closes
    (window animation 6) and opens again (window animations 9 and 10),
    with no touch handler bound.  Animation 6 of the close sequence
    completes and [close_binding] takes the widgets of the stack out of
    the window; then 4 and 5 of the first open sequence complete and bind
    the touch handlers.  The stack is now open with no widget in the
    window and the handlers bound, while the window animations 9 and 10
    of the open sequence under way are still running; a touch outside the
    stack then closes it. *)
Theorem stale_animation_binds_touch_handlers :
  state example_reopened = open
  /\ touch_bound example_reopened = false
  /\ List.length
       (anims (world_after [EvRelease; EvRelease] example_closed)) = 9%nat
  /\ opening_animations example_reopened = [4; 5; 9; 10]%nat
  /\ children (window example_reopened) = [3; 2; 1; 0]%nat
  /\ state
       (world_after [EvComplete 6 TWindow; EvComplete 4 TWindow;
                     EvComplete 5 TWindow] example_reopened) = open
  /\ children
       (window
          (world_after [EvComplete 6 TWindow; EvComplete 4 TWindow;
                        EvComplete 5 TWindow] example_reopened)) = []
  /\ touch_bound
       (world_after [EvComplete 6 TWindow; EvComplete 4 TWindow;
                     EvComplete 5 TWindow] example_reopened) = true
  /\ opening_animations
       (world_after [EvComplete 6 TWindow; EvComplete 4 TWindow;
                     EvComplete 5 TWindow] example_reopened) = [9; 10]%nat
  /\ state
       (world_after [EvComplete 6 TWindow; EvComplete 4 TWindow;
                     EvComplete 5 TWindow; EvTouchDown (0, 0);
                     EvTouchUp (0, 0)] example_reopened) = close
  /\ dispatched
       (world_after [EvComplete 6 TWindow; EvComplete 4 TWindow;
                     EvComplete 5 TWindow; EvTouchDown (0, 0);
                     EvTouchUp (0, 0)] example_reopened)
     = ["on_open"; "on_close"; "on_open"; "on_close"]
  /\ opening_animations
       (world_after [EvComplete 6 TWindow; EvComplete 4 TWindow;
                     EvComplete 5 TWindow; EvTouchDown (0, 0);
                     EvTouchUp (0, 0)] example_reopened) = [9; 10]%nat.
Proof. vm_compute. repeat split. Qed.

(** ** Binding and unbinding the touch handlers *)

Lemma is_bound_false_iff ev cb l :
  is_bound ev cb l = false <->
  forall b, In b l -> binding_eqb (ev, cb) b = false.
Proof.
  unfold is_bound. induction l as [| a l IH]; simpl.
  - split; [intros _ b [] | reflexivity].
  - rewrite orb_false_iff, IH. split.
    + intros [Ha Hl] b [<- | Hb]; auto.
    + intros H. split; [apply H; now left | intros b Hb; apply H; now right].
Qed.

Lemma binding_eqb_refl b : binding_eqb b b = true.
Proof.
  unfold binding_eqb. destruct (string_dec (fst b) (fst b)); [| congruence].
  destruct (Callback_eq_dec (snd b) (snd b)); [reflexivity | congruence].
Qed.

Lemma binding_eqb_eq a b : binding_eqb a b = true -> a = b.
Proof.
  unfold binding_eqb. destruct a as [e c], b as [e' c']. simpl.
  destruct (string_dec e e'); [| discriminate].
  destruct (Callback_eq_dec c c'); [congruence | discriminate].
Qed.

Lemma touch_bindings_false_iff l :
  touch_bindings l = false <->
  forall b, In b l -> is_touch_binding b = false.
Proof.
  unfold touch_bindings, is_touch_binding.
  rewrite !orb_false_iff, !is_bound_false_iff. split.
  - intros [[H1 H2] H3] b Hb. rewrite H1, H2, H3; auto.
  - intros H. repeat split; intros b Hb; specialize (H b Hb);
      rewrite !orb_false_iff in H; tauto.
Qed.

(** What the three [bind] calls of [open_binding] and the three [unbind]
    calls of [close_binding] do to the bindings of the window. *)
Lemma unbind_touch_filter l :
  unbind_from "on_touch_up" CbTouchUp
    (unbind_from "on_touch_move" CbTouchMove
       (unbind_from "on_touch_down" CbTouchDown l))
  = filter (fun b => negb (is_touch_binding b)) l.
Proof.
  unfold unbind_from, is_touch_binding.
  induction l as [| b l IH]; [reflexivity |]. simpl.
  destruct (binding_eqb ("on_touch_down", CbTouchDown) b); simpl;
    [exact IH |].
  destruct (binding_eqb ("on_touch_move", CbTouchMove) b); simpl;
    [exact IH |].
  destruct (binding_eqb ("on_touch_up", CbTouchUp) b); simpl;
    [exact IH | now rewrite IH].
Qed.

Lemma filter_all {A} (f : A -> bool) l :
  (forall a, In a l -> f a = true) -> filter f l = l.
Proof.
  induction l as [| a l IH]; simpl; intros H; [reflexivity |].
  rewrite (H a (or_introl eq_refl)), IH; auto.
Qed.

Lemma In_bind_to b ev cb l :
  In b (bind_to ev cb l) <-> In b l \/ (b = (ev, cb) /\ is_bound ev cb l = false).
Proof.
  unfold bind_to, is_bound.
  destruct (existsb (binding_eqb (ev, cb)) l) eqn:He.
  - split; [auto | intros [H | [_ H]]; [exact H | discriminate]].
  - rewrite in_app_iff. simpl. split.
    + intros [H | [<- | []]]; auto.
    + intros [H | [-> _]]; auto.
Qed.

Lemma filter_bind_to_other ev cb l :
  is_touch_binding (ev, cb) = true ->
  filter (fun b => negb (is_touch_binding b)) (bind_to ev cb l)
  = filter (fun b => negb (is_touch_binding b)) l.
Proof.
  intros H. unfold bind_to.
  destruct (existsb (binding_eqb (ev, cb)) l); [reflexivity |].
  rewrite filter_app. simpl. rewrite H. simpl. apply app_nil_r.
Qed.

Lemma bind_touch_filter l :
  filter (fun b => negb (is_touch_binding b))
    (bind_to "on_touch_up" CbTouchUp
       (bind_to "on_touch_move" CbTouchMove
          (bind_to "on_touch_down" CbTouchDown l)))
  = filter (fun b => negb (is_touch_binding b)) l.
Proof. now rewrite !filter_bind_to_other. Qed.

Lemma open_binding_bindings w :
  _window w = Some Window ->
  open_binding w =
  Ok tt (set_window
           (set_bindings
              (bind_to "on_touch_up" CbTouchUp
                 (bind_to "on_touch_move" CbTouchMove
                    (bind_to "on_touch_down" CbTouchDown
                       (bindings (window w)))))
              (window w)) w).
Proof.
  intros Hw. unfold open_binding, on_window, Window_bind, bind, get, modify.
  simpl. rewrite Hw. simpl. rewrite Hw. simpl. rewrite Hw. reflexivity.
Qed.

Lemma filter_is_bound ev cb l :
  is_touch_binding (ev, cb) = false ->
  is_bound ev cb (filter (fun b => negb (is_touch_binding b)) l)
  = is_bound ev cb l.
Proof.
  intros H. unfold is_bound. induction l as [| b l IH]; [reflexivity |].
  simpl. destruct (is_touch_binding b) eqn:Hb; simpl; rewrite IH; auto.
  destruct (binding_eqb (ev, cb) b) eqn:He; [| reflexivity].
  apply binding_eqb_eq in He. subst b. congruence.
Qed.

Lemma touch_bindings_filter l :
  touch_bindings (filter (fun b => negb (is_touch_binding b)) l) = false.
Proof.
  apply touch_bindings_false_iff. intros b Hb.
  apply filter_In in Hb as [_ Hb]. now apply negb_true_iff in Hb.
Qed.

Lemma remove_widgets_unset w :
  _window w = None ->
  (List.length (_buttons w) <= List.length (_labels w))%nat ->
  remove_widgets w = Ok tt w.
Proof.
  intros Hw Hlen.
  assert (H : wp remove_widgets (fun _ w' => w' = w) no_exn w).
  { unfold remove_widgets. wp_steps.
    apply (wp_for_enumerate remove_widgets_body (fun w' => w' = w));
      [| reflexivity].
    intros k b w' Hk ->. unfold remove_widgets_body. wp_step.
    apply wp_if_isinstance.
    - intros id _ _. unfold remove_widget. wp_steps. rewrite Hw. wp_steps.
      apply wp_getitem.
      + assert (k < List.length (_buttons w))%nat
          by (apply nth_error_Some; congruence).
        simpl. lia.
      + intros label _. apply wp_if_isinstance; [| auto].
        intros lid _ _. wp_steps. rewrite Hw. reflexivity.
    - intros _. wp_steps. apply wp_getitem.
      + assert (k < List.length (_buttons w))%nat
          by (apply nth_error_Some; congruence).
        simpl. lia.
      + intros label _. apply wp_if_isinstance; [| auto].
        intros lid _ _. unfold remove_widget. wp_steps. rewrite Hw.
        reflexivity. }
  apply wp_ok in H as ([] & w' & H & ->). exact H.
Qed.

(** [open_binding] binds the three touch handlers, and [close_binding]
    after it leaves exactly the bindings that are not touch handlers, in
    their order: the bindings there were, when no touch handler was bound
    before.  Without a window reference both raise [AttributeError] and
    change nothing. *)
Theorem close_binding_undoes_open_binding (w : World) :
  (List.length (_buttons w) <= List.length (_labels w))%nat ->
  (_window w = Some Window ->
   exists w1 w2,
     open_binding w = Ok tt w1
     /\ close_binding w1 = Ok tt w2
     /\ window_bound "on_touch_down" CbTouchDown w1 = true
     /\ window_bound "on_touch_move" CbTouchMove w1 = true
     /\ window_bound "on_touch_up" CbTouchUp w1 = true
     /\ bindings (window w2)
        = filter (fun b => negb (is_touch_binding b)) (bindings (window w))
     /\ touch_bound w2 = false
     /\ (touch_bound w = false ->
         bindings (window w2) = bindings (window w)))
  /\ (_window w = None ->
      open_binding w = Raise AttributeError w
      /\ close_binding w = Raise AttributeError w).
Proof.
  intros Hlen. split.
  - intros Hw. rewrite (open_binding_bindings w Hw).
    set (w1 := set_window _ w).
    assert (H : wp close_binding
                  (fun _ w2 =>
                     bindings (window w2)
                     = filter (fun b => negb (is_touch_binding b))
                         (bindings (window w)))
                  no_exn w1).
    { unfold close_binding. wp_step.
      assert (K : preserves
                    (fun w' => bindings (window w') = bindings (window w1)
                               /\ _window w' = Some Window)
                    remove_widgets) by pres.
      eapply wp_mono;
        [apply wp_and;
          [apply (remove_widgets_returns w1); exact Hlen
          | apply (K w1); split; [reflexivity | exact Hw]]
        | | intros e w' [[] _]].
      intros [] w' [_ [Hb Hw']]. unfold on_window, Window_unbind.
      wp_steps. rewrite Hw'. wp_steps. simpl. rewrite Hw'. wp_steps.
      simpl. rewrite Hw'. wp_steps. simpl.
      rewrite unbind_touch_filter, Hb. subst w1. simpl.
      apply bind_touch_filter. }
    apply wp_ok in H as ([] & w2 & Hrun & Hb).
    exists w1, w2. split; [reflexivity |]. split; [exact Hrun |].
    split; [| split; [| split; [| split; [exact Hb | split]]]].
    + unfold window_bound. subst w1. simpl.
      apply is_bound_bind_mono, is_bound_bind_mono, is_bound_bind.
    + unfold window_bound. subst w1. simpl.
      apply is_bound_bind_mono, is_bound_bind.
    + unfold window_bound. subst w1. simpl. apply is_bound_bind.
    + unfold touch_bound. rewrite Hb. apply touch_bindings_filter.
    + intros Hu. rewrite Hb. apply filter_all. intros b Hin.
      apply negb_true_iff.
      now apply (proj1 (touch_bindings_false_iff _) Hu).
  - intros Hw. split.
    + unfold open_binding, on_window, bind, get. now rewrite Hw.
    + unfold close_binding, bind. rewrite (remove_widgets_unset w Hw Hlen).
      unfold on_window, bind, get. now rewrite Hw.
Qed.

Lemma close_binding_undoes_open_binding_witness :
  exists w1 w2,
    open_binding example_open = Ok tt w1
    /\ close_binding w1 = Ok tt w2
    /\ bindings (window w2) = bindings (window example_open).
Proof.
  destruct (proj1 (close_binding_undoes_open_binding example_open
                     ltac:(vm_compute; lia))
              ltac:(vm_compute; reflexivity))
    as (w1 & w2 & H1 & H2 & _ & _ & _ & _ & _ & H3).
  exists w1, w2. split; [exact H1 |]. split; [exact H2 |].
  apply H3. vm_compute. reflexivity.
Defined.

Lemma center_x_set_center_x v o : center_x (set_center_x v o) == v.
Proof. unfold center_x, set_center_x. simpl. ring. Qed.

(** Without a parent, [set_pos_bottom_buttons] centres the button on
    x = 0 (the fallback [_root_button]) and then raises [AttributeError]
    on [self.parent.center_y]. *)
Lemma set_pos_bottom_buttons_orphan b ob Q w :
  parent w = None -> lookup b w = Some ob ->
  wp (set_pos_bottom_buttons b) Q
     (fun e w' =>
        e = AttributeError /\ _buttons w' = _buttons w
        /\ _labels w' = _labels w
        /\ _local_positions w' = _local_positions w
        /\ exists ob', lookup b w' = Some ob' /\ kind ob' = kind ob
                        /\ icon ob' = icon ob /\ center_x ob' == 0)
     w.
Proof.
  intros Hp Hb. unfold set_pos_bottom_buttons. wp_steps. rewrite Hp.
  unfold update. wp_steps. repeat split.
  exists (set_center_x 0 ob). split.
  - unfold lookup in *. simpl. now rewrite nth_error_update_nth, Nat.eqb_refl, Hb.
  - repeat split. apply center_x_set_center_x.
Qed.

(** The rebuild of a speed dial that has no parent raises
    [AttributeError] at the first entry, after the entry's button and
    label slot were added to the stack: the button is centred on x = 0,
    and no later entry is built. *)
Theorem rebuild_without_parent (w : World) (entry : string * Parameters)
    (rest : Data) :
  parent w = None -> entry_good entry = true ->
  exists w' b label ob,
    on_data_inner (entry :: rest) w = Raise AttributeError w'
    /\ _buttons w' = _buttons w ++ [b]
    /\ _labels w' = _labels w ++ [label]
    /\ _local_positions w' = _local_positions w ++ [0]
    /\ (label = None <-> fst entry = EmptyString)
    /\ lookup b w' = Some ob
    /\ kind ob = MDFloatingBottomButton
    /\ icon_of (snd entry) = Some (icon ob)
    /\ center_x ob == 0.
Proof.
  intros Hp Hgood. destruct entry as [name p]. unfold entry_good in Hgood.
  simpl snd in *. simpl fst.
  pose proof (name_icon_spec p) as Hicon.
  destruct (icon_of p) as [s |]; [| discriminate].
  apply andb_prop in Hgood as [Hpr Hre].
  destruct (callable_after_returns _ _ Hpr) as (pr & Cpr & Npr).
  destruct (callable_after_returns _ _ Hre) as (re & Cre & Nre).
  assert (Fin : forall label w1 ob,
            parent w1 = None ->
            _buttons w1 = _buttons w ++ [List.length (heap w)] ->
            _labels w1 = _labels w ++ [label] ->
            _local_positions w1 = _local_positions w ++ [0] ->
            lookup (List.length (heap w)) w1 = Some ob ->
            kind ob = MDFloatingBottomButton -> icon ob = s ->
            (label = None <-> name = EmptyString) ->
            forall Q,
            wp (set_pos_bottom_buttons (List.length (heap w))) Q
               (fun e w' => e = AttributeError /\ exists b label ob,
                  _buttons w' = _buttons w ++ [b]
                  /\ _labels w' = _labels w ++ [label]
                  /\ _local_positions w' = _local_positions w ++ [0]
                  /\ (label = None <-> name = EmptyString)
                  /\ lookup b w' = Some ob
                  /\ kind ob = MDFloatingBottomButton
                  /\ Some s = Some (icon ob)
                  /\ center_x ob == 0) w1).
  { intros label w1 ob P1 B1 L1 Q1 Hob Kob Iob Hl Q.
    eapply wp_mono;
      [apply (set_pos_bottom_buttons_orphan _ ob Q w1 P1 Hob)
      | auto |].
    intros e w' (-> & B' & L' & Q' & ob' & Hob' & K' & I' & C').
    split; [reflexivity |]. exists (List.length (heap w)), label, ob'.
    repeat split; try congruence; tauto. }
  assert (H : wp (on_data_inner ((name, p) :: rest)) (fun _ _ => False)
                (fun e w' => e = AttributeError /\ exists b label ob,
                   _buttons w' = _buttons w ++ [b]
                   /\ _labels w' = _labels w ++ [label]
                   /\ _local_positions w' = _local_positions w ++ [0]
                   /\ (label = None <-> name = EmptyString)
                   /\ lookup b w' = Some ob
                   /\ kind ob = MDFloatingBottomButton
                   /\ Some s = Some (icon ob)
                   /\ center_x ob == 0) w).
  { unfold on_data_inner, Window_bind. wp_steps. simpl for_each. wp_steps.
    unfold on_data_entry. rewrite Hicon, Cpr, Cre.
    wp_steps. apply wp_new_widget. wp_steps.
    apply wp_bind_user_good; [exact Npr | intros []; reflexivity |].
    unfold update. wp_steps.
    apply wp_bind_user_good; [exact Nre | intros []; reflexivity |].
    unfold update. wp_steps.
    match goal with |- wp _ _ _ ?W => remember W as w1 eqn:E1 end.
    assert (F1 : _buttons w1 = _buttons w ++ [List.length (heap w)]
                 /\ _labels w1 = _labels w
                 /\ _local_positions w1 = _local_positions w
                 /\ parent w1 = None
                 /\ exists ob, lookup (List.length (heap w)) w1 = Some ob
                      /\ kind ob = MDFloatingBottomButton /\ icon ob = s).
    { subst w1. split; [reflexivity |]. split; [reflexivity |].
      split; [reflexivity |]. split; [exact Hp |].
      eexists. unfold lookup. simpl.
      rewrite !nth_error_update_nth, Nat.eqb_refl, nth_error_snoc. simpl.
      repeat split. }
    clear E1. destruct F1 as (B1 & L1 & P1 & R1 & ob & Hob & Kob & Iob).
    destruct (name =? EmptyString)%string eqn:En.
    - apply String.eqb_eq in En. wp_steps.
      apply (Fin None _ ob);
        [ exact R1 | simpl; congruence | simpl; congruence
        | simpl; congruence | exact Hob | congruence | congruence
        | tauto ].
    - apply String.eqb_neq in En. wp_steps. apply wp_new_widget. wp_steps.
      match goal with
      | |- wp _ _ _ (set__local_positions _ (set__labels _ ?W)) =>
          assert (G2 : heap_grows w1 W) by apply heap_grows_new
      end.
      apply G2 in Hob as (o' & Ho' & K & I' & T).
      apply (Fin (Some (List.length (heap w1))) _ o');
        [ exact R1 | simpl; congruence | simpl; congruence
        | simpl; congruence | exact Ho' | congruence | congruence
        | split; [discriminate | intros; contradiction] ]. }
  unfold wp in H.
  destruct (on_data_inner ((name, p) :: rest) w) as [[] w' | e w'];
    [destruct H |].
  destruct H as (-> & b & label & ob & H).
  exists w', b, label, ob. split; [reflexivity | exact H].
Qed.

Lemma rebuild_without_parent_witness :
  exists w' b label ob,
    on_data_inner (("Edit", PStr "pencil") :: example_data)
      (init example_config (800, 600)) = Raise AttributeError w'
    /\ _buttons w' = [b] /\ _labels w' = [label]
    /\ _local_positions w' = [0]
    /\ (label = None <-> "Edit" = EmptyString)
    /\ lookup b w' = Some ob
    /\ kind ob = MDFloatingBottomButton
    /\ Some "pencil" = Some (icon ob)
    /\ center_x ob == 0.
Proof.
  apply (rebuild_without_parent (init example_config (800, 600))
           ("Edit", PStr "pencil") example_data); reflexivity.
Defined.

(** ** Entries of [data] the rebuild cannot build *)

Lemma for_each_app {A} (body : A -> M unit) l1 l2 w :
  for_each body (l1 ++ l2) w = (for_each body l1 ;; for_each body l2) w.
Proof.
  revert w. induction l1 as [| a l1 IH]; intros w; [reflexivity |].
  simpl. unfold bind. destruct (body a w) as [[] w' | e w']; [| reflexivity].
  rewrite IH. reflexivity.
Qed.

Lemma name_icon_error p :
  icon_of p = None ->
  name_icon p = raise IndexError \/ name_icon p = raise icon_error.
Proof.
  destruct p as [s | [| [s | c] l]]; simpl; try discriminate; auto.
Qed.

Lemma on_data_entry_fails_early entry w :
  fails_early entry = true ->
  wp (on_data_entry entry) (fun _ _ => False)
     (fun e w' => (e = IndexError \/ e = icon_error)
                  /\ _buttons w' = _buttons w /\ _labels w' = _labels w
                  /\ _local_positions w' = _local_positions w
                  /\ _widget_declaration_finished w'
                     = _widget_declaration_finished w
                  /\ heap_grows w w')
     w.
Proof.
  destruct entry as [name p]. unfold fails_early, on_data_entry. simpl snd.
  pose proof (name_icon_spec p) as Hicon.
  destruct (icon_of p) as [s |] eqn:Ei.
  - intros Hcb. apply negb_true_iff in Hcb. rewrite Hicon.
    pose proof (callback_after_spec "on_press" p) as Cpr.
    rewrite Hcb in Cpr. rewrite Cpr.
    wp_steps. apply wp_new_widget. wp_steps.
    repeat split; auto. apply heap_grows_new.
  - intros _. destruct (name_icon_error p Ei) as [-> | ->]; wp_steps;
      repeat split; auto using heap_grows_refl.
Qed.

Lemma rebuilt_grows d w0 w w' :
  rebuilt d w0 w -> heap_grows w w' -> _buttons w' = _buttons w ->
  _labels w' = _labels w -> _local_positions w' = _local_positions w ->
  rebuilt d w0 w'.
Proof.
  intros (bs & ls & B & L & P & Nb & Nl & G & E) G' B' L' P'.
  exists bs, ls. repeat split; try congruence.
  - eapply heap_grows_trans; eauto.
  - intros i entry Hi. destruct (E i entry Hi) as (b & label & Hb & Hl & He).
    exists b, label. repeat split; try assumption;
      eapply entry_built_grows; eauto.
Qed.

(** The rebuild of a speed dial with a parent stops at the first entry
    that has no icon or whose ["on_press"] has nothing after it: it
    raises [IndexError] (or the [ValueError] of the [icon] property), with
    the well-formed entries before it built, one button and one label slot
    each, and no later entry built; [_widget_declaration_finished] is not
    set. *)
Theorem rebuild_stops_at_malformed_entry (w : World) (d1 d2 : Data)
    (bad : string * Parameters) :
  parent w <> None ->
  List.length (_buttons w) = List.length (_local_positions w) ->
  List.length (_labels w) = List.length (_local_positions w) ->
  forallb entry_good d1 = true -> fails_early bad = true ->
  exists e w',
    on_data_inner (d1 ++ bad :: d2) w = Raise e w'
    /\ (e = IndexError \/ e = icon_error)
    /\ rebuilt d1 w w'
    /\ (_widget_declaration_finished w = false ->
        _widget_declaration_finished w' = false).
Proof.
  intros Hp Hb Hl Hd Hbad.
  assert (H : wp (on_data_inner (d1 ++ bad :: d2)) (fun _ _ => False)
                (fun e w' => (e = IndexError \/ e = icon_error)
                   /\ rebuilt d1 w w'
                   /\ (_widget_declaration_finished w = false ->
                       _widget_declaration_finished w' = false)) w).
  { unfold on_data_inner, Window_bind. wp_steps.
    match goal with |- wp _ _ _ ?W => set (w0 := W) end.
    unfold wp at 1. rewrite for_each_app.
    change (wp (for_each on_data_entry d1 ;;
                for_each on_data_entry (bad :: d2))
              (fun _ w' => wp (modify (set__widget_declaration_finished true))
                             (fun _ _ => False)
                             (fun e w'' => (e = IndexError \/ e = icon_error)
                                /\ rebuilt d1 w w''
                                /\ (_widget_declaration_finished w = false ->
                                    _widget_declaration_finished w'' = false))
                             w')
              (fun e w' => (e = IndexError \/ e = icon_error)
                 /\ rebuilt d1 w w'
                 /\ (_widget_declaration_finished w = false ->
                     _widget_declaration_finished w' = false)) w0).
    wp_step.
    assert (K : preserves (fun w' => _widget_declaration_finished w = false ->
                                     _widget_declaration_finished w' = false)
                  (for_each on_data_entry d1)).
    { unfold preserves, on_data_entry.
      repeat first
        [ apply keeps_name_icon | apply keeps_callback_after
        | apply keeps_bind_user; [exact I | intros ?]
        | progress unfold set_pos_bottom_buttons, set_pos_labels
        | pres_unfold; pres_step ]. }
    eapply wp_mono;
      [apply wp_and;
        [apply wp_and;
          [apply (for_each_on_data_entry_ok d1 w0)
          | apply (for_each_on_data_entry_returns d1 w0); assumption]
        | apply (K w0); auto]
      | | intros e w' [[_ []] _]].
    intros [] w1 [[R1 _] F1]. cbv beta. simpl for_each. wp_step.
    eapply wp_mono;
      [apply on_data_entry_fails_early; exact Hbad | intros ? ? [] |].
    intros e w' (He & B' & L' & P' & F' & G'). cbv beta.
    split; [exact He |]. split; [| intros Hf; rewrite F'; auto].
    eapply rebuilt_grows; eauto. }
  unfold wp in H.
  destruct (on_data_inner (d1 ++ bad :: d2) w) as [[] w' | e w'];
    [destruct H | eauto].
Qed.

Lemma rebuild_stops_at_malformed_entry_witness :
  exists e w',
    on_data_inner
      ([("Edit", PStr "pencil")]
       ++ ("Add", PList [VStr "plus"; VStr "on_press"])
          :: [("Cut", PStr "scissors")])
      example_attached = Raise e w'
    /\ (e = IndexError \/ e = icon_error)
    /\ rebuilt [("Edit", PStr "pencil")] example_attached w'
    /\ (_widget_declaration_finished example_attached = false ->
        _widget_declaration_finished w' = false).
Proof.
  apply rebuild_stops_at_malformed_entry.
  - vm_compute. discriminate.
  - reflexivity.
  - reflexivity.
  - reflexivity.
  - reflexivity.
Defined.

(** ** The stack stays aligned *)

Lemma isinstance_grows obj k w w' :
  heap_grows w w' -> isinstance obj k w = true -> isinstance obj k w' = true.
Proof.
  intros G. unfold isinstance. destruct obj as [id |]; [| auto].
  destruct (lookup id w) as [o |] eqn:Ho; [| discriminate].
  apply G in Ho as (o' & -> & K & _). now rewrite K.
Qed.

Lemma shape_frame_refl w : shape_frame w w.
Proof. repeat split. apply heap_grows_refl. Qed.

Lemma aligned_frame w0 w : aligned w0 -> shape_frame w0 w -> aligned w.
Proof.
  intros (L & P & KB & KL) (G & B & L' & P'). repeat split.
  - congruence.
  - congruence.
  - intros b Hb. rewrite B in Hb. eapply isinstance_grows; eauto.
  - intros l Hl. rewrite L' in Hl. eapply isinstance_grows; eauto.
Qed.

Lemma keeps_sf_update w0 id f :
  (forall o, same_widget o (f o)) -> preserves (shape_frame w0) (update id f).
Proof.
  intros Hf w (G & B & L & P). unfold wp, update, modify.
  repeat split; try assumption.
  eapply heap_grows_trans; [exact G | now apply heap_grows_update].
Qed.

Lemma keeps_sf_new_widget w0 o : preserves (shape_frame w0) (new_widget o).
Proof.
  intros w (G & B & L & P). unfold wp, new_widget.
  repeat split; try assumption.
  eapply heap_grows_trans; [exact G | apply heap_grows_new].
Qed.

Lemma keeps_sf_setitem w0 i v :
  preserves (shape_frame w0) (setitem_local_positions i v).
Proof.
  intros w H. unfold wp, setitem_local_positions, bind, get.
  destruct (Nat.ltb i (List.length (_local_positions w))); [| now split].
  destruct H as (G & B & L & P). unfold modify. repeat split; try assumption.
  simpl. now rewrite length_replace_nth.
Qed.

Ltac sf_unfold :=
  unfold preserves, add_widget, add_widgets, add_widgets_body, remove_widget,
    remove_widgets, remove_widgets_body, open_binding, close_binding,
    set_pos_bottom_buttons, set_pos_labels, _update_pos_buttons,
    _update_pos_buttons_body, run_animation_callback, Animation_start,
    Animation_cancel_all, Animation_complete, apply_prop,
    animation_open_stack, on_progress, do_animation_open_stack,
    close_stack, close_stack_body, open_stack, open_stack_body,
    cancel_label_animations, Window_add_widget, Window_remove_widget,
    Window_bind, Window_unbind, Window_on_touch, update_anim, dispatch,
    touch_down, touch_move, touch_up, collide_at, window_touch, on_enter,
    on_leave, data_getitem, getitem0, attach, on_parent.

Ltac sf_step :=
  first
    [ apply keeps_sf_update; intros ?; repeat split
    | apply keeps_sf_new_widget
    | apply keeps_sf_setitem
    | match goal with
      | |- keeps _ _ (modify _) =>
          apply keeps_modify;
          let w := fresh "w" in let H := fresh "H" in intros w H; exact H
      | |- keeps _ _ (new_animation _ _ _) =>
          let w := fresh "w" in let H := fresh "H" in intros w H; exact H
      | |- keeps _ _ (new_iter _) =>
          let w := fresh "w" in let H := fresh "H" in intros w H; exact H
      end
    | pres_step ].

Ltac sf := repeat (sf_unfold; sf_step).

Lemma sf_open_stack w0 : preserves (shape_frame w0) open_stack.
Proof. sf. Qed.

Lemma sf_step_other e w0 :
  match e with EvSetData _ | EvTick => False | _ => True end ->
  preserves (shape_frame w0) (step e).
Proof.
  destruct e; intros He; try destruct He; unfold step; sf.
Qed.

Lemma shape_frame_trans w1 w2 w3 :
  shape_frame w1 w2 -> shape_frame w2 w3 -> shape_frame w1 w3.
Proof.
  intros (G & B & L & P) (G' & B' & L' & P'). repeat split; try congruence.
  eapply heap_grows_trans; eauto.
Qed.

Lemma wp_aligned_frame {A} (m : M A) w0 w :
  preserves (shape_frame w0) m -> aligned w0 -> shape_frame w0 w ->
  wp m (fun _ => aligned) (fun _ => aligned) w.
Proof.
  intros K Ha F. eapply wp_mono; [apply (K w F) | |].
  - intros ? w' F'. eapply aligned_frame; eauto.
  - intros ? w' [F' _]. eapply aligned_frame; eauto.
Qed.

Lemma aligned_snoc w w1 b label :
  aligned w -> heap_grows w w1 ->
  _buttons w1 = _buttons w ++ [b] -> _labels w1 = _labels w ++ [label] ->
  List.length (_local_positions w1) = S (List.length (_local_positions w)) ->
  isinstance (Some b) MDFloatingBottomButton w1 = true ->
  (forall l, label = Some l ->
             isinstance (Some l) MDFloatingLabel w1 = true) ->
  aligned w1.
Proof.
  intros (L & P & KB & KL) G B1 L1 P1 Kb Kl. repeat split.
  - rewrite L1, B1, !length_app. simpl. lia.
  - rewrite P1, B1, !length_app. simpl. lia.
  - intros x Hx. rewrite B1 in Hx. apply in_app_or in Hx as [Hx | [<- | []]].
    + eapply isinstance_grows; eauto.
    + exact Kb.
  - intros x Hx. rewrite L1 in Hx.
    apply in_app_or in Hx as [Hx | [Hx | []]].
    + eapply isinstance_grows; eauto.
    + now apply Kl.
Qed.

Lemma sf_set_pos_bottom_buttons w0 b :
  preserves (shape_frame w0) (set_pos_bottom_buttons b).
Proof. sf. Qed.

Lemma sf_set_pos_labels w0 l :
  preserves (shape_frame w0) (set_pos_labels l).
Proof. sf. Qed.

Lemma isinstance_new k o w w' :
  heap w' = heap w ++ [o] -> kind o = k ->
  isinstance (Some (List.length (heap w))) k w' = true.
Proof.
  intros Hh <-. unfold isinstance, lookup. rewrite Hh, nth_error_snoc.
  now destruct (kind o).
Qed.

Lemma heap_grows_app w w' l : heap w' = heap w ++ l -> heap_grows w w'.
Proof.
  intros Hh id o Ho. exists o. unfold lookup in *. rewrite Hh.
  rewrite nth_error_app1 by (apply nth_error_Some; congruence).
  split; [exact Ho | repeat split].
Qed.

(** One iteration of the rebuild keeps the stack aligned, also when it
    raises: an exception comes before the three appends or after them. *)
Lemma on_data_entry_aligned entry w :
  aligned w ->
  wp (on_data_entry entry) (fun _ => aligned) (fun _ => aligned) w.
Proof.
  intros Ha. destruct entry as [name p]. unfold on_data_entry.
  pose proof (name_icon_spec p) as Hicon.
  destruct (icon_of p) as [s |] eqn:Ei;
    [rewrite Hicon | destruct Hicon as [e ->]; wp_steps; exact Ha].
  wp_steps. apply wp_new_widget.
  match goal with |- _ _ ?W => remember W as w0 eqn:E0 end.
  assert (F0 : shape_frame w w0
               /\ isinstance (Some (List.length (heap w)))
                    MDFloatingBottomButton w0 = true).
  { subst w0. split.
    - repeat split. apply heap_grows_new.
    - eapply (isinstance_new _ _ w); reflexivity. }
  clear E0. destruct F0 as (F0 & Kb).
  assert (Ex : forall (e : Exn) w', shape_frame w0 w' -> aligned w').
  { intros _ w' F. eapply aligned_frame; [exact Ha |].
    eapply shape_frame_trans; eauto. }
  apply (wp_seq (shape_frame w0));
    [apply keeps_callback_after | apply shape_frame_refl | exact Ex |].
  intros pr w1 F1.
  apply (wp_seq (shape_frame w0));
    [apply keeps_bind_user; [exact I | intros c];
     apply keeps_sf_update; intros; repeat split | exact F1 | exact Ex |].
  intros _ w2 F2.
  apply (wp_seq (shape_frame w0));
    [apply keeps_callback_after | exact F2 | exact Ex |].
  intros re w3 F3.
  apply (wp_seq (shape_frame w0));
    [apply keeps_bind_user; [exact I | intros c];
     apply keeps_sf_update; intros; repeat split | exact F3 | exact Ex |].
  intros _ w4 F4. pose proof (shape_frame_trans _ _ _ F0 F4) as F.
  pose proof (isinstance_grows _ _ _ _ (proj1 F4) Kb) as Kb4.
  clear F0 F1 F2 F3 Ex w1 w2 w3 Kb.
  destruct F as (G & B & L & P). wp_steps.
  assert (Fin : forall label w5,
            heap_grows w w5 ->
            _buttons w5 = _buttons w ++ [List.length (heap w)] ->
            _labels w5 = _labels w ++ [label] ->
            List.length (_local_positions w5)
            = S (List.length (_local_positions w)) ->
            isinstance (Some (List.length (heap w)))
              MDFloatingBottomButton w5 = true ->
            (forall l, label = Some l ->
                       isinstance (Some l) MDFloatingLabel w5 = true) ->
            wp (set_pos_bottom_buttons (List.length (heap w)))
               (fun _ w' =>
                  wp (if_isinstance label MDFloatingLabel set_pos_labels)
                     (fun _ => aligned) (fun _ => aligned) w')
               (fun _ => aligned) w5).
  { intros label w5 G5 B5 L5 P5 Kb5 Kl5.
    assert (A5 : aligned w5) by (eapply aligned_snoc; eauto).
    apply (proj1 (wp_bind _ _ _ _ _)).
    apply (wp_aligned_frame _ w5 w5);
      [| exact A5 | apply shape_frame_refl].
    apply keeps_bind; [apply sf_set_pos_bottom_buttons | intros _].
    apply keeps_if_isinstance. intros l. apply sf_set_pos_labels. }
  destruct (name =? EmptyString)%string.
  - wp_steps.
    apply Fin;
      [ exact G | simpl; congruence | simpl; congruence
      | simpl; rewrite length_app; simpl; lia | exact Kb4 | discriminate ].
  - wp_steps. apply wp_new_widget. wp_steps.
    apply Fin;
      [ eapply heap_grows_trans;
          [exact G | eapply heap_grows_app; simpl; reflexivity]
      | simpl; congruence | simpl; congruence
      | simpl; rewrite length_app; simpl; lia
      | eapply isinstance_grows;
          [eapply heap_grows_app; simpl; reflexivity | exact Kb4]
      | intros l [= <-]; eapply (isinstance_new _ _ w4); reflexivity ].
Qed.

Lemma on_data_inner_aligned d w :
  aligned w ->
  wp (on_data_inner d) (fun _ => aligned) (fun _ => aligned) w.
Proof.
  intros Ha. unfold on_data_inner, Window_bind. wp_steps.
  eapply wp_mono;
    [apply (wp_for_each on_data_entry aligned (fun _ => aligned)) | |].
  - intros entry w' _ Ha'. now apply on_data_entry_aligned.
  - exact Ha.
  - intros ? w' Ha'. wp_steps. exact Ha'.
  - auto.
Qed.

Lemma sf_remove_widgets w0 : preserves (shape_frame w0) remove_widgets.
Proof. sf. Qed.

Lemma on_data_aligned d w :
  aligned w -> wp (on_data d) (fun _ => aligned) (fun _ => aligned) w.
Proof.
  intros Ha. unfold on_data. wp_step.
  eapply wp_mono;
    [apply (sf_remove_widgets w w (shape_frame_refl w)) | |].
  - intros ? w' F. wp_steps. repeat split; simpl; intros ? [].
  - intros ? w' [F _]. eapply aligned_frame; eauto.
Qed.

(** Every event keeps the stack aligned, whether its handler returns or
    raises. *)
Lemma step_aligned e w :
  aligned w -> wp (step e) (fun _ => aligned) (fun _ => aligned) w.
Proof.
  intros Ha. destruct e;
    try (apply (wp_aligned_frame _ w w);
         [apply sf_step_other; exact I | exact Ha | apply shape_frame_refl]).
  - unfold step. wp_steps. now apply on_data_aligned.
  - unfold step. wp_steps.
    eapply wp_mono;
      [apply (wp_for_each _ aligned (fun _ => aligned)) | auto | auto];
      [| exact Ha].
    intros cb w' _ Ha'. destruct cb; try exact Ha'.
    now apply on_data_inner_aligned.
Qed.

Lemma aligned_init c size : aligned (init c size).
Proof. repeat split; intros ? []. Qed.

Lemma aligned_after_event e w : aligned w -> aligned (after_event e w).
Proof.
  intros Ha. unfold after_event. apply world_after_one.
  eapply wp_mono; [apply step_aligned; exact Ha | auto | auto].
Qed.

Lemma aligned_world_after evs : forall w,
  aligned w -> aligned (world_after evs w).
Proof.
  induction evs as [| e evs IH]; intros w Ha; [exact Ha |].
  rewrite world_after_cons. pose proof (step_aligned e w Ha) as H.
  unfold wp in H. destruct (step e w) as [[] w' | ex w']; auto.
Qed.

(** The three sequences stay index-aligned, with buttons in [_buttons]
    and labels or [None] in [_labels]: in the world after any run of
    events from [__init__], up to the first exception, and also when the
    toolkit goes on with the next event after a handler raised. *)
Theorem stack_stays_aligned (c : Config) (size : Q * Q)
    (evs : list Event) :
  aligned (world_after evs (init c size))
  /\ aligned (fold_left (fun w e => after_event e w) evs (init c size)).
Proof.
  split; [apply aligned_world_after, aligned_init |].
  generalize (aligned_init c size). generalize (init c size).
  induction evs as [| e evs IH]; intros w Ha; [exact Ha |].
  simpl. apply IH. now apply aligned_after_event.
Qed.

(** ** The children of the window *)

Lemma has_parent_update id f j w :
  (forall o, wparent (f o) = wparent o) ->
  has_parent j (set_heap (update_nth id f (heap w)) w) = has_parent j w.
Proof.
  intros Hf. unfold has_parent, lookup. simpl.
  rewrite nth_error_update_nth. destruct (Nat.eqb id j); [| reflexivity].
  destruct (nth_error (heap w) j); simpl; [now rewrite Hf | reflexivity].
Qed.

Lemma keeps_cp_update id f :
  (forall o, wparent (f o) = wparent o) ->
  preserves children_parented (update id f).
Proof.
  intros Hf w [Hnd H]. unfold wp, update, modify. split; [exact Hnd |].
  intros j. rewrite has_parent_update by exact Hf. apply H.
Qed.

Lemma has_parent_lookup id w :
  has_parent id w = true -> exists o, lookup id w = Some o.
Proof. unfold has_parent. destruct (lookup id w); [eauto | discriminate]. Qed.

Lemma keeps_cp_new_widget o :
  wparent o = None -> preserves children_parented (new_widget o).
Proof.
  intros Ho w [Hnd H]. unfold wp, new_widget. split; [exact Hnd |].
  intros j. simpl children. rewrite H. unfold has_parent, lookup. simpl.
  destruct (Nat.lt_trichotomy j (List.length (heap w))) as [Hj | [-> | Hj]].
  - now rewrite nth_error_app1.
  - rewrite nth_error_snoc, Ho.
    destruct (nth_error (heap w) (List.length (heap w))) eqn:Hn;
      [| reflexivity].
    assert (List.length (heap w) < List.length (heap w))%nat
      by (apply nth_error_Some; congruence).
    lia.
  - assert (H1 : nth_error (heap w) j = None) by (apply nth_error_None; lia).
    assert (H2 : nth_error (heap w ++ [o]) j = None)
      by (apply nth_error_None; rewrite length_app; simpl; lia).
    now rewrite H1, H2.
Qed.

Lemma keeps_cp_add_widget id : preserves children_parented (add_widget id).
Proof.
  intros w HP. pose proof HP as [Hnd H].
  unfold wp, add_widget, bind, get, read.
  destruct (_window w) as [[] |]; [| exact HP].
  destruct (lookup id w) as [o |] eqn:Ho; [| split; [exact HP | exact I]].
  destruct (wparent o) eqn:Hp; [exact HP |].
  assert (Hid : has_parent id w = false)
    by (unfold has_parent; now rewrite Ho, Hp).
  unfold Window_add_widget, bind, update, modify. simpl. split.
  - constructor; [| exact Hnd]. intros Hin. apply H in Hin. congruence.
  - intros j. unfold has_parent, lookup. simpl.
    rewrite nth_error_update_nth. destruct (Nat.eqb_spec id j) as [-> | Hne].
    + fold (lookup j w). rewrite Ho. simpl. split; auto.
    + fold (lookup j w). fold (has_parent j w). rewrite <- H.
      split; [intros [-> | Hj]; [contradiction | exact Hj] | auto].
Qed.

Lemma In_remove_first_other id j l :
  j <> id -> In j l -> In j (remove_first id l).
Proof.
  intros Hne. induction l as [| a l IH]; simpl; [auto |].
  destruct (Nat.eqb_spec a id) as [-> | Ha]; intros [<- | Hj]; simpl; auto.
  contradiction.
Qed.

Lemma keeps_cp_remove_widget id :
  preserves children_parented (remove_widget id).
Proof.
  intros w HP. pose proof HP as [Hnd H].
  unfold wp, remove_widget, bind, get.
  destruct (_window w) as [[] |]; [| exact HP].
  unfold Window_remove_widget, bind, get.
  destruct (existsb (Nat.eqb id) (children (window w))) eqn:He;
    [| exact HP].
  unfold modify, update, modify. simpl. split.
  - now apply NoDup_remove_first.
  - intros j. unfold has_parent, lookup. simpl.
    rewrite nth_error_update_nth. destruct (Nat.eqb_spec id j) as [-> | Hne].
    + fold (lookup j w). split.
      * intros Hin. now apply remove_first_gone in Hin.
      * destruct (lookup j w); simpl; discriminate.
    + fold (lookup j w). fold (has_parent j w). rewrite <- H. split.
      * apply In_remove_first.
      * apply In_remove_first_other. auto.
Qed.

Ltac cp_unfold :=
  unfold preserves, add_widgets, add_widgets_body,
    remove_widgets, remove_widgets_body, open_binding, close_binding,
    set_pos_bottom_buttons, set_pos_labels, _update_pos_buttons,
    _update_pos_buttons_body, run_animation_callback, Animation_start,
    Animation_cancel_all, Animation_complete, apply_prop,
    animation_open_stack, on_progress, do_animation_open_stack,
    close_stack, close_stack_body, open_stack, open_stack_body,
    setitem_local_positions, cancel_label_animations,
    Window_bind, Window_unbind, Window_on_touch, update_anim, dispatch,
    touch_down, touch_move, touch_up, collide_at, window_touch, on_enter,
    on_leave, data_getitem, getitem0, attach, on_parent, on_data,
    on_data_inner, on_data_entry, bind_user, name_icon, callback_after.

Ltac cp_step :=
  first
    [ apply keeps_cp_update; intros ?; reflexivity
    | apply keeps_cp_new_widget; reflexivity
    | apply keeps_cp_add_widget
    | apply keeps_cp_remove_widget
    | match goal with
      | |- keeps _ _ (modify _) =>
          apply keeps_modify;
          let w := fresh "w" in let H := fresh "H" in intros w H; exact H
      | |- keeps _ _ (new_animation _ _ _) =>
          let w := fresh "w" in let H := fresh "H" in intros w H; exact H
      | |- keeps _ _ (new_iter _) =>
          let w := fresh "w" in let H := fresh "H" in intros w H; exact H
      end
    | pres_step ].

Ltac cp := repeat (cp_unfold; cp_step).

Lemma cp_step_event e : preserves children_parented (step e).
Proof. destruct e; unfold step; cp. Qed.

Lemma children_parented_init c size : children_parented (init c size).
Proof.
  split; [constructor |]. intros id. simpl. unfold has_parent, lookup. simpl.
  split; [intros [] |]. now destruct id.
Qed.

Lemma children_parented_world_after evs : forall w,
  children_parented w -> children_parented (world_after evs w).
Proof.
  induction evs as [| e evs IH]; intros w Ha; [exact Ha |].
  rewrite world_after_cons. pose proof (cp_step_event e w Ha) as H.
  unfold wp in H. destruct (step e w) as [[] w' | ex w']; [auto | apply H].
Qed.

(** In every world reached from [__init__] the window lists no widget
    twice, and a widget is a child of the window exactly when its
    [parent] is set: no widget is added while it has a parent, and a
    removed widget has none. *)
Theorem window_children_are_parented (c : Config) (size : Q * Q)
    (evs : list Event) :
  children_parented (world_after evs (init c size))
  /\ children_parented
       (fold_left (fun w e => after_event e w) evs (init c size)).
Proof.
  split; [apply children_parented_world_after, children_parented_init |].
  generalize (children_parented_init c size). generalize (init c size).
  induction evs as [| e evs IH]; intros w Ha; [exact Ha |].
  simpl. apply IH. unfold after_event. apply world_after_one.
  eapply wp_mono; [apply (cp_step_event e w Ha) | auto | auto].
Qed.

(** ** The close sequence *)

Lemma close_stack_body_appends p bl w0 l w :
  parent w0 = Some p -> w = set_anims (anims w0 ++ l) w0 ->
  wp (close_stack_body bl)
     (fun _ w' => exists l', w' = set_anims (anims w0 ++ l ++ l') w0)
     no_exn w.
Proof.
  intros Hp ->. unfold close_stack_body. wp_step.
  assert (Hlabel : forall l1,
            wp (if_isinstance (snd bl) MDFloatingLabel (fun label =>
                  o <- read (Some label) ;;
                  if negb (Qle_bool (opacity o) 0)
                  then a <- new_animation [("opacity", ANum 0)] (1 # 100)
                              "linear" ;;
                       Animation_start a (TWidget label)
                  else ret tt))
               (fun _ w' => exists l', w' = set_anims (anims w0 ++ l ++ l') w0)
               no_exn (set_anims (anims w0 ++ l ++ l1) w0)).
  { intros l1. apply wp_if_isinstance.
    - intros label Hl Hk. rewrite Hl in Hk. wp_steps.
      match goal with
      | |- context [negb ?b] => destruct (negb b)
      end.
      + unfold wp. rewrite start_new_animation. simpl.
        eexists (l1 ++ [_]). now rewrite <- !app_assoc.
      + wp_steps. now exists l1.
    - intros _. now exists l1. }
  apply wp_if_isinstance.
  - intros button _ _. wp_steps. simpl parent. rewrite Hp. wp_steps. simpl.
    match goal with
    | |- wp _ _ _ (set_anims ((anims w0 ++ l) ++ [?a]) _) =>
        specialize (Hlabel [a]); rewrite app_assoc in Hlabel; exact Hlabel
    end.
  - intros _. specialize (Hlabel []). now rewrite app_nil_r in Hlabel.
Qed.

Lemma close_stack_closing w :
  _window w = Some Window -> parent w <> None ->
  exists w1, close_stack w = Ok tt w1 /\ closing w w1.
Proof.
  intros Hw Hp. destruct (parent w) as [p |] eqn:Ep; [| congruence].
  assert (H : wp close_stack (fun _ w1 => closing w w1) no_exn w).
  { unfold close_stack. wp_step. unfold on_window. wp_steps. rewrite Hw.
    wp_steps. eapply wp_update_anim_last; [simpl; reflexivity |]. wp_steps.
    simpl _buttons. simpl _labels.
    eapply wp_mono;
      [apply (wp_for_each close_stack_body
                (fun w' => exists l,
                   w' = set_anims (anims w ++ anim_root_end w :: l) w)
                no_exn)
      | | auto].
    - intros bl w' _ [l Hl].
      eapply wp_mono;
        [apply (close_stack_body_appends p bl w (anim_root_end w :: l) w' Ep);
         exact Hl
        | | auto].
      intros ? w'' [l' ->]. exists (l ++ l'). reflexivity.
    - exists []. reflexivity.
    - intros ? w' [l ->]. unfold dispatch. wp_steps. exists l. reflexivity. }
  apply wp_ok in H as ([] & w1 & H & Hc). eauto.
Qed.

Lemma remove_widgets_removes_aligned w w1 :
  remove_widgets w = Ok tt w1 -> aligned w -> _window w = Some Window ->
  NoDup (children (window w)) ->
  forall id, stack_widget id w -> ~ In id (children (window w1)).
Proof.
  intros Hrun (L & P & KB & KL) Hw Hnd id Hid.
  unfold remove_widgets, bind, get in Hrun.
  apply remove_loop_ok in Hrun as [F Hall].
  specialize (Hall Hw Hnd). destruct Hid as [Hb | Hl].
  - pose proof Hb as Hb'. apply In_nth_error in Hb as [k Hk].
    destruct (Hall k id Hk) as [H1 _]. apply H1. now apply KB.
  - pose proof Hl as Hl'. apply In_nth_error in Hl as [k Hk].
    assert (Hlt : (k < List.length (_buttons w))%nat).
    { rewrite <- L. apply nth_error_Some. congruence. }
    destruct (nth_error (_buttons w) k) as [b |] eqn:Hbk;
      [| apply nth_error_None in Hbk; lia].
    destruct (Hall k b Hbk) as [_ H2]. apply (H2 id); [exact Hk |].
    now apply KL.
Qed.

Lemma nth_error_middle {A} (l : list A) a l' :
  nth_error (l ++ a :: l') (List.length l) = Some a.
Proof. rewrite nth_error_app2, Nat.sub_diag; auto. Qed.

(** [close_stack] leaves the stack in the window and the touch handlers
    bound; they go when its window animation completes: then
    [close_binding] removes every widget of the stack from the window and
    unbinds the three handlers, and [state] is still [close]. *)
Theorem close_sequence_completes (w : World) :
  aligned w -> children_parented w -> _window w = Some Window ->
  parent w <> None ->
  exists w1 w2,
    close_stack w = Ok tt w1
    /\ closing w w1
    /\ step (EvComplete (List.length (anims w)) TWindow) w1 = Ok tt w2
    /\ state w2 = close
    /\ touch_bound w2 = false
    /\ bindings (window w2)
       = filter (fun b => negb (is_touch_binding b)) (bindings (window w))
    /\ forall id, stack_widget id w ->
         ~ In id (children (window w2)) /\ has_parent id w2 = false.
Proof.
  intros Ha Hcp Hw Hp.
  destruct (close_stack_closing w Hw Hp) as (w1 & Hrun & Hc).
  exists w1. pose proof Hc as [l Hl].
  assert (Ha1 : aligned w1).
  { subst w1. exact Ha. }
  assert (Hcp1 : children_parented w1) by (subst w1; exact Hcp).
  assert (Hn : nth_error (anims w1) (List.length (anims w))
               = Some (anim_root_end w))
    by (subst w1; simpl; apply nth_error_middle).
  assert (H : wp (step (EvComplete (List.length (anims w)) TWindow))
                (fun _ w2 =>
                   state w2 = close
                   /\ bindings (window w2)
                      = filter (fun b => negb (is_touch_binding b))
                          (bindings (window w))
                   /\ forall id, stack_widget id w ->
                        ~ In id (children (window w2)))
                no_exn w1).
  { unfold step. wp_steps. rewrite Hn. unfold Animation_complete. wp_step.
    unfold wp at 1, read_anim. rewrite Hn.
    change (wp (for_each (apply_prop TWindow) (a_props (anim_root_end w)) ;;
                update_anim (List.length (anims w)) (stop_on TWindow) ;;
                for_each run_animation_callback
                  (a_on_complete (anim_root_end w)))
              (fun _ w2 =>
                 state w2 = close
                 /\ bindings (window w2)
                    = filter (fun b => negb (is_touch_binding b))
                        (bindings (window w))
                 /\ forall id, stack_widget id w ->
                      ~ In id (children (window w2)))
              no_exn w1).
    simpl a_props. simpl a_on_complete. simpl for_each. wp_steps.
    unfold update_anim. wp_steps. unfold close_binding. wp_step.
    match goal with |- wp _ _ _ ?W => remember W as w1' eqn:E1 end.
    assert (F1 : aligned w1' /\ _window w1' = Some Window
                 /\ children (window w1') = children (window w)
                 /\ bindings (window w1') = bindings (window w)
                 /\ _buttons w1' = _buttons w /\ _labels w1' = _labels w
                 /\ state w1' = close).
    { subst w1'. split; [exact Ha1 |].
      subst w1. simpl. repeat split; assumption. }
    clear E1. destruct F1 as (A1 & W1 & C1 & B1 & SB & SL & S1).
    assert (K : preserves
                  (fun w' => bindings (window w') = bindings (window w)
                             /\ _window w' = Some Window /\ state w' = close)
                  remove_widgets) by pres.
    assert (R : wp remove_widgets (fun _ w' => remove_frame w1' w') no_exn w1').
    { apply remove_widgets_returns. destruct A1 as (L & _). lia. }
    apply wp_ok in R as ([] & w'' & Hrem & _).
    specialize (K w1' (conj B1 (conj W1 S1))). unfold wp in K.
    rewrite Hrem in K. destruct K as (Hb & Hw' & Hs).
    unfold wp at 1. rewrite Hrem.
    unfold on_window, Window_unbind.
    wp_steps. rewrite Hw'. wp_steps. simpl. rewrite Hw'. wp_steps.
    simpl. rewrite Hw'. wp_steps. simpl.
    split; [exact Hs |]. split.
    - now rewrite unbind_touch_filter, Hb.
    - intros id Hid.
      apply (remove_widgets_removes_aligned w1' w'' Hrem A1 W1).
      + rewrite C1. apply Hcp.
      + unfold stack_widget in *. now rewrite SB, SL. }
  apply wp_ok in H as ([] & w2 & Hstep & Hs & Hb & Hch).
  exists w2. split; [exact Hrun |]. split; [exact Hc |].
  split; [exact Hstep |]. split; [exact Hs |]. split; [| split; [exact Hb |]].
  - unfold touch_bound. rewrite Hb. apply touch_bindings_filter.
  - intros id Hid. split; [now apply Hch |].
    pose proof (cp_step_event (EvComplete (List.length (anims w)) TWindow)
                  w1 Hcp1) as Hcp2. unfold wp in Hcp2.
    rewrite Hstep in Hcp2. destruct Hcp2 as [_ H2].
    destruct (has_parent id w2) eqn:Hpar; [| reflexivity].
    apply H2 in Hpar. now apply Hch in Hpar.
Qed.

Lemma close_sequence_completes_witness :
  touch_bound example_bound = true
  /\ exists w1 w2,
       close_stack example_bound = Ok tt w1
       /\ step (EvComplete (List.length (anims example_bound)) TWindow) w1
          = Ok tt w2
       /\ state w2 = close
       /\ touch_bound w2 = false.
Proof.
  split; [vm_compute; reflexivity |].
  destruct (close_sequence_completes example_bound) as
    (w1 & w2 & H1 & _ & H2 & H3 & H4 & _).
  - apply aligned_world_after, aligned_world_after, aligned_init.
  - apply children_parented_world_after, children_parented_world_after,
      children_parented_init.
  - vm_compute. reflexivity.
  - vm_compute. discriminate.
  - exists w1, w2. auto.
Defined.

(** * Adding the stack to the window and removing it again *)

Lemma existsb_eqb_In id l : existsb (Nat.eqb id) l = true <-> In id l.
Proof.
  rewrite existsb_exists. split.
  - intros (x & Hx & E). apply Nat.eqb_eq in E. now subst.
  - intros H. exists id. split; [exact H | apply Nat.eqb_refl].
Qed.

Lemma existsb_eqb_not_In id l : existsb (Nat.eqb id) l = false <-> ~ In id l.
Proof.
  rewrite <- existsb_eqb_In. destruct (existsb (Nat.eqb id) l); split;
    congruence.
Qed.

Lemma remove_first_app id l l' :
  In id l -> remove_first id (l ++ l') = remove_first id l ++ l'.
Proof.
  induction l as [| a l IH]; simpl; [intros [] |].
  destruct (Nat.eqb_spec a id) as [-> | Hne]; [reflexivity |].
  intros [-> | H]; [contradiction |]. simpl. now rewrite IH.
Qed.

Lemma existsb_remove_first_other id j l :
  j <> id ->
  existsb (Nat.eqb j) (remove_first id l) = existsb (Nat.eqb j) l.
Proof.
  intros Hne. induction l as [| a l IH]; simpl; [reflexivity |].
  destruct (Nat.eqb_spec a id) as [-> | Ha]; simpl.
  - destruct (Nat.eqb_spec j id); [contradiction | reflexivity].
  - now rewrite IH.
Qed.

Lemma set_wparent_undone o :
  wparent o = None -> set_wparent None (set_wparent (Some Window) o) = o.
Proof. destruct o; simpl; now intros ->. Qed.

Lemma shown_refl w : shown [] w w.
Proof.
  split; [destruct w as [? ? ? ? ? ? ? ? ? ? ? ? ? []]; reflexivity |].
  split; [constructor |]. split; [intros ? [] |]. split; reflexivity.
Qed.

Lemma shown_nil w w' : shown [] w w' -> w' = w.
Proof.
  intros (E & _ & _ & Hlen & Hl).
  assert (Hh : heap w' = heap w).
  { apply nth_error_ext. intros n. exact (Hl n). }
  rewrite E, Hh. destruct w as [? ? ? ? ? ? ? ? ? ? ? ? ? []]; reflexivity.
Qed.

Lemma shown_same l w w' :
  shown l w w' ->
  _buttons w' = _buttons w /\ _labels w' = _labels w
  /\ _window w' = _window w
  /\ children (window w') = l ++ children (window w).
Proof. intros (E & _). rewrite E. repeat split. Qed.

Lemma shown_kind l w w' obj k :
  shown l w w' -> isinstance obj k w' = isinstance obj k w.
Proof.
  intros (_ & _ & _ & _ & Hl). unfold isinstance.
  destruct obj as [id |]; [| reflexivity]. rewrite Hl.
  destruct (existsb (Nat.eqb id) l); [| reflexivity].
  now destruct (lookup id w).
Qed.

Lemma shown_parent l w w' id k :
  shown l w w' -> In id l -> isinstance (Some id) k w' = true ->
  has_parent id w' = true.
Proof.
  intros (_ & _ & _ & _ & Hl) Hin. unfold has_parent, isinstance.
  rewrite Hl. apply existsb_eqb_In in Hin. rewrite Hin.
  destruct (lookup id w) as [o |]; simpl; [| discriminate].
  now destruct o.
Qed.

Lemma guarded_add_shown obj k l w w' :
  shown l w w' -> (forall id, obj = Some id -> stack_widget id w) ->
  exists w'' l', if_isinstance obj k add_widget w' = Ok tt w''
                 /\ shown l' w w''.
Proof.
  intros S Hobj.
  destruct (guarded_add obj k w')
    as (w'' & Hrun & _ & [-> | (id & -> & Hp & Hk & ->)] & _);
    [now exists w', l |].
  exists (added id w'), (id :: l). split; [exact Hrun |].
  pose proof (Hobj id eq_refl) as Hid.
  assert (Hnin : ~ In id l).
  { intros Hin. apply (shown_parent l w w' id k S) in Hin; congruence. }
  destruct S as (E & Hnd & Hst & Hlen & Hl). split; [| split; [| split; [| split]]].
  - unfold added. simpl heap. remember (heap w') as h eqn:Eh. clear Eh.
    rewrite E. reflexivity.
  - now constructor.
  - intros j [<- | Hj]; auto.
  - unfold added. simpl. now rewrite length_update_nth.
  - intros j. rewrite lookup_added. simpl existsb.
    destruct (Nat.eqb_spec id j) as [<- | Hne].
    + rewrite Nat.eqb_refl. simpl. rewrite Hl.
      apply existsb_eqb_not_In in Hnin. now rewrite Hnin.
    + destruct (Nat.eqb_spec j id) as [-> | _]; [contradiction |].
      simpl. apply Hl.
Qed.

Lemma guarded_remove_shown obj k l w w' :
  shown l w w' -> (forall id, obj = Some id -> stack_widget id w) ->
  (forall id, stack_widget id w ->
              has_parent id w = false /\ ~ In id (children (window w))) ->
  exists w'' l', if_isinstance obj k remove_widget w' = Ok tt w''
                 /\ shown l' w w''.
Proof.
  intros S Hobj Hfree. unfold if_isinstance.
  destruct obj as [id |]; [| now exists w', l].
  destruct (isinstance (Some id) k w'); [| now exists w', l].
  unfold remove_widget, bind, get.
  destruct (_window w') as [[] |]; [| now exists w', l].
  unfold Window_remove_widget, bind, get.
  destruct (existsb (Nat.eqb id) (children (window w'))) eqn:Hin;
    [| now exists w', l].
  destruct (Hfree id (Hobj id eq_refl)) as [Hp Hch].
  destruct (shown_same l w w' S) as (_ & _ & _ & Ec).
  apply existsb_eqb_In in Hin. rewrite Ec in Hin.
  apply in_app_or in Hin as [Hin | Hin]; [| contradiction].
  destruct S as (E & Hnd & Hst & Hlen & Hl).
  eexists. exists (remove_first id l). split; [reflexivity |].
  split; [| split; [| split; [| split]]].
  - unfold update, modify. simpl heap. rewrite Ec.
    rewrite (remove_first_app id l _ Hin).
    remember (heap w') as h eqn:Eh. clear Eh. rewrite E. reflexivity.
  - now apply NoDup_remove_first.
  - intros j Hj. apply Hst. eapply In_remove_first, Hj.
  - unfold update, modify. simpl. now rewrite length_update_nth.
  - intros j. unfold update, modify, lookup. simpl heap.
    rewrite nth_error_update_nth. fold (lookup j w'). fold (lookup j w).
    destruct (Nat.eqb_spec id j) as [<- | Hne].
    + pose proof (remove_first_gone id l Hnd) as Hg.
      apply existsb_eqb_not_In in Hg. rewrite Hg, Hl.
      apply existsb_eqb_In in Hin. rewrite Hin.
      unfold has_parent in Hp. destruct (lookup id w) as [o |]; [| reflexivity].
      simpl. f_equal. apply set_wparent_undone.
      now destruct (wparent o).
    + rewrite existsb_remove_first_other by congruence. apply Hl.
Qed.

Lemma getitem_ok {A} (l : list A) i a w :
  nth_error l i = Some a -> getitem l i w = Ok a w.
Proof. unfold getitem. now intros ->. Qed.

Lemma add_widgets_shown w :
  aligned w -> wp add_widgets (fun _ w' => exists l, shown l w w') no_exn w.
Proof.
  intros (L & _). unfold add_widgets. wp_steps.
  apply (wp_for_enumerate add_widgets_body
           (fun w' => exists l, shown l w w'));
    [| exists []; apply shown_refl].
  intros k b w' Hk [l S]. unfold wp, add_widgets_body, bind at 1.
  destruct (guarded_add_shown (Some b) MDFloatingBottomButton l w w' S)
    as (w1 & l1 & -> & S1).
  { intros ? [= <-]. left. eapply nth_error_In, Hk. }
  unfold bind at 1, get. destruct (shown_same l1 w w1 S1) as (_ & -> & _).
  destruct (nth_error (_labels w) k) as [label |] eqn:El.
  2:{ apply nth_error_None in El.
      assert (k < List.length (_buttons w))%nat
        by (apply nth_error_Some; simpl in Hk; congruence).
      lia. }
  unfold bind. simpl Nat.add. rewrite (getitem_ok _ _ _ _ El).
  destruct (guarded_add_shown label MDFloatingLabel l1 w w1 S1)
    as (w2 & l2 & -> & S2); [| now exists l2].
  intros id ->. right. eapply nth_error_In, El.
Qed.

Lemma remove_widgets_shown w w1 l :
  aligned w -> shown l w w1 ->
  (forall id, stack_widget id w ->
              has_parent id w = false /\ ~ In id (children (window w))) ->
  wp remove_widgets (fun _ w' => exists l', shown l' w w') no_exn w1.
Proof.
  intros (L & _) Sh Hfree. unfold remove_widgets. wp_steps.
  destruct (shown_same l w w1 Sh) as (-> & _).
  apply (wp_for_enumerate remove_widgets_body
           (fun w' => exists l', shown l' w w'));
    [| now exists l].
  intros k b w' Hk [l0 S]. unfold wp, remove_widgets_body, bind at 1.
  destruct (guarded_remove_shown (Some b) MDFloatingBottomButton l0 w w' S)
    as (w2 & l2 & -> & S2); [| exact Hfree |].
  { intros ? [= <-]. left. eapply nth_error_In, Hk. }
  unfold bind at 1, get. destruct (shown_same l2 w w2 S2) as (_ & -> & _).
  destruct (nth_error (_labels w) k) as [label |] eqn:El.
  2:{ apply nth_error_None in El.
      assert (k < List.length (_buttons w))%nat
        by (apply nth_error_Some; simpl in Hk; congruence).
      lia. }
  unfold bind. simpl Nat.add. rewrite (getitem_ok _ _ _ _ El).
  destruct (guarded_remove_shown label MDFloatingLabel l2 w w2 S2)
    as (w3 & l3 & -> & S3); [| exact Hfree | now exists l3].
  intros id ->. right. eapply nth_error_In, El.
Qed.

(** [remove_widgets] undoes [add_widgets]: when no widget of the stack is
    in a window, [add_widgets] makes every one of them a child of the
    window, and [remove_widgets] then gives back the world as it was. *)
Theorem remove_widgets_undoes_add_widgets (w : World) :
  aligned w -> children_parented w -> _window w = Some Window ->
  (forall id, stack_widget id w -> has_parent id w = false) ->
  exists w1,
    add_widgets w = Ok tt w1
    /\ (forall id, stack_widget id w ->
          In id (children (window w1)) /\ has_parent id w1 = true)
    /\ (forall id, ~ stack_widget id w -> lookup id w1 = lookup id w)
    /\ remove_widgets w1 = Ok tt w.
Proof.
  intros Ha Hcp Hw Hfree.
  assert (Hfree' : forall id, stack_widget id w ->
            has_parent id w = false /\ ~ In id (children (window w))).
  { intros id Hid. split; [now apply Hfree |]. intros Hin.
    apply Hcp in Hin. rewrite (Hfree id Hid) in Hin. discriminate. }
  pose proof (add_widgets_shown w Ha) as H1.
  apply wp_ok in H1 as ([] & w1 & Hadd & l & S).
  exists w1. split; [exact Hadd |].
  destruct (shown_same l w w1 S) as (Eb & El & Ew1 & Ec).
  assert (Ha1 : aligned w1).
  { destruct Ha as (L & P & KB & KL).
    assert (Ep : List.length (_local_positions w1)
                 = List.length (_local_positions w))
      by (destruct S as (E & _); rewrite E; reflexivity).
    unfold aligned. rewrite Eb, El, Ep.
    repeat split; try assumption; intros x Hx;
      rewrite (shown_kind l w w1 _ _ S); auto. }
  assert (Hcp1 : children_parented w1).
  { assert (K : preserves children_parented add_widgets)
      by (unfold add_widgets; cp).
    specialize (K w Hcp). unfold wp in K. now rewrite Hadd in K. }
  assert (Hin : forall id, stack_widget id w -> has_parent id w1 = true).
  { intros id Hid. unfold add_widgets, bind, get in Hadd.
    apply add_loop_ok in Hadd as [_ Hall].
    assert (Hq : quiet id w1).
    { destruct Ha as (L & _ & KB & KL). destruct Hid as [Hb | Hl].
      - pose proof Hb as Hb'. apply In_nth_error in Hb as [k Hk].
        destruct (Hall k id Hk) as [Hq _]. apply Hq.
        rewrite (shown_kind l w w1 _ _ S). now apply KB.
      - pose proof Hl as Hl'. apply In_nth_error in Hl as [k Hk].
        assert (Hlt : (k < List.length (_buttons w))%nat).
        { rewrite <- L. apply nth_error_Some. congruence. }
        destruct (nth_error (_buttons w) k) as [b |] eqn:Hbk;
          [| apply nth_error_None in Hbk; lia].
        destruct (Hall k b Hbk) as [_ (label & Hlab & Hq)].
        simpl in Hlab. rewrite El, Hk in Hlab. injection Hlab as <-.
        apply (Hq id eq_refl). rewrite (shown_kind l w w1 _ _ S).
        now apply KL. }
    destruct Hq as [Hq | Hq]; [congruence | exact Hq]. }
  split; [| split].
  - intros id Hid. split; [apply Hcp1 |]; now apply Hin.
  - intros id Hid. destruct S as (_ & _ & Hst & _ & Hl). rewrite Hl.
    destruct (existsb (Nat.eqb id) l) eqn:E; [| reflexivity].
    apply existsb_eqb_In in E. now apply Hst in E.
  - pose proof (remove_widgets_shown w w1 l Ha S Hfree') as H2.
    apply wp_ok in H2 as ([] & w2 & Hrem & l2 & S2).
    rewrite Hrem. f_equal. apply shown_nil.
    destruct l2 as [| x l2]; [exact S2 | exfalso].
    destruct (shown_same _ w w2 S2) as (_ & _ & _ & Ec2).
    assert (Hx : stack_widget x w)
      by (destruct S2 as (_ & _ & Hst & _); apply Hst; now left).
    apply (remove_widgets_removes_aligned w1 w2 Hrem Ha1) with (id := x).
    + congruence.
    + apply Hcp1.
    + unfold stack_widget in *. now rewrite Eb, El.
    + rewrite Ec2. now left.
Qed.

Lemma remove_widgets_undoes_add_widgets_witness :
  exists w1,
    add_widgets example_reclosed = Ok tt w1
    /\ children (window w1) <> children (window example_reclosed)
    /\ remove_widgets w1 = Ok tt example_reclosed.
Proof.
  destruct (remove_widgets_undoes_add_widgets example_reclosed)
    as (w1 & H1 & H2 & _ & H3).
  - apply aligned_world_after, aligned_world_after, aligned_init.
  - apply children_parented_world_after, children_parented_world_after,
      children_parented_init.
  - vm_compute. reflexivity.
  - intros id [H | H]; vm_compute in H.
    + destruct H as [<- | [<- | []]]; vm_compute; reflexivity.
    + destruct H as [[= <-] | [[= <-] | []]]; vm_compute; reflexivity.
  - exists w1. split; [exact H1 |]. split; [| exact H3].
    destruct (H2 0%nat) as [Hin _]; [left; vm_compute; auto |].
    intros E. rewrite E in Hin. vm_compute in Hin. exact Hin.
Defined.

(** * Repositioning the stack *)

Lemma for_each_map {A B} (g : A -> B) (body : B -> M unit) l w :
  for_each body (map g l) w = for_each (fun a => body (g a)) l w.
Proof.
  revert w. induction l as [| a l IH]; intros w; [reflexivity |].
  simpl. unfold bind. destruct (body (g a) w); auto.
Qed.

(** Two loop bodies that agree under an invariant of the second give the
    same loop. *)
Lemma for_each_agree {A} (f g : A -> M unit) (I : World -> Prop) l :
  (forall a w, In a l -> I w -> f a w = g a w) ->
  (forall a, In a l -> preserves I (g a)) ->
  forall w, I w -> for_each f l w = for_each g l w.
Proof.
  induction l as [| a l IH]; intros Hfg Hg w HI; [reflexivity |].
  simpl. unfold bind. rewrite (Hfg a w (or_introl eq_refl) HI).
  pose proof (Hg a (or_introl eq_refl) w HI) as K. unfold wp in K.
  destruct (g a w) as [[] w' | e w']; [| reflexivity].
  apply IH; auto; intros; [apply Hfg | apply Hg]; simpl; auto.
Qed.

(** A loop establishes [P] when the body for [a] does and no body undoes
    it. *)
Lemma for_each_establish {A} (body : A -> M unit) (I P : World -> Prop)
    (a : A) l :
  (forall x w, In x l -> I w ->
     wp (body x) (fun _ w' => I w' /\ (x = a -> P w') /\ (P w -> P w'))
        no_exn w) ->
  forall w, I w -> In a l \/ P w ->
  wp (for_each body l) (fun _ w' => I w' /\ P w') no_exn w.
Proof.
  induction l as [| x l IH]; intros Hb w HI Ha; simpl.
  - destruct Ha as [[] | HP]. now split.
  - apply wp_bind.
    eapply wp_mono; [apply (Hb x w (or_introl eq_refl) HI) | | auto].
    intros _ w' (HI' & Hx & HP). apply IH; auto.
    + intros; apply Hb; simpl; auto.
    + destruct Ha as [[-> | Hin] | HPw]; auto.
Qed.

Lemma place_frame_refl w : place_frame w w.
Proof. split; [apply pos_frame_refl | reflexivity]. Qed.

Lemma lookup_update id f j w :
  lookup j (set_heap (update_nth id f (heap w)) w) =
  if Nat.eqb id j then option_map f (lookup j w) else lookup j w.
Proof. unfold lookup. simpl. apply nth_error_update_nth. Qed.

Lemma isinstance_lookup id k w :
  isinstance (Some id) k w = true ->
  exists o, lookup id w = Some o /\ kind o = k.
Proof.
  unfold isinstance. destruct (lookup id w) as [o |]; [| discriminate].
  intros H. exists o. split; [reflexivity |].
  destruct (kind o), k; simpl in H; congruence.
Qed.

Lemma index_nth_lt {A} (eqb : A -> A -> bool) v (l : list A) (ps : list Q) :
  (forall a, eqb a a = true) -> In v l ->
  (List.length l <= List.length ps)%nat ->
  exists i off, index_from eqb v l 0 = Some i /\ nth_error ps i = Some off.
Proof.
  intros Hrefl Hin Hlen.
  destruct (index_from_lt eqb v l Hrefl Hin) as (i & Hi & Hlt).
  destruct (nth_error ps i) as [off |] eqn:Hoff; [eauto |].
  apply nth_error_None in Hoff. lia.
Qed.

(** One button: it is placed, nothing else moves. *)
Lemma place_button w0 p b w :
  parent w0 = Some p -> In b (_buttons w0) ->
  (List.length (_buttons w0) <= List.length (_local_positions w0))%nat ->
  isinstance (Some b) MDFloatingBottomButton w0 = true ->
  place_frame w0 w ->
  wp (set_pos_bottom_buttons b)
     (fun _ w' => place_frame w0 w' /\ button_placed p w0 b w'
                  /\ forall j, j <> b -> lookup j w' = lookup j w)
     no_exn w.
Proof.
  intros Hp Hin Hlen Hk ((B & L & P & R & K) & C).
  destruct (index_nth_lt Nat.eqb b _ _ Nat.eqb_refl Hin Hlen)
    as (i & off & Hi & Hoff).
  rewrite <- K in Hk. apply isinstance_lookup in Hk as (o & Ho & _).
  unfold set_pos_bottom_buttons, update. wp_steps. rewrite R, Hp.
  wp_steps. simpl _buttons. rewrite B. unfold list_index. rewrite Hi.
  wp_steps. simpl _local_positions. rewrite P. unfold getitem.
  rewrite Hoff. wp_steps. split; [| split].
  - repeat split; try (intros; kinds; apply K); simpl; assumption.
  - exists (set_center_y (p_center_y p + off) (set_center_x (p_center_x p) o)),
      i, off.
    split; [| split; [exact Hi | split; [exact Hoff | split]]].
    + rewrite !lookup_update, Nat.eqb_refl, Ho. reflexivity.
    + unfold center_x, set_center_y, set_center_x. simpl. ring.
    + apply center_y_set_center_y.
  - intros j Hj. rewrite !lookup_update.
    destruct (Nat.eqb_spec b j); [congruence | reflexivity].
Qed.

(** One label: it is placed, nothing else moves. *)
Lemma place_label w0 p l w :
  parent w0 = Some p -> In (Some l) (_labels w0) ->
  (List.length (_labels w0) <= List.length (_local_positions w0))%nat ->
  isinstance (Some l) MDFloatingLabel w0 = true ->
  place_frame w0 w ->
  wp (set_pos_labels l)
     (fun _ w' => place_frame w0 w' /\ label_placed p w0 l w'
                  /\ forall j, j <> l -> lookup j w' = lookup j w)
     no_exn w.
Proof.
  intros Hp Hin Hlen Hk ((B & L & P & R & K) & C).
  destruct (index_nth_lt Ref_eqb (Some l) _ _ Ref_eqb_refl Hin Hlen)
    as (i & off & Hi & Hoff).
  rewrite <- K in Hk. apply isinstance_lookup in Hk as (o & Ho & _).
  unfold set_pos_labels, Window_unbind, update. wp_steps.
  destruct (_widget_declaration_finished w); wp_steps; simpl parent;
    rewrite R, Hp; wp_steps;
    (eapply wp_read_lookup;
     [ rewrite lookup_update, Nat.eqb_refl; unfold lookup; simpl heap;
       fold (lookup l w); rewrite Ho; reflexivity |]);
    wp_steps; simpl _labels; rewrite L; unfold list_index; rewrite Hi;
    wp_steps; simpl _local_positions; rewrite P; unfold getitem;
    rewrite Hoff; wp_steps;
    (split; [| split];
     [ repeat split; try (intros; kinds; apply K); simpl; assumption
     | eexists; exists i, off;
       split;
       [ rewrite !lookup_update, Nat.eqb_refl; unfold lookup; simpl heap;
         fold (lookup l w); rewrite Ho; simpl; reflexivity
       | split; [exact Hi |]; split; [exact Hoff |];
         split; [apply center_y_set_center_y |];
         simpl; unfold dp; simpl cfg; rewrite C;
         destruct (label_direction (cfg w0)); simpl; ring ]
     | intros j Hj; rewrite !lookup_update;
       destruct (Nat.eqb_spec l j); [congruence | reflexivity] ]).
Qed.

Lemma button_placed_same p w0 b w w' :
  lookup b w' = lookup b w -> button_placed p w0 b w ->
  button_placed p w0 b w'.
Proof.
  intros E (ob & i & off & Ho & H). exists ob, i, off.
  split; [congruence | exact H].
Qed.

Lemma label_placed_same p w0 l w w' :
  lookup l w' = lookup l w -> label_placed p w0 l w ->
  label_placed p w0 l w'.
Proof.
  intros E (ol & i & off & Ho & H). exists ol, i, off.
  split; [congruence | exact H].
Qed.

(** The loop of [on_stack_button_direction], from a world [ws] within
    the frame of [w0]. *)
Lemma place_buttons_body w0 ws p (P : World -> Prop) b0 x w :
  aligned w0 -> parent w0 = Some p -> In x (_buttons w0) ->
  (P = button_placed p w0 b0 \/ P = fun _ => True) ->
  place_frame w0 w
  /\ (forall j, ~ In j (_buttons w0) -> lookup j w = lookup j ws) ->
  wp (if_isinstance (Some x) MDFloatingBottomButton set_pos_bottom_buttons)
     (fun _ w' =>
        (place_frame w0 w'
         /\ forall j, ~ In j (_buttons w0) -> lookup j w' = lookup j ws)
        /\ (x = b0 -> P w') /\ (P w -> P w'))
     no_exn w.
Proof.
  intros (L & Pl & KB & KL) Hp Hx HP [F U].
  pose proof F as ((_ & _ & _ & _ & K) & _).
  apply wp_if_isinstance; [| rewrite K, (KB x Hx); discriminate].
  intros id [= <-] _.
  eapply wp_mono;
    [apply (place_button w0 p x w Hp Hx); [lia | now apply KB | exact F]
    | | auto].
  intros _ w' (F' & Hpl & Hoth). split; [split; [exact F' |] |].
  - intros j Hj. rewrite Hoth; [now apply U |]. intros ->. contradiction.
  - destruct HP as [-> | ->]; [| auto]. split; [now intros <- |].
    intros Hb0. destruct (Nat.eq_dec b0 x) as [<- | Hne]; [exact Hpl |].
    eapply button_placed_same; [apply Hoth, Hne | exact Hb0].
Qed.

Lemma place_labels_body w0 ws p (P : World -> Prop) l0 x w :
  aligned w0 -> parent w0 = Some p -> In x (_labels w0) ->
  (P = label_placed p w0 l0 \/ P = fun _ => True) ->
  place_frame w0 w
  /\ (forall j, ~ In (Some j) (_labels w0) -> lookup j w = lookup j ws) ->
  wp (if_isinstance x MDFloatingLabel set_pos_labels)
     (fun _ w' =>
        (place_frame w0 w'
         /\ forall j, ~ In (Some j) (_labels w0) ->
                      lookup j w' = lookup j ws)
        /\ (x = Some l0 -> P w') /\ (P w -> P w'))
     no_exn w.
Proof.
  intros (L & Pl & KB & KL) Hp Hx HP [F U].
  pose proof F as ((_ & _ & _ & _ & K) & _).
  apply wp_if_isinstance.
  2:{ intros Hf. split; [now split |]. split; [| auto].
      intros ->. rewrite K, (KL l0 Hx) in Hf. discriminate. }
  intros id -> _.
  eapply wp_mono;
    [apply (place_label w0 p id w Hp Hx); [lia | now apply KL | exact F]
    | | auto].
  intros _ w' (F' & Hpl & Hoth). split; [split; [exact F' |] |].
  - intros j Hj. rewrite Hoth; [now apply U |]. intros ->. contradiction.
  - destruct HP as [-> | ->]; [| auto]. split; [now intros [= <-] |].
    intros Hl0. destruct (Nat.eq_dec l0 id) as [<- | Hne]; [exact Hpl |].
    eapply label_placed_same; [apply Hoth, Hne | exact Hl0].
Qed.

Lemma place_buttons_loop w0 ws p :
  aligned w0 -> parent w0 = Some p -> place_frame w0 ws ->
  exists w',
    for_each
      (fun button =>
         if_isinstance (Some button) MDFloatingBottomButton
           set_pos_bottom_buttons)
      (_buttons w0) ws = Ok tt w'
    /\ place_frame w0 w'
    /\ (forall b, In b (_buttons w0) -> button_placed p w0 b w')
    /\ (forall j, ~ In j (_buttons w0) -> lookup j w' = lookup j ws).
Proof.
  intros Ha Hp F.
  assert (Hrun : forall (P : World -> Prop) b0,
            P = button_placed p w0 b0 \/ P = (fun _ => True) ->
            In b0 (_buttons w0) \/ P ws ->
            wp (for_each
                  (fun button =>
                     if_isinstance (Some button) MDFloatingBottomButton
                       set_pos_bottom_buttons)
                  (_buttons w0))
               (fun _ w' =>
                  (place_frame w0 w'
                   /\ forall j, ~ In j (_buttons w0) ->
                                lookup j w' = lookup j ws)
                  /\ P w')
               no_exn ws).
  { intros P b0 HP Hb0.
    apply (for_each_establish _ _ P b0); [| now split | exact Hb0].
    intros x w Hx HI. now apply (place_buttons_body w0 ws p P b0 x w). }
  pose proof (Hrun (fun _ => True) 0%nat (or_intror eq_refl) (or_intror I))
    as H0.
  apply wp_ok in H0 as ([] & w' & Hrun0 & (F' & U') & _).
  exists w'. split; [exact Hrun0 |]. split; [exact F' |].
  split; [| exact U'].
  intros b Hb.
  pose proof (Hrun _ b (or_introl eq_refl) (or_introl Hb)) as H1.
  unfold wp in H1. rewrite Hrun0 in H1. apply H1.
Qed.

Lemma place_labels_loop w0 ws p :
  aligned w0 -> parent w0 = Some p -> place_frame w0 ws ->
  exists w',
    for_each (fun label => if_isinstance label MDFloatingLabel set_pos_labels)
      (_labels w0) ws = Ok tt w'
    /\ place_frame w0 w'
    /\ (forall l, In (Some l) (_labels w0) -> label_placed p w0 l w')
    /\ (forall j, ~ In (Some j) (_labels w0) -> lookup j w' = lookup j ws).
Proof.
  intros Ha Hp F.
  assert (Hrun : forall (P : World -> Prop) l0,
            P = label_placed p w0 l0 \/ P = (fun _ => True) ->
            In (Some l0) (_labels w0) \/ P ws ->
            wp (for_each
                  (fun label =>
                     if_isinstance label MDFloatingLabel set_pos_labels)
                  (_labels w0))
               (fun _ w' =>
                  (place_frame w0 w'
                   /\ forall j, ~ In (Some j) (_labels w0) ->
                                lookup j w' = lookup j ws)
                  /\ P w')
               no_exn ws).
  { intros P l0 HP Hl0.
    apply (for_each_establish _ _ P (Some l0)); [| now split | exact Hl0].
    intros x w Hx HI. now apply (place_labels_body w0 ws p P l0 x w). }
  pose proof (Hrun (fun _ => True) 0%nat (or_intror eq_refl) (or_intror I))
    as H0.
  apply wp_ok in H0 as ([] & w' & Hrun0 & (F' & U') & _).
  exists w'. split; [exact Hrun0 |]. split; [exact F' |].
  split; [| exact U'].
  intros l Hl.
  pose proof (Hrun _ l (or_introl eq_refl) (or_introl Hl)) as H1.
  unfold wp in H1. rewrite Hrun0 in H1. apply H1.
Qed.

(** Without a parent the first widget stops the loop. *)
Lemma set_pos_labels_orphan l o w :
  parent w = None -> lookup l w = Some o ->
  exists w', set_pos_labels l w = Raise AttributeError w'.
Proof.
  intros Hp Ho.
  assert (H : wp (set_pos_labels l) (fun _ _ => False)
                (fun e _ => e = AttributeError) w).
  { unfold set_pos_labels, Window_unbind, update. wp_steps.
    destruct (_widget_declaration_finished w); wp_steps; simpl parent;
      rewrite Hp; wp_steps;
      (eapply wp_read_lookup;
       [ rewrite lookup_update, Nat.eqb_refl; unfold lookup; simpl heap;
         fold (lookup l w); rewrite Ho; reflexivity |]);
      wp_steps; reflexivity. }
  unfold wp in H. destruct (set_pos_labels l w) as [? ? | e w'];
    [contradiction | subst; eauto].
Qed.

Lemma orphan_labels_loop w : forall labels,
  parent w = None -> (exists l, In (Some l) labels) ->
  (forall l, In (Some l) labels ->
             isinstance (Some l) MDFloatingLabel w = true) ->
  exists w',
    for_each (fun label => if_isinstance label MDFloatingLabel set_pos_labels)
      labels w = Raise AttributeError w'.
Proof.
  induction labels as [| [l |] labels IH]; intros Hp [l0 Hin] Hk.
  - destruct Hin.
  - simpl. unfold bind, if_isinstance. rewrite (Hk l (or_introl eq_refl)).
    destruct (isinstance_lookup l _ w (Hk l (or_introl eq_refl)))
      as (o & Ho & _).
    destruct (set_pos_labels_orphan l o w Hp Ho) as [w' ->]. eauto.
  - simpl. unfold bind, if_isinstance.
    destruct Hin as [Hin | Hin]; [discriminate |].
    apply IH; [exact Hp | eauto |]. intros l Hl. apply Hk. now right.
Qed.

Lemma orphan_buttons_loop w b bs :
  parent w = None -> isinstance (Some b) MDFloatingBottomButton w = true ->
  exists w',
    for_each
      (fun button =>
         if_isinstance (Some button) MDFloatingBottomButton
           set_pos_bottom_buttons)
      (b :: bs) w = Raise AttributeError w'.
Proof.
  intros Hp Hk. simpl. unfold bind, if_isinstance. rewrite Hk.
  destruct (isinstance_lookup b _ w Hk) as (o & Ho & _).
  pose proof (set_pos_bottom_buttons_orphan b o (fun _ _ => False) w Hp Ho)
    as H.
  unfold wp in H. destruct (set_pos_bottom_buttons b w) as [? ? | e w'];
    [contradiction |].
  destruct H as [-> _]. eauto.
Qed.

(** [on_stack_button_direction] on an aligned stack: with a parent it
    returns, every button of the stack is centred on the parent's
    [center_x] at the parent's [center_y] plus its local position, and no
    other widget and nothing else of the stack changes; without a parent
    it raises [AttributeError] as soon as the stack has a button. *)
Theorem on_stack_button_direction_places (w : World) :
  aligned w ->
  (forall p, parent w = Some p ->
     exists w',
       on_stack_button_direction w = Ok tt w'
       /\ place_frame w w'
       /\ (forall b, In b (_buttons w) -> button_placed p w b w')
       /\ (forall j, ~ In j (_buttons w) -> lookup j w' = lookup j w))
  /\ (parent w = None -> _buttons w <> [] ->
      exists w', on_stack_button_direction w = Raise AttributeError w').
Proof.
  intros Ha. split.
  - intros p Hp. unfold on_stack_button_direction, bind, get.
    apply (place_buttons_loop w w p Ha Hp (place_frame_refl w)).
  - intros Hp Hne. unfold on_stack_button_direction, bind, get.
    destruct (_buttons w) as [| b bs] eqn:Eb; [congruence |].
    apply orphan_buttons_loop; [exact Hp |].
    destruct Ha as (_ & _ & KB & _). apply KB. rewrite Eb. now left.
Qed.

Lemma on_stack_button_direction_places_witness :
  exists w',
    on_stack_button_direction example_open = Ok tt w'
    /\ button_placed (set_p_on_release [CbOpenStack] example_parent)
         example_open 0 w'
    /\ button_placed (set_p_on_release [CbOpenStack] example_parent)
         example_open 2 w'.
Proof.
  destruct (proj1 (on_stack_button_direction_places example_open
                     ltac:(apply aligned_world_after, aligned_world_after,
                             aligned_init))
              (set_p_on_release [CbOpenStack] example_parent)
              ltac:(vm_compute; reflexivity))
    as (w' & H1 & _ & H2 & _).
  exists w'. split; [exact H1 |].
  split; apply H2; vm_compute; auto.
Defined.

(** [on_label_direction] on an aligned stack: with a parent it returns,
    every label of the stack gets the height of its local position and
    its left edge beside the parent (for [left], [dp(width)] further
    left), and no other widget changes; without a parent it raises
    [AttributeError] as soon as the stack has a label. *)
Theorem on_label_direction_places (w : World) :
  aligned w ->
  (forall p, parent w = Some p ->
     exists w',
       on_label_direction w = Ok tt w'
       /\ place_frame w w'
       /\ (forall l, In (Some l) (_labels w) -> label_placed p w l w')
       /\ (forall j, ~ In (Some j) (_labels w) ->
                     lookup j w' = lookup j w))
  /\ (parent w = None -> (exists l, In (Some l) (_labels w)) ->
      exists w', on_label_direction w = Raise AttributeError w').
Proof.
  intros Ha. split.
  - intros p Hp. unfold on_label_direction, bind, get.
    apply (place_labels_loop w w p Ha Hp (place_frame_refl w)).
  - intros Hp Hl. unfold on_label_direction, bind, get.
    apply orphan_labels_loop; [exact Hp | exact Hl |].
    destruct Ha as (_ & _ & _ & KL). exact KL.
Qed.

Lemma on_label_direction_places_witness :
  exists w',
    on_label_direction example_open = Ok tt w'
    /\ label_placed (set_p_on_release [CbOpenStack] example_parent)
         example_open 1 w'
    /\ label_placed (set_p_on_release [CbOpenStack] example_parent)
         example_open 3 w'.
Proof.
  destruct (proj1 (on_label_direction_places example_open
                     ltac:(apply aligned_world_after, aligned_world_after,
                             aligned_init))
              (set_p_on_release [CbOpenStack] example_parent)
              ltac:(vm_compute; reflexivity))
    as (w' & H1 & _ & H2 & _).
  exists w'. split; [exact H1 |].
  split; apply H2; vm_compute; auto.
Defined.

Lemma update_pos_body_button b w :
  isinstance (Some b) MDFloatingBottomButton w = true ->
  _update_pos_buttons_body (Some b) w
  = if_isinstance (Some b) MDFloatingBottomButton set_pos_bottom_buttons w.
Proof. intros H. unfold _update_pos_buttons_body, bind, get. now rewrite H. Qed.

Lemma update_pos_body_label label w :
  (forall l, label = Some l ->
             isinstance (Some l) MDFloatingLabel w = true) ->
  _update_pos_buttons_body label w
  = if_isinstance label MDFloatingLabel set_pos_labels w.
Proof.
  intros H. unfold _update_pos_buttons_body, bind, get.
  destruct label as [l |]; [| reflexivity].
  now rewrite (kind_exclusive _ _ (H l eq_refl)).
Qed.

Lemma update_pos_is_both w :
  aligned w ->
  _update_pos_buttons w
  = (on_stack_button_direction ;; on_label_direction) w.
Proof.
  intros Ha. pose proof Ha as (_ & _ & KB & KL).
  assert (K1 : preserves (shape_frame w)
                 (for_each
                    (fun button =>
                       if_isinstance (Some button) MDFloatingBottomButton
                         set_pos_bottom_buttons) (_buttons w))).
  { apply keeps_for_each. intros b. apply keeps_if_isinstance. intros id.
    apply sf_set_pos_bottom_buttons. }
  change ((for_each _update_pos_buttons_body
             (map Some (_buttons w) ++ _labels w)) w
          = match
              for_each
                (fun button =>
                   if_isinstance (Some button) MDFloatingBottomButton
                     set_pos_bottom_buttons) (_buttons w) w
            with
            | Ok _ w1 =>
                for_each
                  (fun label =>
                     if_isinstance label MDFloatingLabel set_pos_labels)
                  (_labels w1) w1
            | Raise e w1 => Raise e w1
            end).
  rewrite for_each_app. unfold bind. rewrite for_each_map.
  rewrite (for_each_agree
             (fun a => _update_pos_buttons_body (Some a))
             (fun button =>
                if_isinstance (Some button) MDFloatingBottomButton
                  set_pos_bottom_buttons)
             (shape_frame w)).
  - specialize (K1 w (shape_frame_refl w)). unfold wp in K1.
    destruct (for_each _ (_buttons w) w) as [[] w1 | e w1]; [| reflexivity].
    pose proof K1 as (_ & _ & -> & _).
    apply (for_each_agree _ _ (shape_frame w)); [| | exact K1].
    + intros label w' Hin (G' & _). apply update_pos_body_label.
      intros l ->. eapply isinstance_grows; [exact G' | now apply KL].
    + intros label _. apply keeps_if_isinstance. intros id.
      apply sf_set_pos_labels.
  - intros b w' Hin (G' & _). apply update_pos_body_button.
    eapply isinstance_grows; [exact G' | now apply KB].
  - intros b _. apply keeps_if_isinstance. intros id.
    apply sf_set_pos_bottom_buttons.
  - apply shape_frame_refl.
Qed.

(** The two loops of a resize, with a parent: where they leave the
    stack. *)
Lemma update_pos_places w p :
  aligned w -> parent w = Some p ->
  exists w1 w',
    for_each
      (fun button =>
         if_isinstance (Some button) MDFloatingBottomButton
           set_pos_bottom_buttons) (_buttons w) w = Ok tt w1
    /\ for_each
         (fun label => if_isinstance label MDFloatingLabel set_pos_labels)
         (_labels w) w1 = Ok tt w'
    /\ _update_pos_buttons w = Ok tt w'
    /\ place_frame w w1 /\ place_frame w w'
    /\ (forall b, In b (_buttons w) -> button_placed p w b w')
    /\ (forall l, In (Some l) (_labels w) -> label_placed p w l w')
    /\ (forall j, ~ stack_widget j w -> lookup j w' = lookup j w).
Proof.
  intros Ha Hp.
  destruct (place_buttons_loop w w p Ha Hp (place_frame_refl w))
    as (w1 & R1 & F1 & Hb & U1).
  destruct (place_labels_loop w w1 p Ha Hp F1) as (w2 & R2 & F2 & Hl & U2).
  exists w1, w2. split; [exact R1 |]. split; [exact R2 |]. split.
  { rewrite (update_pos_is_both w Ha).
    unfold on_stack_button_direction, on_label_direction, bind, get.
    rewrite R1. pose proof F1 as ((_ & -> & _) & _). exact R2. }
  split; [exact F1 |]. split; [exact F2 |].
  split; [| split; [exact Hl |]].
  - intros b Hin. eapply button_placed_same; [| apply Hb, Hin].
    apply U2. intros Hlab. destruct Ha as (_ & _ & KB & KL).
    apply KL, kind_exclusive in Hlab. rewrite (KB b Hin) in Hlab.
    discriminate.
  - intros j Hj. rewrite U2, U1; [reflexivity | |]; intros H; apply Hj;
      [now left | now right].
Qed.

(** A resize ([_update_pos_buttons]) of an aligned stack is
    [on_stack_button_direction] followed by [on_label_direction],
    exception for exception; with a parent it returns with every button
    and every label of the stack placed, and no other widget moved. *)
Theorem resize_repositions_stack (w : World) :
  aligned w ->
  _update_pos_buttons w
  = (on_stack_button_direction ;; on_label_direction) w
  /\ (forall p, parent w = Some p ->
        exists w',
          _update_pos_buttons w = Ok tt w'
          /\ place_frame w w'
          /\ (forall b, In b (_buttons w) -> button_placed p w b w')
          /\ (forall l, In (Some l) (_labels w) -> label_placed p w l w')
          /\ (forall j, ~ stack_widget j w -> lookup j w' = lookup j w)).
Proof.
  intros Ha. split; [now apply update_pos_is_both |].
  intros p Hp.
  destruct (update_pos_places w p Ha Hp)
    as (w1 & w' & _ & _ & R & _ & F & Hb & Hl & U).
  exists w'. auto.
Qed.

Lemma resize_repositions_stack_witness :
  exists w',
    _update_pos_buttons example_open = Ok tt w'
    /\ (on_stack_button_direction ;; on_label_direction) example_open
       = Ok tt w'
    /\ button_placed (set_p_on_release [CbOpenStack] example_parent)
         example_open 2 w'
    /\ label_placed (set_p_on_release [CbOpenStack] example_parent)
         example_open 3 w'.
Proof.
  destruct (resize_repositions_stack example_open) as [E H].
  - apply aligned_world_after, aligned_world_after, aligned_init.
  - destruct (H (set_p_on_release [CbOpenStack] example_parent))
      as (w' & H1 & _ & H2 & H3 & _); [vm_compute; reflexivity |].
    exists w'. split; [exact H1 |]. split; [now rewrite <- E |].
    split; [apply H2 | apply H3]; vm_compute; auto.
Defined.

(** * The chain of opening animations *)

Lemma skipn_cons_nth {A} (l : list A) : forall k x rest,
  skipn k l = x :: rest -> nth_error l k = Some x /\ skipn (S k) l = rest.
Proof.
  induction l as [| a l IH]; intros [| k] x rest; simpl; try discriminate.
  - intros [= -> ->]. now split.
  - intros H. apply IH in H. exact H.
Qed.

Lemma skipn_nil_S {A} (l : list A) : forall k,
  skipn k l = [] -> skipn (S k) l = [].
Proof.
  induction l as [| a l IH]; intros k H; [reflexivity |].
  destruct k as [| k]; [discriminate H |].
  change (skipn (S k) l = []). now apply IH.
Qed.

Lemma dict_get_id_key {V} k (d : list (nat * V)) :
  In k (map fst d) -> exists v, dict_get_id k d = Some v.
Proof.
  induction d as [| [k' v'] d IH]; simpl; [intros [] |].
  destruct (Nat.eqb_spec k' k) as [-> | Hne]; [eauto |].
  intros [H | H]; [contradiction | auto].
Qed.

Lemma nth_error_replace_nth {A} (v : A) (l : list A) : forall i j,
  nth_error (replace_nth i v l) j =
  if Nat.eqb i j then option_map (fun _ => v) (nth_error l j)
  else nth_error l j.
Proof.
  induction l as [| a l IH]; intros [| i] [| j]; simpl; auto.
  now destruct (Nat.eqb i j).
Qed.

Lemma update_nth_twice {A} (f g : A -> A) (l : list A) : forall i,
  update_nth i g (update_nth i f l) = update_nth i (fun a => g (f a)) l.
Proof.
  induction l as [| a l IH]; intros [| i]; simpl; auto. now rewrite IH.
Qed.

Lemma update_nth_at {A} (f g : A -> A) (l : list A) : forall i a,
  nth_error l i = Some a -> f a = g a -> update_nth i f l = update_nth i g l.
Proof.
  induction l as [| x l IH]; intros [| i] a; simpl; try discriminate.
  - now intros [= ->] ->.
  - intros H E. now rewrite (IH i a H E).
Qed.

Lemma In_bind_cb_mono cb c l : In c l -> In c (bind_cb cb l).
Proof.
  unfold bind_cb. destruct (existsb _ l); [auto |].
  intros H. apply in_or_app. now left.
Qed.

Lemma is_running_app tg a l :
  is_running tg (set_a_widgets (l ++ [tg]) a) = true.
Proof.
  unfold is_running. simpl. rewrite existsb_app. simpl.
  destruct tg; simpl; rewrite ?Nat.eqb_refl; now rewrite orb_true_r.
Qed.

Lemma Target_eqb_eq a b : Target_eqb a b = true -> a = b.
Proof.
  destruct a, b; simpl; try discriminate; auto.
  intros H. apply Nat.eqb_eq in H. now subst.
Qed.

Lemma Target_eqb_sym a b : Target_eqb a b = Target_eqb b a.
Proof. destruct a, b; simpl; auto using Nat.eqb_sym. Qed.

(** Starting a plain animation: it runs on the target afterwards, on
    every target it ran on before, and nothing is called. *)
Lemma Animation_start_runs aid tg an w :
  nth_error (anims w) aid = Some an -> a_on_start an = [] ->
  a_on_complete an = [] ->
  exists an',
    Animation_start aid tg w
    = Ok tt (set_anims (update_nth aid (fun _ => an') (anims w)) w)
    /\ is_running tg an' = true
    /\ (forall t, is_running t an = true -> is_running t an' = true)
    /\ a_on_progress an' = a_on_progress an
    /\ a_on_start an' = [] /\ a_on_complete an' = [].
Proof.
  intros Han Hs Hc. unfold Animation_start, bind, read_anim. rewrite Han.
  destruct (is_running tg an) eqn:Hr; unfold update_anim, modify;
    rewrite ?Hc, ?Hs; simpl.
  - exists (set_a_widgets (a_widgets (stop_on tg an) ++ [tg]) (stop_on tg an)).
    split; [| split; [apply is_running_app | split]].
    + unfold ret. f_equal.
      match goal with
      | |- set_anims ?A _ = set_anims ?C _ =>
          change (set_anims A w = set_anims C w)
      end.
      f_equal. rewrite update_nth_twice.
      now apply (update_nth_at _ _ _ aid an).
    + intros t Ht. unfold is_running in *. simpl. rewrite existsb_app.
      destruct (Target_eqb t tg) eqn:E; [simpl; now rewrite E, orb_true_r |].
      apply orb_true_iff. left. apply existsb_exists in Ht as (x & Hx & Hx').
      apply existsb_exists. exists x. split; [| exact Hx'].
      apply filter_In. split; [exact Hx |].
      apply Target_eqb_eq in Hx'. subst x. rewrite Target_eqb_sym, E.
      reflexivity.
    + now repeat split.
  - exists (set_a_widgets (a_widgets an ++ [tg]) an).
    split; [| split; [apply is_running_app | split]].
    + unfold ret. f_equal. f_equal.
      now apply (update_nth_at _ _ _ aid an).
    + intros t Ht. unfold is_running in *. simpl. rewrite existsb_app.
      now rewrite Ht.
    + now repeat split.
Qed.

Lemma chained_kept it data widget a an' w w' :
  (forall j, j <> a -> nth_error (anims w') j = nth_error (anims w) j) ->
  nth_error (anims w') a = Some an' ->
  (forall an, nth_error (anims w) a = Some an ->
     (forall t, is_running t an = true -> is_running t an' = true)
     /\ forall c, In c (a_on_progress an) -> In c (a_on_progress an')) ->
  chained it data widget w -> chained it data widget w'.
Proof.
  intros Hoth Ha Hkeep (a0 & an0 & Hd & Han0 & Hr & Hc).
  destruct (Nat.eq_dec a0 a) as [-> | Hne].
  - destruct (Hkeep an0 Han0) as [H1 H2]. exists a, an'. auto.
  - exists a0, an0. rewrite (Hoth a0 Hne). auto.
Qed.

(** One report that reaches the threshold: the next widget of [data], if
    there is one, is started, and the iterator moves on. *)
Lemma on_progress_next it data k value w :
  chain_at it data k w -> plain_data data w ->
  Qle_bool (1 # 10) value = true ->
  exists w',
    on_progress it value w = Ok tt w'
    /\ chain_at it data (S k) w'
    /\ plain_data data w'
    /\ (forall widget, nth_error (map fst data) k = Some widget ->
                       chained it data widget w')
    /\ (forall widget, chained it data widget w -> chained it data widget w')
    /\ w' = set_iters (iters w') (set_anims (anims w') w)
    /\ List.length (anims w') = List.length (anims w).
Proof.
  intros Hat Hplain Hv. unfold on_progress. rewrite Hv.
  unfold animation_open_stack, bind at 1, get. rewrite Hat. simpl it_rest.
  simpl it_data.
  destruct (skipn k (map fst data)) as [| widget rest] eqn:Hsk.
  { exists w. split; [reflexivity |]. split.
    - unfold chain_at. now rewrite (skipn_nil_S _ _ Hsk), Hat, Hsk.
    - split; [exact Hplain |]. split.
      + intros widget Hn.
        assert (Hlen : (List.length (map fst data) <= k)%nat).
        { destruct (Nat.le_gt_cases (List.length (map fst data)) k) as [|Hlt];
            [assumption |].
          pose proof (length_skipn k (map fst data)) as Hl.
          rewrite Hsk in Hl. simpl in Hl. lia. }
        apply nth_error_None in Hlen. congruence.
      + split; [auto |]. split; [| reflexivity].
        destruct w; reflexivity. }
  apply skipn_cons_nth in Hsk as [Hn Hrest].
  destruct (dict_get_id_key widget data (nth_error_In _ _ Hn)) as [a Hd].
  destruct (Hplain widget a (dict_get_id_In _ _ _ Hd))
    as (an & Han & Hs & Hc).
  cbn [it_rest it_data]. unfold bind at 1, modify. rewrite Hd.
  unfold bind at 1, update_anim, modify.
  simpl anims.
  match goal with
  | |- context [Animation_start a (TWidget widget) ?W] =>
      remember W as w1 eqn:E1
  end.
  assert (Han1 : nth_error (anims w1) a
                 = Some (set_a_on_progress
                           (bind_cb (CbOnProgress it) (a_on_progress an)) an)).
  { subst w1. simpl. now rewrite nth_error_update_nth, Nat.eqb_refl, Han. }
  destruct (Animation_start_runs a (TWidget widget) _ w1 Han1 Hs Hc)
    as (an' & Hrun & Hr' & Hkeep & Hp' & Hs' & Hc').
  simpl in Hp'.
  assert (Ea : anims w1 = update_nth a
                 (fun a0 => set_a_on_progress
                    (bind_cb (CbOnProgress it) (a_on_progress a0)) a0)
                 (anims w)) by (subst w1; reflexivity).
  assert (Ei : iters w1 = replace_nth it (mkIter data rest) (iters w))
    by (subst w1; reflexivity).
  assert (Ew : w1 = set_iters (iters w1) (set_anims (anims w1) w))
    by (subst w1; reflexivity).
  clear E1.
  assert (Hnew : nth_error (update_nth a (fun _ => an') (anims w1)) a
                 = Some an').
  { now rewrite nth_error_update_nth, Nat.eqb_refl, Han1. }
  assert (Hoth : forall j, j <> a ->
            nth_error (update_nth a (fun _ => an') (anims w1)) j
            = nth_error (anims w) j).
  { intros j Hj. rewrite nth_error_update_nth, Ea, nth_error_update_nth.
    destruct (Nat.eqb_spec a j); [congruence | reflexivity]. }
  exists (set_anims (update_nth a (fun _ => an') (anims w1)) w1).
  split; [exact Hrun |]. split; [| split; [| split; [| split]]].
  - unfold chain_at. simpl iters. rewrite Ei, nth_error_replace_nth.
    rewrite Nat.eqb_refl, Hat, Hrest. reflexivity.
  - intros k0 a0 Hin. destruct (Hplain k0 a0 Hin) as (an0 & Han0 & S0 & C0).
    destruct (Nat.eq_dec a0 a) as [-> | Hne].
    + exists an'. simpl anims. auto.
    + exists an0. simpl anims. rewrite (Hoth a0 Hne). auto.
  - intros widget' Hn'. rewrite Hn in Hn'. injection Hn' as <-.
    exists a, an'. simpl anims. repeat split; auto.
    rewrite Hp'. apply In_bind_cb.
  - intros widget0 Hch.
    apply (chained_kept it data widget0 a an' w
             (set_anims (update_nth a (fun _ => an') (anims w1)) w1)
             Hoth Hnew); [| exact Hch].
    intros an0 Han0. rewrite Han in Han0. injection Han0 as <-. split.
    + intros t Ht. apply Hkeep. exact Ht.
    + intros c Hin. rewrite Hp'. now apply In_bind_cb_mono.
  - split.
    + rewrite Ew. reflexivity.
    + simpl anims. now rewrite length_update_nth, Ea, length_update_nth.
Qed.

Lemma reports_cons v vs :
  reports (v :: vs)
  = if Qle_bool (1 # 10) v then S (reports vs) else reports vs.
Proof. unfold reports. simpl. now destruct (Qle_bool (1 # 10) v). Qed.

(** The chain of an open sequence: a progress report below 0.1 does
    nothing, and each report of at least 0.1 starts the animation of the
    next widget of [anim_data], in the order of its keys, with the same
    [on_progress] bound to it; reports after the last widget do nothing;
    no report raises ([StopIteration] is caught, and no key is missing),
    and only iterators and animations change. *)
Theorem progress_chain_in_order (it : nat) (data : list (nat * nat))
    (vs : list Q) : forall (k : nat) (w : World),
  chain_at it data k w -> plain_data data w ->
  exists w',
    for_each (on_progress it) vs w = Ok tt w'
    /\ chain_at it data (k + reports vs) w'
    /\ (forall j widget,
          (k <= j < k + reports vs)%nat ->
          nth_error (map fst data) j = Some widget ->
          chained it data widget w')
    /\ (forall widget, chained it data widget w -> chained it data widget w')
    /\ w' = set_iters (iters w') (set_anims (anims w') w)
    /\ List.length (anims w') = List.length (anims w).
Proof.
  induction vs as [| v vs IH]; intros k w Hat Hplain.
  - exists w. split; [reflexivity |]. unfold reports. simpl.
    rewrite Nat.add_0_r. split; [exact Hat |]. split; [intros; lia |].
    split; [auto |]. split; [now destruct w | reflexivity].
  - simpl for_each. unfold bind. rewrite reports_cons.
    destruct (Qle_bool (1 # 10) v) eqn:Hv.
    + destruct (on_progress_next it data k v w Hat Hplain Hv)
        as (w1 & -> & Hat1 & Hplain1 & Hnew & Hkept & Ew1 & Hlen1).
      destruct (IH (S k) w1 Hat1 Hplain1)
        as (w' & Hrun & Hat' & Hnew' & Hkept' & Ew' & Hlen').
      exists w'. split; [exact Hrun |]. split.
      { now rewrite Nat.add_succ_r. }
      split; [| split; [auto | split; [| congruence]]].
      * intros j widget Hj Hn. destruct (Nat.eq_dec j k) as [-> | Hne].
        -- apply Hkept', Hnew, Hn.
        -- apply (Hnew' j widget); [lia | exact Hn].
      * assert (E : set_iters (iters w') (set_anims (anims w') w1)
                    = set_iters (iters w') (set_anims (anims w') w))
          by (rewrite Ew1; reflexivity).
        congruence.
    + assert (E : on_progress it v w = Ok tt w)
        by (unfold on_progress; now rewrite Hv).
      rewrite E. apply IH; assumption.
Qed.

Lemma progress_chain_in_order_witness :
  exists w',
    for_each (on_progress 0) [1 # 20; 1 # 5; 1 # 2; 1] example_open
    = Ok tt w'
    /\ chain_at 0 (_anim_buttons_data example_open) 4 w'
    /\ chained 0 (_anim_buttons_data example_open) 2 w'.
Proof.
  destruct (progress_chain_in_order 0 (_anim_buttons_data example_open)
              [1 # 20; 1 # 5; 1 # 2; 1] 1 example_open)
    as (w' & H1 & H2 & H3 & _).
  - vm_compute. reflexivity.
  - apply plain_datab_ok. vm_compute. reflexivity.
  - exists w'. split; [exact H1 |]. split; [exact H2 |].
    apply (H3 1%nat 2%nat); [vm_compute; lia | vm_compute; reflexivity].
Defined.

(** * Assigning [data] twice before the clock runs *)

Lemma rebuilt_app d1 d2 w0 w1 w2 :
  rebuilt d1 w0 w1 -> rebuilt d2 w1 w2 -> rebuilt (d1 ++ d2) w0 w2.
Proof.
  intros (bs1 & ls1 & B1 & L1 & P1 & Nb1 & Nl1 & G1 & E1)
         (bs2 & ls2 & B2 & L2 & P2 & Nb2 & Nl2 & G2 & E2).
  exists (bs1 ++ bs2), (ls1 ++ ls2).
  rewrite B2, B1, L2, L1, P2, P1, !length_app, repeat_app, <- !app_assoc.
  repeat split; try congruence.
  - eapply heap_grows_trans; eauto.
  - intros i entry Hi.
    destruct (Nat.lt_ge_cases i (List.length d1)) as [Hlt | Hge].
    + rewrite nth_error_app1 in Hi by exact Hlt.
      destruct (E1 i entry Hi) as (b & label & Hb & Hl & He).
      exists b, label. rewrite !nth_error_app1 by congruence.
      repeat split; try assumption; eapply entry_built_grows; eauto.
    + rewrite nth_error_app2 in Hi by exact Hge.
      destruct (E2 _ entry Hi) as (b & label & Hb & Hl & He).
      exists b, label. rewrite !nth_error_app2 by congruence.
      rewrite Nb1, Nl1. auto.
Qed.

(** What the rebuild and [remove_widgets] leave alone. *)
Lemma on_data_inner_keeps (P : World -> Prop) d :
  (forall w id f, P w -> P (set_heap (update_nth id f (heap w)) w)) ->
  (forall w o, P w -> P (set_heap (heap w ++ [o]) w)) ->
  (forall w v, P w -> P (set__buttons v w)) ->
  (forall w v, P w -> P (set__labels v w)) ->
  (forall w v, P w -> P (set__local_positions v w)) ->
  (forall w v, P w -> P (set__widget_declaration_finished v w)) ->
  (forall w v, P w -> P (set_window v w)) ->
  preserves P (on_data_inner d).
Proof.
  intros H1 H2 H3 H4 H5 H6 H7.
  unfold preserves, on_data_inner, on_data_entry.
  repeat first
    [ apply keeps_name_icon | apply keeps_callback_after
    | apply keeps_bind_user; [exact I | intros ?]
    | match goal with
      | |- keeps _ _ (modify _) =>
          apply keeps_modify; intros ? ?; auto
      | |- keeps _ _ (new_widget _) =>
          intros ? ?; unfold wp, new_widget; auto
      end
    | progress unfold set_pos_bottom_buttons, set_pos_labels
    | pres_unfold; pres_step ].
Qed.

Lemma on_data_runs d w :
  (List.length (_buttons w) <= List.length (_labels w))%nat ->
  exists w',
    remove_widgets w = Ok tt w'
    /\ clock w' = clock w /\ parent w' = parent w /\ cfg w' = cfg w
    /\ on_data d w
       = Ok tt (set_clock (clock w' ++ [CbOnData d])
                  (set__anim_labels_data []
                     (set__anim_buttons_data []
                        (set__local_positions []
                           (set__labels [] (set__buttons [] w')))))).
Proof.
  intros Hlen. pose proof (remove_widgets_returns w Hlen) as H.
  apply wp_ok in H as ([] & w' & Hrem & _).
  assert (K : preserves (fun w' => clock w' = clock w
                                   /\ parent w' = parent w
                                   /\ cfg w' = cfg w) remove_widgets)
    by pres.
  specialize (K w (conj eq_refl (conj eq_refl eq_refl))).
  unfold wp in K. rewrite Hrem in K. destruct K as (K1 & K2 & K3).
  exists w'. repeat split; try assumption.
  unfold on_data, bind at 1. now rewrite Hrem.
Qed.

Lemma on_data_inner_builds d w :
  forallb entry_good d = true -> parent w <> None ->
  List.length (_buttons w) = List.length (_local_positions w) ->
  List.length (_labels w) = List.length (_local_positions w) ->
  exists w',
    on_data_inner d w = Ok tt w' /\ rebuilt d w w'
    /\ parent w' = parent w /\ cfg w' = cfg w /\ clock w' = clock w.
Proof.
  intros Hd Hp Hb Hl.
  destruct (on_data_inner_returns d w Hd Hp Hb Hl)
    as [w' Hrun].
  exists w'. split; [exact Hrun |].
  pose proof (on_data_inner_ok d w) as R. unfold wp in R. rewrite Hrun in R.
  split; [exact R |].
  assert (K : preserves (fun w' => parent w' = parent w /\ cfg w' = cfg w
                                   /\ clock w' = clock w) (on_data_inner d))
    by (apply on_data_inner_keeps; intros; assumption).
  specialize (K w (conj eq_refl (conj eq_refl eq_refl))).
  unfold wp in K. now rewrite Hrun in K.
Qed.

(** Two assignments of [data] before the clock runs build both stacks:
    each assignment empties the stack at once, but the two scheduled
    rebuilds then both append, so the stack matches the entries of the
    first mapping followed by those of the second, while [data] is the
    second mapping.  (Each assignment changes [data]: the property
    dispatches [on_data] only then.) *)
Theorem data_assigned_twice_builds_both (w : World) (d1 d2 : Data) :
  data (cfg w) <> d1 -> d1 <> d2 ->
  aligned w -> parent w <> None -> clock w = [] ->
  forallb entry_good d1 = true -> forallb entry_good d2 = true ->
  exists w',
    run [EvSetData d1; EvSetData d2; EvTick] w = Ok tt w'
    /\ data (cfg w') = d2
    /\ stack_matches (d1 ++ d2) w'
    /\ clock w' = [].
Proof.
  intros _ _ (L & _) Hp Hc Hd1 Hd2. unfold run, step.
  unfold bind at 1. unfold bind at 1. unfold modify at 1.
  destruct (on_data_runs d1 (set_cfg (set_data d1 (cfg w)) w))
    as (wa & _ & Ca & Pa & Ga & ->); [simpl; lia |].
  simpl in Ca, Pa, Ga. rewrite Hc in Ca.
  unfold bind at 1. unfold bind at 1. unfold modify at 1.
  match goal with
  | |- context [on_data d2 ?W] => remember W as wb eqn:Eb
  end.
  assert (Fb : _buttons wb = [] /\ _labels wb = []
               /\ _local_positions wb = []
               /\ clock wb = [CbOnData d1] /\ parent wb = parent w
               /\ data (cfg wb) = d2).
  { subst wb. simpl. rewrite Ca, Pa. repeat split. }
  clear Eb. destruct Fb as (Bb & Lb & Pb & Cb & Rb & Db).
  destruct (on_data_runs d2 wb) as (wc & Hrem & Cc & Pc & Gc & ->);
    [rewrite Bb; simpl; lia |].
  assert (wc = wb) as ->.
  { unfold remove_widgets, bind, get in Hrem. rewrite Bb in Hrem.
    simpl in Hrem. now injection Hrem. }
  unfold bind at 1. unfold bind at 1, get at 1.
  unfold bind at 1, modify at 1. simpl clock. rewrite Cb. simpl app.
  simpl for_each.
  match goal with
  | |- context [bind (on_data_inner d1) _ ?W] => remember W as w2 eqn:E2
  end.
  assert (F2 : _buttons w2 = [] /\ _labels w2 = []
               /\ _local_positions w2 = [] /\ clock w2 = []
               /\ parent w2 = parent w /\ data (cfg w2) = d2).
  { subst w2. simpl. repeat split; assumption. }
  clear E2. destruct F2 as (B2 & L2 & P2 & C2 & R2 & D2).
  destruct (on_data_inner_builds d1 w2 Hd1) as (w3 & H3 & Rb3 & R3 & G3 & C3);
    [congruence | now rewrite B2, P2 | now rewrite L2, P2 |].
  pose proof Rb3 as (bs & ls & B3 & L3 & P3 & Nb & Nl & _).
  destruct (on_data_inner_builds d2 w3 Hd2) as (w4 & H4 & Rb4 & R4 & G4 & C4).
  - congruence.
  - rewrite B3, P3, !length_app, repeat_length. rewrite B2, P2. simpl. lia.
  - rewrite L3, P3, !length_app, repeat_length. rewrite L2, P2. simpl. lia.
  - exists w4. unfold bind. rewrite H3, H4. split; [reflexivity |].
    split; [congruence |]. split; [| congruence].
    apply (rebuilt_matches (d1 ++ d2) w2); try assumption.
    eapply rebuilt_app; eauto.
Qed.

Lemma data_assigned_twice_builds_both_witness :
  exists w',
    run [EvSetData example_data; EvSetData [("Cut", PStr "scissors")];
         EvTick] example_attached = Ok tt w'
    /\ List.length (_buttons w') = 3%nat
    /\ data (cfg w') = [("Cut", PStr "scissors")].
Proof.
  destruct (data_assigned_twice_builds_both example_attached example_data
              [("Cut", PStr "scissors")])
    as (w' & H1 & H2 & (H3 & _) & _).
  - vm_compute. discriminate.
  - vm_compute. discriminate.
  - apply aligned_world_after, aligned_init.
  - vm_compute. discriminate.
  - vm_compute. reflexivity.
  - vm_compute. reflexivity.
  - vm_compute. reflexivity.
  - exists w'. split; [exact H1 |]. split; [exact H3 | exact H2].
Defined.

(** * What [on_enter] does, and when it raises *)

Lemma wp_data_getitem_missing key (Q : Parameters -> World -> Prop)
    (E : Exn -> World -> Prop) w :
  dict_get key (data (cfg w)) = None -> E KeyError w ->
  wp (data_getitem key) Q E w.
Proof. intros H HE. unfold wp, data_getitem, bind, get. now rewrite H. Qed.

(** [on_enter] on an open stack with hint animation, for a button with a
    paired label: the label's animations are cancelled and the strip is
    widened; then the label's text is looked up in [data].  A text that
    is no key of [data] raises [KeyError]; a value without a first
    element that differs from the icon raises [IndexError]; otherwise
    the label is faded in or out.  In the two failing cases the strip
    animation stays started and no label animation is. *)
Theorem on_enter_outcome (w : World) (b i lid : nat) (l ob : Widget) :
  state w = open -> hint_animation (cfg w) = true ->
  index_from Nat.eqb b (_buttons w) 0 = Some i ->
  nth_error (_labels w) i = Some (Some lid) ->
  lookup lid w = Some l -> kind l = MDFloatingLabel ->
  lookup b w = Some ob ->
  match dict_get (text l) (data (cfg w)) with
  | None => on_enter b w = Raise KeyError (strip_started b lid l w)
  | Some v =>
      match icon_test (icon ob) v with
      | None => on_enter b w = Raise IndexError (strip_started b lid l w)
      | Some same =>
          on_enter b w
          = Ok tt (set_anims
                     (anims (strip_started b lid l w)
                      ++ [hint_animation_of same lid w])
                     w)
      end
  end.
Proof.
  intros Hs Hh Hi Hl Hlid Hk Hb.
  assert (H : wp (on_enter b)
                (fun _ w' => exists v same,
                   dict_get (text l) (data (cfg w)) = Some v
                   /\ icon_test (icon ob) v = Some same
                   /\ w' = set_anims
                             (anims (strip_started b lid l w)
                              ++ [hint_animation_of same lid w]) w)
                (fun e w' =>
                   w' = strip_started b lid l w
                   /\ ((e = KeyError
                        /\ dict_get (text l) (data (cfg w)) = None)
                       \/ (e = IndexError
                           /\ exists v,
                                dict_get (text l) (data (cfg w)) = Some v
                                /\ icon_test (icon ob) v = None)))
                w).
  { unfold on_enter. wp_steps. rewrite Hs. simpl State_eqb. cbv iota.
    wp_steps. eapply wp_list_index; [exact Hi |]. wp_steps.
    eapply wp_getitem_at; [exact Hl |]. wp_steps.
    unfold isinstance at 1. rewrite Hlid, Hk, Hh. simpl andb. cbv iota.
    unfold Animation_cancel_all. wp_steps.
    eapply wp_read_lookup; [exact Hlid |]. wp_steps.
    eapply wp_read_lookup; [exact Hb |]. wp_step.
    destruct (dict_get (text l) (data (cfg w))) as [v |] eqn:Hv.
    2:{ eapply wp_data_getitem_missing; [exact Hv |].
        split; [reflexivity | left; now split]. }
    eapply wp_data_getitem; [exact Hv |]. wp_steps.
    destruct (icon_eq_parameters (icon ob) v) eqn:Hp; cbv iota.
    - wp_steps. cbv iota. wp_steps. exists v, true.
      split; [reflexivity |]. unfold icon_test. rewrite Hp.
      split; reflexivity.
    - wp_step. eapply wp_data_getitem; [exact Hv |]. wp_steps.
      unfold wp at 1. rewrite getitem0_first.
      destruct (first_of v) as [x |] eqn:Hf.
      2:{ split; [reflexivity |]. right. split; [reflexivity |].
          exists v. unfold icon_test. rewrite Hp, Hf. now split. }
      wp_steps.
      destruct (icon_eq_val (icon ob) x) eqn:Hx; cbv iota; wp_steps;
        eexists v, _; (split; [reflexivity |]); unfold icon_test;
        rewrite Hp, Hf; simpl option_map; rewrite Hx; split; reflexivity. }
  unfold wp in H.
  destruct (on_enter b w) as [[] w' | e w'].
  - destruct H as (v & same & -> & -> & ->). reflexivity.
  - destruct H as (-> & [[-> ->] | (-> & v & -> & ->)]); reflexivity.
Qed.

Lemma on_enter_outcome_witness :
  exists w', on_enter 0 example_stale = Raise KeyError w'.
Proof.
  assert (F : exists l ob,
            lookup 1 example_stale = Some l /\ kind l = MDFloatingLabel
            /\ text l = "Edit" /\ lookup 0 example_stale = Some ob)
    by (vm_compute; eexists; eexists; repeat split).
  destruct F as (l & ob & Hl & Hk & Ht & Hb).
  pose proof (on_enter_outcome example_stale 0 0 1 l ob
                ltac:(vm_compute; reflexivity) ltac:(vm_compute; reflexivity)
                ltac:(vm_compute; reflexivity) ltac:(vm_compute; reflexivity)
                Hl Hk Hb) as H.
  rewrite Ht in H.
  assert (D : dict_get "Edit" (data (cfg example_stale)) = None)
    by (vm_compute; reflexivity).
  rewrite D in H. eexists. exact H.
Defined.

(** * A touch gesture on the open stack *)

Lemma window_touch_bound ev cb handler pos w w' :
  window_bound ev cb w = true -> handler pos w = Ok true w' ->
  window_touch ev cb handler pos w = Ok tt w'.
Proof.
  intros Hb Hh. unfold window_touch, bind, get. now rewrite Hb, Hh.
Qed.

Lemma readable_forallb w l :
  forallb (fun r => match r with
                    | Some id => match lookup id w with
                                 | Some _ => true
                                 | None => false
                                 end
                    | None => false
                    end) l = true ->
  Forall (readable w) l.
Proof.
  intros H. apply Forall_forall. intros r Hr.
  rewrite forallb_forall in H. specialize (H r Hr).
  destruct r as [id |]; [| discriminate].
  destruct (lookup id w) as [o |] eqn:Ho; [| discriminate].
  now exists id, o.
Qed.

(** With the touch handlers bound and dismissal on, a touch that goes
    down outside every widget of the stack closes the stack when it goes
    up: [touch_up] calls [close_stack], none of the three events is passed
    on to the window's own handlers, and the window is as it was. *)
Theorem touch_outside_dismisses (w : World) (pd pm pu : Q * Q) :
  window_bound "on_touch_down" CbTouchDown w = true ->
  window_bound "on_touch_move" CbTouchMove w = true ->
  window_bound "on_touch_up" CbTouchUp w = true ->
  auto_dismiss (cfg w) = true -> Forall (readable w) (stack_refs w) ->
  _window w = Some Window -> parent w <> None ->
  existsb (collides pd w) (stack_refs w) = false ->
  exists w1 w',
    close_stack (set__touch_started_inside (Some false) w) = Ok tt w1
    /\ run [EvTouchDown pd; EvTouchMove pm; EvTouchUp pu] w = Ok tt w'
    /\ w' = set__touch_started_inside None w1
    /\ state w' = close /\ disabled w' = true
    /\ dispatched w' = dispatched w ++ ["on_close"]
    /\ window w' = window w.
Proof.
  intros Bd Bm Bu Hd Hr Hw Hp Hhit.
  pose proof (touch_down_classifies pd w Hr Hw) as Hdown.
  rewrite Hd, Hhit in Hdown. simpl in Hdown.
  set (w0 := set__touch_started_inside (Some false) w) in *.
  destruct (close_stack_closing w0 Hw Hp) as (w1 & Hclose & l & Hl).
  exists w1, (set__touch_started_inside None w1).
  split; [exact Hclose |]. split.
  - unfold run, step. unfold bind at 1.
    rewrite (window_touch_bound _ _ _ _ _ _ Bd Hdown).
    unfold bind at 1.
    assert (Hmove : touch_move pm w0 = Ok true w0).
    { unfold touch_move, bind, get. simpl. now rewrite Hd. }
    rewrite (window_touch_bound _ _ _ _ w0 w0 Bm Hmove).
    unfold bind at 1.
    assert (Hup : touch_up pu w0
                  = Ok true (set__touch_started_inside None w1)).
    { rewrite touch_up_dismisses; [| exact Hd | reflexivity].
      unfold bind. now rewrite Hclose. }
    now rewrite (window_touch_bound _ _ _ _ w0 _ Bu Hup).
  - split; [reflexivity |]. rewrite Hl. repeat split.
Qed.

Lemma touch_outside_dismisses_witness :
  exists w',
    run [EvTouchDown (0, 0); EvTouchMove (1, 1); EvTouchUp (2, 2)]
      example_bound = Ok tt w'
    /\ state w' = close /\ window w' = window example_bound.
Proof.
  assert (Hr : Forall (readable example_bound) (stack_refs example_bound))
    by (apply readable_forallb; vm_compute; reflexivity).
  assert (Bd : window_bound "on_touch_down" CbTouchDown example_bound = true)
    by (vm_compute; reflexivity).
  assert (Bm : window_bound "on_touch_move" CbTouchMove example_bound = true)
    by (vm_compute; reflexivity).
  assert (Bu : window_bound "on_touch_up" CbTouchUp example_bound = true)
    by (vm_compute; reflexivity).
  assert (Hd : auto_dismiss (cfg example_bound) = true)
    by (vm_compute; reflexivity).
  assert (Hw : _window example_bound = Some Window)
    by (vm_compute; reflexivity).
  assert (Hp : parent example_bound <> None)
    by (vm_compute; discriminate).
  assert (Hh : existsb (collides (0, 0) example_bound)
                 (stack_refs example_bound) = false)
    by (vm_compute; reflexivity).
  destruct (touch_outside_dismisses example_bound (0, 0) (1, 1) (2, 2)
              Bd Bm Bu Hd Hr Hw Hp Hh)
    as (w1 & w' & _ & Hrun & _ & Hs & _ & _ & Hwin).
  exists w'. split; [exact Hrun |]. split; [exact Hs | exact Hwin].
Defined.

(** * [disabled] follows [state] *)

(** The two assignments [self.disabled = d; self.state = s] of
    [open_stack] and [close_stack], taken together. *)
Lemma keeps_disabled_state {B} PE d s (k : M B) :
  d = match s with close => true | open => false end ->
  keeps disabled_while_closed PE k ->
  keeps disabled_while_closed PE
    (modify (set_disabled d) ;; modify (set_state s) ;; k).
Proof.
  intros Hd Hk w _. unfold wp, bind, modify. apply Hk.
  unfold disabled_while_closed. simpl. exact Hd.
Qed.

Ltac dc_unfold :=
  unfold preserves, add_widget, add_widgets, add_widgets_body, remove_widget,
    remove_widgets, remove_widgets_body, open_binding, close_binding,
    set_pos_bottom_buttons, set_pos_labels, _update_pos_buttons,
    _update_pos_buttons_body, run_animation_callback, Animation_start,
    Animation_cancel_all, Animation_complete, apply_prop,
    animation_open_stack, on_progress, do_animation_open_stack,
    close_stack, close_stack_body, open_stack, open_stack_body,
    setitem_local_positions, cancel_label_animations, Window_add_widget,
    Window_remove_widget, Window_bind, Window_unbind, Window_on_touch,
    update, update_anim, dispatch, touch_down, touch_move, touch_up,
    collide_at, window_touch, on_enter, on_leave, data_getitem, getitem0,
    attach, on_parent, on_data, on_data_inner, on_data_entry, bind_user.

Ltac dc_step :=
  first
    [ apply keeps_disabled_state; [reflexivity |]
    | apply keeps_name_icon
    | apply keeps_callback_after
    | match goal with
      | |- keeps _ _ (modify _) =>
          apply keeps_modify;
          let w := fresh "w" in let H := fresh "H" in intros w H; exact H
      | |- keeps _ _ (new_widget _) =>
          let w := fresh "w" in let H := fresh "H" in intros w H; exact H
      | |- keeps _ _ (new_animation _ _ _) =>
          let w := fresh "w" in let H := fresh "H" in intros w H; exact H
      | |- keeps _ _ (new_iter _) =>
          let w := fresh "w" in let H := fresh "H" in intros w H; exact H
      end
    | pres_step ].

Ltac dc := repeat (dc_unfold; dc_step).

Lemma dc_step_event e : preserves disabled_while_closed (step e).
Proof. destruct e; unfold step; dc. Qed.

Lemma disabled_while_closed_world_after evs : forall w,
  disabled_while_closed w -> disabled_while_closed (world_after evs w).
Proof.
  induction evs as [| e evs IH]; intros w Ha; [exact Ha |].
  rewrite world_after_cons. pose proof (dc_step_event e w Ha) as H.
  unfold wp in H. destruct (step e w) as [[] w' | ex w']; [auto | apply H].
Qed.

(** In every world reached from [__init__], whether the handlers returned
    or raised, [disabled] is [True] exactly while [state] is ["close"]:
    [open_stack] and [close_stack] assign the two together, and nothing
    else assigns either. *)
Theorem disabled_exactly_while_closed (c : Config) (size : Q * Q)
    (evs : list Event) :
  disabled_while_closed (world_after evs (init c size))
  /\ disabled_while_closed
       (fold_left (fun w e => after_event e w) evs (init c size)).
Proof.
  assert (H0 : disabled_while_closed (init c size)) by reflexivity.
  split; [now apply disabled_while_closed_world_after |].
  revert H0. generalize (init c size).
  induction evs as [| e evs IH]; intros w Ha; [exact Ha |].
  simpl. apply IH. unfold after_event. apply world_after_one.
  eapply wp_mono; [apply (dc_step_event e w Ha) | auto | auto].
Qed.

(** * Where [open_stack] moves the stack *)

Lemma inject_Z_S i :
  inject_Z (Z.of_nat (S i)) == inject_Z (Z.of_nat i) + 1.
Proof.
  unfold Qeq, Qplus, inject_Z. simpl Qnum. simpl Qden. lia.
Qed.

Lemma lookup_set_anims id v w : lookup id (set_anims v w) = lookup id w.
Proof. reflexivity. Qed.

Lemma moved_same w0 j b ob w w' :
  lookup b w' = lookup b w ->
  (forall lid, nth_error (_labels w0) j = Some (Some lid) ->
               lookup lid w' = lookup lid w) ->
  moved w0 j b ob w -> moved w0 j b ob w'.
Proof.
  intros Eb El (ob' & Hb & Hc & Hl). exists ob'.
  split; [congruence |]. split; [exact Hc |].
  intros lid Hlid. destruct (Hl lid Hlid) as (ol' & Ho & Hy).
  exists ol'. split; [| exact Hy]. rewrite (El lid Hlid). exact Ho.
Qed.

Lemma kinds_differ b l w :
  isinstance (Some b) MDFloatingBottomButton w = true ->
  isinstance (Some l) MDFloatingLabel w = true -> b <> l.
Proof.
  intros Hb Hl ->. apply kind_exclusive in Hl. congruence.
Qed.

(** The invariant after the iteration for index [i], from what the
    iteration did to the heap. *)
Lemma opening_at_next w0 i b ob ob' acc acc' w wf :
  stack_ok w0 -> NoDup (_buttons w0) -> distinct_labels w0 ->
  nth_error (_buttons w0) i = Some b -> lookup b w0 = Some ob ->
  opening_at w0 i acc w ->
  l_y acc' == l_y acc + dp w0 56
              * _direction_vals_stack (stack_button_direction (cfg w0)) ->
  _buttons wf = _buttons w -> _labels wf = _labels w ->
  _local_positions wf = _local_positions w -> cfg wf = cfg w ->
  (forall obj k, isinstance obj k wf = isinstance obj k w) ->
  (forall id, id <> b -> nth_error (_labels w0) i <> Some (Some id) ->
              lookup id wf = lookup id w) ->
  lookup b wf = Some ob' -> center_y ob' == center_y ob + l_y acc' ->
  (forall lid, nth_error (_labels w0) i = Some (Some lid) ->
     exists ol', lookup lid wf = Some ol' /\ center_y ol' == center_y ob') ->
  opening_at w0 (S i) acc' wf.
Proof.
  intros Hok Hnd Hdl Hb Hob (Hy & B & L & P & C & K & Hm & Hu)
    Hy' B' L' P' C' K' Hoth Hbf Hcy Hlab.
  assert (Hoff : l_y acc' == offset_of w0 i).
  { rewrite Hy', Hy. unfold offset_of. rewrite inject_Z_S. ring. }
  split; [| split; [| split; [| split; [| split; [| split; [| split]]]]]];
    try congruence.
  - rewrite Hy', Hy, inject_Z_S. ring.
  - intros j c oc Hj Hc Hoc. destruct (Nat.eq_dec j i) as [-> | Hne].
    + rewrite Hb in Hc. injection Hc as <-. rewrite Hob in Hoc.
      injection Hoc as <-. exists ob'. split; [exact Hbf |].
      split; [now rewrite Hcy, Hoff | exact Hlab].
    + assert (Hlt : (j < i)%nat) by lia.
      apply (moved_same w0 j c oc w wf); [| | now apply (Hm j c oc)].
      * apply Hoth.
        -- intros ->. apply Hne.
           apply (proj1 (NoDup_nth_error (_buttons w0)) Hnd);
             [apply nth_error_Some; congruence | congruence].
        -- intros Hl.
           pose proof (ok_button_kind _ Hok c (nth_error_In _ _ Hc)) as Kc.
           pose proof (ok_label_kind _ Hok c (nth_error_In _ _ Hl)) as Kl.
           now apply (kinds_differ c c w0 Kc Kl).
      * intros lid Hlid. apply Hoth.
        -- intros ->.
           pose proof (ok_button_kind _ Hok b (nth_error_In _ _ Hb)) as Kc.
           pose proof (ok_label_kind _ Hok b (nth_error_In _ _ Hlid)) as Kl.
           now apply (kinds_differ b b w0 Kc Kl).
        -- intros Hl. apply Hne. exact (Hdl j i lid Hlid Hl).
  - intros j c Hj Hc. rewrite <- (Hu j c); [| lia | exact Hc].
    apply Hoth.
    + intros ->. assert (j = i); [| lia].
      apply (proj1 (NoDup_nth_error (_buttons w0)) Hnd);
        [apply nth_error_Some; congruence | congruence].
    + intros Hl.
      pose proof (ok_button_kind _ Hok c (nth_error_In _ _ Hc)) as Kc.
      pose proof (ok_label_kind _ Hok c (nth_error_In _ _ Hl)) as Kl.
      now apply (kinds_differ c c w0 Kc Kl).
Qed.

Ltac heap_lookup :=
  unfold lookup; simpl heap; rewrite ?nth_error_update_nth.

Lemma open_stack_body_moves w0 i b acc w :
  stack_ok w0 -> NoDup (_buttons w0) -> distinct_labels w0 ->
  nth_error (_buttons w0) i = Some b -> opening_at w0 i acc w ->
  wp (open_stack_body i b acc) (opening_at w0 (S i)) (fun _ _ => True) w.
Proof.
  intros Hok Hnd Hdl Hb Hinv.
  pose proof Hinv as (Hy & B & L & P & C & K & Hm & Hu).
  pose proof (ok_button_kind _ Hok b (nth_error_In _ _ Hb)) as Kb.
  destruct (isinstance_lookup b _ w0 Kb) as (ob & Hob & _).
  pose proof (Hu i b (le_n i) Hb) as Hbw. rewrite Hob in Hbw.
  assert (Hdp : dp w 56 = dp w0 56) by (unfold dp; now rewrite C).
  unfold open_stack_body. wp_steps. rewrite K, Kb. wp_steps.
  destruct (_local_positions w) as [| q qs] eqn:Eq.
  { simpl negb. cbv iota. unfold setitem_local_positions. wp_steps.
    rewrite Eq. simpl. exact I. }
  simpl negb. cbv iota. wp_steps.
  eapply wp_read_lookup; [exact Hbw |]. unfold update. wp_steps.
  rewrite C, Hdp. simpl (_anim_buttons_data _).
  destruct (nth_error (_labels w0) i) as [label |] eqn:Hlab.
  2:{ destruct (_anim_buttons_data w) as [| x xs]; simpl negb; cbv iota;
        wp_steps; simpl (_labels _); rewrite L; unfold wp, getitem;
        rewrite Hlab; exact I. }
  destruct label as [lid |].
  - pose proof (ok_label_kind _ Hok lid (nth_error_In _ _ Hlab)) as Kl.
    pose proof (kinds_differ b lid w0 Kb Kl) as Hbl.
    destruct (isinstance_lookup lid _ w0 Kl) as (ol0 & Hol0 & _).
    assert (Hlw : exists ol, lookup lid w = Some ol).
    { pose proof (K (Some lid) MDFloatingLabel) as E. rewrite Kl in E.
      apply isinstance_lookup in E as (ol & Hol & _). eauto. }
    destruct Hlw as [ol Hol].
    destruct (_anim_buttons_data w) as [| x xs]; simpl negb; cbv iota;
      wp_steps; simpl (_labels _); rewrite L;
      (eapply wp_getitem_at; [exact Hlab |]); wp_steps; kinds;
      rewrite K, Kl; cbv iota; wp_step;
      (eapply wp_read_lookup;
       [heap_lookup; rewrite Nat.eqb_refl; fold (lookup b w); rewrite Hbw;
        reflexivity |]);
      wp_steps; simpl (_anim_labels_data _);
      (destruct (_anim_labels_data w) as [| z zs]; simpl negb; cbv iota;
       wp_steps;
       (eapply (opening_at_next w0 i b ob
                  (set_center_y
                     (center_y ob
                      + (l_y acc
                         + dp w0 56
                           * _direction_vals_stack
                               (stack_button_direction (cfg w0))))
                     ob)
                  acc _ w);
        [exact Hok | exact Hnd | exact Hdl | exact Hb | exact Hob
        | exact Hinv | reflexivity | reflexivity | reflexivity
        | reflexivity | reflexivity
        | intros; kinds; reflexivity
        | intros id Hne Hnl; heap_lookup;
          destruct (Nat.eqb_spec lid id) as [-> | _];
          [now destruct Hnl |];
          destruct (Nat.eqb_spec b id) as [-> | _];
          [now destruct Hne | reflexivity]
        | heap_lookup;
          destruct (Nat.eqb_spec lid b) as [-> | _];
          [now destruct Hbl |];
          rewrite Nat.eqb_refl; fold (lookup b w); rewrite Hbw; reflexivity
        | apply center_y_set_center_y
        | intros lid' Hl'; rewrite Hlab in Hl'; injection Hl' as <-;
          exists (set_center_y
                    (center_y
                       (set_center_y
                          (center_y ob
                           + (l_y acc
                              + dp w0 56
                                * _direction_vals_stack
                                    (stack_button_direction (cfg w0))))
                          ob))
                    ol);
          split;
          [ heap_lookup; rewrite Nat.eqb_refl;
            destruct (Nat.eqb_spec b lid) as [-> | _];
            [now destruct Hbl |];
            fold (lookup lid w); rewrite Hol; reflexivity
          | apply center_y_set_center_y ] ])).
  - destruct (_anim_buttons_data w) as [| x xs]; simpl negb; cbv iota;
      wp_steps; simpl (_labels _); rewrite L;
      (eapply wp_getitem_at; [exact Hlab |]); wp_steps;
      (eapply (opening_at_next w0 i b ob
                 (set_center_y
                    (center_y ob
                     + (l_y acc
                        + dp w0 56
                          * _direction_vals_stack
                              (stack_button_direction (cfg w0))))
                    ob)
                 acc _ w);
       [exact Hok | exact Hnd | exact Hdl | exact Hb | exact Hob
       | exact Hinv | reflexivity | reflexivity | reflexivity
       | reflexivity | reflexivity
       | intros; kinds; reflexivity
       | intros id Hne Hnl; heap_lookup;
         destruct (Nat.eqb_spec b id) as [-> | _];
         [now destruct Hne | reflexivity]
       | heap_lookup; rewrite Nat.eqb_refl; fold (lookup b w); rewrite Hbw;
         reflexivity
       | apply center_y_set_center_y
       | intros lid' Hl'; rewrite Hlab in Hl'; discriminate Hl' ]).
Qed.

Lemma open_stack_loop_moves w0 :
  stack_ok w0 -> NoDup (_buttons w0) -> distinct_labels w0 ->
  forall bs pre acc w,
    _buttons w0 = pre ++ bs -> opening_at w0 (List.length pre) acc w ->
    wp (for_enumerate_acc open_stack_body (List.length pre) bs acc)
       (opening_at w0 (List.length (_buttons w0))) (fun _ _ => True) w.
Proof.
  intros Hok Hnd Hdl. induction bs as [| b bs IH]; intros pre acc w Hs Hinv.
  - simpl. wp_steps. now rewrite Hs, app_nil_r.
  - simpl. apply wp_bind.
    eapply wp_mono;
      [apply (open_stack_body_moves w0 (List.length pre) b acc w Hok Hnd Hdl);
       [rewrite Hs; apply nth_error_middle | exact Hinv]
      | | auto].
    intros acc' w' Hinv'. cbv beta.
    specialize (IH (pre ++ [b]) acc' w').
    rewrite length_app, Nat.add_1_r in IH. apply IH.
    + now rewrite <- app_assoc.
    + exact Hinv'.
Qed.

Lemma same_heights_refl w : same_heights w w.
Proof. intros id o H. eauto. Qed.

Lemma same_heights_trans w1 w2 w3 :
  same_heights w1 w2 -> same_heights w2 w3 -> same_heights w1 w3.
Proof.
  intros H1 H2 id o Ho. apply H1 in Ho as (o' & Ho' & Y & Hh).
  apply H2 in Ho' as (o'' & Ho'' & Y' & Hh'). exists o''.
  repeat split; congruence.
Qed.

Lemma keeps_sh_update w0 id f :
  (forall o, pos_y (f o) = pos_y o /\ height (f o) = height o) ->
  preserves (fun w => same_heights w0 w
                      /\ _local_positions w = _local_positions w0)
    (update id f).
Proof.
  intros Hf w [H P]. unfold wp, update, modify. split; [| exact P].
  eapply same_heights_trans; [exact H |]. intros j o Ho.
  rewrite lookup_update. destruct (Nat.eqb id j); [| eauto].
  rewrite Ho. simpl. exists (f o). split; [reflexivity | apply Hf].
Qed.

Ltac sh_unfold :=
  unfold preserves, add_widget, add_widgets, add_widgets_body, remove_widget,
    remove_widgets, remove_widgets_body, open_binding, close_binding,
    run_animation_callback, Animation_start, Animation_cancel_all,
    animation_open_stack, on_progress, do_animation_open_stack,
    Window_add_widget, Window_remove_widget, Window_bind, Window_unbind,
    update_anim, dispatch.

Ltac sh_step :=
  first
    [ apply keeps_sh_update; intros ?; split; reflexivity
    | match goal with
      | |- keeps _ _ (modify _) =>
          apply keeps_modify;
          let w := fresh "w" in let H := fresh "H" in intros w H; exact H
      | |- keeps _ _ (new_animation _ _ _) =>
          let w := fresh "w" in let H := fresh "H" in intros w H; exact H
      | |- keeps _ _ (new_iter _) =>
          let w := fresh "w" in let H := fresh "H" in intros w H; exact H
      end
    | pres_step ].

Ltac sh := repeat (sh_unfold; sh_step).

Lemma cancel_label_animations_anims w :
  wp cancel_label_animations (fun _ w' => w' = set_anims (anims w') w)
     (fun _ _ => True) w.
Proof.
  unfold cancel_label_animations. wp_steps.
  eapply wp_mono;
    [apply (wp_for_each _ (fun w' => w' = set_anims (anims w') w)
              (fun _ _ => True))
    | auto | auto].
  - intros label w' _ E. apply wp_if_isinstance; [| auto].
    intros id _ _. unfold Animation_cancel_all. wp_steps.
    rewrite E. reflexivity.
  - now destruct w.
Qed.

Lemma open_stack_moves w :
  stack_ok w -> state w <> open -> NoDup (_buttons w) ->
  distinct_labels w ->
  wp open_stack
     (fun _ w' =>
        _local_positions w' = _local_positions w
        /\ forall i b ob,
             nth_error (_buttons w) i = Some b -> lookup b w = Some ob ->
             moved w i b ob w')
     (fun _ _ => True) w.
Proof.
  intros Hok Hs Hnd Hdl. unfold open_stack. wp_step.
  eapply wp_mono; [apply cancel_label_animations_anims | | auto].
  intros [] w0 E0. wp_steps.
  assert (Es : state w0 = state w) by (rewrite E0; reflexivity).
  rewrite Es. destruct (state w) eqn:Est; [| congruence].
  simpl negb. cbv iota. wp_steps. simpl (_buttons _).
  assert (Eb : _buttons w0 = _buttons w) by (rewrite E0; reflexivity).
  rewrite Eb.
  eapply wp_mono;
    [apply (open_stack_loop_moves w Hok Hnd Hdl (_buttons w) [] _ _ eq_refl)
    | | auto].
  - rewrite E0. simpl. repeat split; try reflexivity.
    + unfold inject_Z. simpl. ring.
    + intros; lia.
  - intros acc wL (_ & B & L & P & C & K & Hm & _). cbv beta.
    eapply (wp_last (fun w' => same_heights wL w'
                               /\ _local_positions w' = _local_positions wL));
      [solve [sh] | split; [apply same_heights_refl | reflexivity]
      | auto |].
    intros _ w' [Hh P']. split; [congruence |].
    intros i b ob Hb Hob.
    destruct (Hm i b ob) as (ob1 & Hb1 & Hc1 & Hl1);
      [apply nth_error_Some; congruence | exact Hb | exact Hob |].
    apply Hh in Hb1 as (ob' & Hb' & Y & Hgt). exists ob'.
    assert (Hcb : center_y ob' = center_y ob1)
      by (unfold center_y; now rewrite Y, Hgt).
    split; [exact Hb' |]. split; [now rewrite Hcb |].
    intros lid Hlid. destruct (Hl1 lid Hlid) as (ol1 & Ho1 & Hy1).
    apply Hh in Ho1 as (ol' & Ho' & Y' & Hgt'). exists ol'.
    split; [exact Ho' |]. rewrite Hcb, <- Hy1. unfold center_y.
    now rewrite Y', Hgt'.
Qed.

(** [open_stack] on a stack that is not open, with distinct buttons and
    labels: it returns, button [i] has moved up (or down, for
    [bottom]) from where it was by [30 + (i + 1) * dp(56)], its label has
    the button's new height, and [_local_positions] is what it was: the
    offsets are not stored. *)
Theorem open_stack_moves_stack (w : World) :
  stack_ok w -> state w <> open -> get_root_window w = Some Window ->
  NoDup (_buttons w) -> distinct_labels w ->
  exists w',
    open_stack w = Ok tt w'
    /\ _local_positions w' = _local_positions w
    /\ forall i b ob,
         nth_error (_buttons w) i = Some b -> lookup b w = Some ob ->
         moved w i b ob w'.
Proof.
  intros Hok Hs Hr Hnd Hdl.
  destruct (open_stack_returns w Hok Hs Hr) as [w' Hrun].
  exists w'. split; [exact Hrun |].
  pose proof (open_stack_moves w Hok Hs Hnd Hdl) as H.
  unfold wp in H. now rewrite Hrun in H.
Qed.

Lemma open_stack_moves_stack_witness :
  exists w',
    open_stack example_closed = Ok tt w'
    /\ _local_positions w' = _local_positions example_closed
    /\ forall ob, lookup 2 example_closed = Some ob ->
                  moved example_closed 1 2 ob w'.
Proof.
  assert (Eb : _buttons example_closed = [0; 2]%nat)
    by (vm_compute; reflexivity).
  assert (El : _labels example_closed = [Some 1; Some 3]%nat)
    by (vm_compute; reflexivity).
  destruct (open_stack_moves_stack example_closed) as (w' & H1 & H2 & H3).
  - exact stack_ok_example_closed.
  - vm_compute. discriminate.
  - vm_compute. reflexivity.
  - rewrite Eb. repeat constructor; simpl; intuition discriminate.
  - intros i j l Hi Hj. rewrite El in Hi, Hj.
    destruct i as [| [| [| i]]]; destruct j as [| [| [| j]]];
      simpl in Hi, Hj; try reflexivity; try discriminate Hi;
      try discriminate Hj; congruence.
  - exists w'. split; [exact H1 |]. split; [exact H2 |].
    intros ob Hob. apply H3; [rewrite Eb; reflexivity | exact Hob].
Defined.

(** * The widgets of the stack are distinct *)

Lemma keeps_same_lists n bs ls id f :
  preserves (fun w => _buttons w = bs /\ _labels w = ls
                      /\ (n <= List.length (heap w))%nat)
    (update id f).
Proof.
  intros w (B & L & H). unfold wp, update, modify. simpl.
  now rewrite length_update_nth.
Qed.

Lemma on_data_entry_grown entry w :
  wp (on_data_entry entry) (fun _ w' => grown w w') (fun _ w' => grown w w')
     w.
Proof.
  destruct entry as [name p]. unfold on_data_entry.
  pose proof (name_icon_spec p) as Hicon.
  destruct (icon_of p) as [s |] eqn:Ei;
    [rewrite Hicon | destruct Hicon as [e ->]; wp_steps; left; now split].
  wp_steps. apply wp_new_widget.
  set (I1 := fun w' => _buttons w' = _buttons w /\ _labels w' = _labels w
                       /\ (S (List.length (heap w))
                           <= List.length (heap w'))%nat).
  assert (Ex : forall (e : Exn) w', I1 w' -> grown w w').
  { intros _ w' (B & L & _). left. now split. }
  apply (wp_seq I1);
    [apply keeps_callback_after
    | repeat split; simpl; rewrite length_app; simpl; lia | exact Ex |].
  intros pr w1 F1.
  apply (wp_seq I1);
    [apply keeps_bind_user; [exact I | intros c]; apply keeps_same_lists | exact F1 | exact Ex |].
  intros _ w2 F2.
  apply (wp_seq I1); [apply keeps_callback_after | exact F2 | exact Ex |].
  intros re w3 F3.
  apply (wp_seq I1);
    [apply keeps_bind_user; [exact I | intros c]; apply keeps_same_lists | exact F3 | exact Ex |].
  intros _ w4 (B & L & H). clear F1 F2 F3 Ex w1 w2 w3. wp_steps.
  assert (Fin : forall label w5,
            _buttons w5 = _buttons w ++ [List.length (heap w)] ->
            _labels w5 = _labels w ++ [label] ->
            (forall l, label = Some l -> (List.length (heap w) <= l)%nat) ->
            wp (set_pos_bottom_buttons (List.length (heap w)))
               (fun _ w' =>
                  wp (if_isinstance label MDFloatingLabel set_pos_labels)
                     (fun _ w'' => grown w w'') (fun _ w'' => grown w w'')
                     w')
               (fun _ w' => grown w w') w5).
  { intros label w5 B5 L5 Hl.
    apply (proj1 (wp_bind _ _ _ _ _)).
    eapply (wp_last (fun w' => _buttons w' = _buttons w5
                               /\ _labels w' = _labels w5));
      [ solve [pres] | now split
      | intros _ w' [B' L']; right; exists label; repeat split;
        [congruence | congruence | exact Hl]
      | intros _ w' [B' L']; right; exists label; repeat split;
        [congruence | congruence | exact Hl] ]. }
  destruct (name =? EmptyString)%string.
  - wp_steps.
    apply Fin; [simpl; congruence | simpl; congruence | discriminate].
  - wp_steps. apply wp_new_widget. wp_steps.
    apply Fin; [simpl; congruence | simpl; congruence |].
    intros l [= <-]. lia.
Qed.

Lemma aligned_lt w :
  aligned w ->
  (forall b, In b (_buttons w) -> (b < List.length (heap w))%nat)
  /\ forall l, In (Some l) (_labels w) -> (l < List.length (heap w))%nat.
Proof.
  intros (_ & _ & KB & KL). split; intros x Hx;
    [apply KB in Hx | apply KL in Hx];
    apply isinstance_lookup in Hx as (o & Ho & _);
    apply nth_error_Some; unfold lookup in Ho; congruence.
Qed.

Lemma distinct_grown w w' :
  aligned w -> distinct_stack w -> grown w w' -> distinct_stack w'.
Proof.
  intros Ha [Hnd Hdl] [[B L] | (label & B & L & Hl)].
  - split; [now rewrite B |]. unfold distinct_labels. now rewrite L.
  - destruct (aligned_lt w Ha) as [Hb Hlab]. split.
    + rewrite B. apply NoDup_app; [exact Hnd | repeat constructor; auto |].
      intros x Hx [<- | []]. apply Hb in Hx. lia.
    + intros i j l Hi Hj. rewrite L in Hi, Hj.
      assert (Hold : forall k, nth_error (_labels w ++ [label]) k
                                = Some (Some l) ->
                     (k < List.length (_labels w))%nat ->
                     (l < List.length (heap w))%nat).
      { intros k Hk Hlt. rewrite nth_error_app1 in Hk by exact Hlt.
        apply Hlab. eapply nth_error_In, Hk. }
      assert (Hnew : forall k, nth_error (_labels w ++ [label]) k
                                = Some (Some l) ->
                     (List.length (_labels w) <= k)%nat ->
                     k = List.length (_labels w)
                     /\ (List.length (heap w) <= l)%nat).
      { intros k Hk Hge. rewrite nth_error_app2 in Hk by exact Hge.
        destruct (k - List.length (_labels w))%nat as [| n] eqn:En;
          [| destruct n; discriminate Hk].
        simpl in Hk. injection Hk as ->. split; [lia | now apply Hl]. }
      destruct (Nat.lt_ge_cases i (List.length (_labels w))) as [Hi' | Hi'];
        destruct (Nat.lt_ge_cases j (List.length (_labels w))) as [Hj' | Hj'].
      * rewrite nth_error_app1 in Hi, Hj by assumption. eapply Hdl; eauto.
      * pose proof (Hold i Hi Hi'). destruct (Hnew j Hj Hj'). lia.
      * pose proof (Hold j Hj Hj'). destruct (Hnew i Hi Hi'). lia.
      * destruct (Hnew i Hi Hi'), (Hnew j Hj Hj'). lia.
Qed.

Lemma on_data_entry_distinct entry w :
  aligned w /\ distinct_stack w ->
  wp (on_data_entry entry) (fun _ w' => aligned w' /\ distinct_stack w')
     (fun _ w' => aligned w' /\ distinct_stack w') w.
Proof.
  intros [Ha Hd].
  eapply wp_mono;
    [apply wp_and;
     [apply (on_data_entry_aligned entry w Ha)
     | apply (on_data_entry_grown entry w)] | |];
    intros ? w' [Ha' G]; (split; [exact Ha' |]);
    now apply (distinct_grown w w').
Qed.

Lemma distinct_same w w' :
  _buttons w' = _buttons w -> _labels w' = _labels w ->
  distinct_stack w -> distinct_stack w'.
Proof.
  intros B L [Hnd Hdl]. split; [now rewrite B |].
  unfold distinct_labels. now rewrite L.
Qed.

Lemma distinct_empty w :
  _buttons w = [] -> _labels w = [] -> distinct_stack w.
Proof.
  intros B L. split; [rewrite B; constructor |].
  intros i j l Hi. rewrite L in Hi. now destruct i.
Qed.

(** Every event keeps the stack aligned and its widgets distinct,
    whether its handler returns or raises. *)
Lemma step_distinct e w :
  aligned w /\ distinct_stack w ->
  wp (step e) (fun _ w' => aligned w' /\ distinct_stack w')
     (fun _ w' => aligned w' /\ distinct_stack w') w.
Proof.
  intros [Ha Hd].
  assert (Hother :
            match e with EvSetData _ | EvTick => False | _ => True end ->
            wp (step e) (fun _ w' => aligned w' /\ distinct_stack w')
               (fun _ w' => aligned w' /\ distinct_stack w') w).
  { intros He.
    eapply wp_mono;
      [apply wp_and;
       [apply (step_aligned e w Ha)
       | apply (sf_step_other e w He w (shape_frame_refl w))] | |].
    - intros ? w' [Ha' (_ & B & L & _)]. split; [exact Ha' |].
      now apply (distinct_same w w').
    - intros ? w' [Ha' [(_ & B & L & _) _]]. split; [exact Ha' |].
      now apply (distinct_same w w'). }
  destruct e; try (apply Hother; exact I); clear Hother.
  - assert (HD : wp (step (EvSetData d)) (fun _ w' => distinct_stack w')
                   (fun _ w' => distinct_stack w') w).
    { unfold step. wp_steps. unfold on_data. wp_step.
      match goal with
      | |- wp _ _ _ ?W =>
          eapply wp_mono;
            [apply (sf_remove_widgets W W (shape_frame_refl W)) | |]
      end.
      - intros [] w' F. wp_steps. apply distinct_empty; reflexivity.
      - intros ex w' [(_ & B & L & _) _].
        exact (distinct_same w w' B L Hd). }
    eapply wp_mono;
      [apply wp_and; [apply (step_aligned (EvSetData d) w Ha) | exact HD]
      | auto | auto].
  - unfold step. wp_steps.
    apply (wp_for_each _ (fun w' => aligned w' /\ distinct_stack w')
             (fun _ w' => aligned w' /\ distinct_stack w'));
      [| now split].
    intros cb w' _ Hinv. destruct cb; try exact Hinv.
    unfold on_data_inner, Window_bind. wp_steps.
    eapply wp_mono;
      [apply (wp_for_each on_data_entry
                (fun w' => aligned w' /\ distinct_stack w')
                (fun _ w' => aligned w' /\ distinct_stack w')) | |].
    + intros entry w'' _ H. now apply on_data_entry_distinct.
    + exact Hinv.
    + intros ? w'' H. wp_steps. exact H.
    + auto.
Qed.

Lemma distinct_world_after evs : forall w,
  aligned w /\ distinct_stack w ->
  aligned (world_after evs w) /\ distinct_stack (world_after evs w).
Proof.
  induction evs as [| e evs IH]; intros w H; [exact H |].
  rewrite world_after_cons. pose proof (step_distinct e w H) as K.
  unfold wp in K. destruct (step e w) as [[] w' | ex w']; auto.
Qed.

(** In every world reached from [__init__], whether the handlers returned
    or raised, no button is twice in [_buttons] and no label is at two
    indices of [_labels]: every rebuild appends widgets it has just
    created. *)
Theorem stack_widgets_are_distinct (c : Config) (size : Q * Q)
    (evs : list Event) :
  distinct_stack (world_after evs (init c size))
  /\ distinct_stack
       (fold_left (fun w e => after_event e w) evs (init c size)).
Proof.
  assert (H0 : aligned (init c size) /\ distinct_stack (init c size)).
  { split; [apply aligned_init |]. now apply distinct_empty. }
  split; [now apply distinct_world_after |].
  enough (H : aligned (fold_left (fun w e => after_event e w) evs
                         (init c size))
              /\ distinct_stack
                   (fold_left (fun w e => after_event e w) evs
                      (init c size))) by apply H.
  revert H0. generalize (init c size).
  induction evs as [| e evs IH]; intros w H; [exact H |].
  simpl. apply IH. unfold after_event.
  apply (world_after_one e w (fun w' => aligned w' /\ distinct_stack w')).
  eapply wp_mono; [apply (step_distinct e w H) | auto | auto].
Qed.

(** * The one-shot draw handler *)

Lemma is_bound_unbind_self ev cb l :
  is_bound ev cb (unbind_from ev cb l) = false.
Proof.
  apply is_bound_false_iff. intros b Hb. unfold unbind_from in Hb.
  apply filter_In in Hb as [_ Hb]. now apply negb_true_iff in Hb.
Qed.

Lemma for_each_establish_any {A} (body : A -> M unit)
    (I P : World -> Prop) (a : A) l :
  (forall x w, In x l -> I w ->
     wp (body x) (fun _ w' => I w' /\ (x = a -> P w') /\ (P w -> P w'))
        (fun _ _ => True) w) ->
  forall w, I w -> In a l \/ P w ->
  wp (for_each body l) (fun _ w' => I w' /\ P w') (fun _ _ => True) w.
Proof.
  induction l as [| x l IH]; intros Hb w HI Ha; simpl.
  - destruct Ha as [[] | HP]. now split.
  - apply wp_bind.
    eapply wp_mono; [apply (Hb x w (or_introl eq_refl) HI) | | auto].
    intros _ w' (HI' & Hx & HP). apply IH; auto.
    + intros; apply Hb; simpl; auto.
    + destruct Ha as [[-> | Hin] | HPw]; auto.
Qed.

(** [set_pos_labels] spends the draw handler, unless the flag was already
    reset while [on_draw] was bound. *)
Lemma set_pos_labels_spends l w :
  _widget_declaration_finished w = true \/ draw_spent w ->
  wp (set_pos_labels l) (fun _ => draw_spent) (fun _ _ => True) w.
Proof.
  intros H. unfold set_pos_labels. wp_step.
  assert (K : forall w1, draw_spent w1 ->
            wp (root <- get parent ;;
                let root_center_x :=
                  match root with Some p => p_center_x p | None => 0 end in
                offset <- get (fun w => button_text_offset (cfg w)) ;;
                direction <- get (fun w => label_direction (cfg w)) ;;
                update l
                  (set_pos_x (root_center_x
                              + offset * _direction_vals_label direction)) ;;
                o <- read (Some l) ;;
                scaled <- get (fun w => dp w (width o)) ;;
                update l
                  (set_pos_x (pos_x o - match direction with
                                        | left => scaled
                                        | right => 0
                                        end)) ;;
                match root with
                | None => raise AttributeError
                | Some p =>
                    labels <- get _labels ;;
                    i <- list_index Ref_eqb (Some l) labels ;;
                    positions <- get _local_positions ;;
                    local <- getitem positions i ;;
                    update l (set_center_y (p_center_y p + local))
                end)
               (fun _ => draw_spent) (fun _ _ => True) w1).
  { intros w1 H1.
    eapply (wp_last draw_spent); [solve [dc] | exact H1 | auto | auto]. }
  wp_steps. destruct (_widget_declaration_finished w) eqn:Ef.
  - unfold Window_unbind. wp_steps. apply K. split; [reflexivity |].
    unfold window_bound. simpl. apply is_bound_unbind_self.
  - wp_steps. apply K. destruct H as [H | H]; [discriminate | exact H].
Qed.

Lemma labels_loop_spends w0 p ws l0 :
  aligned w0 -> parent w0 = Some p -> place_frame w0 ws ->
  _widget_declaration_finished ws = true \/ draw_spent ws ->
  In (Some l0) (_labels w0) ->
  wp (for_each (fun label => if_isinstance label MDFloatingLabel
                               set_pos_labels) (_labels w0))
     (fun _ w' => draw_spent w') (fun _ _ => True) ws.
Proof.
  intros Ha Hp F Hf Hin.
  eapply wp_mono;
    [apply (for_each_establish_any _
              (fun w' => place_frame w0 w'
                         /\ (_widget_declaration_finished w' = true
                             \/ draw_spent w'))
              draw_spent (Some l0))
    | intros ? w' [_ H]; exact H | auto].
  - intros x w Hx [Fw Hw]. pose proof Ha as (L & Pl & KB & KL).
    pose proof Fw as ((_ & _ & _ & _ & K) & _).
    destruct x as [l |].
    + unfold wp, if_isinstance. rewrite K, (KL l Hx).
      pose proof (wp_and _ _ _ _ _ _
                    (place_label w0 p l w Hp Hx ltac:(lia) (KL l Hx) Fw)
                    (set_pos_labels_spends l w Hw)) as H.
      unfold wp in H. destruct (set_pos_labels l w) as [[] w' | e w'].
      * destruct H as [(F' & _) S].
        split; [split; [exact F' | right; exact S] |].
        split; intros; exact S.
      * destruct H as [[] _].
    + unfold wp, if_isinstance. split; [now split |].
      split; [discriminate | auto].
  - now split.
  - now left.
Qed.

Lemma labels_loop_none labels w :
  (forall l, ~ In (Some l) labels) ->
  for_each (fun label => if_isinstance label MDFloatingLabel set_pos_labels)
    labels w = Ok tt w.
Proof.
  induction labels as [| [l |] labels IH]; intros H; [reflexivity | |].
  - destruct (H l). now left.
  - simpl. unfold bind, if_isinstance. apply IH. intros l Hl.
    apply (H l). now right.
Qed.

(** The draw after a rebuild, on an aligned stack with a parent:
    [_update_pos_buttons] places every button and label.  If the stack
    has a label, [set_pos_labels] unbinds the handler from [on_draw] and
    resets the flag, so the next draw does nothing; if it has none, the
    handler stays bound and the flag set, and every draw repositions the
    stack again. *)
Theorem draw_repositions_once (w : World) (p : Parent) :
  aligned w -> parent w = Some p -> draw_pending w ->
  exists w',
    step EvDraw w = Ok tt w'
    /\ (forall b, In b (_buttons w) -> button_placed p w b w')
    /\ (forall l, In (Some l) (_labels w) -> label_placed p w l w')
    /\ ((exists l, In (Some l) (_labels w)) ->
        draw_spent w' /\ step EvDraw w' = Ok tt w')
    /\ ((forall l, ~ In (Some l) (_labels w)) -> draw_pending w').
Proof.
  intros Ha Hp [Hf Hb].
  destruct (update_pos_places w p Ha Hp)
    as (w1 & w' & R1 & R2 & R & F1 & F & Pb & Pl & _).
  assert (K1 : preserves
                 (fun w' => _widget_declaration_finished w'
                            = _widget_declaration_finished w
                            /\ bindings (window w') = bindings (window w))
                 (for_each
                    (fun button =>
                       if_isinstance (Some button) MDFloatingBottomButton
                         set_pos_bottom_buttons) (_buttons w)))
    by dc.
  specialize (K1 w (conj eq_refl eq_refl)). unfold wp in K1.
  rewrite R1 in K1. destruct K1 as [Ef1 Eb1].
  exists w'. split.
  { unfold step, bind, get. rewrite Hb. exact R. }
  split; [exact Pb |]. split; [exact Pl |]. split.
  - intros [l0 Hl0].
    assert (S : draw_spent w').
    { pose proof (labels_loop_spends w p w1 l0 Ha Hp F1) as H.
      unfold wp in H. rewrite R2 in H. apply H; [| exact Hl0].
      left. congruence. }
    split; [exact S |]. unfold step, bind, get.
    destruct S as [_ S]. now rewrite S.
  - intros Hnone. rewrite (labels_loop_none _ w1 Hnone) in R2.
    injection R2 as <-. split; [congruence |].
    unfold window_bound in *. congruence.
Qed.

Lemma draw_repositions_once_witness :
  (exists w',
     step EvDraw example_closed = Ok tt w'
     /\ draw_spent w' /\ step EvDraw w' = Ok tt w')
  /\ exists w',
       step EvDraw (built_with example_config [(EmptyString, PStr "plus")])
       = Ok tt w'
       /\ draw_pending w'.
Proof.
  split.
  - destruct (draw_repositions_once example_closed
                (set_p_on_release [CbOpenStack] example_parent))
      as (w' & H1 & _ & _ & H2 & _).
    + apply aligned_world_after, aligned_init.
    + vm_compute. reflexivity.
    + split; vm_compute; reflexivity.
    + destruct H2 as [H2 H3].
      * exists 1%nat. assert (E : _labels example_closed = [Some 1; Some 3]%nat)
          by (vm_compute; reflexivity).
        rewrite E. now left.
      * exists w'. split; [exact H1 |]. split; [exact H2 | exact H3].
  - destruct (draw_repositions_once
                (built_with example_config [(EmptyString, PStr "plus")])
                (set_p_on_release [CbOpenStack] example_parent))
      as (w' & H1 & _ & _ & _ & H2).
    + apply aligned_world_after, aligned_init.
    + vm_compute. reflexivity.
    + split; vm_compute; reflexivity.
    + exists w'. split; [exact H1 |]. apply H2.
      assert (E : _labels (built_with example_config
                             [(EmptyString, PStr "plus")]) = [None])
        by (vm_compute; reflexivity).
      rewrite E. intros l [H | []]. discriminate H.
Defined.

(** * The handlers of the buttons of a rebuilt stack *)

Lemma callback_after_bound key p d :
  callable_after key p = true -> (forall v, d <> CbUser v) ->
  exists r, callback_after key p = ret r
            /\ (forall x, r <> Some (VStr x))
            /\ bound_user r [d] = d :: user_callback key p.
Proof.
  intros Hc Hd. destruct p as [s | l]; unfold callable_after in Hc;
    unfold callback_after, user_callback.
  - destruct (String.index 0 key s); [discriminate Hc |].
    exists None. split; [reflexivity |]. split; [discriminate | reflexivity].
  - destruct (index_from PyVal_eqb (VStr key) l 0) as [i |];
      [| exists None; split; [reflexivity |];
         split; [discriminate | reflexivity]].
    destruct (nth_error l (S i)) as [[s | c] |] eqn:Hn;
      try discriminate Hc.
    exists (Some (VCallable c)). split; [| split; [discriminate |]].
    + unfold getitem. rewrite Hn. reflexivity.
    + unfold bound_user, bind_cb, existsb.
      destruct (Callback_eq_dec (CbUser (VCallable c)) d) as [E | _];
        [| reflexivity].
      exfalso. apply (Hd (VCallable c)). now rewrite E.
Qed.

Lemma handlers_stay_refl w : handlers_stay w w.
Proof. intros id o H. exists o. repeat split. exact H. Qed.

Lemma handlers_stay_trans w1 w2 w3 :
  handlers_stay w1 w2 -> handlers_stay w2 w3 -> handlers_stay w1 w3.
Proof.
  intros H1 H2 id o Ho. apply H1 in Ho as (o' & Ho' & A1 & A2 & A3 & A4).
  apply H2 in Ho' as (o'' & Ho'' & C1 & C2 & C3 & C4). exists o''.
  repeat split; congruence.
Qed.

Lemma handlers_stay_new w o :
  handlers_stay w (set_heap (heap w ++ [o]) w).
Proof.
  intros id o' Ho. exists o'. split; [| repeat split].
  unfold lookup in *. simpl. rewrite nth_error_app1; [exact Ho |].
  apply nth_error_Some. congruence.
Qed.

Lemma keeps_hs_update w0 bs id f :
  (forall o, same_callbacks o (f o)) ->
  preserves (fun w => handlers_stay w0 w /\ _buttons w = bs) (update id f).
Proof.
  intros Hf w [H B]. unfold wp, update, modify. split; [| exact B].
  eapply handlers_stay_trans; [exact H |]. intros j o Ho.
  rewrite lookup_update. destruct (Nat.eqb id j); [| exists o; repeat split; exact Ho].
  rewrite Ho. simpl. exists (f o). split; [reflexivity | apply Hf].
Qed.

Ltac hs :=
  unfold preserves;
  repeat first
    [ apply keeps_hs_update; intros ?; repeat split
    | match goal with
      | |- keeps _ _ (modify _) =>
          apply keeps_modify;
          let w := fresh "w" in let H := fresh "H" in intros w H; exact H
      end
    | progress unfold set_pos_bottom_buttons, set_pos_labels, Window_unbind
    | pres_step ].

Lemma on_data_entry_binds entry w :
  entry_good entry = true ->
  wp (on_data_entry entry)
     (fun _ w' =>
        handlers_stay w w'
        /\ _buttons w' = _buttons w ++ [List.length (heap w)]
        /\ exists ob, lookup (List.length (heap w)) w' = Some ob
                      /\ callbacks_bound entry ob)
     (fun _ _ => True) w.
Proof.
  destruct entry as [name p]. unfold entry_good. simpl snd. intros Hg.
  pose proof (name_icon_spec p) as Hicon.
  destruct (icon_of p) as [s |]; [| discriminate].
  apply andb_prop in Hg as [Hpr Hre].
  destruct (callback_after_bound "on_press" p
              (CbDispatch "on_press_stack_button") Hpr)
    as (r1 & E1 & N1 & B1); [discriminate |].
  destruct (callback_after_bound "on_release" p
              (CbDispatch "on_release_stack_button") Hre)
    as (r2 & E2 & N2 & B2); [discriminate |].
  unfold on_data_entry. rewrite Hicon, E1, E2.
  wp_steps. apply wp_new_widget. wp_steps.
  apply wp_bind_user_good; [exact N1 | intros []; reflexivity |].
  unfold update. wp_steps.
  apply wp_bind_user_good; [exact N2 | intros []; reflexivity |].
  unfold update. wp_steps.
  match goal with |- wp _ _ _ ?W => remember W as w1 eqn:E end.
  assert (F1 : handlers_stay w w1
               /\ _buttons w1 = _buttons w ++ [List.length (heap w)]
               /\ exists ob, lookup (List.length (heap w)) w1 = Some ob
                             /\ callbacks_bound (name, p) ob).
  { subst w1. split; [| split; [reflexivity |]].
    - intros id o Ho. exists o. split; [| repeat split].
      unfold lookup in *. simpl. rewrite !nth_error_update_nth.
      assert (Hlt : (id < List.length (heap w))%nat)
        by (apply nth_error_Some; congruence).
      destruct (Nat.eqb_spec (List.length (heap w)) id) as [Hx | _];
        [lia |].
      rewrite nth_error_app1 by exact Hlt. exact Ho.
    - eexists. split.
      + unfold lookup. simpl.
        rewrite !nth_error_update_nth, Nat.eqb_refl, nth_error_snoc.
        simpl. reflexivity.
      + unfold callbacks_bound. simpl. rewrite B1, B2. repeat split. }
  clear E. destruct F1 as (H1 & Bt & ob & Hob & Hcb).
  assert (Fin : forall label w2,
            handlers_stay w1 w2 -> _buttons w2 = _buttons w1 ->
            wp (set_pos_bottom_buttons (List.length (heap w)))
               (fun _ w' =>
                  wp (if_isinstance label MDFloatingLabel set_pos_labels)
                     (fun _ w'' =>
                        handlers_stay w w''
                        /\ _buttons w''
                           = _buttons w ++ [List.length (heap w)]
                        /\ exists ob',
                             lookup (List.length (heap w)) w'' = Some ob'
                             /\ callbacks_bound (name, p) ob')
                     (fun _ _ => True) w')
               (fun _ _ => True) w2).
  { intros label w2 H2 B2'.
    apply (proj1 (wp_bind _ _ _ _ _)).
    eapply (wp_last (fun w' => handlers_stay w1 w'
                               /\ _buttons w' = _buttons w1));
      [solve [hs] | now split | auto |].
    intros _ w' [Hs Hb]. split; [| split].
    - eapply handlers_stay_trans; eassumption.
    - congruence.
    - apply Hs in Hob as (ob' & Hob' & A1 & A2 & A3 & A4). exists ob'.
      split; [exact Hob' |].
      destruct Hcb as (C1 & C2 & C3 & C4).
      unfold callbacks_bound. repeat split; congruence. }
  destruct (name =? EmptyString)%string.
  - wp_steps. apply Fin; [exact (handlers_stay_refl w1) | reflexivity].
  - wp_steps. apply wp_new_widget. wp_steps.
    apply Fin; [exact (handlers_stay_new w1 _) | reflexivity].
Qed.

Lemma for_each_entry_binds d : forall w,
  forallb entry_good d = true -> parent w <> None ->
  List.length (_buttons w) = List.length (_local_positions w) ->
  List.length (_labels w) = List.length (_local_positions w) ->
  wp (for_each on_data_entry d)
     (fun _ w' =>
        handlers_stay w w'
        /\ (exists bs, _buttons w' = _buttons w ++ bs)
        /\ forall i entry, nth_error d i = Some entry ->
             exists b ob,
               nth_error (_buttons w') (List.length (_buttons w) + i)
               = Some b
               /\ lookup b w' = Some ob /\ callbacks_bound entry ob)
     no_exn w.
Proof.
  induction d as [| e d IH]; intros w Hd Hp Hb Hl; simpl.
  - wp_steps. split; [apply handlers_stay_refl |].
    split; [exists []; now rewrite app_nil_r |]. now intros [|].
  - simpl in Hd. apply andb_prop in Hd as [He Hd]. wp_step.
    pose proof (wp_and _ _ _ _ _ w
                  (on_data_entry_returns e w He Hp
                     (Nat.eq_le_incl _ _ Hb) (Nat.eq_le_incl _ _ Hl))
                  (wp_and _ _ _ _ _ w (on_data_entry_ok e w)
                     (on_data_entry_binds e w He))) as H.
    eapply wp_mono; [exact H | | intros ? ? [[] _]].
    intros _ w1 (Hp1 & (b & label & B1 & L1 & P1 & _) & Hs1 & Bt & ob & Hob
                 & Hcb).
    cbv beta.
    assert (Hp' : parent w1 <> None) by congruence.
    assert (Hb' : List.length (_buttons w1)
                  = List.length (_local_positions w1))
      by (rewrite B1, P1, !length_app; simpl; lia).
    assert (Hl' : List.length (_labels w1)
                  = List.length (_local_positions w1))
      by (rewrite L1, P1, !length_app; simpl; lia).
    eapply wp_mono; [exact (IH w1 Hd Hp' Hb' Hl') | | auto].
    intros _ w' (Hs & [bs Hbs] & Hall). split; [| split].
    + eapply handlers_stay_trans; eassumption.
    + exists (List.length (heap w) :: bs). rewrite Hbs, Bt, <- app_assoc.
      reflexivity.
    + intros [| i] entry Hi.
      * simpl in Hi. injection Hi as <-.
        apply Hs in Hob as (ob' & Hob' & A1 & A2 & A3 & A4).
        exists (List.length (heap w)), ob'. split; [| split].
        -- rewrite Hbs, Bt, <- app_assoc, Nat.add_0_r.
           rewrite nth_error_app2 by lia. now rewrite Nat.sub_diag.
        -- exact Hob'.
        -- destruct Hcb as (C1 & C2 & C3 & C4).
           unfold callbacks_bound. repeat split; congruence.
      * simpl in Hi. destruct (Hall i entry Hi) as (b' & ob' & N & R).
        exists b', ob'. split; [| exact R].
        rewrite Bt, length_app in N. simpl in N.
        now replace (List.length (_buttons w) + S i)%nat
          with (List.length (_buttons w) + 1 + i)%nat by lia.
Qed.

(** The rebuild of well-formed entries on a speed dial with a parent
    returns; the button of each entry has the speed dial's own
    [on_press_stack_button] and [on_release_stack_button] bound first and
    the entry's callbacks after them, and [on_enter] and [on_leave] for
    hovering; the handlers of the widgets there were are as before. *)
Theorem rebuild_binds_callbacks (w : World) (d : Data) :
  forallb entry_good d = true -> parent w <> None ->
  List.length (_buttons w) = List.length (_local_positions w) ->
  List.length (_labels w) = List.length (_local_positions w) ->
  exists w',
    on_data_inner d w = Ok tt w'
    /\ (forall i entry, nth_error d i = Some entry ->
          exists b ob,
            nth_error (_buttons w') (List.length (_buttons w) + i) = Some b
            /\ lookup b w' = Some ob /\ callbacks_bound entry ob)
    /\ handlers_stay w w'.
Proof.
  intros Hd Hp Hb Hl.
  assert (H : wp (on_data_inner d)
                (fun _ w' =>
                   (forall i entry, nth_error d i = Some entry ->
                      exists b ob,
                        nth_error (_buttons w') (List.length (_buttons w) + i)
                        = Some b
                        /\ lookup b w' = Some ob /\ callbacks_bound entry ob)
                   /\ handlers_stay w w') no_exn w).
  { unfold on_data_inner, Window_bind. wp_steps.
    eapply wp_mono;
      [apply for_each_entry_binds; assumption | | auto].
    intros _ w' (Hs & _ & Hall). wp_steps. split; [exact Hall | exact Hs]. }
  apply wp_ok in H as ([] & w' & Hrun & Hall & Hs). eauto.
Qed.

Lemma rebuild_binds_callbacks_witness :
  exists w',
    on_data_inner example_data example_attached = Ok tt w'
    /\ exists b ob,
         nth_error (_buttons w') 1 = Some b /\ lookup b w' = Some ob
         /\ on_press_cbs ob
            = [CbDispatch "on_press_stack_button"; CbUser (VCallable 1)]
         /\ on_release_cbs ob = [CbDispatch "on_release_stack_button"].
Proof.
  destruct (rebuild_binds_callbacks example_attached example_data)
    as (w' & Hrun & Hall & _);
    [reflexivity | discriminate | reflexivity | reflexivity |].
  exists w'. split; [exact Hrun |].
  destruct (Hall 1%nat _ eq_refl) as (b & ob & N & L & C1 & C2 & _).
  exists b, ob. repeat split; assumption.
Defined.

(** * The animations of a close sequence *)

Lemma In_combine_fst {A B} (l : list A) : forall (l' : list B) a,
  In a l -> (List.length l <= List.length l')%nat ->
  exists b, In (a, b) (combine l l').
Proof.
  induction l as [| x l IH]; intros [| y l'] a Hin Hlen; simpl in *;
    try contradiction; try lia.
  destruct Hin as [-> | Hin].
  - exists y. now left.
  - destruct (IH l' a Hin) as [b Hb]; [lia |]. exists b. now right.
Qed.

Lemma In_combine_snd {A B} (l : list A) : forall (l' : list B) b,
  In b l' -> (List.length l' <= List.length l)%nat ->
  exists a, In (a, b) (combine l l').
Proof.
  induction l as [| x l IH]; intros [| y l'] b Hin Hlen; simpl in *;
    try contradiction; try lia.
  destruct Hin as [-> | Hin].
  - exists x. now left.
  - destruct (IH l' b Hin) as [a Ha]; [lia |]. exists a. now right.
Qed.

Lemma close_stack_body_animates p bl w0 l :
  parent w0 = Some p ->
  wp (close_stack_body bl)
     (fun _ w' => exists l', w' = set_anims (anims w0 ++ l ++ l') w0
                             /\ closing_started w0 p bl l')
     no_exn (set_anims (anims w0 ++ l) w0).
Proof.
  intros Hp. unfold close_stack_body. wp_step.
  assert (Hlabel : forall l1,
            wp (if_isinstance (snd bl) MDFloatingLabel (fun label =>
                  o <- read (Some label) ;;
                  if negb (Qle_bool (opacity o) 0)
                  then a <- new_animation [("opacity", ANum 0)] (1 # 100)
                              "linear" ;;
                       Animation_start a (TWidget label)
                  else ret tt))
               (fun _ w' =>
                  exists l2, w' = set_anims (anims w0 ++ l ++ l1 ++ l2) w0
                    /\ forall lid ol,
                         snd bl = Some lid ->
                         isinstance (Some lid) MDFloatingLabel w0 = true ->
                         lookup lid w0 = Some ol ->
                         Qle_bool (opacity ol) 0 = false ->
                         In (label_closing lid) l2)
               no_exn (set_anims (anims w0 ++ l ++ l1) w0)).
  { intros l1. apply wp_if_isinstance.
    - intros label Hl Hk. rewrite Hl in Hk. wp_step.
      eapply wp_read_instance; [exact Hk |]. intros o Ho.
      change (lookup label w0 = Some o) in Ho.
      destruct (Qle_bool (opacity o) 0) eqn:Hq; simpl negb; cbv iota.
      + wp_steps. exists []. split; [now rewrite !app_nil_r |].
        intros lid ol E _ Hol Hq'. rewrite Hl in E. injection E as <-.
        congruence.
      + unfold wp. rewrite start_new_animation. simpl.
        exists [label_closing label]. split; [now rewrite <- !app_assoc |].
        intros lid ol E _ _ _. rewrite Hl in E. injection E as <-.
        now left.
    - intros Hk. exists []. split; [now rewrite !app_nil_r |].
      intros lid ol E K _ _. rewrite E in Hk.
      change (isinstance (Some lid) MDFloatingLabel w0 = false) in Hk.
      congruence. }
  apply wp_if_isinstance.
  - intros button Hb Hk. injection Hb as <-. wp_steps. simpl parent.
    rewrite Hp. wp_steps. simpl.
    specialize (Hlabel [button_closing w0 p (fst bl)]).
    rewrite app_assoc in Hlabel.
    eapply wp_mono; [exact Hlabel | | auto].
    intros _ w' (l2 & -> & H2). exists (button_closing w0 p (fst bl) :: l2).
    split; [reflexivity |]. split; [intros _; now left |].
    intros lid ol E K Hol Hq. right. eapply H2; eassumption.
  - intros Hk. change (isinstance (Some (fst bl)) MDFloatingBottomButton w0
                       = false) in Hk.
    specialize (Hlabel []). rewrite app_nil_r in Hlabel.
    eapply wp_mono; [exact Hlabel | | auto].
    intros _ w' (l2 & -> & H2). exists l2. split; [reflexivity |].
    split; [intros K; congruence | exact H2].
Qed.

Lemma closing_started_mono w p bl l1 l2 l3 :
  closing_started w p bl l2 -> closing_started w p bl (l1 ++ l2 ++ l3).
Proof.
  intros [Hb Hl]. split.
  - intros K. apply in_or_app. right. apply in_or_app. left. now apply Hb.
  - intros lid ol E K Hol Hq. apply in_or_app. right. apply in_or_app. left.
    eapply Hl; eassumption.
Qed.

Lemma close_loop_animates p w0 bls :
  parent w0 = Some p ->
  forall l,
    wp (for_each close_stack_body bls)
       (fun _ w' => exists l', w' = set_anims (anims w0 ++ l ++ l') w0
                               /\ forall bl, In bl bls ->
                                    closing_started w0 p bl l')
       no_exn (set_anims (anims w0 ++ l) w0).
Proof.
  intros Hp. induction bls as [| bl bls IH]; intros l; simpl for_each.
  - wp_steps. exists []. split; [now rewrite app_nil_r |]. intros _ [].
  - wp_step.
    eapply wp_mono; [apply close_stack_body_animates; exact Hp | | auto].
    intros _ w1 (l1 & -> & H1). cbv beta.
    eapply wp_mono; [apply (IH (l ++ l1)) | | auto].
    intros _ w2 (l2 & -> & H2). exists (l1 ++ l2).
    split; [now rewrite !app_assoc |].
    intros bl' [<- | Hin].
    + apply (closing_started_mono w0 p bl [] l1 l2). exact H1.
    + specialize (H2 bl' Hin).
      pose proof (closing_started_mono w0 p bl' l1 l2 [] H2) as H.
      now rewrite app_nil_r in H.
Qed.

Lemma close_stack_animates w p :
  _window w = Some Window -> parent w = Some p ->
  exists l,
    close_stack w
    = Ok tt (set_dispatched (dispatched w ++ ["on_close"])
               (set_state close
                  (set_disabled true
                     (set_anims (anims w ++ anim_root_end w :: l) w))))
    /\ forall bl, In bl (combine (_buttons w) (_labels w)) ->
         closing_started w p bl l.
Proof.
  intros Hw Hp.
  assert (H : wp close_stack
                (fun _ w1 =>
                   exists l,
                     w1 = set_dispatched (dispatched w ++ ["on_close"])
                            (set_state close
                               (set_disabled true
                                  (set_anims
                                     (anims w ++ anim_root_end w :: l) w)))
                     /\ forall bl, In bl (combine (_buttons w) (_labels w)) ->
                          closing_started w p bl l)
                no_exn w).
  { unfold close_stack. wp_step. unfold on_window. wp_steps. rewrite Hw.
    wp_steps. eapply wp_update_anim_last; [simpl; reflexivity |]. wp_steps.
    simpl _buttons. simpl _labels.
    eapply wp_mono;
      [apply (close_loop_animates p w (combine (_buttons w) (_labels w)) Hp
                [anim_root_end w])
      | | auto].
    intros _ w' (l & -> & Hl). unfold dispatch. wp_steps. exists l.
    split; [reflexivity | exact Hl]. }
  apply wp_ok in H as ([] & w1 & Hrun & l & -> & Hl). eauto.
Qed.

Lemma complete_button_closing aid w0 p b w :
  nth_error (anims w) aid = Some (button_closing w0 p b) ->
  step (EvComplete aid (TWidget b)) w
  = Ok tt
      (set_anims (update_nth aid (stop_on (TWidget b)) (anims w))
         (set_heap
            (update_nth b (set_opacity 0)
               (update_nth b (set_center_y (p_center_y p)) (heap w)))
            w)).
Proof.
  intros Hn. unfold step, bind, get. rewrite Hn.
  unfold Animation_complete, bind, read_anim. rewrite Hn.
  unfold is_running, button_closing. cbn [a_widgets existsb Target_eqb].
  rewrite Nat.eqb_refl. reflexivity.
Qed.

Lemma complete_label_closing aid l w :
  nth_error (anims w) aid = Some (label_closing l) ->
  step (EvComplete aid (TWidget l)) w
  = Ok tt
      (set_anims (update_nth aid (stop_on (TWidget l)) (anims w))
         (set_heap (update_nth l (set_opacity 0) (heap w)) w)).
Proof.
  intros Hn. unfold step, bind, get. rewrite Hn.
  unfold Animation_complete, bind, read_anim. rewrite Hn.
  unfold is_running, label_closing. cbn [a_widgets existsb Target_eqb].
  rewrite Nat.eqb_refl. reflexivity.
Qed.

(** [close_stack] on an aligned stack with a parent returns, with an
    animation started on every button and on every label of positive
    opacity; when the animation of a button completes the button is at the
    height of the parent's centre with opacity 0, when that of a label
    completes the label has opacity 0, and no other widget changes. *)
Theorem close_animations_reset_stack (w : World) (p : Parent) :
  aligned w -> parent w = Some p -> _window w = Some Window ->
  exists w1,
    close_stack w = Ok tt w1
    /\ (forall b, In b (_buttons w) ->
          exists aid w2 ob,
            nth_error (anims w1) aid = Some (button_closing w p b)
            /\ step (EvComplete aid (TWidget b)) w1 = Ok tt w2
            /\ lookup b w2 = Some ob
            /\ center_y ob == p_center_y p /\ opacity ob = 0
            /\ forall id, id <> b -> lookup id w2 = lookup id w1)
    /\ (forall l ol, In (Some l) (_labels w) -> lookup l w = Some ol ->
          0 < opacity ol ->
          exists aid w2 ol',
            nth_error (anims w1) aid = Some (label_closing l)
            /\ step (EvComplete aid (TWidget l)) w1 = Ok tt w2
            /\ lookup l w2 = Some ol' /\ opacity ol' = 0
            /\ forall id, id <> l -> lookup id w2 = lookup id w1).
Proof.
  intros (L & P & KB & KL) Hp Hw.
  destruct (close_stack_animates w p Hw Hp) as (l & Hrun & Hall).
  eexists. split; [exact Hrun |].
  match type of Hrun with _ = Ok tt ?W => set (w1 := W) in * end.
  assert (Hin : forall a, In a l -> exists aid, nth_error (anims w1) aid
                                                = Some a).
  { intros a Ha. apply In_nth_error. subst w1. simpl. apply in_or_app.
    right. now right. }
  split.
  - intros b Hb.
    destruct (In_combine_fst (_buttons w) (_labels w) b Hb) as [lab Hbl];
      [lia |].
    destruct (Hall _ Hbl) as [Hbt _]. simpl fst in Hbt.
    destruct (Hin _ (Hbt (KB b Hb))) as [aid Haid].
    destruct (isinstance_lookup b _ w (KB b Hb)) as (ob & Hob & _).
    eexists aid, _, (set_opacity 0 (set_center_y (p_center_y p) ob)).
    split; [exact Haid |].
    split; [apply (complete_button_closing aid w p b w1 Haid) |].
    split; [| split; [| split]].
    + unfold lookup in *. simpl.
      rewrite !nth_error_update_nth, Nat.eqb_refl, Hob. reflexivity.
    + change (center_y (set_center_y (p_center_y p) ob) == p_center_y p).
      apply center_y_set_center_y.
    + reflexivity.
    + intros id Hid. unfold lookup. simpl. rewrite !nth_error_update_nth.
      destruct (Nat.eqb_spec b id); [congruence | reflexivity].
  - intros lid ol Hl Hol Hpos.
    destruct (In_combine_snd (_buttons w) (_labels w) (Some lid) Hl)
      as [b Hbl]; [lia |].
    destruct (Hall _ Hbl) as [_ Hlt].
    assert (Hq : Qle_bool (opacity ol) 0 = false).
    { destruct (Qle_bool (opacity ol) 0) eqn:E; [| reflexivity].
      apply Qle_bool_iff in E. exfalso. exact (Qlt_not_le _ _ Hpos E). }
    destruct (Hin _ (Hlt lid ol eq_refl (KL lid Hl) Hol Hq)) as [aid Haid].
    eexists aid, _, (set_opacity 0 ol).
    split; [exact Haid |].
    split; [apply (complete_label_closing aid lid w1 Haid) |].
    split; [| split].
    + unfold lookup in *. simpl.
      rewrite !nth_error_update_nth, Nat.eqb_refl, Hol. reflexivity.
    + reflexivity.
    + intros id Hid. unfold lookup. simpl. rewrite !nth_error_update_nth.
      destruct (Nat.eqb_spec lid id); [congruence | reflexivity].
Qed.

Lemma close_animations_reset_stack_witness :
  exists w1,
    close_stack example_open = Ok tt w1
    /\ exists aid w2 ob,
         step (EvComplete aid (TWidget 0)) w1 = Ok tt w2
         /\ lookup 0 w2 = Some ob /\ center_y ob == 400 /\ opacity ob = 0.
Proof.
  destruct (close_animations_reset_stack example_open
              (set_p_on_release [CbOpenStack] example_parent)
              ltac:(apply aligned_world_after, aligned_world_after,
                      aligned_init)
              ltac:(vm_compute; reflexivity)
              ltac:(vm_compute; reflexivity))
    as (w1 & Hrun & Hb & _).
  exists w1. split; [exact Hrun |].
  destruct (Hb 0%nat) as (aid & w2 & ob & _ & Hstep & Hob & Hc & Ho & _).
  { vm_compute. auto. }
  exists aid, w2, ob. split; [exact Hstep |]. split; [exact Hob |].
  split; [exact Hc | exact Ho].
Defined.

(** * The resize handler *)

Lemma is_bound_unbind_other ev cb ev' cb' l :
  binding_eqb (ev, cb) (ev', cb') = false ->
  is_bound ev cb (unbind_from ev' cb' l) = is_bound ev cb l.
Proof.
  intros H. unfold is_bound, unbind_from.
  induction l as [| a l IH]; simpl; [reflexivity |].
  destruct (binding_eqb (ev', cb') a) eqn:Ea; simpl.
  - apply binding_eqb_eq in Ea. subst a. now rewrite H.
  - now rewrite IH.
Qed.

Lemma keeps_rb_bind ev cb : preserves resize_bound (Window_bind ev cb).
Proof.
  apply keeps_modify. intros w (H1 & H2 & H3). unfold resize_bound,
    window_bound. simpl. repeat split; now apply is_bound_bind_mono.
Qed.

Lemma keeps_rb_unbind ev cb :
  binding_eqb ("on_resize", CbUpdatePosButtons) (ev, cb) = false ->
  binding_eqb ("on_maximize", CbUpdatePosButtons) (ev, cb) = false ->
  binding_eqb ("on_restore", CbUpdatePosButtons) (ev, cb) = false ->
  preserves resize_bound (Window_unbind ev cb).
Proof.
  intros E1 E2 E3. apply keeps_modify. intros w (H1 & H2 & H3).
  unfold resize_bound, window_bound. simpl.
  rewrite !is_bound_unbind_other by assumption. now repeat split.
Qed.

Ltac rb_unfold :=
  unfold preserves, add_widget, add_widgets, add_widgets_body, remove_widget,
    remove_widgets, remove_widgets_body, open_binding, close_binding,
    set_pos_bottom_buttons, set_pos_labels, _update_pos_buttons,
    _update_pos_buttons_body, run_animation_callback, Animation_start,
    Animation_cancel_all, Animation_complete, apply_prop,
    animation_open_stack, on_progress, do_animation_open_stack,
    close_stack, close_stack_body, open_stack, open_stack_body,
    setitem_local_positions, cancel_label_animations, Window_add_widget,
    Window_remove_widget, Window_on_touch,
    update, update_anim, dispatch, touch_down, touch_move, touch_up,
    collide_at, window_touch, on_enter, on_leave, data_getitem, getitem0,
    attach, on_parent, on_data, on_data_inner, on_data_entry, bind_user.

Ltac rb_step :=
  lazymatch goal with
  | |- keeps _ _ (Window_bind _ _) => apply keeps_rb_bind
  | |- keeps _ _ (Window_unbind _ _) => apply keeps_rb_unbind; reflexivity
  | |- keeps _ _ (name_icon _) => apply keeps_name_icon
  | |- keeps _ _ (callback_after _ _) => apply keeps_callback_after
  | |- keeps _ _ (modify _) =>
      apply keeps_modify;
      let w := fresh "w" in let H := fresh "H" in intros w H; exact H
  | |- keeps _ _ (new_widget _) =>
      let w := fresh "w" in let H := fresh "H" in intros w H; exact H
  | |- keeps _ _ (new_animation _ _ _) =>
      let w := fresh "w" in let H := fresh "H" in intros w H; exact H
  | |- keeps _ _ (new_iter _) =>
      let w := fresh "w" in let H := fresh "H" in intros w H; exact H
  | |- _ => pres_step
  end.

Ltac rb := repeat (rb_unfold; rb_step).

Lemma rb_step_event e : preserves resize_bound (step e).
Proof. destruct e; unfold step; rb. Qed.

Lemma reached_snoc c size evs e :
  reached c size (evs ++ [e]) = after_event e (reached c size evs).
Proof. unfold reached. now rewrite fold_left_app. Qed.

Lemma reached_invariant (P : World -> Prop) c size :
  P (init c size) -> (forall e, preserves P (step e)) ->
  forall evs, P (reached c size evs).
Proof.
  intros H0 Hstep evs. induction evs as [| e evs IH] using rev_ind;
    [exact H0 |].
  rewrite reached_snoc. unfold after_event. apply world_after_one.
  eapply wp_mono; [apply (Hstep e _ IH) | auto | auto].
Qed.

(** The handlers bound to the window's [on_resize], [on_maximize] and
    [on_restore] are never unbound: in every world reached from
    [__init__] in which the speed dial has a parent, a resize of the
    window returns with every button and every label of the stack placed
    by the parent and the stored local positions, and changes no widget
    outside the stack. *)
Theorem resize_always_repositions (c : Config) (size : Q * Q)
    (evs : list Event) (p : Parent) :
  parent (reached c size evs) = Some p ->
  resize_bound (reached c size evs)
  /\ exists w',
       step EvResize (reached c size evs) = Ok tt w'
       /\ (forall b, In b (_buttons (reached c size evs)) ->
             button_placed p (reached c size evs) b w')
       /\ (forall l, In (Some l) (_labels (reached c size evs)) ->
             label_placed p (reached c size evs) l w')
       /\ (forall j, ~ stack_widget j (reached c size evs) ->
             lookup j w' = lookup j (reached c size evs)).
Proof.
  intros Hp.
  assert (Hb : resize_bound (reached c size evs)).
  { apply reached_invariant; [now repeat split | apply rb_step_event]. }
  assert (Ha : aligned (reached c size evs)).
  { apply reached_invariant; [apply aligned_init |].
    intros e w H. eapply wp_mono; [apply step_aligned; exact H | auto |].
    intros ex w' H'. split; [exact H' | exact I]. }
  split; [exact Hb |].
  destruct (update_pos_places _ p Ha Hp)
    as (w1 & w' & _ & _ & Hrun & _ & _ & Pb & Pl & Po).
  exists w'. split; [| split; [exact Pb | split; [exact Pl | exact Po]]].
  unfold step, bind, get. destruct Hb as (-> & _). exact Hrun.
Qed.

Lemma resize_always_repositions_witness :
  exists w',
    step EvResize
      (reached example_config (800, 600)
         [EvSetParent (Some example_parent); EvSetData example_data; EvTick;
          EvRelease])
    = Ok tt w'
    /\ button_placed (set_p_on_release [CbOpenStack] example_parent)
         (reached example_config (800, 600)
            [EvSetParent (Some example_parent); EvSetData example_data;
             EvTick; EvRelease]) 0 w'.
Proof.
  destruct (resize_always_repositions example_config (800, 600)
              [EvSetParent (Some example_parent); EvSetData example_data;
               EvTick; EvRelease]
              (set_p_on_release [CbOpenStack] example_parent)
              ltac:(vm_compute; reflexivity))
    as (_ & w' & Hrun & Hb & _).
  exists w'. split; [exact Hrun |]. apply Hb. vm_compute. auto.
Defined.

(** * Reopening while the closing animations run *)

Lemma is_running_stop_other tg tg' a :
  Target_eqb tg' tg = false ->
  is_running tg (stop_on tg' a) = is_running tg a.
Proof.
  intros H. unfold is_running, stop_on. simpl a_widgets.
  induction (a_widgets a) as [| t l IH]; simpl; [reflexivity |].
  destruct (Target_eqb tg' t) eqn:Et; simpl.
  - apply Target_eqb_eq in Et. subst t.
    rewrite (Target_eqb_sym tg tg'), H. exact IH.
  - now rewrite IH.
Qed.

Lemma is_running_restart tg tg' a :
  is_running tg a = true ->
  is_running tg
    (set_a_widgets (a_widgets (stop_on tg' a) ++ [tg']) (stop_on tg' a))
  = true.
Proof.
  intros H. unfold is_running. simpl a_widgets. rewrite existsb_app.
  destruct (Target_eqb tg' tg) eqn:E.
  - simpl. rewrite (Target_eqb_sym tg tg'), E. now rewrite orb_true_r.
  - pose proof (is_running_stop_other tg tg' a E) as R.
    unfold is_running, stop_on in R. simpl a_widgets in R.
    unfold is_running in H. now rewrite R, H.
Qed.

Lemma is_running_more tg tg' a :
  is_running tg a = true ->
  is_running tg (set_a_widgets (a_widgets a ++ [tg']) a) = true.
Proof.
  intros H. unfold is_running in *. simpl a_widgets.
  now rewrite existsb_app, H.
Qed.

Section Animates.

Variables (aid b : nat) (props : list (string * AVal)).

Lemma animates_lt w : animates aid b props w ->
  (aid < List.length (anims w))%nat.
Proof.
  intros (_ & a & Hn & _). apply nth_error_Some. congruence.
Qed.

Lemma keeps_an_update PE id f :
  (forall o, kind (f o) = kind o) ->
  keeps (animates aid b props) PE (update id f).
Proof.
  intros Hf w [K H]. unfold wp, update, modify. split; [| exact H].
  now rewrite isinstance_update.
Qed.

Lemma keeps_an_update_anim_same PE n f :
  (forall a, a_props (f a) = a_props a /\ a_on_start (f a) = a_on_start a
             /\ a_on_complete (f a) = a_on_complete a
             /\ a_widgets (f a) = a_widgets a) ->
  keeps (animates aid b props) PE (update_anim n f).
Proof.
  intros Hf w (K & a & Hn & Hp & Hs & Hc & Hr).
  unfold wp, update_anim, modify. split; [exact K |]. simpl anims.
  rewrite nth_error_update_nth, Hn.
  destruct (Nat.eqb n aid); simpl; [| now exists a].
  destruct (Hf a) as (F1 & F2 & F3 & F4). exists (f a).
  repeat split; try congruence. unfold is_running in *. now rewrite F4.
Qed.

Lemma keeps_an_update_anim_other PE n f :
  n <> aid -> keeps (animates aid b props) PE (update_anim n f).
Proof.
  intros Hne w (K & a & Hn & H). unfold wp, update_anim, modify.
  split; [exact K |]. simpl anims. rewrite nth_error_update_nth, Hn.
  destruct (Nat.eqb_spec n aid); [contradiction | now exists a].
Qed.

Lemma animates_new w a :
  animates aid b props w -> animates aid b props (set_anims (anims w ++ [a]) w).
Proof.
  intros H. pose proof (animates_lt w H) as Hlt.
  destruct H as (K & a0 & Hn & H). split; [exact K |]. exists a0.
  split; [| exact H]. simpl anims. now rewrite nth_error_app1.
Qed.

Lemma keeps_an_fresh {B} PE p d t (k : nat -> M B) :
  (forall n, n <> aid -> keeps (animates aid b props) PE (k n)) ->
  keeps (animates aid b props) PE (bind (new_animation p d t) k).
Proof.
  intros Hk w H. apply wp_bind. unfold wp at 1, new_animation.
  apply Hk; [| now apply animates_new].
  pose proof (animates_lt w H). lia.
Qed.

Lemma keeps_an_cancel :
  preserves (animates aid b props) cancel_label_animations.
Proof.
  unfold preserves, cancel_label_animations.
  apply keeps_bind; [apply keeps_get | intros labels].
  apply keeps_for_each. intros label w H.
  apply wp_if_isinstance; [| intros _; exact H].
  intros lid -> Hk. destruct H as (K & a & Hn & Hp & Hs & Hc & Hr).
  unfold wp, Animation_cancel_all, modify. split; [exact K |].
  exists (stop_on (TWidget lid) a). simpl anims.
  split; [now apply map_nth_error |]. repeat split; try assumption.
  rewrite is_running_stop_other; [exact Hr |]. simpl.
  apply Nat.eqb_neq. intros E. exact (kinds_differ b lid w K Hk (eq_sym E)).
Qed.

Ltac an_unfold :=
  unfold preserves, add_widget, add_widgets, add_widgets_body, remove_widget,
    remove_widgets, remove_widgets_body, open_binding, close_binding,
    run_animation_callback, animation_open_stack, do_animation_open_stack,
    close_stack, close_stack_body, open_stack, open_stack_body,
    setitem_local_positions, Window_add_widget, Window_remove_widget,
    Window_bind, Window_unbind, dispatch.

Ltac an_step start_rule :=
  lazymatch goal with
  | |- keeps _ _ (bind (new_animation _ _ _) _) =>
      apply keeps_an_fresh; intros ? ?; cbv beta
  | |- keeps _ _ (update_anim _ _) =>
      first [ apply keeps_an_update_anim_other; assumption
            | apply keeps_an_update_anim_same; intros ?; repeat split ]
  | |- keeps _ _ (Animation_start _ _) => start_rule
  | |- keeps _ _ (update _ _) => apply keeps_an_update; intros ?; reflexivity
  | |- keeps _ _ cancel_label_animations => apply keeps_an_cancel
  | |- keeps _ _ (modify _) =>
      apply keeps_modify;
      let w := fresh "w" in let H := fresh "H" in intros w H; exact H
  | |- keeps _ _ (new_iter _) =>
      let w := fresh "w" in let H := fresh "H" in intros w H; exact H
  | |- _ => pres_step
  end.

Lemma keeps_an_callbacks l :
  preserves (animates aid b props) (for_each run_animation_callback l).
Proof. repeat (an_unfold; an_step fail). Qed.

Lemma keeps_an_Animation_start n tg :
  preserves (animates aid b props) (Animation_start n tg).
Proof.
  unfold preserves. destruct (Nat.eq_dec n aid) as [-> | Hne].
  - intros w (K & a & Hn & Hp & Hs & Hc & Hr).
    unfold wp, Animation_start, bind, read_anim. rewrite Hn, Hc, Hs.
    destruct (is_running tg a) eqn:Rt; simpl for_each;
      unfold update_anim, modify, ret; simpl anims.
    + split; [exact K |]. simpl anims.
      rewrite !nth_error_update_nth, Nat.eqb_refl, Hn. simpl.
      eexists. split; [reflexivity |]. repeat split; try assumption.
      now apply is_running_restart.
    + split; [exact K |]. simpl anims.
      rewrite !nth_error_update_nth, Nat.eqb_refl, Hn. simpl.
      eexists. split; [reflexivity |]. repeat split; try assumption.
      now apply is_running_more.
  - unfold Animation_start.
    apply keeps_bind; [apply keeps_read_anim; exact I | intros a].
    apply keeps_bind.
    + destruct (is_running tg a); [| apply keeps_ret].
      apply keeps_bind;
        [now apply keeps_an_update_anim_other
        | intros _; apply keeps_an_callbacks].
    + intros _.
      apply keeps_bind;
        [now apply keeps_an_update_anim_other
        | intros _; apply keeps_an_callbacks].
Qed.

Lemma keeps_an_open_stack : preserves (animates aid b props) open_stack.
Proof.
  repeat (an_unfold; an_step ltac:(apply keeps_an_Animation_start)).
Qed.

End Animates.

Lemma complete_animates aid b q w :
  animates aid b [("center_y", ANum q); ("opacity", ANum 0)] w ->
  exists w2 ob,
    step (EvComplete aid (TWidget b)) w = Ok tt w2
    /\ state w2 = state w /\ lookup b w2 = Some ob
    /\ center_y ob == q /\ opacity ob = 0.
Proof.
  intros (K & a & Hn & Hp & Hs & Hc & Hr).
  destruct (isinstance_lookup b _ w K) as (ob & Hob & _).
  exists (set_anims (update_nth aid (stop_on (TWidget b)) (anims w))
            (set_heap
               (update_nth b (set_opacity 0)
                  (update_nth b (set_center_y q) (heap w)))
               w)),
    (set_opacity 0 (set_center_y q ob)).
  split; [| split; [reflexivity | split; [| split]]].
  - unfold step, bind, get. rewrite Hn.
    unfold Animation_complete, bind, read_anim. rewrite Hn, Hr, Hp, Hc.
    reflexivity.
  - unfold lookup in *. simpl.
    rewrite !nth_error_update_nth, Nat.eqb_refl, Hob. reflexivity.
  - change (center_y (set_center_y q ob) == q). apply center_y_set_center_y.
  - reflexivity.
Qed.

(** [open_stack] does not cancel the animations of the buttons: a closing
    animation that is still running on a button when the stack is opened
    again is running afterwards, and when it completes it puts the button
    of the open stack at the height it animates to, with opacity 0. *)
Theorem reopening_keeps_closing_animation (w : World) (aid b : nat)
    (q : Q) :
  stack_ok w -> state w <> open -> get_root_window w = Some Window ->
  animates aid b [("center_y", ANum q); ("opacity", ANum 0)] w ->
  exists w' w2 ob,
    open_stack w = Ok tt w' /\ state w' = open
    /\ animates aid b [("center_y", ANum q); ("opacity", ANum 0)] w'
    /\ step (EvComplete aid (TWidget b)) w' = Ok tt w2
    /\ state w2 = open /\ lookup b w2 = Some ob
    /\ center_y ob == q /\ opacity ob = 0.
Proof.
  intros Hok Hs Hr Ha.
  destruct (open_stack_returns w Hok Hs Hr) as [w' Hrun].
  destruct (open_stack_post w w' Hs Hrun) as (Hs' & _).
  pose proof (keeps_an_open_stack aid b _ w Ha) as Ha'.
  unfold wp in Ha'. rewrite Hrun in Ha'.
  destruct (complete_animates aid b q w' Ha')
    as (w2 & ob & Hstep & Hs2 & Hob & Hc & Ho).
  exists w', w2, ob.
  split; [exact Hrun |]. split; [exact Hs' |]. split; [exact Ha' |].
  split; [exact Hstep |]. split; [congruence |].
  split; [exact Hob |]. split; [exact Hc | exact Ho].
Qed.

Lemma reopening_keeps_closing_animation_witness :
  exists w' w2 ob,
    open_stack example_closing = Ok tt w'
    /\ step (EvComplete 7 (TWidget 0)) w' = Ok tt w2
    /\ state w2 = open /\ lookup 0 w2 = Some ob /\ center_y ob == 400.
Proof.
  assert (Hok : stack_ok example_closing)
    by (apply stack_okb_ok; vm_compute; reflexivity).
  assert (Hs : state example_closing <> open)
    by (vm_compute; discriminate).
  assert (Hr : get_root_window example_closing = Some Window)
    by (vm_compute; reflexivity).
  assert (Ha : animates 7 0 [("center_y", ANum 400); ("opacity", ANum 0)]
                 example_closing).
  { split; [vm_compute; reflexivity |].
    assert (E : exists a, nth_error (anims example_closing) 7 = Some a
                  /\ (a_props a = [("center_y", ANum 400); ("opacity", ANum 0)]
                      /\ a_on_start a = [] /\ a_on_complete a = []
                      /\ is_running (TWidget 0) a = true)).
    { destruct (nth_error (anims example_closing) 7) as [a |] eqn:E;
        [exists a; split; [reflexivity |] | exfalso; revert E; vm_compute;
               discriminate].
      revert E. vm_compute. intros [= <-]. repeat split. }
    exact E. }
  destruct (reopening_keeps_closing_animation example_closing 7 0 400
              Hok Hs Hr Ha)
    as (w' & w2 & ob & H1 & _ & _ & H2 & H3 & H4 & H5 & _).
  exists w', w2, ob. repeat split; assumption.
Defined.

